(* ===== verification/_CoqProject ===== *)
-Q . S2P
Prelude.v
Text.v
Stream.v
Fs.v
Crypto.v
Hash.v
Proto.v
Transfer.v
Pipe.v
Net.v
State.v
Demo.v
Calls.v
Shared.v
Controller.v
Admission.v
Agent.v
Commands.v
Link.v
Ble.v
Ssh.v
Recipe.v
Radio.v
FirstHop.v
Cli.v
Tests.v
