(* ===== verification/Prelude.v ===== *)
(** * egdod, a verification library

    egdod lets an operator reach machines that cannot be reached: an agent on
    the target dials out to the controller's public key over QUIC (iroh); the
    controller, on whatever machine the operator has, admits the keys the
    operator approved and gives short-lived commands three primitives on them
    (run a command, copy a file, forward a port).  This library models the Rust
    program under src/src and proves what makes it correct.

    ** The program and the files

    - src/src/proto.rs, the wire format and the file transfer: Proto.v (messages,
      length-prefixed framing, reading a command's output) and Transfer.v
      (hashing, sending and receiving a file through a staging file).
    - src/src/pipe.rs, splicing two duplex streams: Pipe.v.
    - src/src/net.rs, relay choice, endpoint configuration, path labels, the
      reachability probe: Net.v.
    - src/src/state.rs, the controller's state directory: State.v (the approved
      and pending lists, the published status, the identity key), each operation
      at one go; Calls.v the same operations as programs of system calls, and
      Shared.v several of them at once, in [serve] and in command processes,
      over a file system of names and inodes.
    - src/src/controller.rs: Controller.v is [serve] (admission, sessions,
      status publication, canary, restart, the probe responder, routing),
      Commands.v the command processes that talk to it over the control socket;
      the forwarder's accept loop is in Recipe.v, its other user.  Admission.v
      puts [serve] into the shared state directory.
    - src/src/agent.rs, the agent: Agent.v.
    - src/src/ble.rs, Wi-Fi credentials over Bluetooth for a machine without a
      network: Ble.v (messages, keys, framing, both ends of the exchange, the
      service loop, what is announced and served) and Radio.v (the adapter, the
      scan for the target, service discovery, the entry points [serve] and
      [provision] and what they undo); FirstHop.v joins the two machines.
    - src/src/link.rs, the radio link derived from the controller's key: Link.v.
    - src/src/ssh.rs, the ssh recipe: Ssh.v (dates, the installed key line and
      its merge, host key and known_hosts texts) and Recipe.v (the sequence of
      commands that ends in an ssh client).
    - src/src/main.rs, arguments and dispatch: Cli.v.
    - What the sources use of the language and its runtime: this file (results,
      the error-and-state monad, bytes and machine integers, Hoare triples),
      Text.v (strings), Stream.v (AsyncRead and AsyncWrite), Fs.v (paths, files,
      entropy, clock).
    - Crates outside the repository, as classes of their entry points with
      classes of documented laws and demonstration instances: Crypto.v (sha2,
      iroh's keys, x25519-dalek, chacha20poly1305), Proto.v (postcard),
      State.v (serde_json), Net.v (iroh's endpoint), Agent.v (processes, TCP).
      Demo.v collects instances the witnesses use; Hash.v is SHA-256 itself.
    - The unit tests in the [tests] modules of the sources: Tests.v, where each
      is translated like the code it tests and passes.

    ** How code is written here

    A fallible operation on a state is a value of [M]; [?] is the monad's bind,
    [let _ =] is [ignore], a scrutinised result is [attempt].  An error is its
    [io::ErrorKind], if it has one, and its chain of messages, so that what the
    program matches on and what it prints are both there.  Integers are [Z]
    with the wrap-around of their width written out where a value can reach it.
    A Rust string is its UTF-8 bytes; a path is its list of components.

    The environment is data that the theorems quantify over: a [reader] is the
    chunks and errors the transport will deliver, a [writer] may break after any
    number of bytes, a [World] carries the files and the faults in store for the
    system calls to come (a failing write may have written a part).  A task that
    awaits is a state of a transition system: Controller.v's [step] interleaves
    the accept handlers, watchers, publications, canary and [serve] itself at
    their awaits with dials, closing connections, other processes and restarts,
    and its invariants are proved by rule induction over all runs; there, what
    runs between two awaits is one step.  Shared.v's [step] takes the other view:
    threads of any number of processes interleave at every system call, each call
    may fail or do a part, and a process may start or die at any moment; its
    invariant is a contract per shared file in the style of rely and guarantee.  A timer is
    the number of awaits it lets pass (Ble.v) or a list of clock readings
    (Agent.v, Link.v, Radio.v); a signal that ends a [select!] is the await at
    which it arrives.  The Bluetooth daemon and the local programs are scripted
    by the answers they give.

    ** What the theorems show

    - Transfers (Transfer.v, Commands.v): a received file is exactly the sent
      one or the destination is untouched, whatever fails; an acknowledged push
      and a completed pull are true statements about the other machine; a copy
      without faults succeeds.
    - Commands run remotely (Proto.v, Agent.v, Cli.v): from the operator's
      process through [serve] to the agent and back, output and exit code arrive
      whole and in order for every interleaving of the pumps, within the
      ceiling, or the operator is told that they were cut; collecting the output
      ends within a bounded time.  A forwarded connection is a
      transparent pipe (Pipe.v, Commands.v).
    - Admission (Controller.v, State.v): only approved keys get sessions in any
      reachable state; sessions end only for a cause and do not linger;
      approvals, contacts and keys are stored atomically, privately and stably;
      the pending list stays well typed under any faults; a selector picks one
      machine or none.
    - Processes at once (Calls.v, Shared.v): under every interleaving no key
      becomes approved that nobody approved; pending list and status stay whole
      and readable as long as each process writes them from one thread; and a
      process alone does, call by call, what State.v says, so that an approval
      lands exactly, in whatever pieces it is read and written.  Hence sessions belong
      only to keys an operator asked for (Admission.v).
    - Reachability (Net.v, Controller.v, Agent.v): labels never overstate
      directness and follow path changes, the probe and its canary are truthful,
      the agent's redialling never stops.
    - The long-lived roles (Cli.v): [egdod agent] starts handlers for exactly the
      streams of connections it dialled at its controller and was approved on;
      [egdod controller serve] leaves the directory of a live controller alone,
      and otherwise starts the system whose reachable states Controller.v is about.
    - Provisioning (Ble.v, Radio.v, Cli.v): credentials are accepted only from
      the controller, sent only to the agent over the whole scan, and arrive as
      the operator's file has them; the configuration cannot be injected into;
      signed messages are unambiguous; both machines' radios are left as they
      were found on every way out, and the search for an adapter ends; the agent
      announces what the controller looks for, and when they meet both report
      success with the configuration in place (FirstHop.v).
    - The ssh recipe (Ssh.v, Recipe.v): the installed key leaves the rest of the
      file alone, every ssh client is pinned to the host key of the approved
      target, and sshd is trusted only once it answered through the forward.
    - Framing, splicing, derived link, calendar, key merge: round trips, bounds
      and equivalences with reference definitions.
    - Six theorems state defects of the code, as the code behaves: a cut length
      prefix read as a clean end (Proto.v), a leftover side file that blocks key
      creation and an approval list that can be lost (State.v), a published
      session list that can be stale (Controller.v), two contacts in one [serve]
      that tear the pending list and two approvals of which one is lost
      (Shared.v).

    ** Fuel

    Loops over a stream take the number of bytes left plus one, since every
    non-empty read consumes one; loops over events take the number of events
    plus one; both are proved sufficient.  White-space scanning takes the length
    of the text.  Loops the program repeats for ever (redialling, the wait for
    a carrier) are functions of the list of outcomes to come, and the agent's wait
    for its key of the number of looks it has taken; no theorem needs a bound on
    either.

    ** What is not modelled

    Log lines and progress messages (but for the warning that a command's output
    was cut short); expiry dates beyond [SystemTime], where the program panics; what a symbolic link points to, mount points and
    permissions of other users; the inner workings of the crates above and of
    [clap]; the effects of the programs the agent or the operator runs; the
    crate root, which only declares modules; the vendored UDP library, boot
    scripts and the end-to-end tests.  The handlers an agent has started
    do not show in its run: each is [handle] on its stream, and what handlers do
    to the machine is in the theorems on commands and transfers.  That [serve] returns when its
    control socket fails to accept is [accept_local]'s result and no step of the
    system.  Connections that a forward accepts
    are served one after the other, since they share nothing.  What a terminal
    received from a remote command that then failed is dropped from the result.
    Non-ASCII text in Debug output and in lower-casing is kept as it is, which
    cannot matter where it is used. *)

From Stdlib Require Export ZArith Lia.
From Stdlib Require Export Strings.Byte.
From stdpp Require Export base tactics numbers list sorting gmap strings pretty.

#[global] Open Scope string_scope.
#[global] Open Scope list_scope.
#[global] Open Scope Z_scope.

(** ** Errors and results *)

(** The [std::io::ErrorKind]s the program distinguishes or produces. *)
Inductive ErrorKind :=
  | NotFound
  | AlreadyExists
  | UnexpectedEof
  | PermissionDenied
  | InvalidData
  | IsADirectory
  | NotADirectory
  | BrokenPipe
  | StorageFull
  | TimedOut
  | OtherKind.

#[export] Instance ErrorKind_eq_dec : EqDecision ErrorKind.
Proof. solve_decision. Defined.

(** An [anyhow::Error]: the kind of the [io::Error] found by downcasting, if
    any, and the chain of messages, outermost context first. *)
Record error := mkError {
  e_io : option ErrorKind;
  e_chain : list string
}.

#[export] Instance error_eq_dec : EqDecision error.
Proof. solve_decision. Defined.

Inductive result (A : Type) : Type :=
  | Ok (a : A)
  | Err (e : error).
Arguments Ok {A} a.
Arguments Err {A} e.

#[export] Instance result_eq_dec `{EqDecision A} : EqDecision (result A).
Proof. solve_decision. Defined.

Definition is_ok {A} (r : result A) : bool :=
  match r with Ok _ => true | Err _ => false end.
Definition is_err {A} (r : result A) : bool := negb (is_ok r).

(** [anyhow!], [bail!] *)
Definition anyhow (msg : string) : error := mkError None [msg].
Definition io_error (k : ErrorKind) (text : string) : error := mkError (Some k) [text].

(** [.context(msg)] on an error and on a result. *)
Definition add_context (msg : string) (e : error) : error :=
  mkError (e_io e) (msg :: e_chain e).
Definition context {A} (msg : string) (r : result A) : result A :=
  match r with Ok a => Ok a | Err e => Err (add_context msg e) end.

(** [format!("{e:#}")] and [format!("{e}")]. *)
Definition show_alt (e : error) : string := String.concat ": " (e_chain e).
Definition show_error (e : error) : string := hd "" (e_chain e).

(** ** The state-and-error monad *)

(** Rust code that mutates a state [S] and returns a [Result<A>]. *)
Definition M (S A : Type) : Type := S → result A * S.

#[export] Instance M_ret S : MRet (M S) := λ A a s, (Ok a, s).
#[export] Instance M_bind S : MBind (M S) := λ A B k m s,
  match m s with
  | (Ok a, s') => k a s'
  | (Err e, s') => (Err e, s')
  end.

Definition fail {S A} (e : error) : M S A := λ s, (Err e, s).
Definition lift {S A} (r : result A) : M S A := λ s, (r, s).
Definition ensure {S} (b : bool) (msg : string) : M S unit :=
  λ s, if b then (Ok tt, s) else (Err (anyhow msg), s).
(** [m.await.context(msg)] *)
Definition with_context {S A} (msg : string) (m : M S A) : M S A :=
  λ s, let '(r, s') := m s in (context msg r, s').
(** Run to a value, the error kept as data: what [match m.await { .. }] scrutinises. *)
Definition attempt {S A} (m : M S A) : M S (result A) :=
  λ s, let '(r, s') := m s in (Ok r, s').
(** [let _ = m.await;] *)
Definition ignore {S A} (m : M S A) : M S unit := λ s, (Ok tt, (m s).2).
Definition gets {S A} (f : S → A) : M S A := λ s, (Ok (f s), s).

(** Running an operation on a part of the state. *)
Definition on_fst {S T A} (m : M S A) : M (S * T) A :=
  λ st, let '(r, s') := m st.1 in (r, (s', st.2)).
Definition on_snd {S T A} (m : M T A) : M (S * T) A :=
  λ st, let '(r, t') := m st.2 in (r, (st.1, t')).

(** ** Bytes and machine integers *)

Abbreviation bytes := (list byte).

#[export] Instance byte_eq_decision : EqDecision byte := Byte.byte_eq_dec.

(** [u8 as u64] and [n as u8]. *)
Definition byte_to_Z (b : byte) : Z := Z.of_N (Byte.to_N b).
Definition byte_of_Z (z : Z) : byte :=
  match Byte.of_N (Z.to_N (z mod 256)) with Some b => b | None => x00 end.

Lemma byte_to_Z_range b : 0 ≤ byte_to_Z b < 256.
Proof. unfold byte_to_Z. pose proof (Byte.to_N_bounded b). lia. Qed.

Lemma byte_to_of_Z z : byte_to_Z (byte_of_Z z) = z mod 256.
Proof.
  unfold byte_to_Z, byte_of_Z.
  assert (Hr : 0 ≤ z mod 256 < 256) by (apply Z.mod_pos_bound; lia).
  destruct (Byte.of_N _) as [b|] eqn:Hb.
  - apply Byte.to_of_N in Hb. lia.
  - apply Byte.of_N_None_iff in Hb. lia.
Qed.

Lemma byte_of_to_Z b : byte_of_Z (byte_to_Z b) = b.
Proof.
  unfold byte_of_Z. rewrite Z.mod_small by apply byte_to_Z_range.
  unfold byte_to_Z. by rewrite N2Z.id, Byte.of_to_N.
Qed.

Lemma byte_to_Z_inj b1 b2 : byte_to_Z b1 = byte_to_Z b2 → b1 = b2.
Proof. intros H. by rewrite <- (byte_of_to_Z b1), H, byte_of_to_Z. Qed.

(** [uN::to_le_bytes] and [uN::from_le_bytes], for [n] bytes. *)
Fixpoint le_bytes (n : nat) (z : Z) : bytes :=
  match n with
  | O => []
  | S n' => byte_of_Z z :: le_bytes n' (z / 256)
  end.
Fixpoint le_value (bs : bytes) : Z :=
  match bs with
  | [] => 0
  | b :: bs' => byte_to_Z b + 256 * le_value bs'
  end.
(** [to_be_bytes], [from_be_bytes]. *)
Definition be_bytes (n : nat) (z : Z) : bytes := reverse (le_bytes n z).
Definition be_value (bs : bytes) : Z := le_value (reverse bs).

Lemma length_le_bytes n z : length (le_bytes n z) = n.
Proof. revert z. induction n; simpl; auto. Qed.
Lemma length_be_bytes n z : length (be_bytes n z) = n.
Proof. unfold be_bytes. by rewrite length_reverse, length_le_bytes. Qed.

Lemma le_value_bytes n z : 0 ≤ z < 256 ^ Z.of_nat n → le_value (le_bytes n z) = z.
Proof.
  revert z. induction n as [|n IH]; intros z Hz; simpl in *; [lia|].
  rewrite byte_to_of_Z, IH.
  - pose proof (Z.div_mod z 256). lia.
  - rewrite Nat2Z.inj_succ, Z.pow_succ_r in Hz by lia.
    split; [apply Z.div_pos; lia | apply Z.div_lt_upper_bound; lia].
Qed.
Lemma be_value_bytes n z : 0 ≤ z < 256 ^ Z.of_nat n → be_value (be_bytes n z) = z.
Proof. intros. unfold be_value, be_bytes. rewrite reverse_involutive. by apply le_value_bytes. Qed.

Lemma le_value_range bs : 0 ≤ le_value bs < 256 ^ Z.of_nat (length bs).
Proof.
  induction bs as [|b bs IH]; simpl; [lia|].
  pose proof (byte_to_Z_range b).
  rewrite Nat2Z.inj_succ, Z.pow_succ_r by lia. lia.
Qed.

Lemma le_bytes_value bs : le_bytes (length bs) (le_value bs) = bs.
Proof.
  induction bs as [|b bs IH]; simpl; [done|]. pose proof (byte_to_Z_range b). f_equal.
  - apply byte_to_Z_inj. rewrite byte_to_of_Z, Z.mul_comm, Z.mod_add by lia.
    by apply Z.mod_small.
  - rewrite Z.add_comm, Z.mul_comm, Z.div_add_l, (Z.div_small (byte_to_Z b)), Z.add_0_r by lia. done.
Qed.
Lemma le_value_inj a b : length a = length b → le_value a = le_value b → a = b.
Proof. intros Hl Hv. by rewrite <- (le_bytes_value a), Hl, Hv, le_bytes_value. Qed.
Lemma be_value_inj a b : length a = length b → be_value a = be_value b → a = b.
Proof.
  unfold be_value. intros Hl Hv. apply le_value_inj in Hv; [by apply (inj reverse)|].
  by rewrite !length_reverse.
Qed.
Lemma le_value_app a b : le_value (a ++ b) = le_value a + 256 ^ Z.of_nat (length a) * le_value b.
Proof.
  induction a as [|x a IH]; simpl; [lia|].
  rewrite IH, Nat2Z.inj_succ, Z.pow_succ_r by lia. lia.
Qed.
Lemma be_value_cons x b : be_value (x :: b) = byte_to_Z x * 256 ^ Z.of_nat (length b) + be_value b.
Proof.
  unfold be_value. rewrite reverse_cons, le_value_app, length_reverse. simpl. lia.
Qed.
Lemma be_value_range b : 0 ≤ be_value b < 256 ^ Z.of_nat (length b).
Proof. unfold be_value. rewrite <- (length_reverse b). apply le_value_range. Qed.

#[global] Arguments le_bytes : simpl never.
#[global] Arguments le_value : simpl never.

(** Upper bounds of the unsigned types, and the saturating product of [u64]. *)
Definition u16_max : Z := 65535.
Definition u32_max : Z := 4294967295.
Definition u64_max : Z := 18446744073709551615.
Definition u64_add (a b : Z) : Z := (a + b) mod (u64_max + 1).
Definition u32_add (a b : Z) : Z := (a + b) mod (u32_max + 1).
Definition saturating_mul_u64 (a b : Z) : Z := (a * b) `min` u64_max.

(** Number of elements as a machine integer. *)
Definition zlen {A} (l : list A) : Z := Z.of_nat (length l).

Lemma zlen_nonneg {A} (l : list A) : 0 ≤ zlen l.
Proof. unfold zlen. lia. Qed.
Lemma zlen_app {A} (l k : list A) : zlen (l ++ k) = zlen l + zlen k.
Proof. unfold zlen. rewrite length_app. lia. Qed.
Lemma zlen_nil {A} : zlen (@nil A) = 0.
Proof. done. Qed.
Lemma zlen_cons {A} (x : A) l : zlen (x :: l) = 1 + zlen l.
Proof. unfold zlen. simpl. lia. Qed.

(** [Vec::retain] that keeps the length keeps everything. *)
Lemma filter_same_length {A} (P : A → Prop) `{∀ x, Decision (P x)} l :
  length (filter P l) = length l → filter P l = l.
Proof.
  induction l as [|x l IH]; [done|]. rewrite filter_cons. pose proof (length_filter P l).
  case_decide; simpl; intros; [f_equal; apply IH|]; lia.
Qed.

Lemma filter_all {A} (P : A → Prop) `{∀ x, Decision (P x)} l : Forall P l → filter P l = l.
Proof. induction 1 as [|x l Hx _ IH]; [done|]. by rewrite filter_cons_True, IH. Qed.
Lemma filter_none {A} (P : A → Prop) `{∀ x, Decision (P x)} l : Forall (λ x, ¬ P x) l → filter P l = [].
Proof. induction 1 as [|x l Hx _ IH]; [done|]. by rewrite filter_cons_False. Qed.
Lemma filter_Forall {A} (P Q : A → Prop) `{∀ x, Decision (P x)} l : Forall Q l → Forall Q (filter P l).
Proof. rewrite !Forall_forall. intros HQ x Hx. apply list_elem_of_filter in Hx as [_ Hx]. auto. Qed.

(** [str::as_bytes] / [String::from_utf8] on text that is known to be UTF-8:
    a Rust string is the Rocq string of its UTF-8 bytes. *)
Definition as_bytes (s : string) : bytes := String.list_byte_of_string s.
Definition of_bytes (b : bytes) : string := String.string_of_list_byte b.

Lemma of_as_bytes s : of_bytes (as_bytes s) = s.
Proof. apply String.string_of_list_byte_of_string. Qed.
Lemma as_of_bytes b : as_bytes (of_bytes b) = b.
Proof. apply String.list_byte_of_string_of_list_byte. Qed.

Lemma as_bytes_app a b : as_bytes (a +:+ b) = as_bytes a ++ as_bytes b.
Proof.
  induction a as [|c a IH]; [done|]. change (as_bytes (String c (a +:+ b)) = as_bytes (String c a) ++ as_bytes b).
  unfold as_bytes, String.list_byte_of_string in *. simpl. by rewrite IH.
Qed.
Lemma of_bytes_inj a b : of_bytes a = of_bytes b → a = b.
Proof. intros E. apply (f_equal as_bytes) in E. by rewrite !as_of_bytes in E. Qed.
Lemma as_bytes_inj a b : as_bytes a = as_bytes b → a = b.
Proof. intros E. apply (f_equal of_bytes) in E. by rewrite !of_as_bytes in E. Qed.

Lemma string_app_nil_r s : s +:+ "" = s.
Proof. induction s as [|c s IH]; [done|]. exact (f_equal (String c) IH). Qed.
Lemma string_app_longer s t : s +:+ t = s → t = "".
Proof. intros E. apply (inj (String.append s)). by rewrite string_app_nil_r. Qed.

(** ** Hoare triples for [M] *)

Definition triple {S A} (P : S → Prop) (m : M S A) (Q : result A → S → Prop) : Prop :=
  ∀ s, P s → Q (m s).1 (m s).2.

Section triples.
Context {S : Type}.
Implicit Types P : S → Prop.

Lemma triple_ret {A} P (a : A) Q : (∀ s, P s → Q (Ok a) s) → triple P (mret a) Q.
Proof. intros H s Hs. by apply H. Qed.

Lemma triple_fail {A} P e (Q : result A → S → Prop) :
  (∀ s, P s → Q (Err e) s) → triple P (fail e) Q.
Proof. intros H s Hs. by apply H. Qed.

(** The [?] operator: an error leaves the rest unexecuted. *)
Lemma triple_bind {A B} P (m : M S A) (k : A → M S B) R Q :
  triple P m R →
  (∀ e s, R (Err e) s → Q (Err e) s) →
  (∀ a, triple (R (Ok a)) (k a) Q) →
  triple P (m ≫= k) Q.
Proof.
  intros Hm He Hk s Hs. specialize (Hm s Hs).
  unfold mbind, M_bind. destruct (m s) as [[a|e] s']; simpl in *.
  - by apply (Hk a).
  - by apply He.
Qed.

Lemma triple_conseq {A} P P' (m : M S A) Q Q' :
  triple P' m Q' → (∀ s, P s → P' s) → (∀ r s, Q' r s → Q r s) → triple P m Q.
Proof. intros H HP HQ s Hs. apply HQ, H, HP, Hs. Qed.

Lemma triple_conj {A} P (m : M S A) Q1 Q2 :
  triple P m Q1 → triple P m Q2 → triple P m (λ r s, Q1 r s ∧ Q2 r s).
Proof. intros H1 H2 s Hs. split; [by apply H1 | by apply H2]. Qed.

Lemma triple_ensure P b msg Q :
  (b = true → ∀ s, P s → Q (Ok tt) s) →
  (b = false → ∀ s, P s → Q (Err (anyhow msg)) s) →
  triple P (ensure b msg) Q.
Proof. intros Ht Hf s Hs. unfold ensure. destruct b; simpl; auto. Qed.

Lemma triple_with_context {A} P msg (m : M S A) Q :
  triple P m (λ r s, Q (context msg r) s) → triple P (with_context msg m) Q.
Proof. intros H s Hs. unfold with_context. specialize (H s Hs). by destruct (m s). Qed.

Lemma triple_attempt {A} P (m : M S A) Q :
  triple P m (λ r s, Q (Ok r) s) → triple P (attempt m) Q.
Proof. intros H s Hs. unfold attempt. specialize (H s Hs). by destruct (m s). Qed.

Lemma triple_ignore {A} P (m : M S A) Q :
  triple P m (λ _ s, Q (Ok tt) s) → triple P (ignore m) Q.
Proof. intros H s Hs. by apply H. Qed.

Lemma triple_gets {A} P (f : S → A) Q :
  (∀ s, P s → Q (Ok (f s)) s) → triple P (gets f) Q.
Proof. intros H s Hs. by apply H. Qed.

Lemma triple_exists {A X} (P : X → S → Prop) (m : M S A) Q :
  (∀ x, triple (P x) m Q) → triple (λ s, ∃ x, P x s) m Q.
Proof. intros H s [x Hx]. by apply (H x). Qed.

Lemma triple_pure {A} (φ : Prop) P (m : M S A) Q :
  (φ → triple P m Q) → triple (λ s, φ ∧ P s) m Q.
Proof. intros H s [Hφ Hs]. by apply H. Qed.
End triples.

(** A sequence ended at its first failure, or went through. *)
Lemma bind_inv {S A B} (m : M S A) (k : A → M S B) s r s' :
  (m ≫= k) s = (r, s') →
  (∃ e, m s = (Err e, s') ∧ r = Err e) ∨ ∃ a s1, m s = (Ok a, s1) ∧ k a s1 = (r, s').
Proof. unfold mbind, M_bind. destruct (m s) as [[a|e] s1]; intros; simplify_eq; eauto. Qed.
Lemma bind_ok {S A B} (m : M S A) (k : A → M S B) s b s' :
  (m ≫= k) s = (Ok b, s') → ∃ a s1, m s = (Ok a, s1) ∧ k a s1 = (Ok b, s').
Proof. intros [(e & _ & ?)|?]%bind_inv; done. Qed.
Lemma bind_attempt {S A B} (m : M S A) (k : result A → M S B) s r s' :
  (attempt m ≫= k) s = (r, s') → ∃ x s1, m s = (x, s1) ∧ k x s1 = (r, s').
Proof. unfold mbind, M_bind, attempt. destruct (m s) as [x s1]. eauto. Qed.
Lemma with_context_ok {S A} msg (m : M S A) s a s' : with_context msg m s = (Ok a, s') → m s = (Ok a, s').
Proof. unfold with_context, context. destruct (m s) as [[?|?] ?]; intros; by simplify_eq/=. Qed.

(** ** Tactics and hint databases *)

Create HintDb egdod discriminated.
#[export] Hint Resolve zlen_nonneg byte_to_Z_range length_le_bytes length_be_bytes : egdod.

(** Case analysis on the scrutinee of the goal's (or a hypothesis's) match. *)
Ltac case_goal :=
  match goal with
  | |- context [match ?x with _ => _ end] =>
      lazymatch x with context [match _ with _ => _ end] => fail | _ => destruct x eqn:? end
  end.
Ltac case_hyp H :=
  match type of H with
  | context [match ?x with _ => _ end] =>
      lazymatch x with context [match _ with _ => _ end] => fail | _ => destruct x eqn:? end
  end.

(** Unfolds the monad's plumbing, so that a run is a term of matches. *)
Ltac run_unfold :=
  unfold mbind, M_bind, mret, M_ret, fail, lift, ensure, with_context, context, attempt,
    ignore, gets, on_fst, on_snd in *; simpl in *.

(** Inverts [Ok a = Ok b], pairs and options, and closes the impossible cases. *)
Ltac inv_eq := simplify_eq/=; try done.
