(* ===== verification/Text.v ===== *)
(** * Text: the [str], [u8] and [char] functions the sources call

    A Rust string is its UTF-8 bytes.  Functions that Rust defines on characters
    are written on the encoding: a white-space character is recognised by the
    one, two or three bytes that encode it, which is exact on valid UTF-8
    because no encoding occurs inside another. *)

From S2P Require Import Prelude.

Definition byte_eqb (a b : byte) : bool := bool_decide (a = b).

(** [b'\n'] and friends. *)
Definition LF : byte := x0a.
Definition CR : byte := x0d.
Definition SP : byte := x20.
Definition QUOTE : byte := x22.
Definition HASH : byte := x23.
Definition SLASH : byte := x2f.
Definition BACKSLASH : byte := x5c.

(** [u8::is_ascii_whitespace], [u8::is_ascii_hexdigit], [u8::to_ascii_lowercase]. *)
Definition is_ascii_whitespace (b : byte) : bool :=
  bool_decide (b ∈ [x20; x09; x0a; x0c; x0d]).
Definition is_ascii_hexdigit (b : byte) : bool :=
  let z := byte_to_Z b in
  bool_decide (48 ≤ z ≤ 57 ∨ 65 ≤ z ≤ 70 ∨ 97 ≤ z ≤ 102).
Definition to_ascii_lowercase (b : byte) : byte :=
  if bool_decide (65 ≤ byte_to_Z b ≤ 90) then byte_of_Z (byte_to_Z b + 32) else b.
Definition is_ascii (b : byte) : bool := bool_decide (byte_to_Z b < 128).

(** Length of the encoding of the [char::is_whitespace] character the bytes
    start with; 0 when they start with another one. *)
Definition ws_len (b : bytes) : nat :=
  match b with
  | [] => O
  | x :: b1 =>
      if bool_decide (9 ≤ byte_to_Z x ≤ 13 ∨ x = x20) then 1%nat else
      match b1 with
      | [] => O
      | y :: b2 =>
          if bool_decide (x = xc2 ∧ (y = x85 ∨ y = xa0)) then 2%nat else
          match b2 with
          | [] => O
          | z :: _ =>
              if bool_decide ((x = xe1 ∧ y = x9a ∧ z = x80) ∨
                 (x = xe2 ∧ y = x80 ∧ (128 ≤ byte_to_Z z ≤ 138 ∨ z = xa8 ∨ z = xa9 ∨ z = xaf)) ∨
                 (x = xe2 ∧ y = x81 ∧ z = x9f) ∨ (x = xe3 ∧ y = x80 ∧ z = x80))
              then 3%nat else O
          end
      end
  end.

(** [str::trim_start], [str::trim_end], [str::trim]. *)
Fixpoint trim_start_fuel (fuel : nat) (b : bytes) : bytes :=
  match fuel with
  | O => b
  | S fuel => match ws_len b with O => b | n => trim_start_fuel fuel (drop n b) end
  end.
Definition trim_start (b : bytes) : bytes := trim_start_fuel (length b) b.
Definition all_ws (b : bytes) : bool := bool_decide (trim_start b = []).
Fixpoint trim_end (b : bytes) : bytes :=
  if all_ws b then [] else match b with [] => [] | x :: b' => x :: trim_end b' end.
Definition trim_bytes (b : bytes) : bytes := trim_end (trim_start b).
Definition trim (s : string) : string := of_bytes (trim_bytes (as_bytes s)).

(** [str::split_whitespace], with [cur] the field being read. *)
Definition emit (cur : bytes) : list bytes := match cur with [] => [] | _ => [cur] end.
Fixpoint words_fuel (fuel : nat) (cur b : bytes) : list bytes :=
  match fuel, b with
  | _, [] => emit cur
  | O, _ => emit cur
  | S fuel, x :: b' =>
      match ws_len b with
      | O => words_fuel fuel (cur ++ [x]) b'
      | n => emit cur ++ words_fuel fuel [] (drop n b)
      end
  end.
Definition split_whitespace (b : bytes) : list bytes := words_fuel (length b) [] b.

(** [slice::split] on a byte: the fields between separators, never empty. *)
Fixpoint split_on (p : byte → bool) (b : bytes) : list bytes :=
  match b with
  | [] => [[]]
  | x :: b' =>
      if p x then [] :: split_on p b'
      else match split_on p b' with
           | f :: fs => (x :: f) :: fs
           | [] => [[x]]
           end
  end.

(** [split_inclusive], which is also what repeated [read_until] returns: pieces
    that end in the separator, the last one possibly without. *)
Fixpoint split_inclusive (c : byte) (b : bytes) : list bytes :=
  match b with
  | [] => []
  | x :: b' =>
      if byte_eqb x c then [x] :: split_inclusive c b'
      else match split_inclusive c b' with
           | l :: ls => (x :: l) :: ls
           | [] => [[x]]
           end
  end.

(** [str::strip_suffix] of one byte, [ends_with], [starts_with]. *)
Fixpoint strip_suffix (c : byte) (b : bytes) : option bytes :=
  match b with
  | [] => None
  | [x] => if byte_eqb x c then Some [] else None
  | x :: b' => match strip_suffix c b' with Some b'' => Some (x :: b'') | None => None end
  end.
Definition ends_with (c : byte) (b : bytes) : bool := bool_decide (last b = Some c).
Definition starts_with (p b : bytes) : bool := bool_decide (p `prefix_of` b).

(** [str::lines] *)
Definition strip_eol (l : bytes) : bytes :=
  match strip_suffix LF l with
  | None => l
  | Some l' => match strip_suffix CR l' with None => l' | Some l'' => l'' end
  end.
Definition lines (b : bytes) : list bytes := strip_eol <$> split_inclusive LF b.

(** [format!("{b:02x}")] over a slice. *)
Definition hex_digit (n : Z) : byte :=
  if bool_decide (n < 10) then byte_of_Z (48 + n) else byte_of_Z (87 + n).
Definition hex_byte (b : byte) : bytes := [hex_digit (byte_to_Z b / 16); hex_digit (byte_to_Z b mod 16)].
Definition hex_bytes (b : bytes) : bytes := b ≫= hex_byte.

Definition unhex_digit (b : byte) : option Z :=
  let z := byte_to_Z b in
  if bool_decide (48 ≤ z ≤ 57) then Some (z - 48)
  else if bool_decide (97 ≤ z ≤ 102) then Some (z - 87) else None.
Fixpoint unhex (b : bytes) : option bytes :=
  match b with
  | [] => Some []
  | x :: y :: b' =>
      match unhex_digit x, unhex_digit y, unhex b' with
      | Some h, Some l, Some rest => Some (byte_of_Z (16 * h + l) :: rest)
      | _, _, _ => None
      end
  | _ => None
  end.

(** [String::from_utf8] accepts: a state is the ranges the continuation bytes
    still to come must lie in. *)
Definition utf8_lead (b : byte) : option (list (Z * Z)) :=
  let z := byte_to_Z b in
  let cont := (128, 191) in
  if bool_decide (z < 128) then Some []
  else if bool_decide (194 ≤ z ≤ 223) then Some [cont]
  else if bool_decide (z = 224) then Some [(160, 191); cont]
  else if bool_decide (z = 237) then Some [(128, 159); cont]
  else if bool_decide (225 ≤ z ≤ 239) then Some [cont; cont]
  else if bool_decide (z = 240) then Some [(144, 191); cont; cont]
  else if bool_decide (241 ≤ z ≤ 243) then Some [cont; cont; cont]
  else if bool_decide (z = 244) then Some [(128, 143); cont; cont]
  else None.
Fixpoint utf8_from (st : list (Z * Z)) (b : bytes) : bool :=
  match b, st with
  | [], [] => true
  | [], _ => false
  | x :: b, (lo, hi) :: st => bool_decide (lo ≤ byte_to_Z x ≤ hi) && utf8_from st b
  | x :: b, [] => match utf8_lead x with Some st => utf8_from st b | None => false end
  end.
Definition utf8_valid (b : bytes) : bool := utf8_from [] b.

(** ** Lemmas *)

Lemma utf8_from_app st a b : utf8_from st a = true → utf8_valid b = true → utf8_from st (a ++ b) = true.
Proof.
  unfold utf8_valid. revert st. induction a as [|x a IH]; intros st Ha Hb; simpl in *; [by destruct st|].
  destruct st as [|[lo hi] st].
  - destruct (utf8_lead x); [auto|done].
  - apply andb_true_iff in Ha as [-> Ha]. simpl. auto.
Qed.
Lemma utf8_ascii b : Forall (λ x, byte_to_Z x < 128) b → utf8_valid b = true.
Proof.
  unfold utf8_valid. induction 1 as [|x b Hx _ IH]; [done|]. simpl. unfold utf8_lead.
  by rewrite bool_decide_true.
Qed.

Lemma byte_eqb_true a b : byte_eqb a b = true ↔ a = b.
Proof. unfold byte_eqb. apply bool_decide_eq_true. Qed.
Lemma byte_eqb_refl a : byte_eqb a a = true.
Proof. by apply byte_eqb_true. Qed.

Lemma split_inclusive_concat c b : mjoin (split_inclusive c b) = b.
Proof.
  induction b as [|x b IH]; [done|]. simpl. destruct (byte_eqb x c); simpl; [by rewrite IH|].
  destruct (split_inclusive c b); simpl in *; by subst.
Qed.

Lemma split_inclusive_line c l b :
  c ∉ l → split_inclusive c (l ++ c :: b) = (l ++ [c]) :: split_inclusive c b.
Proof.
  induction l as [|x l IH]; intros Hl; simpl.
  - by rewrite byte_eqb_refl.
  - apply not_elem_of_cons in Hl as [Hx Hl]. rewrite IH by done.
    destruct (byte_eqb x c) eqn:E; [|done]. by apply byte_eqb_true in E.
Qed.

Lemma split_inclusive_last c l :
  c ∉ l → l ≠ [] → split_inclusive c l = [l].
Proof.
  induction l as [|x l IH]; intros Hl Hne; [done|]. simpl.
  apply not_elem_of_cons in Hl as [Hx Hl].
  destruct (byte_eqb x c) eqn:E; [by apply byte_eqb_true in E|].
  destruct l as [|y l]; [done|]. by rewrite IH.
Qed.

Lemma strip_suffix_snoc c l : strip_suffix c (l ++ [c]) = Some l.
Proof.
  induction l as [|x l IH]; simpl; [by rewrite byte_eqb_refl|]. rewrite IH. by destruct l.
Qed.
Lemma strip_suffix_None c l : c ∉ l → strip_suffix c l = None.
Proof.
  induction l as [|x l IH]; intros Hl; [done|]. apply not_elem_of_cons in Hl as [Hx Hl].
  simpl. rewrite (IH Hl). destruct l; [|done].
  destruct (byte_eqb x c) eqn:E; [|done]. by apply byte_eqb_true in E.
Qed.

(** Complete lines are independent of what follows them. *)
Lemma split_inclusive_app c a b :
  a = [] ∨ ends_with c a = true → split_inclusive c (a ++ b) = split_inclusive c a ++ split_inclusive c b.
Proof.
  induction a as [|x a IH]; [done|]. intros [?|He]; [done|]. unfold ends_with in *. simpl.
  destruct (byte_eqb x c) eqn:E.
  - rewrite IH; [done|]. destruct a; [by left|right]. exact He.
  - destruct a as [|y a].
    { apply bool_decide_eq_true in He. simplify_eq/=. by rewrite byte_eqb_refl in E. }
    rewrite IH by (by right). destruct (split_inclusive c (y :: a)) as [|l ls] eqn:El; [|done].
    pose proof (split_inclusive_concat c (y :: a)) as C. by rewrite El in C.
Qed.
Lemma lines_app a b : a = [] ∨ ends_with LF a = true → lines (a ++ b) = lines a ++ lines b.
Proof. intros Ha. unfold lines. by rewrite split_inclusive_app, fmap_app by done. Qed.
Lemma lines_single l : LF ∉ l → CR ∉ l → lines (l ++ [LF]) = [l].
Proof.
  intros Hl Hr. unfold lines. rewrite split_inclusive_line by done. simpl.
  unfold strip_eol. by rewrite strip_suffix_snoc, strip_suffix_None.
Qed.

Lemma lines_cons_line l b : LF ∉ l → CR ∉ l → lines ((l ++ [LF]) ++ b) = l :: lines b.
Proof.
  intros Hl Hr. rewrite lines_app, lines_single by done || (right; apply bool_decide_true; by rewrite last_snoc).
  done.
Qed.

Lemma strip_suffix_Some c l l' : strip_suffix c l = Some l' → l = l' ++ [c].
Proof.
  revert l'. induction l as [|x l IH]; intros l' E; [done|]. simpl in E. destruct l as [|y l].
  - destruct (byte_eqb x c) eqn:Ex; [|done]. apply byte_eqb_true in Ex. by simplify_eq.
  - destruct (strip_suffix c (y :: l)) as [l''|]; [|done]. simplify_eq/=. by rewrite (IH l'').
Qed.
(** Terminating an unterminated last line. *)
Lemma split_inclusive_open c b :
  b ≠ [] → ends_with c b = false →
  ∃ ls l, split_inclusive c b = ls ++ [l] ∧ (c ∉ l) ∧ split_inclusive c (b ++ [c]) = (ls ++ [l ++ [c]]).
Proof.
  induction b as [|x b IH]; [done|]. intros _ He. unfold ends_with in *. destruct b as [|y b].
  - apply bool_decide_eq_false in He. simpl in *.
    assert (byte_eqb x c = false) as -> by (apply bool_decide_false; congruence).
    exists [], [x]. rewrite byte_eqb_refl. split_and!; [done|set_solver|done].
  - destruct IH as (ls & l & E1 & Hl & E2); [done|exact He|].
    assert (Hstep : ∀ t, split_inclusive c (x :: t) = if byte_eqb x c then [x] :: split_inclusive c t
      else match split_inclusive c t with l :: ls => (x :: l) :: ls | [] => [[x]] end) by done.
    change ((x :: y :: b) ++ [c]) with (x :: ((y :: b) ++ [c])). rewrite !Hstep, E1, E2. destruct (byte_eqb x c) eqn:Ex.
    + by exists ([x] :: ls), l.
    + destruct ls as [|l0 ls]; simpl.
      * exists [], (x :: l). split_and!; [done| |done]. rewrite not_elem_of_cons. split; [|done].
        intros ->. by rewrite byte_eqb_refl in Ex.
      * by exists ((x :: l0) :: ls), l.
Qed.
Lemma lines_open b :
  b ≠ [] → ends_with LF b = false →
  ∃ ls l l', lines b = ls ++ [l] ∧ lines (b ++ [LF]) = ls ++ [l'] ∧ (l' = l ∨ l = l' ++ [CR]).
Proof.
  intros Hne He. destruct (split_inclusive_open LF b Hne He) as (ls & l & E1 & Hl & E2).
  unfold lines. rewrite E1, E2, !fmap_app. simpl. unfold strip_eol.
  rewrite strip_suffix_snoc, (strip_suffix_None LF l) by done.
  destruct (strip_suffix CR l) as [l'|] eqn:E; do 3 eexists; split_and!; eauto.
  right. by apply strip_suffix_Some.
Qed.

(** ** White space *)

(** The first characters decide whether a text starts with white space. *)
Lemma ws_len_prefix a b : ws_len a ≠ O → ws_len (a ++ b) ≠ O.
Proof.
  unfold ws_len. destruct a as [|x [|y [|z a]]]; simpl; [done|..]; repeat case_bool_decide; try done;
    destruct b as [|? [|? b]]; simpl; repeat case_bool_decide; try done.
Qed.

(** Text without white space is its only field and does not get trimmed. *)
Definition plain (b : bytes) : Prop := Forall (λ x, 33 ≤ byte_to_Z x < 128) b.
Lemma ws_len_plain x b : 33 ≤ byte_to_Z x < 128 → ws_len (x :: b) = O.
Proof.
  intros Hx. unfold ws_len. assert (x ≠ x20 ∧ x ≠ xc2 ∧ x ≠ xe1 ∧ x ≠ xe2 ∧ x ≠ xe3) as (?&?&?&?&?).
  { split_and!; intros ->; by vm_compute in Hx; destruct Hx. }
  repeat (case_bool_decide; [naive_solver lia|]; destruct b as [|? b]; [done|]). done.
Qed.
Lemma trim_start_plain b : plain b → trim_start b = b.
Proof.
  intros Hb. unfold trim_start. destruct Hb as [|x b Hx _]; [done|]. simpl length.
  cbn [trim_start_fuel]. by rewrite ws_len_plain.
Qed.
Lemma trim_end_plain b : plain b → trim_end b = b.
Proof.
  induction 1 as [|x b Hx Hb IH]; [done|]. simpl. unfold all_ws.
  rewrite trim_start_plain by by constructor. by rewrite IH.
Qed.
Lemma trim_plain b : plain b → trim_bytes b = b.
Proof. intros Hb. unfold trim_bytes. by rewrite trim_start_plain, trim_end_plain. Qed.
Lemma words_plain fuel cur b : plain b → (length b ≤ fuel)%nat → words_fuel fuel cur b = emit (cur ++ b).
Proof.
  intros Hb. revert fuel cur. induction Hb as [|x b Hx Hb IH]; intros fuel cur Hf; simpl in *.
  - rewrite app_nil_r. by destruct fuel.
  - destruct fuel as [|fuel]; [lia|]. cbn [words_fuel]. rewrite ws_len_plain by done.
    rewrite IH by lia. by rewrite <- app_assoc.
Qed.
Lemma split_whitespace_plain b : plain b → b ≠ [] → split_whitespace b = [b].
Proof. intros Hb Hne. unfold split_whitespace. rewrite words_plain by done. by destruct b. Qed.
Lemma split_on_none p b : Forall (λ x, p x = false) b → split_on p b = [b].
Proof. induction 1 as [|x b Hx Hb IH]; [done|]. simpl. by rewrite Hx, IH. Qed.

(** Appending to a text extends its last field. *)
Lemma split_on_app p a b :
  ∃ front l f more, split_on p a = front ++ [l] ∧ split_on p b = f :: more ∧
    split_on p (a ++ b) = front ++ (l ++ f) :: more.
Proof.
  assert (Hne : ∀ b, ∃ f more, split_on p b = f :: more).
  { intros c. destruct c as [|x c]; simpl; [eauto|]. destruct (p x); [eauto|]. destruct (split_on p c); eauto. }
  destruct (Hne b) as (f & more & Eb). induction a as [|x a (front & l & f' & more' & E1 & E2 & E3)]; simpl.
  - by exists [], [], f, more.
  - rewrite E2 in Eb. simplify_eq. rewrite E1, E3. destruct (p x).
    + by exists ([] :: front), l, f, more.
    + destruct front as [|y front]; simpl; [by exists [], (x :: l), f, more|].
      by exists ((x :: y) :: front), l, f, more.
Qed.

(** A text that is not blank has a first field after trimming. *)
Lemma trim_start_fuel_done fuel b : (length b ≤ fuel)%nat → ws_len (trim_start_fuel fuel b) = O.
Proof.
  revert b. induction fuel as [|fuel IH]; intros b Hf; simpl.
  - by destruct b; [|simpl in Hf; lia].
  - destruct (ws_len b) eqn:E; [done|]. apply IH. rewrite length_drop. lia.
Qed.
Lemma trim_end_prefix b : trim_end b `prefix_of` b.
Proof.
  induction b as [|x b IH]; [done|]. cbn [trim_end]. destruct (all_ws (x :: b)); [apply prefix_nil|].
  by apply prefix_cons.
Qed.
Lemma words_fuel_cur fuel cur b : cur ≠ [] → words_fuel fuel cur b ≠ [].
Proof.
  revert cur b. induction fuel as [|fuel IH]; intros cur b Hc.
  - by destruct b, cur.
  - destruct b as [|x b]; cbn [words_fuel]; [by destruct cur|].
    destruct (ws_len (x :: b)); [apply IH; by destruct cur|]. by destruct cur.
Qed.
Lemma first_field b : trim_bytes b ≠ [] → split_whitespace (trim_bytes b) ≠ [].
Proof.
  unfold trim_bytes. set (r := trim_start b). intros Hne.
  assert (Hr : ws_len r = O) by (by apply trim_start_fuel_done).
  destruct (trim_end_prefix r) as [k Hk]. destruct (trim_end r) as [|x t]; [done|].
  assert (Hw : ws_len (x :: t) = O).
  { destruct (decide (ws_len (x :: t) = O)) as [|Hn]; [done|].
    apply (ws_len_prefix _ k) in Hn. congruence. }
  unfold split_whitespace. simpl length. cbn [words_fuel]. rewrite Hw. by apply words_fuel_cur.
Qed.

(** A trailing carriage return is white space. *)
Lemma ws_len_snoc_cr b : b ≠ [] → ws_len (b ++ [CR]) = ws_len b.
Proof.
  intros Hne. destruct b as [|x [|y [|z b]]]; [done|..]; simpl.
  - case_bool_decide; [done|]. rewrite bool_decide_false; [done|]. by intros [_ [?|?]].
  - case_bool_decide; [done|]. case_bool_decide; [done|]. rewrite bool_decide_false; [done|].
    intros [(_&_&E)|[(_&_&[E|[E|[E|E]]])|[(_&_&E)|(_&_&E)]]]; try done. by vm_compute in E; destruct E.
  - done.
Qed.
Lemma ws_len_le b : (ws_len b ≤ length b)%nat.
Proof. unfold ws_len. repeat case_match; simpl; lia. Qed.
Lemma trim_fuel_snoc_cr fuel b :
  (length b ≤ fuel)%nat →
  trim_start_fuel (S fuel) (b ++ [CR]) =
    match trim_start_fuel fuel b with [] => [] | r => r ++ [CR] end.
Proof.
  revert b. induction fuel as [|fuel IH]; intros b Hf.
  { by destruct b; [|simpl in Hf; lia]. }
  destruct b as [|x b]; [done|].
  change (trim_start_fuel (S (S fuel)) ((x :: b) ++ [CR])) with
    (match ws_len ((x :: b) ++ [CR]) with O => (x :: b) ++ [CR]
     | n => trim_start_fuel (S fuel) (drop n ((x :: b) ++ [CR])) end).
  rewrite ws_len_snoc_cr by done. cbn [trim_start_fuel].
  pose proof (ws_len_le (x :: b)) as Hw. destruct (ws_len (x :: b)) as [|n] eqn:E; [done|].
  rewrite drop_app_le by done. apply IH. rewrite length_drop. simpl in *. lia.
Qed.
Lemma trim_start_snoc_cr b :
  trim_start (b ++ [CR]) = match trim_start b with [] => [] | r => r ++ [CR] end.
Proof.
  unfold trim_start. rewrite length_app, Nat.add_1_r. by apply trim_fuel_snoc_cr.
Qed.
Lemma trim_end_snoc_cr b : trim_end (b ++ [CR]) = trim_end b.
Proof.
  induction b as [|x b IH]; [done|]. cbn [trim_end app]. rewrite IH.
  replace (all_ws (x :: b ++ [CR])) with (all_ws (x :: b)); [done|].
  unfold all_ws. change (x :: b ++ [CR]) with ((x :: b) ++ [CR]). rewrite trim_start_snoc_cr.
  destruct (trim_start (x :: b)); [done|]. by rewrite !bool_decide_false.
Qed.
Lemma trim_snoc_cr b : trim_bytes (b ++ [CR]) = trim_bytes b.
Proof.
  unfold trim_bytes. rewrite trim_start_snoc_cr. destruct (trim_start b); [done|]. apply trim_end_snoc_cr.
Qed.

(** ** Hexadecimal *)

Lemma hex_digit_range n :
  0 ≤ n < 16 → unhex_digit (hex_digit n) = Some n.
Proof.
  intros Hn. unfold hex_digit. case_bool_decide; unfold unhex_digit; rewrite byte_to_of_Z, Z.mod_small by lia.
  - rewrite bool_decide_true by lia. f_equal. lia.
  - rewrite bool_decide_false, bool_decide_true by lia. f_equal. lia.
Qed.

Lemma unhex_hex b : unhex (hex_bytes b) = Some b.
Proof.
  induction b as [|x b IH]; [done|]. change (hex_bytes (x :: b)) with (hex_byte x ++ hex_bytes b).
  pose proof (byte_to_Z_range x). simpl.
  rewrite !hex_digit_range by (first [apply Z.mod_pos_bound; lia
    | split; [apply Z.div_pos; lia | apply Z.div_lt_upper_bound; lia]]).
  rewrite IH. pose proof (Z.div_mod (byte_to_Z x) 16).
  do 2 f_equal. rewrite <- (byte_of_to_Z x) at 3. f_equal. lia.
Qed.

Lemma length_hex b : length (hex_bytes b) = (2 * length b)%nat.
Proof.
  induction b as [|x b IH]; [done|]. change (hex_bytes (x :: b)) with (hex_byte x ++ hex_bytes b).
  rewrite length_app, IH. simpl. lia.
Qed.

(** Every hexadecimal digit is a lower-case ASCII digit or letter. *)
Definition hex_char (b : byte) : Prop := 48 ≤ byte_to_Z b ≤ 57 ∨ 97 ≤ byte_to_Z b ≤ 102.

Lemma hex_digit_char n : 0 ≤ n < 16 → hex_char (hex_digit n).
Proof.
  intros. unfold hex_digit. case_bool_decide; unfold hex_char; rewrite byte_to_of_Z, Z.mod_small by lia; lia.
Qed.
Lemma hex_char_digit b : hex_char b → is_ascii_hexdigit b = true.
Proof. unfold hex_char, is_ascii_hexdigit. intros. apply bool_decide_true. lia. Qed.
Lemma hex_chars b : Forall hex_char (hex_bytes b).
Proof.
  induction b as [|x b IH]; [constructor|]. pose proof (byte_to_Z_range x).
  apply Forall_cons_2; [|apply Forall_cons_2; [|done]]; apply hex_digit_char.
  - split; [apply Z.div_pos; lia | apply Z.div_lt_upper_bound; lia].
  - apply Z.mod_pos_bound; lia.
Qed.
Lemma hex_inj b1 b2 : hex_bytes b1 = hex_bytes b2 → b1 = b2.
Proof. intros E. apply (f_equal unhex) in E. rewrite !unhex_hex in E. congruence. Qed.
