(* ===== verification/Stream.v ===== *)
(** * Byte streams: the [AsyncRead]/[AsyncWrite] behaviour the program relies on

    A [reader] is the future of an input stream as the transport will deliver
    it: chunks of any size, possibly an I/O error, and then end of stream for
    ever.  Every theorem about a reader therefore quantifies over how the bytes
    are split.  A [writer] collects what was accepted and may break after a
    given number of bytes. *)

From S2P Require Import Prelude.

Inductive rd_event :=
  | RData (b : bytes)
  | RErr (e : error).

Abbreviation reader := (list rd_event).

(** [AsyncReadExt::read] with a buffer of [cap] bytes: one chunk's worth, cut
    to the buffer; an empty wake-up is not reported, so [Ok []] means end of
    stream. *)
Fixpoint read (cap : nat) (r : reader) : result bytes * reader :=
  match r with
  | [] => (Ok [], [])
  | RErr e :: r' => (Err e, r')
  | RData [] :: r' => read cap r'
  | RData b :: r' =>
      (Ok (take cap b), if decide (drop cap b = []) then r' else RData (drop cap b) :: r')
  end.

Definition early_eof : error := io_error UnexpectedEof "early eof".

(** [AsyncReadExt::read_exact]: reads until the buffer is full. *)
Fixpoint read_exact (n : nat) (r : reader) : result bytes * reader :=
  if decide (n = O) then (Ok [], r) else
  match r with
  | [] => (Err early_eof, [])
  | RErr e :: r' => (Err e, r')
  | RData b :: r' =>
      if decide (n < length b)%nat then (Ok (take n b), RData (drop n b) :: r')
      else
        match read_exact (n - length b) r' with
        | (Ok b', r'') => (Ok (b ++ b'), r'')
        | (Err e, r'') => (Err e, r'')
        end
  end.

(** Every byte the stream will deliver, and the absence of I/O errors. *)
Definition rd_bytes (r : reader) : bytes :=
  r ≫= λ ev, match ev with RData b => b | RErr _ => [] end.
Arguments rd_bytes : simpl never.
Definition is_data (ev : rd_event) : Prop :=
  match ev with RData _ => True | RErr _ => False end.
Abbreviation clean := (Forall is_data).

Record writer := mkWriter {
  w_out : bytes;                      (** what the transport accepted *)
  w_break : option (nat * error);     (** accepts this many bytes more, then fails *)
  w_flush_err : option error;         (** what [flush] reports *)
  w_fin : bool                        (** shut down *)
}.

Definition new_writer : writer := mkWriter [] None None false.
Definition healthy (w : writer) : Prop :=
  w_break w = None ∧ w_flush_err w = None ∧ w_fin w = false.

Definition closed_error : error := io_error BrokenPipe "stream closed".

(** [AsyncWriteExt::write_all] *)
Definition write_all (b : bytes) : M writer unit := λ w,
  if w_fin w then (Err closed_error, w) else
  match w_break w with
  | None => (Ok tt, mkWriter (w_out w ++ b) None (w_flush_err w) false)
  | Some (k, e) =>
      if decide (k < length b)%nat
      then (Err e, mkWriter (w_out w ++ take k b) (Some (O, e)) (w_flush_err w) false)
      else (Ok tt, mkWriter (w_out w ++ b) (Some ((k - length b)%nat, e)) (w_flush_err w) false)
  end.

Definition flush : M writer unit := λ w,
  match w_flush_err w with
  | Some e => (Err e, w)
  | None => (Ok tt, w)
  end.

(** A transport that cannot be half-closed is one whose flush fails: where the
    sources look at the outcome ([finish] of proto.rs) they flush first and report
    both alike, and elsewhere they ignore it or call it on a QUIC stream that is
    open, where it cannot fail. *)
Definition shutdown : M writer unit := λ w,
  (Ok tt, mkWriter (w_out w) (w_break w) (w_flush_err w) true).

(** ** Reading *)

Lemma rd_bytes_app r1 r2 : rd_bytes (r1 ++ r2) = rd_bytes r1 ++ rd_bytes r2.
Proof. unfold rd_bytes. by rewrite bind_app. Qed.
Lemma rd_bytes_data b r : rd_bytes (RData b :: r) = b ++ rd_bytes r.
Proof. done. Qed.
Lemma rd_bytes_nil : rd_bytes [] = [].
Proof. done. Qed.

(** One [read] on an error-free stream: a non-empty prefix of what is left, or
    nothing at the end. *)
Lemma read_clean cap r :
  clean r → (0 < cap)%nat →
  ∃ b r', read cap r = (Ok b, r') ∧ clean r' ∧ rd_bytes r = b ++ rd_bytes r' ∧
          (length b ≤ cap)%nat ∧ (b = [] → rd_bytes r = []).
Proof.
  intros Hc Hcap. induction Hc as [|[b|e] r Hev Hc IH]; simpl.
  - exists [], []. simpl. split_and!; auto; lia.
  - destruct b as [|x b]; [done|].
    exists (take cap (x :: b)). case_decide as Hd.
    + exists r. split_and!; auto.
      * rewrite rd_bytes_data, <- (take_drop cap (x :: b)) at 1. by rewrite Hd, app_nil_r.
      * rewrite length_take. lia.
      * destruct cap; [lia|]. done.
    + exists (RData (drop cap (x :: b)) :: r). split_and!; auto.
      * by rewrite !rd_bytes_data, app_assoc, take_drop.
      * rewrite length_take. lia.
      * destruct cap; [lia|]. done.
  - done.
Qed.

(** A [read] never lengthens the stream, and a non-empty one shortens it. *)
Lemma read_shrinks cap r b r' :
  read cap r = (Ok b, r') → rd_bytes r = b ++ rd_bytes r'.
Proof.
  induction r as [|[[|x b0]|e] r IH]; simpl; intros H; simplify_eq/=; auto.
  case_decide as Hd; simplify_eq/=; rewrite !rd_bytes_data.
  - rewrite <- (take_drop cap (x :: b0)) at 1. by rewrite Hd, app_nil_r.
  - by rewrite app_assoc, take_drop.
Qed.

(** An empty [read] is the end of the stream. *)
Lemma read_cap cap r b r' : read cap r = (Ok b, r') → (length b ≤ cap)%nat.
Proof.
  induction r as [|[[|x b0]|e] r IH]; simpl; intros H; simplify_eq/=; auto; [lia|].
  change (length (take cap (x :: b0)) ≤ cap)%nat. rewrite length_take. lia.
Qed.
Lemma read_eof cap r r' :
  (0 < cap)%nat → read cap r = (Ok [], r') → rd_bytes r = [] ∧ r' = [].
Proof.
  intros Hcap. induction r as [|[[|x b0]|e] r IH]; simpl; intros H; simplify_eq/=; auto.
  destruct cap; [lia|]. done.
Qed.

Lemma read_exact_0 r : read_exact 0 r = (Ok [], r).
Proof. by destruct r. Qed.

(** [read_exact] does not depend on how the stream is chunked. *)
Lemma read_exact_clean n r a b :
  clean r → rd_bytes r = a ++ b → length a = n →
  ∃ r', read_exact n r = (Ok a, r') ∧ clean r' ∧ rd_bytes r' = b.
Proof.
  intros Hc. revert n a. induction Hc as [|[c|e] r Hev Hc IH]; intros n a Hb Hn.
  - rewrite rd_bytes_nil in Hb. symmetry in Hb. apply app_nil in Hb as [-> ->].
    subst. by exists [].
  - rewrite rd_bytes_data in Hb. simpl. case_decide as H0; subst.
    + destruct a; [|done]. exists (RData c :: r). split_and!; auto.
    + case_decide as Hlt.
      * apply app_eq_inv in Hb as [(k & -> & Hk)|(k & -> & Hk)].
        -- rewrite take_app_length, drop_app_length. eexists. split_and!; eauto.
        -- rewrite length_app in Hlt. lia.
      * apply app_eq_inv in Hb as [(k & -> & Hk)|(k & -> & Hk)].
        -- rewrite length_app in Hlt. destruct k; simpl in *; [|lia]. subst.
           rewrite app_nil_r, Nat.sub_diag, read_exact_0, app_nil_r. by exists r.
        -- rewrite length_app, Nat.add_comm, Nat.add_sub.
           destruct (IH (length k) k) as (r' & -> & ? & ?); auto. by exists r'.
  - done.
Qed.

(** Too little data is an [UnexpectedEof], after which nothing is left. *)
Lemma read_exact_short n r :
  clean r → (length (rd_bytes r) < n)%nat → read_exact n r = (Err early_eof, []).
Proof.
  intros Hc. revert n. induction Hc as [|[c|e] r Hev Hc IH]; intros n Hn; simpl.
  - case_decide; [|done]. simpl in Hn. lia.
  - rewrite rd_bytes_data, length_app in Hn.
    case_decide; [lia|]. case_decide; [lia|]. rewrite IH by lia. done.
  - done.
Qed.

(** Whatever the stream does, a successful [read_exact] consumed exactly its bytes. *)
Lemma read_exact_shrinks n r b r' :
  read_exact n r = (Ok b, r') → length b = n ∧ rd_bytes r = b ++ rd_bytes r'.
Proof.
  revert n b. induction r as [|[c|e] r IH]; intros n b; simpl; case_decide as Hn; intros H;
    simplify_eq/=; auto.
  case_decide as Hlt; simplify_eq/=.
  - rewrite length_take, !rd_bytes_data, app_assoc, take_drop. split; [lia|done].
  - destruct (read_exact (n - length c) r) as [[b'|e] r''] eqn:E; simplify_eq/=.
    apply IH in E as [E1 E2]. rewrite length_app, rd_bytes_data, E2, app_assoc.
    split; [lia|done].
Qed.

(** ** Writing *)

Lemma write_all_healthy b w :
  healthy w →
  write_all b w = (Ok tt, mkWriter (w_out w ++ b) None None false).
Proof.
  destruct w as [o br fe fin]. intros (?&?&?). simpl in *. subst. done.
Qed.

Lemma flush_healthy w : healthy w → flush w = (Ok tt, w).
Proof. intros (_ & H & _). unfold flush. by rewrite H. Qed.

(** A failing transport still holds only a prefix of what was written to it. *)
Lemma write_all_prefix b w :
  ∃ k, w_out (write_all b w).2 = w_out w ++ take k b.
Proof.
  unfold write_all. destruct (w_fin w).
  { exists O. by rewrite take_0, app_nil_r. }
  destruct (w_break w) as [[k e]|].
  - case_decide; simpl; [by exists k|]. exists (length b). by rewrite take_ge.
  - exists (length b). by rewrite take_ge.
Qed.

Lemma write_all_ok b w w' :
  write_all b w = (Ok tt, w') → w_out w' = w_out w ++ b ∧ w_fin w' = false.
Proof. unfold write_all. intros H. repeat case_hyp H; by simplify_eq/=. Qed.

Lemma write_all_zlen b w : zlen (w_out (write_all b w).2) ≤ zlen (w_out w) + zlen b.
Proof.
  destruct (write_all_prefix b w) as [k ->]. unfold zlen.
  rewrite length_app, length_take. lia.
Qed.

#[export] Hint Resolve write_all_healthy flush_healthy read_exact_0 : egdod.
