(* ===== verification/Fs.v ===== *)
(** * Paths, the file system and the other services of the operating system

    What the sources use of [std::path], [std::fs], [tokio::fs], [getrandom] and
    the clock.  A [World] holds the files, the outcomes the environment has in
    store for the system calls to come ([faults]: a fault fails the call, after
    part of a write at worst), the outcomes of [getrandom] and the clock
    readings.  Theorems quantify over all of them.

    Paths are lists of components, on which Rust defines their equality.  Links
    and mount points are outside the model: two different component lists name
    two different files. *)

From S2P Require Import Prelude Text Stream.

(** ** Paths *)

Abbreviation path := (list string).

(** [Path::components]: empty and inner ["."] fields vanish, the root is ["/"]. *)
Definition parse_path (s : string) : path :=
  let fields := of_bytes <$> split_on (byte_eqb SLASH) (as_bytes s) in
  let normal := filter (λ c, c ≠ "" ∧ c ≠ ".") fields in
  if starts_with [SLASH] (as_bytes s) then "/" :: normal
  else match fields with
       | "." :: _ => "." :: normal
       | _ => normal
       end.

(** [Path::file_name], [Path::parent], [Path::with_file_name], [Path::join]. *)
Definition file_name (p : path) : option string :=
  match last p with
  | Some c => if bool_decide (c ∈ ["/"; "."; ".."]) then None else Some c
  | None => None
  end.
Definition pop (p : path) : path := take (length p - 1) p.
Definition parent (p : path) : option path :=
  match last p with
  | Some c => if bool_decide (c = "/") then None else Some (pop p)
  | None => None
  end.
Definition with_file_name (p : path) (name : string) : path :=
  match file_name p with Some _ => pop p | None => p end ++ [name].
Definition join (p : path) (s : string) : path :=
  match parse_path s with
  | "/" :: q => "/" :: q
  | "." :: q => p ++ q
  | q => p ++ q
  end.

(** ** Files *)

Record file := mkFile { f_data : bytes; f_mode : Z }.
Inductive node :=
  | NFile (f : file)
  | NDir (mode : Z)
  | NOther.           (** socket, device, link: exists, is not a regular file *)

(** A failing system call: what it reports, and how many bytes of a write took
    effect before. *)
Record fault := mkFault { flt_kind : ErrorKind; flt_text : string; flt_done : nat }.

Record World := mkWorld {
  fs : gmap path node;
  faults : list (option fault);
  rng : list (result bytes);
  clock : list Z;
  pid : Z;
  umask : Z
}.

Definition set_fs (f : gmap path node → gmap path node) (w : World) : World :=
  mkWorld (f (fs w)) (faults w) (rng w) (clock w) (pid w) (umask w).
Definition set_faults (l : list (option fault)) (w : World) : World :=
  mkWorld (fs w) l (rng w) (clock w) (pid w) (umask w).

Definition fault_error (f : fault) : error := io_error (flt_kind f) (flt_text f).

(** The next entry of the schedule; an exhausted schedule has no more faults. *)
Definition next_fault (w : World) : option fault * World :=
  match faults w with
  | [] => (None, w)
  | o :: l => (o, set_faults l w)
  end.

(** One system call: its effect, or the scheduled failure. *)
Definition syscall {A} (m : M World A) : M World A := λ w,
  match next_fault w with
  | (Some f, w) => (Err (fault_error f), w)
  | (None, w) => m w
  end.

Definition enoent : error := io_error NotFound "No such file or directory (os error 2)".
Definition eexist : error := io_error AlreadyExists "File exists (os error 17)".
Definition eisdir : error := io_error IsADirectory "Is a directory (os error 21)".
Definition enotdir : error := io_error NotADirectory "Not a directory (os error 20)".
Definition einval : error := io_error OtherKind "Invalid argument (os error 22)".

(** Permission bits, in the octal notation of the sources. *)
Definition o600 : Z := 384.
Definition o666 : Z := 438.
Definition o700 : Z := 448.
Definition o755 : Z := 493.
Definition o777 : Z := 511.
Definition o7777 : Z := 4095.

(** The working directory and the root always exist. *)
Definition is_dir (w : World) (p : path) : bool :=
  bool_decide (p = [] ∨ p = ["."] ∨ p = ["/"]) ||
  match fs w !! p with Some (NDir _) => true | _ => false end.
Definition parent_ok (w : World) (p : path) : bool :=
  match parent p with Some d => is_dir w d | None => false end.

Definition do_stat (p : path) : M World node := λ w,
  match fs w !! p with
  | Some n => (Ok n, w)
  | None => if is_dir w p then (Ok (NDir o755), w) else (Err enoent, w)
  end.
Definition do_create_new (p : path) (mode : Z) : M World unit := λ w,
  match fs w !! p with
  | Some _ => (Err eexist, w)
  | None =>
      if parent_ok w p
      then (Ok tt, set_fs <[p := NFile (mkFile [] (Z.ldiff mode (umask w)))]> w)
      else (Err enoent, w)
  end.
Definition do_open_truncate (p : path) : M World unit := λ w,
  match fs w !! p with
  | Some (NFile f) => (Ok tt, set_fs <[p := NFile (mkFile [] (f_mode f))]> w)
  | Some (NDir _) => (Err eisdir, w)
  | Some NOther => (Err einval, w)
  | None =>
      if parent_ok w p
      then (Ok tt, set_fs <[p := NFile (mkFile [] (Z.ldiff o666 (umask w)))]> w)
      else (Err enoent, w)
  end.
Definition append_data (p : path) (b : bytes) (m : gmap path node) : gmap path node :=
  match m !! p with
  | Some (NFile f) => <[p := NFile (mkFile (f_data f ++ b) (f_mode f))]> m
  | _ => m
  end.
Definition do_rename (a b : path) : M World unit := λ w,
  match fs w !! a with
  | None => (Err enoent, w)
  | Some n =>
      match fs w !! b with
      | Some (NDir _) => (Err eisdir, w)
      | _ =>
          if parent_ok w b then (Ok tt, set_fs (λ m, <[b := n]> (delete a m)) w)
          else (Err enoent, w)
      end
  end.
Definition do_remove_file (p : path) : M World unit := λ w,
  match fs w !! p with
  | None => (Err enoent, w)
  | Some (NDir _) => (Err eisdir, w)
  | Some _ => (Ok tt, set_fs (delete p) w)
  end.
Definition do_chmod (p : path) (mode : Z) : M World unit := λ w,
  match fs w !! p with
  | Some (NFile f) => (Ok tt, set_fs <[p := NFile (mkFile (f_data f) (Z.land mode o7777))]> w)
  | Some (NDir _) => (Ok tt, set_fs <[p := NDir (Z.land mode o7777)]> w)
  | Some NOther => (Ok tt, w)
  | None => if is_dir w p then (Ok tt, w) else (Err enoent, w)
  end.
Definition do_mkdir (p : path) : M World unit := λ w,
  if is_dir w p then (Ok tt, w) else
  match fs w !! p with
  | Some _ => (Err enotdir, w)
  | None => (Ok tt, set_fs <[p := NDir (Z.ldiff o777 (umask w))]> w)
  end.

(** The calls, each of which may meet a fault. *)
Definition fs_metadata (p : path) : M World node := syscall (do_stat p).
Definition fs_rename (a b : path) : M World unit := syscall (do_rename a b).
Definition fs_remove_file (p : path) : M World unit := syscall (do_remove_file p).
Definition fs_set_permissions (p : path) (mode : Z) : M World unit := syscall (do_chmod p mode).
Definition fs_create_new (p : path) (mode : Z) : M World unit := syscall (do_create_new p mode).
Definition fs_sync : M World unit := syscall (mret tt).

(** Appending to an open file; a fault may come after part of the data. *)
Definition fs_append (p : path) (b : bytes) : M World unit := λ w,
  match next_fault w with
  | (Some f, w) => (Err (fault_error f), set_fs (append_data p (take (flt_done f) b)) w)
  | (None, w) => (Ok tt, set_fs (append_data p b) w)
  end.

(** [std::fs::read]: open, then read to the end. *)
Definition fs_read (p : path) : M World bytes :=
  syscall (λ w, match fs w !! p with
                | Some (NFile f) => (Ok (f_data f), w)
                | Some _ => (Err eisdir, w)
                | None => (Err enoent, w)
                end).

(** [std::fs::write]: create or truncate, then write everything. *)
Definition fs_write (p : path) (b : bytes) : M World unit :=
  syscall (do_open_truncate p);; fs_append p b.

(** [create_dir_all]: every missing ancestor, outermost first. *)
Fixpoint mkdirs (done rest : path) : M World unit :=
  match rest with
  | [] => mret tt
  | c :: rest => syscall (do_mkdir (done ++ [c]));; mkdirs (done ++ [c]) rest
  end.
Definition fs_create_dir_all (p : path) : M World unit := mkdirs [] p.

(** [remove_dir_all]: the directory with everything below it.  A fault stops it
    before anything is gone. *)
Definition do_remove_dir_all (p : path) : M World unit := λ w,
  if is_dir w p then (Ok tt, set_fs (filter (λ e, ¬ p `prefix_of` e.1)) w) else (Err enoent, w).
Definition fs_remove_dir_all (p : path) : M World unit := syscall (do_remove_dir_all p).

(** Reading an open file as a stream: its contents, or what a fault leaves of
    them and the error. *)
Definition file_reader (p : path) : M World reader :=
  syscall (do_stat p);;
  ((λ w, match fs w !! p with
       | Some (NFile f) =>
           match next_fault w with
           | (None, w) => (Ok [RData (f_data f)], w)
           | (Some x, w) => (Ok [RData (take (flt_done x) (f_data f)); RErr (fault_error x)], w)
           end
       | _ => (Ok [RErr eisdir], w)
       end) : M World reader).

(** [Path::exists]: an error is an absence. *)
Definition fs_exists (p : path) : M World bool :=
  r ← attempt (fs_metadata p);
  mret (is_ok r).

(** Opening an existing file for reading, and reading from an offset with a
    buffer of [cap] bytes. *)
Definition fs_open (p : path) : M World unit := syscall (do_stat p;; mret tt).
Definition fs_read_at (p : path) (off cap : nat) : M World bytes :=
  syscall (λ w, match fs w !! p with
                | Some (NFile f) => (Ok (take cap (drop off (f_data f))), w)
                | Some _ => (Err eisdir, w)
                | None => (Err enoent, w)
                end).
(** How much there is to read: bounds the read loops. *)
Definition file_size (p : path) (w : World) : nat :=
  match fs w !! p with Some (NFile f) => length (f_data f) | _ => O end.

(** [Path::display], from the components. *)
Definition show_path (p : path) : string :=
  match p with
  | "/" :: q => "/" +:+ String.concat "/" q
  | _ => String.concat "/" p
  end.

(** [getrandom::getrandom] into a buffer of [n] bytes, with the error mapped as
    every caller maps it: the next outcome in store.  An exhausted supply is a
    failure. *)
Definition getrandom (n : nat) : M World bytes := λ w,
  match rng w with
  | [] => (Err (anyhow "getrandom: no entropy"), w)
  | r :: l =>
      (match r with
       | Ok b => Ok (take n (b ++ replicate n x00))
       | Err e => Err (anyhow ("getrandom: " +:+ show_error e))
       end,
       mkWorld (fs w) (faults w) l (clock w) (pid w) (umask w))
  end.

(** [SystemTime::now()] in whole seconds since the epoch; the last reading repeats. *)
Definition now (w : World) : Z * World :=
  match clock w with
  | [] => (0, w)
  | [t] => (t, w)
  | t :: l => (t, mkWorld (fs w) (faults w) (rng w) l (pid w) (umask w))
  end.
Definition now_m : M World Z := λ w, let '(t, w) := now w in (Ok t, w).

(** ** [tokio::fs::File], opened for writing

    A write is handed to a background thread and reported as done; its failure
    is kept and surfaces at the next write or at [flush].  [sync_all] does not
    report it. *)
Record handle := mkHandle { h_path : path; h_stash : option error }.

Definition file_write_all (b : bytes) : M (handle * World) unit := λ '(h, w),
  match h_stash h with
  | Some e => (Err e, (mkHandle (h_path h) None, w))
  | None =>
      match fs_append (h_path h) b w with
      | (Ok _, w) => (Ok tt, (h, w))
      | (Err e, w) => (Ok tt, (mkHandle (h_path h) (Some e), w))
      end
  end.
Definition file_flush : M (handle * World) unit := λ '(h, w),
  match h_stash h with
  | Some e => (Err e, (mkHandle (h_path h) None, w))
  | None => (Ok tt, (h, w))
  end.
Definition file_sync_all : M (handle * World) unit := on_snd fs_sync.

#[global] Arguments file_write_all : simpl never.
#[global] Arguments file_flush : simpl never.
#[global] Arguments file_sync_all : simpl never.
#[global] Arguments fs_append : simpl never.
#[global] Arguments syscall : simpl never.

(** ** Lemmas *)

(** [w'] is a later world: part of the schedule, of the entropy and of the clock
    readings has been used up, and the process's own attributes have not changed. *)
Record later (w w' : World) : Prop := mkLater {
  later_faults : ∃ pre, faults w = pre ++ faults w';
  later_umask : umask w' = umask w;
  later_pid : pid w' = pid w;
  later_rng : rng w' `suffix_of` rng w;
  later_clock : clock w' `suffix_of` clock w
}.
(** The last outcome the run drew from the schedule was a fault. *)
Definition last_fault (w w' : World) : Prop := ∃ pre f, faults w = pre ++ Some f :: faults w'.

#[export] Instance later_preorder : PreOrder later.
Proof.
  split.
  - intros w. split; [by exists []|done..].
  - intros w1 w2 w3 [[p1 H1] U1 P1 R1 C1] [[p2 H2] U2 P2 R2 C2]. split; [|congruence..|by etrans|by etrans].
    exists (p1 ++ p2). by rewrite H1, H2, app_assoc.
Qed.
Lemma later_last w1 w2 w3 : later w1 w2 → last_fault w2 w3 → last_fault w1 w3.
Proof.
  intros [[p1 H1] _ _ _ _] (p2 & f & H2). exists (p1 ++ p2), f. by rewrite H1, H2, app_assoc.
Qed.
Lemma later_set_fs f w : later w (set_fs f w).
Proof. split; [by exists []|done..]. Qed.
Lemma later_set_faults o l w : faults w = o :: l → later w (set_faults l w).
Proof. intros H. split; [by exists [o]|done..]. Qed.
Lemma later_step o l f w : faults w = o :: l → later w (set_fs f (set_faults l w)).
Proof. intros H. split; [by exists [o]|done..]. Qed.
Lemma later_refl w : later w w.
Proof. reflexivity. Qed.
Lemma insert_self (m : gmap path node) p n : m !! p = Some n → m = <[p := n]> m.
Proof. intros E. symmetry. by apply insert_id. Qed.
#[export] Hint Resolve later_refl insert_self : egdod.
#[export] Hint Resolve later_set_fs later_set_faults later_step : egdod.

(** A system call either met a fault, and nothing else happened, or ran. *)
Lemma syscall_cases {A} (m : M World A) w :
  (∃ f w1, syscall m w = (Err (fault_error f), w1) ∧ fs w1 = fs w ∧ later w w1 ∧ last_fault w w1) ∨
  (∃ w1, syscall m w = m w1 ∧ fs w1 = fs w ∧ later w w1).
Proof.
  unfold syscall, next_fault. destruct (faults w) as [|[f|] l] eqn:E.
  - right. by exists w.
  - left. exists f, (set_faults l w). split_and!; eauto with egdod. by exists [], f.
  - right. exists (set_faults l w). split_and!; eauto with egdod.
Qed.

Lemma syscall_quiet {A} (m : M World A) w : faults w = [] → syscall m w = m w.
Proof. intros E. unfold syscall, next_fault. by rewrite E. Qed.

Lemma later_quiet w w' : later w w' → faults w = [] → faults w' = [].
Proof. intros [[pre H] _ _ _ _] E. rewrite E in H. symmetry in H. by apply app_nil in H as [_ ->]. Qed.

Lemma append_data_file p b m f :
  m !! p = Some (NFile f) →
  append_data p b m = <[p := NFile (mkFile (f_data f ++ b) (f_mode f))]> m.
Proof. intros E. unfold append_data. by rewrite E. Qed.

(** Appending to an existing file: everything, or a prefix and an error. *)
Lemma fs_append_file p b w f :
  fs w !! p = Some (NFile f) →
  ∃ d w1, fs w1 = <[p := NFile (mkFile (f_data f ++ d) (f_mode f))]> (fs w) ∧ later w w1 ∧
    ((d = b ∧ fs_append p b w = (Ok tt, w1)) ∨ (∃ e, fs_append p b w = (Err e, w1) ∧ last_fault w w1)).
Proof.
  intros Hf. unfold fs_append, next_fault. destruct (faults w) as [|[flt|] l] eqn:E.
  - exists b, (set_fs (append_data p b) w). split_and!; eauto with egdod.
    simpl. by apply append_data_file.
  - exists (take (flt_done flt) b), (set_fs (append_data p (take (flt_done flt) b)) (set_faults l w)).
    split_and!.
    + simpl. by apply append_data_file.
    + eauto with egdod.
    + right. eexists. split; [done|]. by exists [], flt.
  - exists b, (set_fs (append_data p b) (set_faults l w)). split_and!; eauto with egdod.
    simpl. by apply append_data_file.
Qed.

(** Directories made on the way to [dir]: they were absent, and lead to it. *)
Definition made_dir (dir : path) (w w' : World) (p : path) : Prop :=
  fs w !! p = None ∧ p `prefix_of` dir ∧ ∃ m, fs w' !! p = Some (NDir m).

Lemma do_mkdir_spec p w r w' :
  do_mkdir p w = (r, w') →
  later w w' ∧ (fs w' = fs w ∨ (fs w !! p = None ∧ ∃ m, fs w' = <[p := NDir m]> (fs w))).
Proof.
  unfold do_mkdir. intros H. repeat case_hyp H; simplify_eq/=; split; eauto with egdod; try reflexivity.
Qed.

Lemma mkdirs_spec done rest w r w' :
  mkdirs done rest w = (r, w') →
  later w w' ∧ ∀ p, fs w' !! p = fs w !! p ∨ made_dir (done ++ rest) w w' p.
Proof.
  revert done w. induction rest as [|c rest IH]; intros done w; simpl.
  - intros H. run_unfold. simplify_eq. split; [reflexivity|]. auto.
  - unfold mbind, M_bind.
    destruct (syscall_cases (do_mkdir (done ++ [c])) w)
      as [(f & w1 & -> & Hfs & Hl & _)|(w1 & -> & Hfs & Hl)].
    { intros H. simplify_eq. split; [done|]. intros p. left. by rewrite Hfs. }
    destruct (do_mkdir (done ++ [c]) w1) as [r2 w2] eqn:E.
    apply do_mkdir_spec in E as [Hl2 Hd].
    assert (Hstep : ∀ p, fs w2 !! p = fs w !! p ∨ made_dir (done ++ c :: rest) w w2 p).
    { intros p. rewrite <- Hfs. destruct Hd as [->|(Hn & m & Hm)]; [auto|]. rewrite Hm.
      destruct (decide (p = done ++ [c])) as [->|]; [|rewrite lookup_insert_ne by done; auto].
      right. split_and!.
      - by rewrite <- Hfs.
      - exists rest. by rewrite <- app_assoc.
      - exists m. by rewrite Hm, lookup_insert_eq. }
    destruct r2 as [[]|e].
    2:{ intros H. simplify_eq. split; [by etrans|]. auto. }
    intros H. apply IH in H as [Hl3 H]. split; [by rewrite Hl, Hl2, Hl3|].
    rewrite <- app_assoc in H. simpl in H.
    intros p. destruct (H p) as [Heq|(Hn & Hpre & Hm)].
    + destruct (Hstep p) as [<-|(Hn & Hpre & Hm)]; [by left|]. right.
      split_and!; auto. by rewrite Heq.
    + right. split_and!; auto. destruct (Hstep p) as [<-|(?&?&?)]; done.
Qed.

Lemma getrandom_spec n w r w' :
  getrandom n w = (r, w') →
  fs w' = fs w ∧ faults w' = faults w ∧ later w w' ∧ ∀ b, r = Ok b → length b = n.
Proof.
  unfold getrandom. destruct (rng w) as [|[b|e] l] eqn:Er; intros; simplify_eq/=;
    (split_and!; [done|done|split; simpl; [by exists []|done|done|rewrite ?Er; first [done|by eexists [_]]|done]|]);
    intros b' Hb; simplify_eq.
  rewrite length_take, length_app, length_replicate. lia.
Qed.

(** ** Without faults *)

Definition with_fs (m : gmap path node) (w : World) : World :=
  mkWorld m (faults w) (rng w) (clock w) (pid w) (umask w).

(** [w'] differs from [w] in the files only. *)
Definition same_env (w w' : World) : Prop := w' = with_fs (fs w') w.

#[export] Instance same_env_preorder : PreOrder same_env.
Proof.
  split; [by intros []|]. intros [] [] [] H1 H2. unfold same_env, with_fs in *. simpl in *. congruence.
Qed.
Lemma same_env_refl w : same_env w w.
Proof. reflexivity. Qed.
Lemma same_env_with_fs m w : same_env w (with_fs m w).
Proof. done. Qed.
Lemma same_env_set_fs f w : same_env w (set_fs f w).
Proof. done. Qed.
Lemma same_env_faults w w' : same_env w w' → faults w' = faults w.
Proof. by intros ->. Qed.
Lemma same_env_rng w w' : same_env w w' → rng w' = rng w.
Proof. by intros ->. Qed.
Lemma same_env_clock w w' : same_env w w' → clock w' = clock w.
Proof. by intros ->. Qed.
Lemma same_env_pid w w' : same_env w w' → pid w' = pid w.
Proof. by intros ->. Qed.
#[export] Hint Resolve same_env_refl same_env_with_fs same_env_set_fs : egdod.

Lemma is_dir_insert m w p n :
  fs m = <[p := n]> (fs w) → (∀ x, fs w !! p ≠ Some (NDir x)) → ∀ d, is_dir w d = true → is_dir m d = true.
Proof.
  intros E Hp d. unfold is_dir. rewrite E, !orb_true_iff. intros [?|Hd]; [by left|right].
  destruct (decide (d = p)) as [->|]; [|by rewrite lookup_insert_ne].
  destruct (fs w !! p) as [[]|] eqn:El; try done. by destruct (Hp mode).
Qed.

(** A missing or existing directory can be made, and is one afterwards. *)
Lemma do_mkdir_quiet p w :
  (fs w !! p = None ∨ ∃ m, fs w !! p = Some (NDir m)) →
  ∃ w', do_mkdir p w = (Ok tt, w') ∧ same_env w w' ∧ is_dir w' p = true ∧
    ∀ q, q ≠ p → fs w' !! q = fs w !! q.
Proof.
  intros Hp. unfold do_mkdir. destruct (is_dir w p) eqn:Ed; [by eauto 10 with egdod|].
  destruct Hp as [E|[m E]].
  - rewrite E. eexists. split_and!; [done..| |].
    + unfold is_dir. simpl. rewrite lookup_insert_eq. by rewrite orb_true_r.
    + intros q Hq. simpl. by rewrite lookup_insert_ne.
  - unfold is_dir in Ed. rewrite E, orb_true_r in Ed. done.
Qed.

Definition can_mkdirs (w : World) (done rest : path) : Prop :=
  ∀ k, k `prefix_of` rest → k ≠ [] →
     fs w !! (done ++ k) = None ∨ ∃ m, fs w !! (done ++ k) = Some (NDir m).

Lemma mkdirs_quiet done rest w :
  faults w = [] → can_mkdirs w done rest →
  ∃ w', mkdirs done rest w = (Ok tt, w') ∧ same_env w w' ∧
    (rest ≠ [] ∨ is_dir w done = true → is_dir w' (done ++ rest) = true).
Proof.
  revert done w. induction rest as [|c rest IH]; intros done w Hq Hd.
  { exists w. rewrite app_nil_r. split_and!; [done..|]. by intros [?|?]. }
  cbn [mkdirs]. unfold mbind, M_bind. rewrite syscall_quiet by done.
  destruct (do_mkdir_quiet (done ++ [c]) w) as (w1 & -> & He1 & Hdir & Hsame).
  { apply Hd; [|done]. by exists rest. }
  destruct (IH (done ++ [c]) w1) as (w2 & -> & He2 & Hdir2).
  { rewrite <- Hq. by apply same_env_faults. }
  { intros k Hk Hne. rewrite Hsame, <- app_assoc; [|].
    - apply Hd; [|done]. by apply prefix_cons.
    - intros E. rewrite <- (app_nil_r (done ++ [c])) in E at 2. by apply app_inv_head in E. }
  exists w2. split_and!; [done|by etrans|]. intros _. rewrite <- app_assoc in Hdir2. auto.
Qed.

(** A path that is free or holds a regular file. *)
Definition file_or_none (w : World) (p : path) : Prop :=
  match fs w !! p with None | Some (NFile _) => True | _ => False end.

Lemma fs_write_quiet p b w :
  faults w = [] → parent_ok w p = true → file_or_none w p →
  ∃ m, fs_write p b w = (Ok tt, with_fs (<[p := NFile (mkFile b m)]> (fs w)) w).
Proof.
  intros Hq Hp Hn. unfold file_or_none in Hn. unfold fs_write, mbind, M_bind.
  rewrite syscall_quiet by done. unfold do_open_truncate.
  destruct (fs w !! p) as [[f| |]|] eqn:E; [|done..|].
  - exists (f_mode f). unfold fs_append, next_fault. simpl. rewrite Hq. unfold set_fs, with_fs. simpl.
    do 2 f_equal. erewrite append_data_file by by rewrite lookup_insert_eq. by rewrite insert_insert_eq.
  - rewrite Hp. exists (Z.ldiff o666 (umask w)). unfold fs_append, next_fault. simpl. rewrite Hq.
    unfold set_fs, with_fs. simpl.
    do 2 f_equal. erewrite append_data_file by by rewrite lookup_insert_eq. by rewrite insert_insert_eq.
Qed.

Lemma fs_rename_quiet a b w n :
  faults w = [] → fs w !! a = Some n → (∀ m, fs w !! b ≠ Some (NDir m)) → parent_ok w b = true →
  fs_rename a b w = (Ok tt, with_fs (<[b := n]> (delete a (fs w))) w).
Proof.
  intros Hq Ha Hb Hp. unfold fs_rename. rewrite syscall_quiet by done. unfold do_rename. rewrite Ha, Hp.
  destruct (fs w !! b) as [[]|]; try done. by destruct (Hb mode).
Qed.

Lemma fs_read_quiet p w f :
  faults w = [] → fs w !! p = Some (NFile f) → fs_read p w = (Ok (f_data f), w).
Proof. intros Hq Hf. unfold fs_read. rewrite syscall_quiet by done. by rewrite Hf. Qed.
Lemma fs_read_none p w :
  faults w = [] → fs w !! p = None → fs_read p w = (Err enoent, w).
Proof. intros Hq Hf. unfold fs_read. rewrite syscall_quiet by done. by rewrite Hf. Qed.

(** Paths of a file directly below a directory. *)
Definition plain_name (x : string) : Prop := x ∉ ["/"; "."; ".."].
Lemma pop_snoc d (x : string) : pop (d ++ [x]) = d.
Proof.
  unfold pop. rewrite length_app. simpl. replace (length d + 1 - 1)%nat with (length d) by lia.
  by rewrite take_app_length.
Qed.
Lemma file_name_snoc d x : plain_name x → file_name (d ++ [x]) = Some x.
Proof. intros Hx. unfold file_name. rewrite last_snoc. by rewrite bool_decide_false. Qed.
Lemma with_file_name_snoc d x y : plain_name x → with_file_name (d ++ [x]) y = d ++ [y].
Proof. intros Hx. unfold with_file_name. by rewrite file_name_snoc, pop_snoc. Qed.
Lemma parent_snoc d x : plain_name x → parent (d ++ [x]) = Some d.
Proof.
  intros Hx. unfold parent. rewrite last_snoc, bool_decide_false, pop_snoc; [done|].
  unfold plain_name in Hx. set_solver.
Qed.
Lemma parent_ok_snoc w d x : plain_name x → parent_ok w (d ++ [x]) = is_dir w d.
Proof. intros Hx. unfold parent_ok. by rewrite parent_snoc. Qed.

Lemma dot_head {A} (l : list string) (a b : A) :
  match l with "." :: _ => a | _ => b end = if decide (head l = Some ".") then a else b.
Proof.
  destruct l as [|h l]; [done|]. simpl. case_decide as Hd; [by simplify_eq|].
  destruct h as [|[[] [] [] [] [] [] [] []] [|]]; try done.
Qed.

(** Naming a file by extending the text of a path gives another path. *)
Lemma parse_path_extend s c t :
  SLASH ∉ as_bytes c → (2 ≤ length (as_bytes c))%nat → parse_path (s +:+ (c +:+ t)) ≠ parse_path s.
Proof.
  intros Hc Hlen.
  assert (∃ tl more, split_on (byte_eqb SLASH) (as_bytes (c +:+ t)) = tl :: more ∧ (2 ≤ length tl)%nat)
    as (tl & more & E3 & Htl).
  { destruct (split_on_app (byte_eqb SLASH) (as_bytes c) (as_bytes t)) as (fr0 & l0 & f0 & more & E1 & _ & E3).
    rewrite split_on_none in E1 by (apply Forall_forall; intros x Hx; apply bool_decide_false; by intros <-).
    destruct fr0 as [|? [|]]; simplify_eq/=. rewrite as_bytes_app, E3. do 2 eexists. split; [done|].
    rewrite length_app. lia. }
  destruct (split_on_app (byte_eqb SLASH) (as_bytes s) (as_bytes (c +:+ t))) as (fr & l & f & more' & F1 & F2 & F3).
  rewrite E3 in F2. injection F2 as <- <-.
  set (F := filter (λ c, c ≠ "" ∧ c ≠ ".") : list string → list string).
  assert (Hnew : ∀ more, F (of_bytes (l ++ tl) :: more) = of_bytes (l ++ tl) :: F more).
  { intros m. unfold F. rewrite filter_cons, decide_True; [done|].
    split; intros E; apply (f_equal (length ∘ as_bytes)) in E; simpl in E;
      rewrite as_of_bytes, length_app in E; cbn in E; lia. }
  assert (Hlast : F (of_bytes <$> fr ++ (l ++ tl) :: more) ≠ F (of_bytes <$> fr ++ [l])).
  { rewrite !fmap_app. unfold F. rewrite !filter_app. intros E. apply app_inv_head in E.
    fold F in E. change (of_bytes <$> (l ++ tl) :: more) with (of_bytes (l ++ tl) :: (of_bytes <$> more)) in E.
    rewrite Hnew in E. simpl in E. unfold F in E. rewrite filter_cons in E. case_decide; [|done].
    injection E as E _. apply of_bytes_inj in E. apply (f_equal length) in E. rewrite length_app in E. lia. }
  assert (Hdot : of_bytes (l ++ tl) ≠ ".").
  { intros E. apply (f_equal (length ∘ as_bytes)) in E. simpl in E. rewrite as_of_bytes, length_app in E.
    cbn in E. lia. }
  unfold parse_path. rewrite !dot_head, F1, (as_bytes_app s), F3. fold F.
  destruct (as_bytes s) as [|x bs] eqn:Es; [|assert (Hsame : ∀ b, starts_with [SLASH] ((x :: bs) ++ b) = starts_with [SLASH] (x :: bs))].
  - simpl in F1. destruct fr as [|? [|]]; simplify_eq/=. rewrite (as_bytes_app c t).
    replace (starts_with [SLASH] (as_bytes c ++ as_bytes t)) with false.
    2:{ symmetry. unfold starts_with. apply bool_decide_false. intros [k Hk].
        destruct (as_bytes c) as [|y c']; [simpl in *; lia|]. simplify_eq/=. apply Hc. by left. }
    rewrite decide_False by congruence. by rewrite Hnew.
  - intros b. unfold starts_with. apply bool_decide_ext. split; intros [k Hk]; simplify_eq/=; by eexists.
  - rewrite Hsame. destruct (starts_with _ _); [by intros [= E]|].
    destruct fr as [|g fr].
    + change (head (of_bytes <$> [] ++ (l ++ tl) :: more)) with (Some (of_bytes (l ++ tl))).
      rewrite (decide_False (P := Some (of_bytes (l ++ tl)) = Some ".")) by congruence.
      change (of_bytes <$> [] ++ (l ++ tl) :: more) with (of_bytes (l ++ tl) :: (of_bytes <$> more)) in *.
      destruct (decide _); [|done]. rewrite Hnew. by intros [= E].
    + change (head (of_bytes <$> (g :: fr) ++ (l ++ tl) :: more)) with (Some (of_bytes g)).
      change (head (of_bytes <$> (g :: fr) ++ [l])) with (Some (of_bytes g)).
      destruct (decide _); [|done]. by intros [= E].
Qed.
