(* ===== verification/Crypto.v ===== *)
(** * The cryptographic crates, as parameters

    [sha2], [iroh]'s Ed25519 keys, [x25519-dalek] and [chacha20poly1305] are not
    part of the repository.  Each is a class of the entry points the sources
    call, with a second class of the documented laws a theorem may use, and a
    demonstration instance that satisfies the laws. *)

From S2P Require Import Prelude Text.

(** ** SHA-256, fed in pieces *)

Class Sha256 := {
  hasher : Type;
  sha_new : hasher;
  sha_update : hasher → bytes → hasher;
  sha_finalize : hasher → bytes
}.

(** [Digest::update] is streaming: feeding two pieces is feeding their
    concatenation, and a digest has 32 bytes. *)
Class Sha256Laws `{Sha256} : Prop := {
  sha_update_nil h : sha_update h [] = h;
  sha_update_app h a b : sha_update (sha_update h a) b = sha_update h (a ++ b);
  sha_length h : length (sha_finalize h) = 32%nat
}.

(** [Sha256::digest] *)
Definition sha256_of `{Sha256} (b : bytes) : bytes := sha_finalize (sha_update sha_new b).

Module DemoSha.
(** Remembers everything and answers with the first 32 bytes, padded. *)
Definition demo_finalize (h : bytes) : bytes := take 32 (h ++ replicate 32 x00).
#[export] Instance demo_sha : Sha256 := {
  hasher := bytes; sha_new := []; sha_update := app; sha_finalize := demo_finalize
}.
#[export] Instance demo_sha_laws : Sha256Laws.
Proof.
  constructor; simpl; intros.
  - apply app_nil_r.
  - by rewrite app_assoc.
  - unfold demo_finalize. rewrite length_take, length_app, length_replicate. lia.
Qed.
End DemoSha.

(** ** iroh's Ed25519 keys *)

Class IrohKeys := {
  PublicKey : Type;
  SecretKey : Type;
  #[global] PublicKey_eq_dec :: EqDecision PublicKey;
  sk_from_bytes : bytes → SecretKey;          (** [SecretKey::from_bytes], of 32 bytes *)
  sk_public : SecretKey → PublicKey;          (** [SecretKey::public] *)
  pk_to_string : PublicKey → string;          (** [Display] *)
  pk_parse : string → result PublicKey;       (** [FromStr] *)
  pk_as_bytes : PublicKey → bytes;            (** [PublicKey::as_bytes] *)
  pk_from_bytes : bytes → result PublicKey;   (** [PublicKey::from_bytes] *)
  sk_sign : SecretKey → bytes → bytes;        (** [sign(..).to_bytes()] *)
  pk_verify : PublicKey → bytes → bytes → result unit (** [verify(msg, sig)] *)
}.

(** A key prints as 64 hexadecimal digits and reads back; its 32 bytes determine
    it; a signature has 64 bytes and its key accepts it. *)
Class IrohKeysLaws `{IrohKeys} : Prop := {
  pk_parse_to_string k : pk_parse (pk_to_string k) = Ok k;
  pk_string_digits k : as_bytes (pk_to_string k) ≠ [] ∧
    Forall (λ b, is_ascii_hexdigit b = true) (as_bytes (pk_to_string k));
  pk_string_length k : length (as_bytes (pk_to_string k)) = 64%nat;
  pk_length k : length (pk_as_bytes k) = 32%nat;
  pk_from_as_bytes k : pk_from_bytes (pk_as_bytes k) = Ok k;
  sign_length s m : length (sk_sign s m) = 64%nat;
  verify_sign s m : pk_verify (sk_public s) m (sk_sign s m) = Ok tt
}.

Section keys.
Context `{IrohKeysLaws}.
Lemma pk_to_string_inj k1 k2 : pk_to_string k1 = pk_to_string k2 → k1 = k2.
Proof. intros E. pose proof (pk_parse_to_string k1) as P. rewrite E, pk_parse_to_string in P. by inv_eq. Qed.
Lemma pk_as_bytes_inj k1 k2 : pk_as_bytes k1 = pk_as_bytes k2 → k1 = k2.
Proof. intros E. pose proof (pk_from_as_bytes k1) as P. rewrite E, pk_from_as_bytes in P. by inv_eq. Qed.
End keys.

Module DemoKeys.
(** A key is 32 bytes, secret and public halves the same; a signature is the
    digest of key and message, twice. *)
Definition demo_key : Type := dsig (λ b : bytes, length b = 32%nat).
Lemma length_padded (b : bytes) : length (take 32 (b ++ replicate 32 x00)) = 32%nat.
Proof. rewrite length_take, length_app, length_replicate. lia. Qed.
Definition mk_key (b : bytes) : demo_key := dexist _ (length_padded b).
Definition key_bytes (k : demo_key) : bytes := `k.
Definition demo_sign (k : demo_key) (m : bytes) : bytes :=
  key_bytes k ++ DemoSha.demo_finalize m.
Definition key_of_hex (s : string) : result demo_key :=
  match unhex (as_bytes s) with
  | Some b => if bool_decide (length b = 32%nat) then Ok (mk_key b) else Err (anyhow "invalid key length")
  | None => Err (anyhow "invalid key encoding")
  end.
#[export] Instance demo_keys : IrohKeys := {
  PublicKey := demo_key; SecretKey := demo_key;
  sk_from_bytes := mk_key; sk_public := id;
  pk_to_string k := of_bytes (hex_bytes (key_bytes k));
  pk_parse := key_of_hex;
  pk_as_bytes := key_bytes;
  pk_from_bytes b := if bool_decide (length b = 32%nat) then Ok (mk_key b) else Err (anyhow "invalid key length");
  sk_sign := demo_sign;
  pk_verify k m s := if bool_decide (s = demo_sign k m) then Ok tt else Err (anyhow "invalid signature")
}.

Lemma length_key (k : demo_key) : length (key_bytes k) = 32%nat.
Proof. exact (proj2_dsig k). Qed.
Lemma mk_key_bytes (k : demo_key) : mk_key (key_bytes k) = k.
Proof.
  apply dsig_eq. change (take 32 (key_bytes k ++ replicate 32 x00) = key_bytes k).
  by rewrite take_app_length' by (symmetry; apply length_key).
Qed.
#[export] Instance demo_keys_laws : IrohKeysLaws.
Proof.
  constructor; simpl; intros.
  - unfold key_of_hex. rewrite as_of_bytes, unhex_hex.
    by rewrite bool_decide_true, mk_key_bytes by apply length_key.
  - rewrite as_of_bytes. split; [|eapply Forall_impl; [apply hex_chars|apply hex_char_digit]].
    intros E. pose proof (length_hex (key_bytes k)) as L. rewrite E, length_key in L. done.
  - by rewrite as_of_bytes, length_hex, length_key.
  - apply length_key.
  - by rewrite bool_decide_true, mk_key_bytes by apply length_key.
  - unfold demo_sign. rewrite length_app, length_key. unfold DemoSha.demo_finalize. by rewrite length_padded.
  - by rewrite bool_decide_true.
Qed.
End DemoKeys.

(** ** X25519 and ChaCha20-Poly1305 *)

(** A secret is the 32 random bytes it is made from. *)
Class BleCrypto := {
  x_public : bytes → bytes;            (** [XPublicKey::from(&secret).to_bytes()] *)
  x_dh : bytes → bytes → bytes;        (** [secret.diffie_hellman(&XPublicKey::from(b)).to_bytes()] *)
  aead_encrypt : bytes → bytes → bytes → bytes → option bytes;  (** key, nonce, aad, message *)
  aead_decrypt : bytes → bytes → bytes → bytes → option bytes
}.

(** Public keys have 32 bytes and the two ends agree on the shared secret; the
    cipher accepts every message of practical size, adds a tag of 16 bytes and
    is undone by decryption under the same key, nonce and associated data. *)
Class BleCryptoLaws `{BleCrypto} : Prop := {
  x_public_length s : length (x_public s) = 32%nat;
  x_dh_agree a b : x_dh a (x_public b) = x_dh b (x_public a);
  aead_correct k n aad m : zlen m ≤ u32_max →
    ∃ c, aead_encrypt k n aad m = Some c ∧ length c = (length m + 16)%nat ∧
         aead_decrypt k n aad c = Some m
}.

Module DemoBle.
Definition pad32 (b : bytes) : bytes := take 32 (b ++ replicate 32 x00).
Definition tag (k n aad m : bytes) : bytes :=
  le_bytes 16 (le_value k + le_value n + le_value aad + le_value m).
#[export] Instance demo_ble : BleCrypto := {
  x_public := pad32;
  x_dh a b := le_bytes 32 (le_value (pad32 a) + le_value (pad32 b));
  aead_encrypt k n aad m := Some (m ++ tag k n aad m);
  aead_decrypt k n aad c :=
    let m := take (length c - 16) c in
    if bool_decide (c = m ++ tag k n aad m) then Some m else None
}.
Lemma pad32_idem b : pad32 (pad32 b) = pad32 b.
Proof.
  unfold pad32 at 1. apply take_app_length'. symmetry. apply DemoKeys.length_padded.
Qed.
#[export] Instance demo_ble_laws : BleCryptoLaws.
Proof.
  constructor; simpl; intros.
  - apply DemoKeys.length_padded.
  - by rewrite !pad32_idem, Z.add_comm.
  - eexists. split; [done|]. unfold tag. rewrite length_app, length_le_bytes. split; [done|].
    rewrite Nat.add_sub, take_app_length, bool_decide_true; done.
Qed.
End DemoBle.
