(* ===== verification/Hash.v ===== *)
(** * SHA-256 as FIPS 180-4 defines it

    The classes of Crypto.v leave the hash abstract.  This instance is the hash
    the [sha2] crate documents, so that what the program derives from a key can
    be computed and compared with the vector its tests carry.  The constants are
    computed from their definition: the first 32 bits of the fractional parts of
    the square and cube roots of the first primes. *)

From S2P Require Import Prelude Text Crypto.

(** ** Words of 32 bits *)

Definition w32 (z : Z) : Z := Z.land z u32_max.
Definition rotr (n x : Z) : Z := w32 (Z.lor (Z.shiftr x n) (Z.shiftl x (32 - n))).
Definition shr (n x : Z) : Z := Z.shiftr x n.
Definition Ch (x y z : Z) : Z := Z.lxor (Z.land x y) (Z.ldiff z x).
Definition Maj (x y z : Z) : Z := Z.lxor (Z.land x y) (Z.lxor (Z.land x z) (Z.land y z)).
Definition Sum0 (x : Z) : Z := Z.lxor (rotr 2 x) (Z.lxor (rotr 13 x) (rotr 22 x)).
Definition Sum1 (x : Z) : Z := Z.lxor (rotr 6 x) (Z.lxor (rotr 11 x) (rotr 25 x)).
Definition sigma0 (x : Z) : Z := Z.lxor (rotr 7 x) (Z.lxor (rotr 18 x) (shr 3 x)).
Definition sigma1 (x : Z) : Z := Z.lxor (rotr 17 x) (Z.lxor (rotr 19 x) (shr 10 x)).

(** ** Constants *)

Definition is_prime (n : nat) : bool := forallb (λ d, negb (Nat.eqb (n mod d) 0)) (seq 2 (n - 2)).
Definition primes : list Z := Z.of_nat <$> filter (λ n, is_prime n = true) (seq 2 310).
(** The largest [r] below [2 ^ bits] with [r ^ 3 ≤ n], bit by bit. *)
Fixpoint cbrt_bits (bits : nat) (r n : Z) : Z :=
  match bits with
  | O => r
  | S bits =>
      let r' := Z.setbit r (Z.of_nat bits) in
      cbrt_bits bits (if r' ^ 3 <=? n then r' else r) n
  end.
Definition H0 : list Z := Eval vm_compute in (λ p, w32 (Z.sqrt (p * 2 ^ 64))) <$> take 8 primes.
Definition K : list Z := Eval vm_compute in (λ p, w32 (cbrt_bits 40 0 (p * 2 ^ 96))) <$> take 64 primes.

(** ** Padding and parsing *)

(** A one bit, zeros up to 56 bytes modulo 64, the length in bits. *)
Definition pad (m : bytes) : bytes :=
  m ++ [x80] ++ replicate (Z.to_nat ((55 - zlen m) mod 64)) x00 ++ be_bytes 8 (8 * zlen m).
Fixpoint chunks (n : nat) (fuel : nat) (b : bytes) : list bytes :=
  match fuel with
  | O => []
  | S fuel => match b with [] => [] | _ => take n b :: chunks n fuel (drop n b) end
  end.
Definition blocks_of (b : bytes) : list bytes := chunks 64 (length b) b.
Definition words_of (b : bytes) : list Z := be_value <$> chunks 4 (length b) b.

(** ** Compression *)

(** The message schedule, last word first. *)
Fixpoint extend (n : nat) (w : list Z) : list Z :=
  match n with
  | O => w
  | S n =>
      extend n (w32 (sigma1 (nth 1 w 0) + nth 6 w 0 + sigma0 (nth 14 w 0) + nth 15 w 0) :: w)
  end.
Definition schedule (block : bytes) : list Z := reverse (extend 48 (reverse (words_of block))).

Record working := mkWorking { wa : Z; wb : Z; wc : Z; wd : Z; we : Z; wf : Z; wg : Z; wh : Z }.
Definition round (s : working) (kw : Z * Z) : working :=
  let '(mkWorking a b c d e f g h) := s in
  let t1 := h + Sum1 e + Ch e f g + kw.1 + kw.2 in
  let t2 := Sum0 a + Maj a b c in
  mkWorking (w32 (t1 + t2)) a b c (w32 (d + t1)) e f g.
Definition words_in (s : working) : list Z := [wa s; wb s; wc s; wd s; we s; wf s; wg s; wh s].
Definition working_of (l : list Z) : working :=
  mkWorking (nth 0 l 0) (nth 1 l 0) (nth 2 l 0) (nth 3 l 0) (nth 4 l 0) (nth 5 l 0) (nth 6 l 0) (nth 7 l 0).
Definition compress (h : working) (block : bytes) : working :=
  let s := foldl round h (zip K (schedule block)) in
  mkWorking (w32 (wa h + wa s)) (w32 (wb h + wb s)) (w32 (wc h + wc s)) (w32 (wd h + wd s))
    (w32 (we h + we s)) (w32 (wf h + wf s)) (w32 (wg h + wg s)) (w32 (wh h + wh s)).
Definition sha256_digest (m : bytes) : bytes :=
  words_in (foldl compress (working_of H0) (blocks_of (pad m))) ≫= be_bytes 4.

(** ** The instance *)

Lemma length_words (s : working) : length (words_in s ≫= be_bytes 4) = 32%nat.
Proof. unfold words_in. cbn -[be_bytes]. by rewrite !length_app, !length_be_bytes. Qed.
(** Padding fills whole blocks, so no byte of the message is left out. *)
Lemma length_pad m : zlen (pad m) mod 64 = 0.
Proof.
  unfold pad, zlen. rewrite !length_app, length_replicate, length_be_bytes. cbn [length].
  pose proof (Z.mod_pos_bound (55 - Z.of_nat (length m)) 64 ltac:(lia)) as Hb.
  rewrite !Nat2Z.inj_add, Z2Nat.id by lia. set (n := Z.of_nat (length m)) in *. change (Z.of_nat 8) with 8.
  pose proof (Z.div_mod (55 - n) 64 ltac:(lia)) as Hd.
  replace (_ + _) with ((1 - (55 - n) / 64) * 64) by lia. apply Z_mod_mult.
Qed.

#[export] Instance fips_sha256 : Sha256 := {
  hasher := bytes; sha_new := []; sha_update := app; sha_finalize := sha256_digest
}.
#[export] Instance fips_sha256_laws : Sha256Laws.
Proof. split; [intros h; apply app_nil_r|intros h a b; symmetry; apply app_assoc|intros h; apply length_words]. Qed.

(** The standard's examples. *)
Example digest_of_nothing :
  of_bytes (hex_bytes (sha256_digest [])) = "e3b0c44298fc1c149afbf4c8996fb92427ae41e4649b934ca495991b7852b855".
Proof. vm_compute. reflexivity. Qed.
Example digest_of_abc :
  of_bytes (hex_bytes (sha256_digest (as_bytes "abc"))) = "ba7816bf8f01cfea414140de5dae2223b00361a396177a9cb410ff61f20015ad".
Proof. vm_compute. reflexivity. Qed.
Example digest_of_two_blocks :
  of_bytes (hex_bytes (sha256_digest (as_bytes "abcdbcdecdefdefgefghfghighijhijkijkljklmklmnlmnomnopnopq"))) =
  "248d6a61d20638b8e5c026930c3e6039a33ce45964ff2167f6ecedd419db06c1".
Proof. vm_compute. reflexivity. Qed.
