(* ===== verification/Proto.v ===== *)
(** * The wire format: messages, framing and the exec receiver (src/src/proto.rs)

    The codec crate ([postcard]) is a parameter: the class [Postcard] names its
    two entry points and [PostcardLaws] the documented round trip.  Everything
    else of the framing is translated. *)

From S2P Require Import Prelude Stream.

(** ** Constants *)

Definition ALPN : bytes := as_bytes "egdod/1".
Definition PROBE_ALPN : bytes := as_bytes "egdod-probe/0".
Definition PROBE_PING : bytes := as_bytes "egdod-ping".
Definition PROBE_PONG : bytes := as_bytes "egdod-alive".
Definition MAX_MSG : Z := Z.shiftl 1 20.
Definition CHUNK : Z := 64 * 1024.

(** ** Messages *)

Inductive Admission := Pending | Approved.

Inductive Request :=
  | Exec (argv : list string)
  | Push (path : string) (mode : Z) (len : Z) (sha256 : bytes)
  | Pull (path : string)
  | Forward (addr : string).

Inductive ExecFrame :=
  | Stdout (b : bytes)
  | Stderr (b : bytes)
  | Exit (code : Z)
  | Failed (msg : string)
  | Truncated.

Inductive Ack := AckOk | AckErr (msg : string).

Inductive PullStart :=
  | PullOk (mode : Z) (len : Z) (sha256 : bytes)
  | PullMissing
  | PullErr (msg : string).

Record Route := mkRoute { route_agent : string }.

Inductive PathKind := DirectLocal | DirectLan | DirectWan | Relayed | Unknown.

Inductive RouteReply :=
  | RouteOk (agent : string) (path : PathKind) (remote : string)
  | RouteErr (msg : string).

#[export] Instance Admission_eq_dec : EqDecision Admission.
Proof. solve_decision. Defined.
#[export] Instance Request_eq_dec : EqDecision Request.
Proof. solve_decision. Defined.
#[export] Instance ExecFrame_eq_dec : EqDecision ExecFrame.
Proof. solve_decision. Defined.
#[export] Instance Ack_eq_dec : EqDecision Ack.
Proof. solve_decision. Defined.
#[export] Instance PullStart_eq_dec : EqDecision PullStart.
Proof. solve_decision. Defined.
#[export] Instance PathKind_eq_dec : EqDecision PathKind.
Proof. solve_decision. Defined.
#[export] Instance RouteReply_eq_dec : EqDecision RouteReply.
Proof. solve_decision. Defined.

(** [impl Display for PathKind] *)
Definition show_path_kind (p : PathKind) : string :=
  match p with
  | DirectLocal => "direct-local"
  | DirectLan => "direct-lan"
  | DirectWan => "direct-wan"
  | Relayed => "relayed"
  | Unknown => "unknown"
  end.

(** ** The codec crate, as a parameter *)

Class Postcard (T : Type) := {
  to_allocvec : T → result bytes;
  from_bytes : bytes → result T
}.

(** What postcard documents: decoding what was encoded gives it back. *)
Class PostcardLaws (T : Type) `{Postcard T} : Prop := {
  postcard_roundtrip (x : T) b : to_allocvec x = Ok b → from_bytes b = Ok x
}.

(** [u32::try_from(n)], and [expect] on an option: a panic is an error the
    caller never handles. *)
Definition u32_try_from (n : Z) : option Z :=
  if bool_decide (0 ≤ n ≤ u32_max) then Some n else None.
Definition panic (msg : string) : error := mkError None ["panicked: " +:+ msg].
Definition expect {S A} (o : option A) (msg : string) : M S A :=
  match o with Some a => mret a | None => fail (panic msg) end.

Section framing.
Context {T : Type} `{Postcard T}.

Definition write_msg (msg : T) : M writer unit :=
  body ← lift (context "encoding message" (to_allocvec msg));
  ensure (bool_decide (zlen body ≤ MAX_MSG)) ("message too large: " +:+ pretty (zlen body));;
  len ← expect (u32_try_from (zlen body)) "checked against MAX_MSG above";
  write_all (le_bytes 4 len);;
  write_all body;;
  flush;;
  mret tt.

Definition read_msg_opt : M reader (option T) := λ r,
  match read_exact 4 r with
  | (Err e, r') =>
      if bool_decide (e_io e = Some UnexpectedEof) then (Ok None, r')
      else (Err (add_context "reading message length" e), r')
  | (Ok len, r') =>
      (let len := le_value len in
       ensure (bool_decide (len ≤ MAX_MSG))
         ("peer announced an oversized message: " +:+ pretty len);;
       body ← with_context "reading message" (read_exact (Z.to_nat len));
       msg ← lift (context "decoding message" (from_bytes body));
       mret (Some msg)) r'
  end.

Definition read_msg : M reader T :=
  o ← read_msg_opt;
  match o with
  | Some msg => mret msg
  | None => fail (anyhow "peer closed the stream before sending a message")
  end.
End framing.

Definition finish : M writer unit :=
  flush;;
  shutdown;;
  mret tt.

(** The bytes [write_msg] puts on the wire for an encoded body. *)
Definition frame (body : bytes) : bytes := le_bytes 4 (zlen body) ++ body.

(** ** Framing lemmas *)

Section framing_lemmas.
Context {T : Type} `{PostcardLaws T}.
Implicit Types (msg : T) (r : reader) (w : writer).

Lemma MAX_MSG_u32 : MAX_MSG < u32_max.
Proof. done. Qed.

(** What a successful [write_msg] did, on any writer. *)
Lemma write_msg_ok msg w w' :
  write_msg msg w = (Ok tt, w') →
  ∃ body, to_allocvec msg = Ok body ∧ zlen body ≤ MAX_MSG ∧
          w_out w' = w_out w ++ frame body.
Proof.
  unfold write_msg. run_unfold. destruct (to_allocvec msg) as [body|e]; [|done].
  case_bool_decide as Hmax; [|done].
  unfold u32_try_from. pose proof MAX_MSG_u32. pose proof (zlen_nonneg body).
  rewrite bool_decide_true by lia. simpl. run_unfold.
  destruct (write_all (le_bytes 4 (zlen body)) w) as [[[]|e] w1] eqn:E1; [|by intros].
  destruct (write_all body w1) as [[[]|e] w2] eqn:E2; [|by intros].
  apply write_all_ok in E1 as [E1 _]. apply write_all_ok in E2 as [E2 _].
  unfold flush. destruct (w_flush_err w2); intros Hw; simplify_eq.
  exists body. split_and!; auto. unfold frame. by rewrite E2, E1, <- app_assoc.
Qed.

(** On a healthy stream [write_msg] succeeds exactly on messages that fit. *)
Lemma write_msg_healthy msg w body :
  healthy w → to_allocvec msg = Ok body → zlen body ≤ MAX_MSG →
  write_msg msg w = (Ok tt, mkWriter (w_out w ++ frame body) None None false).
Proof.
  intros Hw Hb Hmax. unfold write_msg. run_unfold. rewrite Hb.
  rewrite bool_decide_true by done.
  unfold u32_try_from. pose proof MAX_MSG_u32. pose proof (zlen_nonneg body).
  rewrite bool_decide_true by lia. simpl. run_unfold.
  rewrite write_all_healthy by done. rewrite write_all_healthy by done. simpl.
  by rewrite <- app_assoc.
Qed.

(** A length prefix read back. *)
Lemma frame_prefix (body : bytes) : zlen body ≤ MAX_MSG → le_value (le_bytes 4 (zlen body)) = zlen body.
Proof.
  intros. apply le_value_bytes. pose proof (zlen_nonneg body). pose proof MAX_MSG_u32.
  unfold u32_max in *. change (256 ^ Z.of_nat 4) with 4294967296. lia.
Qed.

(** Reading one frame off a stream cut into chunks in any way. *)
Lemma read_msg_opt_frame msg body rest r :
  clean r → to_allocvec msg = Ok body → zlen body ≤ MAX_MSG →
  rd_bytes r = frame body ++ rest →
  ∃ r', clean r' ∧ rd_bytes r' = rest ∧ read_msg_opt r = (Ok (Some msg), r').
Proof.
  intros Hc Hb Hmax Hr. unfold frame in Hr. rewrite <- app_assoc in Hr.
  destruct (read_exact_clean 4 r _ _ Hc Hr (length_le_bytes _ _)) as (r1 & E1 & Hc1 & Hr1).
  destruct (read_exact_clean (length body) r1 _ _ Hc1 Hr1 eq_refl) as (r2 & E2 & Hc2 & Hr2).
  exists r2. split_and!; auto.
  unfold read_msg_opt. rewrite E1, frame_prefix by done. run_unfold.
  rewrite bool_decide_true by done.
  unfold zlen. rewrite Nat2Z.id, E2.
  by rewrite (postcard_roundtrip _ _ Hb).
Qed.

(** End of stream before a whole length prefix. *)
Lemma read_msg_opt_eof r :
  clean r → (length (rd_bytes r) < 4)%nat → read_msg_opt (T := T) r = (Ok None, []).
Proof. intros Hc Hn. unfold read_msg_opt. by rewrite read_exact_short. Qed.

(** A message takes at least its length prefix off the stream. *)
Lemma read_msg_opt_shrinks r msg r' :
  read_msg_opt r = (Ok (Some msg), r') →
  ∃ body, from_bytes body = Ok msg ∧ zlen body ≤ MAX_MSG ∧
    (length (rd_bytes r) = 4 + length body + length (rd_bytes r'))%nat.
Proof.
  unfold read_msg_opt. destruct (read_exact 4 r) as [[len|e] r1] eqn:E1; intros Hr;
    [|case_bool_decide; by simplify_eq]. run_unfold.
  case_bool_decide as Hmax; simplify_eq/=.
  destruct (read_exact _ r1) as [[body|e] r2] eqn:E2; simplify_eq/=.
  destruct (from_bytes body) as [m|e] eqn:E3; simplify_eq/=.
  apply read_exact_shrinks in E1 as [L1 E1]. apply read_exact_shrinks in E2 as [L2 E2].
  pose proof (le_value_range len).
  exists body. split_and!; auto.
  - unfold zlen. lia.
  - rewrite E1, E2, !length_app. lia.
Qed.
End framing_lemmas.

(** ** The receiver of a command's frames *)

Section exec_receiver.
Context `{Postcard ExecFrame}.

(** The stream the frames come from, and the two sinks. *)
Definition exec_io : Type := reader * (writer * writer).

(** The payload of an output frame, as [if let Stdout(b) | Stderr(b)] binds it. *)
Definition frame_payload (f : ExecFrame) : option bytes :=
  match f with Stdout b | Stderr b => Some b | _ => None end.

(** The [while let] loop.  [None] is out of fuel; [recv_exec_output] gives it
    enough.  The result carries [code] and [truncated]. *)
Fixpoint recv_exec_loop (fuel : nat) (max : Z) (code : option Z) (truncated : bool) (got : Z)
    (io : exec_io) : option (result (option Z * bool) * exec_io) :=
  match fuel with
  | O => None
  | S fuel =>
      let '(r, (out, err)) := io in
      match read_msg_opt r with
      | (Err e, r) => Some (Err e, (r, (out, err)))
      | (Ok None, r) => Some (Ok (code, truncated), (r, (out, err)))
      | (Ok (Some f), r) =>
          let got := match frame_payload f with
                     | Some b => u64_add got (zlen b) | None => got end in
          if bool_decide (is_Some (frame_payload f) ∧ ¬ got ≤ max) then
            Some (Err (anyhow ("target sent more than the " +:+ pretty max
                                 +:+ "-byte exec output ceiling")), (r, (out, err)))
          else
          match f with
          | Stdout b =>
              match write_all b out with
              | (Err e, out) => Some (Err e, (r, (out, err)))
              | (Ok _, out) => recv_exec_loop fuel max code truncated got (r, (out, err))
              end
          | Stderr b =>
              match write_all b err with
              | (Err e, err) => Some (Err e, (r, (out, err)))
              | (Ok _, err) => recv_exec_loop fuel max code truncated got (r, (out, err))
              end
          | Exit c => recv_exec_loop fuel max (Some c) truncated got (r, (out, err))
          | Failed e => Some (Err (anyhow ("exec failed on the target: " +:+ e)), (r, (out, err)))
          | Truncated => recv_exec_loop fuel max code true got (r, (out, err))
          end
      end
  end.

Definition out_of_fuel : error := mkError None ["out of fuel"].

(** The exit status, with whether the truncation warning was logged. *)
Definition recv_exec_output (max : Z) : M exec_io (Z * bool) := λ io,
  match recv_exec_loop (S (length (rd_bytes io.1))) max None false 0 io with
  | None => (Err out_of_fuel, io)
  | Some (Err e, io) => (Err e, io)
  | Some (Ok (code, truncated), io) =>
      (on_snd (on_fst flush);;
       on_snd (on_snd flush);;
       match code with
       | Some c => mret (c, truncated)
       | None => fail (anyhow "agent closed the stream without reporting an exit status")
       end) io
  end.

(** What a sequence of frames says: its two outputs and its last status. *)
Definition frame_out (f : ExecFrame) : bytes := match f with Stdout b => b | _ => [] end.
Definition frame_err (f : ExecFrame) : bytes := match f with Stderr b => b | _ => [] end.
Definition exec_stdout (fs : list ExecFrame) : bytes := fs ≫= frame_out.
Definition exec_stderr (fs : list ExecFrame) : bytes := fs ≫= frame_err.
Definition exec_status (code : option Z) (fs : list ExecFrame) : option Z :=
  foldl (λ c f, match f with Exit n => Some n | _ => c end) code fs.
Definition exec_truncated (t : bool) (fs : list ExecFrame) : bool :=
  foldl (λ t f, match f with Truncated => true | _ => t end) t fs.
Definition not_failed (f : ExecFrame) : Prop :=
  match f with Failed _ => False | _ => True end.

(** [bs] is what [write_msg] emits for the messages [fs], one after another. *)
Inductive wire {T} `{Postcard T} : list T → bytes → Prop :=
  | wire_nil : wire [] []
  | wire_cons f fs body bs :
      to_allocvec f = Ok body → zlen body ≤ MAX_MSG → wire fs bs →
      wire (f :: fs) (frame body ++ bs).
End exec_receiver.

Section exec_lemmas.
Context `{PostcardLaws ExecFrame}.
Implicit Types (fs : list ExecFrame) (r : reader) (out err : writer).

(** The fuel is the number of bytes left: every frame costs at least four. *)
Lemma recv_exec_loop_total fuel max code t got r out err :
  (length (rd_bytes r) < fuel)%nat →
  is_Some (recv_exec_loop fuel max code t got (r, (out, err))).
Proof.
  revert code t got r out err.
  induction fuel as [|fuel IH]; intros code t got r out err Hf; [lia|]. simpl.
  destruct (read_msg_opt r) as [[[f|]|e] r'] eqn:E; [|done..].
  apply read_msg_opt_shrinks in E as (body & _ & _ & E).
  case_bool_decide; [done|].
  destruct f; try done; try (apply IH; lia).
  - destruct (write_all b out) as [[]]; [apply IH; lia|done].
  - destruct (write_all b err) as [[]]; [apply IH; lia|done].
Qed.

Lemma wire_length fs bs : wire fs bs → (length fs ≤ length bs)%nat.
Proof.
  induction 1 as [|f fs body bs _ _ _ IH]; [simpl; lia|].
  unfold frame. rewrite length_cons, !length_app, length_le_bytes. lia.
Qed.

Lemma exec_out_cons f fs : exec_stdout (f :: fs) = frame_out f ++ exec_stdout fs.
Proof. done. Qed.
Lemma exec_err_cons f fs : exec_stderr (f :: fs) = frame_err f ++ exec_stderr fs.
Proof. done. Qed.

Lemma u64_add_small a b : 0 ≤ a → 0 ≤ b → a + b ≤ u64_max → u64_add a b = a + b.
Proof. intros. unfold u64_add. apply Z.mod_small. lia. Qed.

(** The loop on a well-formed sequence of frames within the ceiling. *)
Lemma recv_exec_loop_frames fuel max code t got fs bs r out err :
  wire fs bs → clean r → rd_bytes r = bs → Forall not_failed fs →
  healthy out → healthy err → (length fs < fuel)%nat → 0 ≤ got → max ≤ u64_max →
  got + zlen (exec_stdout fs) + zlen (exec_stderr fs) ≤ max →
  recv_exec_loop fuel max code t got (r, (out, err)) =
    Some (Ok (exec_status code fs, exec_truncated t fs),
          ([], (mkWriter (w_out out ++ exec_stdout fs) None None false,
                mkWriter (w_out err ++ exec_stderr fs) None None false))).
Proof.
  intros Hw. revert fuel code t got r out err.
  induction Hw as [|f fs body bs Hb Hmax Hw IH];
    intros fuel code t got r out err Hc Hr Hnf Ho He Hfuel Hgot Hu Hceil;
    (destruct fuel as [|fuel]; [simpl in Hfuel; lia|]); simpl in Hfuel.
  - simpl. rewrite read_msg_opt_eof by (auto; by rewrite Hr; simpl; lia).
    destruct out as [? ? ? ?], err as [? ? ? ?].
    destruct Ho as (?&?&?), He as (?&?&?). simpl in *. subst. by rewrite !app_nil_r.
  - apply Forall_cons in Hnf as [Hf Hnf]. rewrite exec_out_cons, exec_err_cons, !zlen_app in Hceil.
    pose proof (zlen_nonneg (exec_stdout fs)). pose proof (zlen_nonneg (exec_stderr fs)).
    destruct (read_msg_opt_frame f body bs r) as (r' & Hc' & Hr' & E); auto.
    rewrite exec_out_cons, exec_err_cons. simpl. rewrite E.
    destruct f as [b|b|c|m|]; cbn [frame_payload frame_out frame_err not_failed] in *; try done;
      rewrite ?zlen_nil in Hceil; try pose proof (zlen_nonneg b);
      rewrite ?u64_add_small by lia; rewrite bool_decide_false by (intros [[? ?] ?]; done || lia);
      rewrite ?write_all_healthy by done;
      (rewrite IH by (auto; done || lia)); simpl; by rewrite <- ?app_assoc.
Qed.

(** Documented of postcard: a byte vector is carried verbatim in the body, so
    the payload of a decoded frame is no longer than the body it came from. *)
Definition payload_within_body : Prop :=
  ∀ body f b, from_bytes body = Ok f → frame_payload f = Some b → zlen b ≤ zlen body.

(** Whatever arrives, what the sinks took stays within [max]. *)
Lemma recv_exec_loop_bound fuel max code t got r out err res r' out' err' :
  payload_within_body → max + MAX_MSG ≤ u64_max → 0 ≤ got ≤ max →
  recv_exec_loop fuel max code t got (r, (out, err)) = Some (res, (r', (out', err'))) →
  zlen (w_out out') + zlen (w_out err') ≤ zlen (w_out out) + zlen (w_out err) + (max - got).
Proof.
  intros Hpay Hu. revert code t got r out err.
  induction fuel as [|fuel IH]; intros code t got r out err Hgot; [done|]. simpl.
  destruct (read_msg_opt r) as [[[f|]|e] r1] eqn:E; [|intros; simplify_eq; lia..].
  apply read_msg_opt_shrinks in E as (body & Hb & Hmax & _).
  assert (Hstep : ∀ b, frame_payload f = Some b → u64_add got (zlen b) = got + zlen b).
  { intros b Hf. specialize (Hpay _ _ _ Hb Hf). pose proof (zlen_nonneg b).
    apply u64_add_small; lia. }
  case_bool_decide as Hd; [intros; simplify_eq; lia|].
  assert (Hw : ∀ b w w1 x, frame_payload f = Some b → ¬ ¬ u64_add got (zlen b) ≤ max →
    write_all b w = (x, w1) →
    0 ≤ u64_add got (zlen b) ≤ max ∧ zlen (w_out w1) + (max - u64_add got (zlen b)) ≤
      zlen (w_out w) + (max - got)).
  { intros b w w1 x Hf Hd' Ew. rewrite Hstep in * by done. pose proof (zlen_nonneg b).
    pose proof (write_all_zlen b w). rewrite Ew in *. simpl in *. lia. }
  destruct f as [b|b|c|m|]; cbn [frame_payload] in *.
  - destruct (write_all b out) as [[x|e] w'] eqn:Ew; intros Hl;
      apply Hw in Ew; auto; [apply IH in Hl; lia|simplify_eq; lia].
  - destruct (write_all b err) as [[x|e] w'] eqn:Ew; intros Hl;
      apply Hw in Ew; auto; [apply IH in Hl; lia|simplify_eq; lia].
  - intros Hl. apply IH in Hl; lia.
  - intros; simplify_eq; lia.
  - intros Hl. apply IH in Hl; lia.
Qed.
End exec_lemmas.

(** ** A codec that satisfies the laws

    Not postcard's format: one tag byte and the payload.  It shows that the
    hypotheses above can hold and lets the examples evaluate. *)
Module DemoCodec.
Definition bad : error := anyhow "demo codec".

Definition put_i32 (c : Z) : result bytes :=
  if bool_decide (- 2 ^ 31 ≤ c < 2 ^ 31) then Ok (le_bytes 4 (c mod 2 ^ 32)) else Err bad.
Definition get_i32 (b : bytes) : result Z :=
  if bool_decide (length b = 4%nat) then
    let z := le_value b in Ok (if bool_decide (z < 2 ^ 31) then z else z - 2 ^ 32)
  else Err bad.

Lemma i32_roundtrip c b : put_i32 c = Ok b → get_i32 b = Ok c.
Proof.
  unfold put_i32, get_i32. case_bool_decide as Hc; intros; simplify_eq.
  rewrite length_le_bytes, bool_decide_true by done.
  assert (0 ≤ c mod 2 ^ 32 < 2 ^ 32) by (apply Z.mod_pos_bound; lia).
  rewrite le_value_bytes by (change (256 ^ Z.of_nat 4) with (2 ^ 32); done).
  f_equal. destruct (decide (0 ≤ c)).
  - rewrite Z.mod_small, bool_decide_true; lia.
  - replace (c mod 2 ^ 32) with (c + 2 ^ 32) by (apply Z.mod_unique with (-1); lia).
    rewrite bool_decide_false; lia.
Qed.

#[export] Instance demo_ExecFrame : Postcard ExecFrame := {
  to_allocvec f := match f with
    | Stdout b => Ok (x00 :: b)
    | Stderr b => Ok (x01 :: b)
    | Exit c => match put_i32 c with Ok b => Ok (x02 :: b) | Err e => Err e end
    | Failed m => Ok (x03 :: as_bytes m)
    | Truncated => Ok [x04]
    end;
  from_bytes b := match b with
    | x00 :: b => Ok (Stdout b)
    | x01 :: b => Ok (Stderr b)
    | x02 :: b => match get_i32 b with Ok c => Ok (Exit c) | Err e => Err e end
    | x03 :: b => Ok (Failed (of_bytes b))
    | [x04] => Ok Truncated
    | _ => Err bad
    end
}.
#[export] Instance demo_ExecFrame_laws : PostcardLaws ExecFrame.
Proof.
  constructor. intros [b|b|c|m|] bs; simpl; intros E; simplify_eq; try done.
  - destruct (put_i32 c) eqn:Hc; simplify_eq/=. by rewrite (i32_roundtrip _ _ Hc).
  - by rewrite of_as_bytes.
Qed.
Lemma demo_ExecFrame_payload : payload_within_body.
Proof.
  intros body f b. destruct body as [|t body]; [done|]. rewrite zlen_cons.
  destruct t; simpl; intros E Hf; simplify_eq/=; try lia;
    repeat (case_hyp E; simplify_eq/=); done.
Qed.

#[export] Instance demo_Ack : Postcard Ack := {
  to_allocvec a := match a with AckOk => Ok [x00] | AckErr m => Ok (x01 :: as_bytes m) end;
  from_bytes b := match b with
    | [x00] => Ok AckOk
    | x01 :: b => Ok (AckErr (of_bytes b))
    | _ => Err bad
    end
}.
#[export] Instance demo_Ack_laws : PostcardLaws Ack.
Proof. constructor. intros [|m] bs; simpl; intros; simplify_eq; by rewrite ?of_as_bytes. Qed.
End DemoCodec.

(** ** Properties *)

(** An empty stream holds no message. *)
Lemma read_msg_empty {T} `{Postcard T} (r : reader) : clean r → rd_bytes r = [] → is_err (read_msg (T := T) r).1 = true.
Proof.
  intros Hc Hr. assert (E : read_msg_opt (T := T) r = (Ok None, [])).
  { unfold read_msg_opt. by rewrite read_exact_short by (auto; rewrite Hr; simpl; lia). }
  unfold read_msg. run_unfold. by rewrite E.
Qed.
(** On a fresh stream a message is sent whole, or nothing is. *)
Lemma write_msg_new {T} `{Postcard T} (msg : T) :
  (∃ body, to_allocvec msg = Ok body ∧ write_msg msg new_writer = (Ok tt, mkWriter (frame body) None None false)) ∨
  (∃ e, write_msg msg new_writer = (Err e, new_writer)).
Proof.
  destruct (to_allocvec msg) as [body|e] eqn:Eb.
  - destruct (decide (zlen body ≤ MAX_MSG)).
    + left. exists body. split; [done|]. by rewrite (write_msg_healthy msg new_writer body).
    + right. unfold write_msg. run_unfold. rewrite Eb. rewrite bool_decide_false by done. eauto.
  - right. unfold write_msg. run_unfold. rewrite Eb. eauto.
Qed.

(** A written message, read back. *)
Lemma read_written {T} `{PostcardLaws T} (msg : T) (w w' : writer) (r : reader) (rest : bytes) :
  write_msg msg w = (Ok tt, w') → clean r → w_out w ++ rd_bytes r = w_out w' ++ rest →
  ∃ r', read_msg r = (Ok msg, r') ∧ clean r' ∧ rd_bytes r' = rest.
Proof.
  intros Hw Hc Hr. apply write_msg_ok in Hw as (body & Hb & Hmax & Hout).
  rewrite Hout, <- app_assoc in Hr. apply app_inv_head in Hr.
  destruct (read_msg_opt_frame msg body rest r) as (r' & ? & ? & E); auto.
  exists r'. unfold read_msg. run_unfold. by rewrite E.
Qed.

(** C28: a message written with [write_msg] is read back by [read_msg] as the
    same message, however the transport cuts the bytes into chunks, and exactly
    what followed it is left on the stream. *)
Theorem msg_roundtrip {T} `{PostcardLaws T} (msg : T) (w w' : writer) (r : reader) (rest : bytes) :
  write_msg msg w = (Ok tt, w') → clean r → w_out w ++ rd_bytes r = w_out w' ++ rest →
  ∃ r', read_msg r = (Ok msg, r') ∧ clean r' ∧ rd_bytes r' = rest.
Proof. apply read_written. Qed.

(** The frames of a command, received. *)
Lemma recv_frames `{PostcardLaws ExecFrame} (fs : list ExecFrame) (bs : bytes) (r : reader)
    (out err : writer) (max code : Z) :
  wire fs bs → clean r → rd_bytes r = bs → Forall not_failed fs →
  exec_status None fs = Some code → healthy out → healthy err →
  zlen (exec_stdout fs) + zlen (exec_stderr fs) ≤ max → max ≤ u64_max →
  recv_exec_output max (r, (out, err)) =
    (Ok (code, exec_truncated false fs),
     ([], (mkWriter (w_out out ++ exec_stdout fs) None None false,
           mkWriter (w_out err ++ exec_stderr fs) None None false))).
Proof.
  intros Hw Hc Hr Hnf Hs Ho He Hceil Hu. unfold recv_exec_output. simpl fst.
  pose proof (wire_length _ _ Hw). subst bs.
  rewrite (recv_exec_loop_frames _ _ _ _ _ fs (rd_bytes r)) by (auto; lia).
  rewrite Hs. done.
Qed.

(** The frames of a command, sent with [write_msg] and cut into chunks in
    any way, reach the two sinks whole and in order, with the last exit status
    and the truncation mark, whenever no frame reports a failure to run and the
    output fits the ceiling. *)
Theorem exec_output_whole `{PostcardLaws ExecFrame} (fs : list ExecFrame) (bs : bytes) (r : reader)
    (out err : writer) (max code : Z) :
  wire fs bs → clean r → rd_bytes r = bs → Forall not_failed fs →
  exec_status None fs = Some code → healthy out → healthy err →
  zlen (exec_stdout fs) + zlen (exec_stderr fs) ≤ max → max ≤ u64_max →
  recv_exec_output max (r, (out, err)) =
    (Ok (code, exec_truncated false fs),
     ([], (mkWriter (w_out out ++ exec_stdout fs) None None false,
           mkWriter (w_out err ++ exec_stderr fs) None None false))).
Proof. by apply recv_frames. Qed.

(** C29: whatever bytes arrive (malformed, endless, interrupted by errors), the
    receive loop comes to an end within its fuel, and the two sinks together
    took at most [max] bytes. *)
Theorem exec_output_ceiling `{PostcardLaws ExecFrame} (max : Z) (r : reader) (out err : writer) :
  payload_within_body → 0 ≤ max → max + MAX_MSG ≤ u64_max →
  is_Some (recv_exec_loop (S (length (rd_bytes r))) max None false 0 (r, (out, err))) ∧
  let '(_, (_, (out', err'))) := recv_exec_output max (r, (out, err)) in
  zlen (w_out out') + zlen (w_out err') ≤ zlen (w_out out) + zlen (w_out err) + max.
Proof.
  intros Hpay Hm Hu. split; [apply recv_exec_loop_total; lia|].
  unfold recv_exec_output. simpl fst.
  destruct (recv_exec_loop _ _ _ _ _ _) as [[res [r' [out' err']]]|] eqn:E; [|lia].
  apply recv_exec_loop_bound in E; [|done|done|lia].
  destruct res as [[code t]|e]; [|lia].
  run_unfold. unfold flush. destruct (w_flush_err out'); simpl; [lia|].
  destruct (w_flush_err err'); simpl; [lia|]. destruct code; simpl; lia.
Qed.

(** C30: a message over [MAX_MSG] is refused on both sides before any of it
    moves: [write_msg] writes nothing, and [read_msg_opt] takes the announced
    length off the stream and nothing more. *)
Theorem oversized_refused {T} `{Postcard T} (w : writer) (msg : T) (body : bytes)
    (r : reader) (prefix rest : bytes) :
  to_allocvec msg = Ok body → MAX_MSG < zlen body →
  clean r → rd_bytes r = prefix ++ rest → length prefix = 4%nat → MAX_MSG < le_value prefix →
  write_msg msg w = (Err (anyhow ("message too large: " +:+ pretty (zlen body))), w) ∧
  ∃ r', read_msg_opt (T := T) r =
          (Err (anyhow ("peer announced an oversized message: " +:+ pretty (le_value prefix))), r') ∧
        clean r' ∧ rd_bytes r' = rest.
Proof.
  intros Hb Hbig Hc Hr Hl Hp. split.
  - unfold write_msg. run_unfold. rewrite Hb, bool_decide_false by lia. done.
  - destruct (read_exact_clean 4 r _ _ Hc Hr Hl) as (r' & E & Hc' & Hr').
    exists r'. split; [|done]. unfold read_msg_opt. rewrite E. run_unfold.
    by rewrite bool_decide_false by lia.
Qed.

(** A stream cut inside a length prefix (one to three bytes of it) is
    reported exactly like a clean end of stream: [read_msg_opt] returns [None]
    and [read_msg] the "peer closed" error, with the partial prefix discarded. *)
Theorem cut_prefix_reads_as_eof {T} `{Postcard T} (r : reader) :
  clean r → (0 < length (rd_bytes r) < 4)%nat →
  read_msg_opt (T := T) r = (Ok None, []) ∧ read_msg_opt (T := T) [] = (Ok None, []) ∧
  read_msg (T := T) r = (Err (anyhow "peer closed the stream before sending a message"), []).
Proof.
  intros Hc Hn. assert (E : read_msg_opt (T := T) r = (Ok None, [])).
  { unfold read_msg_opt. by rewrite read_exact_short by (auto; lia). }
  split_and!; [done|done|]. unfold read_msg. run_unfold. by rewrite E.
Qed.

(** ** Examples *)

Section examples.
Import DemoCodec.

Lemma msg_roundtrip_witness :
  ∃ r', read_msg (T := Ack) [RData [x05; x00]; RData [x00; x00; x01; x6e]; RData [x6f; x70; x65; xff]]
        = (Ok (AckErr "nope"), r') ∧ clean r' ∧ rd_bytes r' = [xff].
Proof.
  apply (msg_roundtrip (AckErr "nope") new_writer
           (mkWriter [x05; x00; x00; x00; x01; x6e; x6f; x70; x65] None None false));
    [vm_compute; reflexivity | repeat constructor | vm_compute; reflexivity].
Defined.

Definition demo_frames : list ExecFrame :=
  [Stdout (as_bytes "hi"); Stderr (as_bytes "e"); Stdout (as_bytes "!"); Truncated; Exit 3].
Definition demo_wire : bytes :=
  frame (x00 :: as_bytes "hi") ++ frame (x01 :: as_bytes "e") ++ frame (x00 :: as_bytes "!") ++
  frame [x04] ++ frame [x02; x03; x00; x00; x00] ++ [].

Lemma demo_wire_ok : wire demo_frames demo_wire.
Proof. repeat (apply wire_cons; [vm_compute; reflexivity | vm_compute; done |]). apply wire_nil. Qed.

Lemma exec_output_whole_witness :
  recv_exec_output 4 ([RData (take 7 demo_wire); RData (drop 7 demo_wire)], (new_writer, new_writer)) =
    (Ok (3, true), ([], (mkWriter (as_bytes "hi!") None None false,
                         mkWriter (as_bytes "e") None None false))).
Proof.
  apply (exec_output_whole demo_frames demo_wire); try done.
  - apply demo_wire_ok.
  - repeat constructor.
  - repeat constructor.
Defined.

Lemma exec_output_ceiling_witness :
  is_Some (recv_exec_loop (S (length (rd_bytes [RData demo_wire]))) 2 None false 0
             ([RData demo_wire], (new_writer, new_writer))) ∧
  let '(_, (_, (out', err'))) := recv_exec_output 2 ([RData demo_wire], (new_writer, new_writer)) in
  zlen (w_out out') + zlen (w_out err') ≤ 0 + 0 + 2.
Proof.
  apply (exec_output_ceiling 2 [RData demo_wire] new_writer new_writer);
    [apply demo_ExecFrame_payload | lia | vm_compute; done].
Defined.

Definition demo_big : bytes := replicate (Z.to_nat MAX_MSG) x61.

Lemma oversized_refused_witness :
  write_msg (Stdout demo_big) new_writer =
    (Err (anyhow ("message too large: " +:+ pretty (zlen (x00 :: demo_big)))), new_writer) ∧
  ∃ r', read_msg_opt (T := ExecFrame) [RData [x01; x00]; RData [x10; x00; x07]] =
          (Err (anyhow ("peer announced an oversized message: "
                          +:+ pretty (le_value [x01; x00; x10; x00]))), r') ∧
        clean r' ∧ rd_bytes r' = [x07].
Proof.
  apply (oversized_refused new_writer (Stdout demo_big) (x00 :: demo_big)
           [RData [x01; x00]; RData [x10; x00; x07]] [x01; x00; x10; x00] [x07]).
  - reflexivity.
  - unfold zlen, demo_big. rewrite length_cons, length_replicate, Nat2Z.inj_succ, Z2Nat.id by done.
    lia.
  - repeat constructor.
  - reflexivity.
  - reflexivity.
  - vm_compute. reflexivity.
Defined.

Lemma cut_prefix_reads_as_eof_witness :
  read_msg_opt (T := Ack) [RData [x05; x00]] = (Ok None, []) ∧
  read_msg_opt (T := Ack) [] = (Ok None, []) ∧
  read_msg (T := Ack) [RData [x05; x00]] =
    (Err (anyhow "peer closed the stream before sending a message"), []).
Proof. apply (cut_prefix_reads_as_eof [RData [x05; x00]]); [repeat constructor | vm_compute; lia]. Defined.
End examples.
