(* ===== verification/Transfer.v ===== *)
(** * File transfer: the copy primitive (src/src/proto.rs)

    Hashing and sending a file, and receiving one into a staging file that is
    renamed over the destination only after length and digest were verified. *)

From S2P Require Import Prelude Text Stream Fs Crypto Proto.

(** [rustix::fs::statvfs], a service of the operating system. *)
Record Statvfs := mkStatvfs { f_blocks : Z; f_bfree : Z; f_frsize : Z }.
Class StatvfsCall := statvfs : path → result Statvfs.

Section transfer.
Context `{Sha256} `{StatvfsCall}.

Definition mode_of (mode : Z) : Z := Z.land mode o7777.

(** The read loop of [stat_and_hash]; one fuel unit per chunk, and the file's
    length is enough. *)
Fixpoint hash_loop (fuel : nat) (p : path) (off : nat) (h : hasher) (len : Z) : M World (Z * hasher) :=
  match fuel with
  | O => fail out_of_fuel
  | S fuel =>
      buf ← fs_read_at p off (Z.to_nat CHUNK);
      match buf with
      | [] => mret (len, h)
      | _ => hash_loop fuel p (off + length buf) (sha_update h buf) (u64_add len (zlen buf))
      end
  end.

Definition stat_and_hash (p : path) : M World (Z * Z * bytes) :=
  with_context ("opening " +:+ show_path p) (fs_open p);;
  meta ← fs_metadata p;
  mode ← match meta with
         | NFile f => mret (mode_of (f_mode f))
         | _ => fail (anyhow (show_path p +:+ " is not a regular file"))
         end;
  fuel ← gets (λ w, S (file_size p w));
  lh ← hash_loop fuel p 0 sha_new 0;
  mret (mode, lh.1, sha_finalize lh.2).

Fixpoint send_loop (fuel : nat) (p : path) (off : nat) : M (writer * World) unit :=
  match fuel with
  | O => fail out_of_fuel
  | S fuel =>
      buf ← on_snd (fs_read_at p off (Z.to_nat CHUNK));
      match buf with
      | [] => mret tt
      | _ => on_fst (write_all buf);; send_loop fuel p (off + length buf)
      end
  end.

Definition send_file_body (p : path) : M (writer * World) unit :=
  on_snd (with_context ("opening " +:+ show_path p) (fs_open p));;
  fuel ← gets (λ ww, S (file_size p ww.2));
  send_loop fuel p 0;;
  on_fst flush;;
  mret tt.

Definition set_mode (p : path) (mode : Z) : M World unit :=
  with_context ("setting mode on " +:+ show_path p) (fs_set_permissions p mode).

Definition ensure_free_space (dir : path) (len : Z) : M World unit :=
  s ← lift (context ("statvfs " +:+ show_path dir) (statvfs dir));
  if bool_decide (f_blocks s = 0) then mret tt else
  let free := saturating_mul_u64 (f_bfree s) (f_frsize s) in
  ensure (bool_decide (len ≤ free))
    ("peer declared " +:+ pretty len +:+ " bytes but the filesystem holding " +:+ show_path dir
       +:+ " has " +:+ pretty free +:+ " free").

(** [proto::hex] *)
Definition hex (b : bytes) : string := of_bytes (hex_bytes b).

Fixpoint create_part_loop (n : nat) (dest : path) (base : string) : M World (path * handle) :=
  match n with
  | O => fail (anyhow ("could not create a staging file next to " +:+ show_path dest))
  | S n =>
      nonce ← getrandom 8;
      let tmp := with_file_name dest (base +:+ (".egdod-part." +:+ hex nonce)) in
      r ← attempt (fs_create_new tmp o600);
      match r with
      | Ok _ => mret (tmp, mkHandle tmp None)
      | Err e =>
          if bool_decide (e_io e = Some AlreadyExists) then create_part_loop n dest base
          else fail (add_context ("creating " +:+ show_path tmp) e)
      end
  end.
Definition create_part_file (dest : path) : M World (path * handle) :=
  base ← expect (file_name dest) "checked by the caller";
  create_part_loop 8 dest base.

(** The receive loop: [Some] of the outcome, the hasher, the count and what is
    left of the stream, the open file and the world. *)
Fixpoint recv_body_loop (fuel : nat) (len : Z) (h : hasher) (got : Z) (r : reader) (out : handle)
    (w : World) : option (result unit * hasher * Z * reader * handle * World) :=
  match fuel with
  | O => None
  | S fuel =>
      match read (Z.to_nat CHUNK) r with
      | (Err e, r) => Some (Err (add_context "reading file body" e), h, got, r, out, w)
      | (Ok [], r) => Some (Ok tt, h, got, r, out, w)
      | (Ok buf, r) =>
          let h := sha_update h buf in
          let got := u64_add got (zlen buf) in
          if bool_decide (len < got) then
            Some (Err (anyhow ("peer sent more than the announced " +:+ pretty len +:+ " bytes")),
                  h, got, r, out, w)
          else
          match file_write_all buf (out, w) with
          | (Err e, (out, w)) => Some (Err (add_context "writing file body" e), h, got, r, out, w)
          | (Ok _, (out, w)) => recv_body_loop fuel len h got r out w
          end
      end
  end.

(** The [verdict] closure: the loop's error first, then the flush's, then length
    and digest. *)
Definition recv_verdict (outcome flushed : result unit) (got len : Z) (h : hasher) (sha256 : bytes) :
    result unit :=
  match outcome, flushed with
  | Err e, _ => Err e
  | Ok _, Err e => Err e
  | Ok _, Ok _ =>
      if bool_decide (got = len) then
        if bool_decide (sha_finalize h = sha256) then Ok tt else Err (anyhow "sha256 mismatch")
      else Err (anyhow ("expected " +:+ pretty len +:+ " bytes, got " +:+ pretty got))
  end.

(** Everything after the staging file exists: receive, flush and sync, verdict,
    and then either remove the staging file or set its mode and rename it. *)
Definition recv_staged (tmp : path) (out : handle) (dest : path) (len : Z) (sha256 : bytes) (mode : Z) :
    M (reader * World) unit := λ '(r, w),
  match recv_body_loop (S (length (rd_bytes r))) len sha_new 0 r out w with
  | None => (Err out_of_fuel, (r, w))
  | Some (outcome, h, got, r, out, w) =>
      let '(flushed, (_, w)) := (file_flush;; file_sync_all) (out, w) in
      match recv_verdict outcome flushed got len h sha256 with
      | Err e => let '(_, w) := ignore (fs_remove_file tmp) w in (Err e, (r, w))
      | Ok _ =>
          let '(landed, w) :=
            (set_mode tmp mode;;
             with_context ("renaming into " +:+ show_path dest) (fs_rename tmp dest)) w in
          if is_err landed
          then let '(_, w) := ignore (fs_remove_file tmp) w in (landed, (r, w))
          else (landed, (r, w))
      end
  end.

Definition dest_dir (dest : path) : path :=
  match parent dest with
  | Some p => if bool_decide (p = []) then ["."] else p
  | None => ["."]
  end.

(** Everything before the staging file is open: nothing is read from the stream. *)
Definition recv_prepare (dest : path) (len max : Z) : M World (path * handle) :=
  ensure (bool_decide (len ≤ max))
    ("peer declared " +:+ pretty len +:+ " bytes, over the " +:+ pretty max +:+ "-byte ceiling");;
  ensure (bool_decide (is_Some (file_name dest))) (show_path dest +:+ " is not a file path");;
  let dir := dest_dir dest in
  with_context ("creating " +:+ show_path dir) (fs_create_dir_all dir);;
  ensure_free_space dir len;;
  create_part_file dest.

Definition recv_file_body (dest : path) (len : Z) (sha256 : bytes) (mode max : Z) :
    M (reader * World) unit :=
  part ← on_snd (recv_prepare dest len max);
  recv_staged part.1 part.2 dest len sha256 mode.
End transfer.

(** ** Lemmas on the receiver *)

Section receiver.
Context `{Sha256Laws} `{StatvfsCall}.
Implicit Types (r : reader) (w : World) (out : handle).

(** The loop ends: every chunk shortens the stream. *)
Lemma recv_body_loop_total fuel len h got r out w :
  (length (rd_bytes r) < fuel)%nat → is_Some (recv_body_loop fuel len h got r out w).
Proof.
  revert h got r out w. induction fuel as [|fuel IH]; intros h got r out w Hf; [lia|]. simpl.
  destruct (read (Z.to_nat CHUNK) r) as [[[|x buf]|e] r1] eqn:E; [done| |done].
  apply read_shrinks in E. rewrite E in Hf. rewrite length_app in Hf. simpl in Hf.
  case_bool_decide; [done|].
  destruct (file_write_all (x :: buf) (out, w)) as [[[]|e] [out1 w1]]; [apply IH; lia|done].
Qed.

(** A write through an open file touches that file only; it reports a failure
    kept from an earlier write, and keeps its own. *)
Lemma file_write_all_spec b out w d m res out' w' :
  file_write_all b (out, w) = (res, (out', w')) →
  fs w !! h_path out = Some (NFile (mkFile d m)) →
  ∃ d', h_path out' = h_path out ∧ later w w' ∧
    fs w' = <[h_path out := NFile (mkFile d' m)]> (fs w) ∧
    (is_Some (h_stash out) → is_err res = true) ∧
    (res = Ok tt → h_stash out' = None → d' = d ++ b).
Proof.
  unfold file_write_all. intros E Hf. destruct (h_stash out) as [e|] eqn:Hs.
  - simplify_eq. exists d. split_and!; eauto with egdod; done.
  - destruct (fs_append_file (h_path out) b w _ Hf)
      as (d1 & w1 & Hfs & Hl & [[-> E1]|(e & E1 & _)]); rewrite E1 in E; simplify_eq/=.
    + exists (d ++ b). split_and!; auto; done.
    + exists (d ++ d1). split_and!; auto; done.
Qed.

(** The loop touches the staging file only.  If it ends well, the whole stream
    was hashed, and it is in the file unless a failure is still being kept. *)
Lemma recv_body_loop_spec fuel len h got r out w d m outcome h' got' r' out' w' :
  recv_body_loop fuel len h got r out w = Some (outcome, h', got', r', out', w') →
  fs w !! h_path out = Some (NFile (mkFile d m)) →
  ∃ d', h_path out' = h_path out ∧ later w w' ∧
    fs w' = <[h_path out := NFile (mkFile d' m)]> (fs w) ∧
    (outcome = Ok tt →
       rd_bytes r' = [] ∧ h' = sha_update h (rd_bytes r) ∧
       (0 ≤ got → got + zlen (rd_bytes r) ≤ u64_max → got' = got + zlen (rd_bytes r)) ∧
       (is_Some (h_stash out) → is_Some (h_stash out')) ∧
       (h_stash out = None → h_stash out' = None → d' = d ++ rd_bytes r)).
Proof.
  revert h got r out w d. induction fuel as [|fuel IH]; intros h got r out w d; [done|]. simpl.
  destruct (read (Z.to_nat CHUNK) r) as [[[|x buf]|e] r1] eqn:E; intros Hl Hf.
  - simplify_eq. exists d. split_and!; eauto with egdod.
    apply read_eof in E as [E ->]; [|unfold CHUNK; lia].
    intros _. rewrite !E. rewrite sha_update_nil, app_nil_r.
    split_and!; auto; unfold zlen; simpl; lia.
  - apply read_shrinks in E. case_bool_decide.
    { simplify_eq. exists d. split_and!; eauto with egdod; done. }
    destruct (file_write_all (x :: buf) (out, w)) as [res [out1 w1]] eqn:Ew.
    destruct (file_write_all_spec _ _ _ _ _ _ _ _ Ew Hf) as (d1 & Hp & Hl1 & Hfs & Hs & Hd).
    destruct res as [[]|e].
    2:{ simplify_eq. exists d1. split_and!; auto; done. }
    apply IH with (d := d1) in Hl; [|by rewrite Hp, Hfs, lookup_insert_eq].
    destruct Hl as (d2 & Hp2 & Hl2 & Hfs2 & Hok). exists d2. rewrite Hp in *.
    split_and!; [done|by etrans|by rewrite Hfs2, Hfs, insert_insert_eq|].
    intros Ho. destruct (Hok Ho) as (Hr & Hh & Hg & Hst & Hd2). rewrite E, zlen_app.
    split_and!; auto.
    + rewrite Hh. by rewrite sha_update_app.
    + intros ? Hu. pose proof (zlen_nonneg (x :: buf)). pose proof (zlen_nonneg (rd_bytes r1)).
      rewrite u64_add_small in Hg by lia. rewrite Hg by lia. lia.
    + intros Hsome. by specialize (Hs Hsome).
    + intros Hn1 Hn2. destruct (h_stash out1) as [e1|] eqn:Hst1.
      { destruct Hst as [e2 He2]; [done|]. congruence. }
      rewrite Hd2, Hd by done. by rewrite <- app_assoc.
  - simplify_eq. exists d. split_and!; eauto with egdod; done.
Qed.

Lemma flush_sync_spec out w res out' w' :
  (file_flush;; file_sync_all) (out, w) = (res, (out', w')) →
  fs w' = fs w ∧ later w w' ∧ (res = Ok tt → h_stash out = None).
Proof.
  unfold mbind, M_bind, file_flush, file_sync_all, on_snd. destruct (h_stash out) as [e|]; simpl.
  { intros; by simplify_eq. }
  destruct (syscall_cases (mret tt : M World unit) w)
    as [(f & w1 & E & Hfs & Hl & _)|(w1 & E & Hfs & Hl)];
    unfold fs_sync; rewrite E; intros; simplify_eq/=; auto.
Qed.

(** Removing the staging file fails only if that very call meets a fault. *)
Lemma remove_staged_spec tmp w f u w' :
  fs w !! tmp = Some (NFile f) → ignore (fs_remove_file tmp) w = (u, w') →
  later w w' ∧ (fs w' = delete tmp (fs w) ∨ (fs w' = fs w ∧ last_fault w w')).
Proof.
  intros Hf. unfold ignore, fs_remove_file.
  destruct (syscall_cases (do_remove_file tmp) w)
    as [(flt & w1 & E & Hfs & Hl & Hlast)|(w1 & E & Hfs & Hl)]; rewrite E; simpl.
  - intros; simplify_eq/=. auto.
  - unfold do_remove_file. rewrite Hfs, Hf. intros; simplify_eq/=.
    split; [etrans; eauto with egdod|left; by rewrite Hfs].
Qed.

(** Mode and rename: both happen, or the destination is as it was. *)
Lemma land_spec tmp dest mode msg w d m res w' :
  fs w !! tmp = Some (NFile (mkFile d m)) →
  (set_mode tmp mode;; with_context msg (fs_rename tmp dest)) w = (res, w') →
  later w w' ∧
  ((res = Ok tt ∧ fs w' = <[dest := NFile (mkFile d (Z.land mode o7777))]> (delete tmp (fs w))) ∨
   (is_err res = true ∧ ∃ m', fs w' = <[tmp := NFile (mkFile d m')]> (fs w))).
Proof.
  intros Hf. unfold mbind, M_bind, set_mode, with_context, fs_set_permissions, fs_rename.
  destruct (syscall_cases (do_chmod tmp mode) w)
    as [(flt & w1 & E & Hfs & Hl & _)|(w1 & E & Hfs & Hl)]; rewrite E; simpl.
  { intros; simplify_eq/=. split; [done|]. right. split; [done|]. exists m. rewrite Hfs.
    eauto with egdod. }
  unfold do_chmod. rewrite Hfs, Hf. simpl.
  set (w2 := set_fs _ w1). assert (Hl2 : later w w2) by (etrans; [exact Hl|apply later_set_fs]).
  assert (Hf2 : fs w2 = <[tmp := NFile (mkFile d (Z.land mode o7777))]> (fs w)) by (simpl; by rewrite Hfs).
  clearbody w2. clear E.
  destruct (syscall_cases (do_rename tmp dest) w2)
    as [(flt & w3 & E & Hfs3 & Hl3 & _)|(w3 & E & Hfs3 & Hl3)]; rewrite E; simpl.
  { intros; simplify_eq/=. split; [by etrans|]. right. split; [done|]. exists (Z.land mode o7777).
    by rewrite Hfs3. }
  assert (Hl4 : later w w3) by by etrans.
  assert (Herr : ∃ m', fs w3 = <[tmp := NFile (mkFile d m')]> (fs w)).
  { exists (Z.land mode o7777). by rewrite Hfs3. }
  unfold do_rename. rewrite Hfs3, Hf2, lookup_insert_eq.
  repeat case_goal; intros; simplify_eq/=; (split; [etrans; [exact Hl4|eauto with egdod]|]);
    eauto; left; split; auto; by rewrite Hfs3, Hf2, delete_insert_eq.
Qed.

Lemma recv_verdict_ok outcome flushed got len h sha u :
  recv_verdict outcome flushed got len h sha = Ok u →
  outcome = Ok tt ∧ flushed = Ok tt ∧ got = len ∧ sha_finalize h = sha.
Proof.
  unfold recv_verdict. destruct outcome as [[]|], flushed as [[]|]; try done.
  repeat case_bool_decide; done.
Qed.

(** What the second half of the receiver does to the file system. *)
Lemma recv_staged_spec tmp dest len sha mode r w m res r' w' :
  fs w !! tmp = Some (NFile (mkFile [] m)) →
  recv_staged tmp (mkHandle tmp None) dest len sha mode (r, w) = (res, (r', w')) →
  later w w' ∧
  match res with
  | Ok _ =>
      sha256_of (rd_bytes r) = sha ∧ (zlen (rd_bytes r) ≤ u64_max → zlen (rd_bytes r) = len) ∧
      fs w' = <[dest := NFile (mkFile (rd_bytes r) (Z.land mode o7777))]> (delete tmp (fs w))
  | Err _ => fs w' = delete tmp (fs w) ∨ (∃ n, fs w' = <[tmp := n]> (fs w) ∧ last_fault w w')
  end.
Proof.
  intros Hf. unfold recv_staged.
  destruct (recv_body_loop _ _ _ _ _ _ _) as [[[[[[outcome h] got] r1] out1] w1]|] eqn:El.
  2:{ destruct (recv_body_loop_total (S (length (rd_bytes r))) len sha_new 0 r (mkHandle tmp None) w)
        as [? E]; [lia|]. by rewrite E in El. }
  destruct (recv_body_loop_spec _ _ _ _ _ _ _ _ _ _ _ _ _ _ _ El Hf) as (d & Hp & Hl1 & Hfs1 & Hok).
  simpl in Hfs1.
  destruct ((file_flush;; file_sync_all) (out1, w1)) as [flushed [out2 w2]] eqn:Ef.
  apply flush_sync_spec in Ef as (Hfs2 & Hl2 & Hst).
  assert (Hf2 : fs w2 !! tmp = Some (NFile (mkFile d m))) by (by rewrite Hfs2, Hfs1, lookup_insert_eq).
  assert (Hl : later w w2) by by etrans.
  assert (Herr : ∀ w3 u w4 n, later w w3 → fs w3 = <[tmp := n]> (fs w) → (∃ f, n = NFile f) →
    ignore (fs_remove_file tmp) w3 = (u, w4) → later w w4 ∧
    (fs w4 = delete tmp (fs w) ∨ (∃ n, fs w4 = <[tmp := n]> (fs w) ∧ last_fault w w4))).
  { intros w3 u w4 n Hl3 Hfs3 [f ->] Er.
    destruct (remove_staged_spec tmp w3 f u w4) as [Hl4 Hcase]; [by rewrite Hfs3, lookup_insert_eq|done|].
    split; [by etrans|]. destruct Hcase as [->|[-> Hlast]].
    - left. by rewrite Hfs3, delete_insert_eq.
    - right. exists (NFile f). split; [done|]. by eapply later_last. }
  destruct (recv_verdict outcome flushed got len h sha) as [u|e] eqn:Ev.
  - apply recv_verdict_ok in Ev as (-> & -> & -> & Hsha).
    destruct (Hok eq_refl) as (_ & Hh & Hg & _ & Hd). simpl in Hd.
    rewrite Hd in * by auto. simpl in Hf2. rewrite Hh in Hsha.
    destruct ((set_mode tmp mode;; _) w2) as [landed w3] eqn:Eland.
    destruct (land_spec _ _ _ _ _ _ _ _ _ Hf2 Eland) as [Hl3 [[-> Hfs3]|[He [m' Hfs3]]]].
    + simpl. intros; simplify_eq. split; [by etrans|]. split_and!; [done|intros; lia|].
      by rewrite Hfs3, Hfs2, Hfs1, delete_insert_eq.
    + rewrite He. destruct (ignore (fs_remove_file tmp) w3) as [u' w4] eqn:Er.
      destruct landed as [|e]; [done|]. intros; simplify_eq.
      eapply Herr; [|  |eauto|done]; [by etrans|].
      by rewrite Hfs3, Hfs2, Hfs1, insert_insert_eq.
  - destruct (ignore (fs_remove_file tmp) w2) as [u' w4] eqn:Er. intros; simplify_eq.
    eapply Herr; [| |eauto|done]; [done|]. by rewrite Hfs2, Hfs1.
Qed.

(** The names staging files can have. *)
Definition is_part (dest p : path) : Prop :=
  ∃ base nonce, file_name dest = Some base ∧ length nonce = 8%nat ∧
    p = with_file_name dest (base +:+ (".egdod-part." +:+ hex nonce)).

Lemma file_name_pop p c : file_name p = Some c → p = pop p ++ [c] ∧ c ∉ ["/"; "."; ".."].
Proof.
  unfold file_name, pop. destruct (last p) as [c'|] eqn:E; [|done].
  case_bool_decide; [done|]. intros; simplify_eq. split; [|done].
  apply last_Some in E as [q ->]. rewrite length_app. simpl.
  replace (length q + 1 - 1)%nat with (length q) by lia. by rewrite take_app_length.
Qed.

Lemma part_ne_dest dest p : is_part dest p → p ≠ dest.
Proof.
  intros (base & nonce & Hb & _ & ->). destruct (file_name_pop _ _ Hb) as [Hd _].
  unfold with_file_name. rewrite Hb. intros E. rewrite Hd in E at 2.
  apply app_inj_tail in E as [_ E]. by apply string_app_longer in E.
Qed.

Lemma create_part_loop_spec n dest base w res w' :
  file_name dest = Some base →
  create_part_loop n dest base w = (res, w') →
  later w w' ∧
  match res with
  | Ok (tmp, out) =>
      is_part dest tmp ∧ out = mkHandle tmp None ∧ fs w !! tmp = None ∧
      fs w' = <[tmp := NFile (mkFile [] (Z.ldiff o600 (umask w)))]> (fs w)
  | Err _ => fs w' = fs w
  end.
Proof.
  intros Hb. revert w. induction n as [|n IH]; intros w; simpl.
  { intros; run_unfold; by simplify_eq. }
  unfold mbind, M_bind, attempt. destruct (getrandom 8 w) as [[nonce|e] w1] eqn:Er.
  2:{ apply getrandom_spec in Er as (Hfs & _ & Hl & _). intros; by simplify_eq. }
  apply getrandom_spec in Er as (Hfs & _ & Hl & Hlen). specialize (Hlen _ eq_refl).
  set (tmp := with_file_name _ _). unfold fs_create_new.
  destruct (syscall_cases (do_create_new tmp o600) w1)
    as [(flt & w2 & E & Hfs2 & Hl2 & _)|(w2 & E & Hfs2 & Hl2)]; rewrite E; simpl.
  - case_bool_decide.
    + intros Hloop. apply IH in Hloop as [Hl3 Hres]. rewrite (later_umask _ _ Hl2), (later_umask _ _ Hl), Hfs2, Hfs in Hres.
      split; [by rewrite Hl, Hl2|done].
    + unfold fail. intros; simplify_eq. split; [by etrans|by rewrite Hfs2].
  - unfold do_create_new. rewrite Hfs2, Hfs. destruct (fs w !! tmp) eqn:Hn; [|case_goal]; simpl.
    + intros Hloop. apply IH in Hloop as [Hl3 Hres].
      rewrite (later_umask _ _ Hl2), (later_umask _ _ Hl), Hfs2, Hfs in Hres.
      split; [by rewrite Hl, Hl2|done].
    + unfold mret, M_ret. intros; simplify_eq. split.
      { rewrite Hl, Hl2. apply later_set_fs. }
      split_and!; [by exists base, nonce|done|done|].
      simpl. by rewrite Hfs2, Hfs, (later_umask _ _ Hl2), (later_umask _ _ Hl).
    + unfold fail. intros; simplify_eq.
      split; [by etrans|by rewrite Hfs2].
Qed.

Lemma dest_dir_not_dest dest base : file_name dest = Some base → ¬ dest `prefix_of` dest_dir dest.
Proof.
  intros Hb Hpre. destruct (file_name_pop _ _ Hb) as [Hd Hc].
  unfold dest_dir, parent in Hpre. rewrite Hd in Hpre at 2. rewrite last_snoc in Hpre.
  rewrite bool_decide_false in Hpre by set_solver.
  case_bool_decide as Hp.
  - rewrite Hp in Hd. subst dest. destruct Hpre as [k Hk]. simpl in Hk. by simplify_eq.
  - apply prefix_length in Hpre. rewrite Hd in Hpre at 1. rewrite length_app in Hpre. simpl in Hpre. lia.
Qed.

Lemma ensure_free_space_world dir len w : (ensure_free_space dir len w).2 = w.
Proof. unfold ensure_free_space. run_unfold. by repeat case_goal. Qed.

(** Up to the creation of the staging file: new directories at most, and on
    success one empty file under a fresh name. *)
Lemma recv_prepare_spec dest len max w res w' :
  recv_prepare dest len max w = (res, w') →
  ∃ w1, later w w1 ∧ later w1 w' ∧
    (∀ p, fs w1 !! p = fs w !! p ∨ made_dir (dest_dir dest) w w1 p) ∧
    fs w1 !! dest = fs w !! dest ∧
    match res with
    | Ok (tmp, out) =>
        len ≤ max ∧ is_part dest tmp ∧ out = mkHandle tmp None ∧ fs w1 !! tmp = None ∧
        ∃ m, fs w' = <[tmp := NFile (mkFile [] m)]> (fs w1)
    | Err _ => fs w' = fs w1
    end.
Proof.
  unfold recv_prepare. run_unfold.
  case_bool_decide as Hmax; [|intros; simplify_eq; exists w'; by eauto 10 with egdod].
  case_bool_decide as Hfn; [|intros; simplify_eq; exists w'; by eauto 10 with egdod].
  destruct Hfn as [base Hb]. pose proof (dest_dir_not_dest _ _ Hb) as Hnp.
  destruct (fs_create_dir_all (dest_dir dest) w) as [r1 w1] eqn:Ed.
  apply mkdirs_spec in Ed as [Hl1 Hd]. simpl in Hd.
  assert (Hdest1 : fs w1 !! dest = fs w !! dest) by (destruct (Hd dest) as [?|(?&?&?)]; done).
  destruct r1 as [[]|e]; [|intros; simplify_eq; exists w'; by eauto 10 with egdod].
  pose proof (ensure_free_space_world (dest_dir dest) len w1) as Hw.
  destruct (ensure_free_space (dest_dir dest) len w1) as [r2 w2]. simpl in Hw. subst w2.
  destruct r2 as [[]|e]; [|intros; simplify_eq; exists w'; by eauto 10 with egdod].
  unfold create_part_file, expect. rewrite Hb. intros Ec.
  change (create_part_loop 8 dest base w1 = (res, w')) in Ec.
  apply create_part_loop_spec in Ec as [Hl3 Hc]; [|done].
  exists w1. split_and!; auto. destruct res as [[tmp out]|e]; [|done].
  destruct Hc as (? & ? & ? & ?). split_and!; eauto.
Qed.

(** The whole receiver, on every branch and under every schedule of faults. *)
Lemma recv_file_body_spec dest len sha mode max r w res r' w' :
  recv_file_body dest len sha mode max (r, w) = (res, (r', w')) →
  match res with
  | Ok _ =>
      len ≤ max ∧ sha256_of (rd_bytes r) = sha ∧
      (zlen (rd_bytes r) ≤ u64_max → zlen (rd_bytes r) = len) ∧
      fs w' !! dest = Some (NFile (mkFile (rd_bytes r) (Z.land mode o7777))) ∧
      ∀ p, p ≠ dest → fs w' !! p = fs w !! p ∨ made_dir (dest_dir dest) w w' p
  | Err _ =>
      fs w' !! dest = fs w !! dest ∧
      ∀ p, fs w' !! p = fs w !! p ∨ made_dir (dest_dir dest) w w' p ∨
           (is_part dest p ∧ fs w !! p = None ∧ last_fault w w')
  end.
Proof.
  unfold recv_file_body. unfold mbind, M_bind, on_snd. simpl.
  destruct (recv_prepare dest len max w) as [r0 w2] eqn:Ep.
  apply recv_prepare_spec in Ep as (w1 & Hl1 & Hl2 & Hd & Hdest & Hr0).
  assert (Hmade : ∀ w3 p, fs w3 !! p = fs w1 !! p →
    fs w3 !! p = fs w !! p ∨ made_dir (dest_dir dest) w w3 p).
  { intros w3 p Hw. destruct (Hd p) as [E|(?&?&?)]; [left; congruence|right].
    split_and!; auto. by rewrite Hw. }
  destruct r0 as [[tmp out]|e]; simpl.
  2:{ intros; simplify_eq. split; [by rewrite Hr0|]. intros p.
      destruct (Hmade w' p); [by rewrite Hr0|auto..]. }
  destruct Hr0 as (Hmax & Hpart & -> & Hnone & m & Hfs2).
  assert (Hne : tmp ≠ dest) by by apply part_ne_dest.
  assert (Hnone0 : fs w !! tmp = None) by (destruct (Hd tmp) as [<-|(?&?&[? ?])]; congruence).
  intros Er. apply (recv_staged_spec _ _ _ _ _ _ _ m) in Er as [Hl4 Hr];
    [|by rewrite Hfs2, lookup_insert_eq].
  assert (Hdel : delete tmp (fs w2) = fs w1) by (by rewrite Hfs2, delete_insert_id).
  destruct res as [[]|e].
  - destruct Hr as (Hsha & Hlen & Hfs). rewrite Hdel in Hfs.
    split_and!; auto; [by rewrite Hfs, lookup_insert_eq|].
    intros p Hp. apply Hmade. by rewrite Hfs, lookup_insert_ne.
  - destruct Hr as [Hfs|(n & Hfs & Hlast)].
    + rewrite Hdel in Hfs. split; [by rewrite Hfs|]. intros p.
      destruct (Hmade w' p); [by rewrite Hfs|auto..].
    + rewrite Hfs2, insert_insert_eq in Hfs. split; [by rewrite Hfs, lookup_insert_ne|].
      intros p. destruct (decide (p = tmp)) as [->|Hp].
      * right; right. split_and!; auto. eapply later_last; [|done]. by etrans.
      * destruct (Hmade w' p); [by rewrite Hfs, lookup_insert_ne|auto..].
Qed.
End receiver.

(** ** Lemmas on the sender *)

Section sender.
Context `{Sha256Laws}.
Implicit Types (w : World) (p : path).

Lemma fs_read_at_ok p off cap w f b w' :
  fs w !! p = Some (NFile f) → fs_read_at p off cap w = (Ok b, w') →
  b = take cap (drop off (f_data f)) ∧ fs w' = fs w ∧ later w w'.
Proof.
  intros Hf. unfold fs_read_at.
  destruct (syscall_cases (λ w, match fs w !! p with
      | Some (NFile f) => (Ok (take cap (drop off (f_data f))), w)
      | Some _ => (Err eisdir, w) | None => (Err enoent, w) end) w)
    as [(flt & w1 & -> & _)|(w1 & -> & Hfs & Hl)]; [done|].
  rewrite Hfs, Hf. intros; by simplify_eq.
Qed.

(** Reading in chunks: what is left to read shrinks by each chunk. *)
Lemma chunk_step off (data : bytes) :
  let buf := take (Z.to_nat CHUNK) (drop off data) in
  drop off data = buf ++ drop (off + length buf) data ∧ (buf = [] → drop off data = []).
Proof.
  simpl. split.
  - rewrite <- drop_drop. rewrite <- (take_drop (Z.to_nat CHUNK) (drop off data)) at 1. f_equal.
    rewrite length_take. destruct (decide (Z.to_nat CHUNK ≤ length (drop off data))%nat).
    + f_equal. lia.
    + rewrite !drop_ge; [done|lia..].
  - destruct (drop off data); [done|]. by destruct (Z.to_nat CHUNK) eqn:E.
Qed.

Lemma hash_loop_ok fuel p off h len w f l h' w' :
  fs w !! p = Some (NFile f) → hash_loop fuel p off h len w = (Ok (l, h'), w') →
  fs w' = fs w ∧ h' = sha_update h (drop off (f_data f)) ∧
  (0 ≤ len → len + zlen (drop off (f_data f)) ≤ u64_max → l = len + zlen (drop off (f_data f))).
Proof.
  revert off h len w. induction fuel as [|fuel IH]; intros off h len w Hf; [done|].
  cbn [hash_loop]. unfold mbind, M_bind.
  destruct (fs_read_at p off (Z.to_nat CHUNK) w) as [[buf|e] w1] eqn:Er; [|done].
  destruct (fs_read_at_ok _ _ _ _ _ _ _ Hf Er) as (Hbuf & Hfs & _).
  destruct (chunk_step off (f_data f)) as [Hstep Hend]. rewrite <- Hbuf in *. clear Hbuf.
  destruct buf as [|x buf].
  - rewrite Hend by done. unfold mret, M_ret. intros; simplify_eq.
    rewrite sha_update_nil. split_and!; auto. pose proof (@zlen_nil byte). lia.
  - intros Hl. apply IH in Hl as (Hfs2 & Hh & Hlen); [|by rewrite Hfs].
    rewrite Hstep, zlen_app. split_and!; [by rewrite Hfs2|by rewrite Hh, sha_update_app|].
    intros ? Hu. pose proof (zlen_nonneg (x :: buf)).
    pose proof (zlen_nonneg (drop (off + length (x :: buf)) (f_data f))).
    rewrite u64_add_small in Hlen by lia. rewrite Hlen; lia.
Qed.

Lemma fs_open_cases p w :
  (∃ e w1, fs_open p w = (Err e, w1) ∧ fs w1 = fs w) ∨ (∃ w1, fs_open p w = (Ok tt, w1) ∧ fs w1 = fs w ∧ later w w1).
Proof.
  unfold fs_open. destruct (syscall_cases (do_stat p;; mret tt) w)
    as [(flt & w1 & -> & ? & _)|(w1 & -> & Hfs & Hl)]; [left; by eauto|].
  unfold do_stat. run_unfold. repeat case_goal; simplify_eq; eauto.
Qed.

Lemma fs_metadata_cases p w :
  (∃ e w1, fs_metadata p w = (Err e, w1) ∧ fs w1 = fs w) ∨
  (∃ n w1, fs_metadata p w = (Ok n, w1) ∧ fs w1 = fs w ∧ later w w1 ∧
           (∀ f, n = NFile f ↔ fs w !! p = Some (NFile f))).
Proof.
  unfold fs_metadata. destruct (syscall_cases (do_stat p) w)
    as [(flt & w1 & -> & ? & _)|(w1 & -> & Hfs & Hl)]; [left; by eauto|].
  unfold do_stat. rewrite Hfs. repeat case_goal; eauto 10 using later_refl.
  - right. do 2 eexists. split_and!; eauto. naive_solver.
  - right. do 2 eexists. split_and!; eauto. naive_solver.
Qed.

(** A successful [stat_and_hash] describes the file there is. *)
Lemma stat_and_hash_ok p w mode len sha w' :
  stat_and_hash p w = (Ok (mode, len, sha), w') →
  ∃ f, fs w !! p = Some (NFile f) ∧ fs w' = fs w ∧ mode = Z.land (f_mode f) o7777 ∧
       sha = sha256_of (f_data f) ∧ (zlen (f_data f) ≤ u64_max → len = zlen (f_data f)).
Proof.
  unfold stat_and_hash. unfold mbind, M_bind, with_context, context, gets.
  destruct (fs_open_cases p w) as [(e & w1 & -> & _)|(w1 & -> & Hfs1 & _)]; [done|].
  destruct (fs_metadata_cases p w1) as [(e & w2 & -> & _)|(n & w2 & -> & Hfs2 & _ & Hn)]; [done|].
  destruct n as [f| |]; unfold mret, M_ret, fail; [|done..].
  assert (Hf : fs w !! p = Some (NFile f)) by (rewrite <- Hfs1; by apply Hn).
  destruct (hash_loop (S (file_size p w2)) p 0 sha_new 0 w2) as [[[l h]|e] w3] eqn:El; [|done].
  apply (hash_loop_ok _ _ _ _ _ _ f) in El as (Hfs3 & -> & Hlen); [|by rewrite Hfs2, Hfs1].
  intros; simplify_eq/=. exists f. rewrite drop_0 in *.
  split_and!; auto; [congruence|]. intros. rewrite Hlen; lia.
Qed.

Lemma send_loop_ok fuel p off wr w f wr' w' :
  fs w !! p = Some (NFile f) → send_loop fuel p off (wr, w) = (Ok tt, (wr', w')) →
  fs w' = fs w ∧ w_out wr' = w_out wr ++ drop off (f_data f).
Proof.
  revert off wr w. induction fuel as [|fuel IH]; intros off wr w Hf; [done|].
  cbn [send_loop]. unfold mbind, M_bind, on_snd, on_fst. simpl.
  destruct (fs_read_at p off (Z.to_nat CHUNK) w) as [[buf|e] w1] eqn:Er; [|done].
  destruct (fs_read_at_ok _ _ _ _ _ _ _ Hf Er) as (Hbuf & Hfs & _).
  destruct (chunk_step off (f_data f)) as [Hstep Hend]. rewrite <- Hbuf in *. clear Hbuf.
  destruct buf as [|x buf].
  - rewrite Hend by done. unfold mret, M_ret. intros; simplify_eq. by rewrite app_nil_r.
  - simpl. destruct (write_all (x :: buf) wr) as [[[]|e] wr1] eqn:Ew; [|done].
    apply write_all_ok in Ew as [Ew _].
    intros Hl. apply IH in Hl as (Hfs2 & Ho); [|by rewrite Hfs].
    rewrite Hfs2, Ho, Ew, Hstep, <- app_assoc. done.
Qed.

(** Whatever fails, a prefix of the file was sent. *)
Lemma send_loop_prefix fuel p off wr w f res wr' w' :
  fs w !! p = Some (NFile f) → send_loop fuel p off (wr, w) = (res, (wr', w')) →
  ∃ d, w_out wr' = w_out wr ++ d ∧ d `prefix_of` drop off (f_data f).
Proof.
  revert off wr w. induction fuel as [|fuel IH]; intros off wr w Hf; cbn [send_loop].
  { unfold fail. intros; simplify_eq. exists []. rewrite app_nil_r. split; [done|apply prefix_nil]. }
  assert (Hnil : w_out wr = w_out wr ++ [] ∧ [] `prefix_of` drop off (f_data f))
    by (rewrite app_nil_r; split; [done|apply prefix_nil]).
  unfold mbind, M_bind, on_snd, on_fst. cbn [fst snd].
  destruct (fs_read_at p off (Z.to_nat CHUNK) w) as [[buf|e] w1] eqn:Er; [|intros; simplify_eq; by exists []].
  destruct (fs_read_at_ok _ _ _ _ _ _ _ Hf Er) as (Hbuf & Hfs & _).
  destruct (chunk_step off (f_data f)) as [Hstep _]. rewrite <- Hbuf in *. clear Hbuf.
  destruct buf as [|x buf]; [unfold mret, M_ret; intros; simplify_eq; by exists []|]. cbn [fst snd].
  destruct (write_all (x :: buf) wr) as [[[]|e] wr1] eqn:Ew.
  - apply write_all_ok in Ew as [Ew _]. intros Hl. apply IH in Hl as (d & Ho & Hd); [|by rewrite Hfs].
    exists ((x :: buf) ++ d). rewrite Ho, Ew, Hstep, <- app_assoc. split; [done|]. by apply prefix_app.
  - destruct (write_all_prefix (x :: buf) wr) as [k Hk]. rewrite Ew in Hk. simpl in Hk. intros; simplify_eq.
    exists (take k (x :: buf)). rewrite Hstep. split; [done|]. apply prefix_app_r, prefix_take.
Qed.
Lemma send_file_body_prefix p wr w f res wr' w' :
  fs w !! p = Some (NFile f) → send_file_body p (wr, w) = (res, (wr', w')) →
  ∃ d, w_out wr' = w_out wr ++ d ∧ d `prefix_of` f_data f.
Proof.
  intros Hf. unfold send_file_body. unfold mbind, M_bind, on_snd, on_fst, with_context, context, gets. cbn [fst snd].
  assert (Hnil : w_out wr = w_out wr ++ [] ∧ [] `prefix_of` f_data f)
    by (rewrite app_nil_r; split; [done|apply prefix_nil]).
  destruct (fs_open_cases p w) as [(e & w1 & -> & _)|(w1 & -> & Hfs1 & _)]; [intros; simplify_eq; by exists []|].
  cbn [fst snd]. destruct (send_loop (S (file_size p w1)) p 0 (wr, w1)) as [res1 [wr1 w2]] eqn:El.
  apply (send_loop_prefix _ _ _ _ _ f) in El as (d & Ho & Hd); [|by rewrite Hfs1]. rewrite drop_0 in Hd.
  destruct res1 as [[]|e]; cbn [fst snd]; [|intros; simplify_eq; by exists d].
  unfold flush. destruct (w_flush_err wr1); unfold mret, M_ret; intros; simplify_eq; by exists d.
Qed.

Lemma send_file_body_ok p wr w f wr' w' :
  fs w !! p = Some (NFile f) → send_file_body p (wr, w) = (Ok tt, (wr', w')) →
  fs w' = fs w ∧ w_out wr' = w_out wr ++ f_data f.
Proof.
  intros Hf. unfold send_file_body. unfold mbind, M_bind, on_snd, on_fst, with_context, context, gets.
  cbn [fst snd].
  destruct (fs_open_cases p w) as [(e & w1 & -> & _)|(w1 & -> & Hfs1 & _)]; [done|]. cbn [fst snd].
  destruct (send_loop (S (file_size p w1)) p 0 (wr, w1)) as [[[]|e] [wr1 w2]] eqn:El; [|done].
  apply (send_loop_ok _ _ _ _ _ f) in El as [Hfs2 Ho]; [|by rewrite Hfs1].
  unfold flush. simpl. destruct (w_flush_err wr1); [done|]. unfold mret, M_ret.
  intros; simplify_eq. rewrite drop_0 in Ho. split; congruence.
Qed.
End sender.

(** ** Without faults, a transfer succeeds *)

Section quiet.
Context `{Sha256Laws} `{StatvfsCall}.
Implicit Types (w : World) (p : path) (r : reader) (out : handle).

Lemma fs_read_at_quiet p off cap w f :
  faults w = [] → fs w !! p = Some (NFile f) →
  fs_read_at p off cap w = (Ok (take cap (drop off (f_data f))), w).
Proof. intros Hq Hf. unfold fs_read_at. rewrite syscall_quiet by done. by rewrite Hf. Qed.

Lemma chunk_shrinks off (data : bytes) x buf :
  take (Z.to_nat CHUNK) (drop off data) = x :: buf →
  (length (drop (off + length (x :: buf)) data) < length (drop off data))%nat.
Proof.
  intros Hb. destruct (chunk_step off data) as [Hstep _]. rewrite Hb in Hstep.
  rewrite Hstep, length_app. simpl. lia.
Qed.

Lemma hash_loop_quiet fuel p off h len w f :
  faults w = [] → fs w !! p = Some (NFile f) → (length (drop off (f_data f)) < fuel)%nat →
  ∃ x, hash_loop fuel p off h len w = (Ok x, w).
Proof.
  intros Hq Hf. revert off h len. induction fuel as [|fuel IH]; intros off h len Hn; [lia|].
  cbn [hash_loop]. unfold mbind, M_bind. rewrite (fs_read_at_quiet _ _ _ _ f) by done.
  destruct (take (Z.to_nat CHUNK) (drop off (f_data f))) as [|x buf] eqn:E; [by eexists|].
  apply chunk_shrinks in E. apply IH. lia.
Qed.

Lemma send_loop_quiet fuel p off wr w f :
  faults w = [] → fs w !! p = Some (NFile f) → healthy wr → (length (drop off (f_data f)) < fuel)%nat →
  ∃ wr', send_loop fuel p off (wr, w) = (Ok tt, (wr', w)) ∧ healthy wr'.
Proof.
  intros Hq Hf. revert off wr. induction fuel as [|fuel IH]; intros off wr Hw Hn; [lia|].
  cbn [send_loop]. unfold mbind, M_bind, on_snd, on_fst. cbn [fst snd].
  rewrite (fs_read_at_quiet _ _ _ _ f) by done.
  destruct (take (Z.to_nat CHUNK) (drop off (f_data f))) as [|x buf] eqn:E; [by eexists|].
  rewrite write_all_healthy by done. apply chunk_shrinks in E. apply IH; [done|lia].
Qed.

Lemma do_stat_file p w f : fs w !! p = Some (NFile f) → do_stat p w = (Ok (NFile f), w).
Proof. intros Hf. unfold do_stat. by rewrite Hf. Qed.

Lemma sender_quiet p w f :
  faults w = [] → fs w !! p = Some (NFile f) →
  ∃ x wr, stat_and_hash p w = (Ok x, w) ∧ send_file_body p (new_writer, w) = (Ok tt, (wr, w)).
Proof.
  intros Hq Hf.
  assert (Hopen : fs_open p w = (Ok tt, w)).
  { unfold fs_open. rewrite syscall_quiet by done. run_unfold. by rewrite (do_stat_file _ _ _ Hf). }
  assert (Hmeta : fs_metadata p w = (Ok (NFile f), w)).
  { unfold fs_metadata. rewrite syscall_quiet by done. by apply do_stat_file. }
  assert (Hsize : file_size p w = length (f_data f)) by (unfold file_size; by rewrite Hf).
  destruct (hash_loop_quiet (S (file_size p w)) p 0 sha_new 0 w f) as [[l h] Eh];
    [done..|rewrite Hsize, drop_0; lia|].
  destruct (send_loop_quiet (S (file_size p w)) p 0 new_writer w f) as [wr [Es Hwr]];
    [done..|rewrite Hsize, drop_0; lia|].
  exists (Z.land (f_mode f) o7777, l, sha_finalize h), wr. split.
  - unfold stat_and_hash, mbind, M_bind, with_context, context, gets.
    by rewrite Hopen, Hmeta; unfold mret, M_ret; rewrite Eh.
  - unfold send_file_body, mbind, M_bind, on_snd, on_fst, with_context, context, gets. cbn [fst snd].
    rewrite Hopen. cbn [fst snd]. rewrite Es. cbn [fst snd]. by rewrite flush_healthy.
Qed.

Lemma file_write_all_quiet b out w d m :
  faults w = [] → h_stash out = None → fs w !! h_path out = Some (NFile (mkFile d m)) →
  file_write_all b (out, w) = (Ok tt, (out, set_fs <[h_path out := NFile (mkFile (d ++ b) m)]> w)).
Proof.
  intros Hq Hs Hf. unfold file_write_all, fs_append, next_fault. rewrite Hs, Hq.
  do 2 f_equal. unfold set_fs. f_equal. f_equal. exact (append_data_file _ b _ _ Hf).
Qed.

Lemma recv_body_loop_quiet fuel len h got r out w d m :
  faults w = [] → clean r → h_stash out = None → fs w !! h_path out = Some (NFile (mkFile d m)) →
  0 ≤ got → got + zlen (rd_bytes r) ≤ len → len ≤ u64_max → (length (rd_bytes r) < fuel)%nat →
  ∃ h' got' r' w', recv_body_loop fuel len h got r out w = Some (Ok tt, h', got', r', out, w') ∧
    faults w' = [].
Proof.
  intros Hq Hc Hs. revert h got r w d Hq Hc.
  induction fuel as [|fuel IH]; intros h got r w d Hq Hc Hf Hg Hlen Hu Hn; [lia|]. simpl.
  destruct (read_clean (Z.to_nat CHUNK) r) as (b & r1 & E & Hc1 & Hr & Hcap & He);
    [done|unfold CHUNK; lia|].
  rewrite E. destruct b as [|x buf]; [by eauto 10|].
  pose proof (zlen_nonneg (x :: buf)). pose proof (zlen_nonneg (rd_bytes r1)).
  rewrite Hr, zlen_app in Hlen. rewrite Hr, length_app in Hn. simpl in Hn.
  rewrite u64_add_small by lia. rewrite bool_decide_false by lia.
  rewrite (file_write_all_quiet _ _ _ d m) by done.
  apply (IH _ _ _ _ (d ++ x :: buf)); try done; try lia.
  simpl. by rewrite lookup_insert_eq.
Qed.

(** What the receiving side needs for a transfer of [len] bytes to [dest] to
    succeed: no I/O fault, room below the ceiling and on the disk, a path whose
    directories exist or can be made, a destination that is not a directory, and
    a staging name that is free. *)
Definition staging_name (dest : path) (nonce : bytes) : path :=
  match file_name dest with
  | Some base => with_file_name dest
      (base +:+ (".egdod-part." +:+ hex (take 8 (nonce ++ replicate 8 x00))))
  | None => dest
  end.
Record ready (w : World) (dest : path) (len max : Z) : Prop := mkReady {
  ready_quiet : faults w = [];
  ready_len : len ≤ max ∧ len ≤ u64_max;
  ready_name : is_Some (file_name dest);
  ready_dirs k : k `prefix_of` dest_dir dest → k ≠ [] →
    fs w !! k = None ∨ ∃ m, fs w !! k = Some (NDir m);
  ready_dest m : fs w !! dest ≠ Some (NDir m);
  ready_space : ∃ s, statvfs (dest_dir dest) = Ok s ∧
    (f_blocks s = 0 ∨ len ≤ saturating_mul_u64 (f_bfree s) (f_frsize s));
  ready_rng : ∃ nonce l, rng w = Ok nonce :: l ∧ fs w !! staging_name dest nonce = None
}.

Lemma dest_dir_ne dest : dest_dir dest ≠ [].
Proof. unfold dest_dir. destruct (parent dest); [case_bool_decide|]; done. Qed.

(** The directory of the destination is the directory of its staging file. *)
Lemma parent_ok_dest_dir w dest base name :
  file_name dest = Some base → name ∉ ["/"; "."; ".."] → is_dir w (dest_dir dest) = true →
  parent_ok w dest = true ∧ parent_ok w (with_file_name dest name) = true.
Proof.
  intros Hb Hn Hd. destruct (file_name_pop _ _ Hb) as [Hp Hc].
  assert (Hdir : is_dir w (pop dest) = true).
  { unfold dest_dir, parent in Hd. rewrite Hp in Hd at 1. rewrite last_snoc in Hd.
    rewrite bool_decide_false in Hd by set_solver. case_bool_decide as Hpop; [by rewrite Hpop|done]. }
  unfold parent_ok, parent, with_file_name. rewrite Hb, last_snoc.
  assert (Hlast : last dest = Some base) by (rewrite Hp; apply last_snoc). rewrite Hlast.
  rewrite !bool_decide_false by set_solver. split; [done|].
  unfold pop at 1. rewrite length_app. simpl.
  replace (length (pop dest) + 1 - 1)%nat with (length (pop dest)) by lia.
  by rewrite take_app_length.
Qed.

Lemma part_name_plain base nonce : base +:+ (".egdod-part." +:+ hex nonce) ∉ ["/"; "."; ".."].
Proof.
  rewrite !not_elem_of_cons. split_and!; [| | |apply not_elem_of_nil];
    destruct base as [|c1 [|c2 base]]; try done; intros E; simplify_eq/=.
  by destruct base.
Qed.

Lemma with_file_name_not_above dest base name k :
  file_name dest = Some base → with_file_name dest name = k → name ≠ "." →
  ¬ k `prefix_of` dest_dir dest.
Proof.
  intros Hb <- Hn Hpre. destruct (file_name_pop _ _ Hb) as [Hp Hc].
  unfold with_file_name in Hpre. rewrite Hb in Hpre.
  unfold dest_dir, parent in Hpre. rewrite Hp in Hpre at 2. rewrite last_snoc in Hpre.
  rewrite bool_decide_false in Hpre by set_solver. case_bool_decide as Hpop.
  - rewrite Hpop in Hpre. destruct Hpre as [l Hl]. by simplify_eq/=.
  - apply prefix_length in Hpre. rewrite length_app in Hpre. simpl in Hpre. lia.
Qed.

Lemma ensure_free_space_quiet dir len s w :
  statvfs dir = Ok s → f_blocks s = 0 ∨ len ≤ saturating_mul_u64 (f_bfree s) (f_frsize s) →
  ensure_free_space dir len w = (Ok tt, w).
Proof.
  intros Hs Hfree. unfold ensure_free_space, mbind, M_bind, lift, context, ensure. rewrite Hs.
  destruct (decide (f_blocks s = 0)); [by rewrite bool_decide_true|].
  rewrite bool_decide_false by done. destruct Hfree; [done|]. by rewrite bool_decide_true.
Qed.

Lemma create_part_file_quiet dest base nonce l w :
  file_name dest = Some base → faults w = [] → rng w = Ok nonce :: l →
  fs w !! staging_name dest nonce = None → is_dir w (dest_dir dest) = true →
  ∃ w', create_part_file dest w = (Ok (staging_name dest nonce, mkHandle (staging_name dest nonce) None), w') ∧
    faults w' = [] ∧ is_dir w' (dest_dir dest) = true.
Proof.
  intros Hb Hq Hrng Hfresh Hdir.
  destruct (parent_ok_dest_dir w dest base
    (base +:+ (".egdod-part." +:+ hex (take 8 (nonce ++ replicate 8 x00)))) Hb
    (part_name_plain _ _) Hdir) as [_ Hpar].
  unfold staging_name in *. rewrite Hb in *.
  unfold create_part_file, expect. rewrite Hb. unfold mbind at 1, M_bind at 1, mret, M_ret.
  cbn [create_part_loop]. unfold mbind, M_bind, getrandom. rewrite Hrng.
  unfold attempt, fs_create_new. rewrite syscall_quiet by done.
  unfold do_create_new. cbn [fs set_fs].
  rewrite Hfresh.
  assert (Hpar' : ∀ w2, fs w2 = fs w → parent_ok w2 (with_file_name dest
      (base +:+ (".egdod-part." +:+ hex (take 8 (nonce ++ replicate 8 x00))))) = true).
  { intros w2 E. unfold parent_ok, is_dir in *. by rewrite E. }
  rewrite Hpar' by done. eexists. split_and!; [reflexivity|done|].
  unfold is_dir in *. simpl. apply orb_true_iff in Hdir as [->|Hdir]; [done|].
  apply orb_true_iff. right. rewrite lookup_insert_ne; [done|]. intros E.
  rewrite <- E in Hdir. simpl in Hfresh. by rewrite Hfresh in Hdir.
Qed.

Lemma recv_prepare_quiet dest len max w :
  ready w dest len max →
  ∃ tmp w', recv_prepare dest len max w = (Ok (tmp, mkHandle tmp None), w') ∧ faults w' = [] ∧
    is_dir w' (dest_dir dest) = true.
Proof.
  intros [Hq [Hmax Hu] [base Hb] Hdirs Hdest (s & Hs & Hfree) (nonce & l & Hrng & Hfresh)].
  destruct (mkdirs_quiet [] (dest_dir dest) w Hq) as (w1 & Ed & Henv & Hdir); [exact Hdirs|].
  pose proof (same_env_faults _ _ Henv) as Hq1. rewrite Hq in Hq1. pose proof (same_env_rng _ _ Henv) as Hr1.
  specialize (Hdir (or_introl (dest_dir_ne dest))). simpl in Hdir.
  destruct (mkdirs_spec _ _ _ _ _ Ed) as [_ Hsame]. simpl in Hsame.
  assert (Hnone : fs w1 !! staging_name dest nonce = None).
  { destruct (Hsame (staging_name dest nonce)) as [->|(_ & Hpre & _)]; [done|]. exfalso.
    unfold staging_name in Hpre. rewrite Hb in Hpre.
    eapply with_file_name_not_above; [done|reflexivity| |exact Hpre].
    pose proof (part_name_plain base (take 8 (nonce ++ replicate 8 x00))). set_solver. }
  destruct (create_part_file_quiet dest base nonce l w1) as (w2 & Ep & Hq2); [done..|congruence|done|done|].
  exists (staging_name dest nonce), w2. split; [|done].
  unfold recv_prepare, mbind, M_bind, ensure, with_context, context, fs_create_dir_all.
  rewrite bool_decide_true by done. rewrite bool_decide_true by (by rewrite Hb).
  rewrite Ed, (ensure_free_space_quiet _ _ _ _ Hs Hfree). done.
Qed.
Lemma flush_sync_quiet p w :
  faults w = [] → (file_flush;; file_sync_all) (mkHandle p None, w) = (Ok tt, (mkHandle p None, w)).
Proof.
  intros Hq. unfold mbind, M_bind, file_flush, file_sync_all, on_snd, fs_sync. simpl.
  by rewrite syscall_quiet.
Qed.

Lemma land_quiet tmp dest mode msg w d m :
  faults w = [] → fs w !! tmp = Some (NFile (mkFile d m)) → tmp ≠ dest →
  (∀ m', fs w !! dest ≠ Some (NDir m')) → parent_ok w dest = true →
  ∃ w', (set_mode tmp mode;; with_context msg (fs_rename tmp dest)) w = (Ok tt, w').
Proof.
  intros Hq Hf Hne Hd Hp. unfold mbind, M_bind, set_mode, with_context, fs_set_permissions, fs_rename.
  rewrite syscall_quiet by done. unfold do_chmod. rewrite Hf. simpl.
  rewrite syscall_quiet by done. unfold do_rename. simpl.
  rewrite lookup_insert_eq, lookup_insert_ne by done.
  assert (Hp' : ∀ w2 n, fs w2 = <[tmp := NFile n]> (fs w) → parent_ok w2 dest = true).
  { intros w2 n E. unfold parent_ok, is_dir in *. rewrite E. destruct (parent dest) as [q|]; [|done].
    apply orb_true_iff in Hp as [->|Hp]; [done|]. apply orb_true_iff. right.
    destruct (decide (q = tmp)) as [->|]; [by rewrite Hf in Hp|by rewrite lookup_insert_ne]. }
  rewrite (Hp' _ (mkFile d (Z.land mode o7777))) by done.
  destruct (fs w !! dest) as [[]|] eqn:E; [by eexists| |by eexists..]. by destruct (Hd mode0).
Qed.

(** A ready receiver accepts a stream of the announced length and digest. *)
Lemma recv_quiet dest len mode max r w :
  ready w dest len max → clean r → zlen (rd_bytes r) = len →
  ∃ s, recv_file_body dest len (sha256_of (rd_bytes r)) mode max (r, w) = (Ok tt, s).
Proof.
  intros Hr Hc Hlen. pose proof Hr as [Hq [_ Hu] [base Hb] _ Hdest _ _].
  destruct (recv_prepare_quiet _ _ _ _ Hr) as (tmp & w2 & Ep & Hq2 & Hdir).
  destruct (recv_prepare_spec _ _ _ _ _ _ Ep) as (w1 & _ & _ & _ & Hd1 & _ & Hpart & _ & _ & m & Hfs2).
  assert (Hne : tmp ≠ dest) by by apply part_ne_dest.
  destruct (parent_ok_dest_dir w2 dest base "a" Hb) as [Hpar _]; [set_solver|done|].
  unfold recv_file_body, mbind, M_bind, on_snd. cbn [fst snd]. rewrite Ep. cbn [fst snd].
  unfold recv_staged.
  assert (Htmp : fs w2 !! tmp = Some (NFile (mkFile [] m))) by (by rewrite Hfs2, lookup_insert_eq).
  destruct (recv_body_loop_quiet (S (length (rd_bytes r))) len sha_new 0 r (mkHandle tmp None) w2 [] m)
    as (h & got & r3 & w3 & El & Hq3); [done..|lia|lia|lia|lia|].
  rewrite El. destruct (recv_body_loop_spec _ _ _ _ _ _ _ [] m _ _ _ _ _ _ El Htmp)
    as (d & _ & _ & Hfs3 & Hok). simpl in Hfs3.
  destruct (Hok eq_refl) as (_ & -> & Hgot & _). rewrite Hgot by lia.
  rewrite flush_sync_quiet by done. unfold recv_verdict.
  rewrite bool_decide_true by lia. rewrite bool_decide_true by done.
  destruct (land_quiet tmp dest mode ("renaming into " +:+ show_path dest) w3 d m) as [w4 ->];
    [done|by rewrite Hfs3, lookup_insert_eq|done| | |by eexists].
  - intros m'. rewrite Hfs3, lookup_insert_ne by done. rewrite Hfs2, lookup_insert_ne by done.
    by rewrite Hd1.
  - unfold parent_ok, is_dir in *. rewrite Hfs3. destruct (parent dest) as [q|]; [|done].
    apply orb_true_iff in Hpar as [->|Hp]; [done|]. apply orb_true_iff. right.
    destruct (decide (q = tmp)) as [->|]; [by rewrite Htmp in Hp|by rewrite lookup_insert_ne].
Qed.
End quiet.

(** ** Properties *)

Section properties.
Context `{Sha256Laws} `{StatvfsCall}.

(** C6: A reception that succeeds has put exactly the bytes of the stream, with
    the announced length and digest and the permission bits of the announced
    mode, at the destination, whatever was there before; the announced length
    was within the receiver's ceiling; and no other file was touched, apart from
    directories that were missing on the way to the destination. *)
Theorem recv_file_lands dest len sha mode max (r r' : reader) (w w' : World) :
  recv_file_body dest len sha mode max (r, w) = (Ok tt, (r', w')) →
  zlen (rd_bytes r) ≤ u64_max →
  len ≤ max ∧ zlen (rd_bytes r) = len ∧ sha256_of (rd_bytes r) = sha ∧
  fs w' !! dest = Some (NFile (mkFile (rd_bytes r) (Z.land mode o7777))) ∧
  ∀ p, p ≠ dest → fs w' !! p = fs w !! p ∨ made_dir (dest_dir dest) w w' p.
Proof. intros Hr Hu. apply recv_file_body_spec in Hr. naive_solver. Qed.

(** C5: A reception that fails, at whatever point and for whatever reason (a
    refused announcement, a stream cut short, too long or with the wrong digest,
    an I/O fault at any system call), leaves the destination exactly as it was;
    a staging file is left behind only when the very last system call, the one
    that removes it, was itself failed by the system. *)
Theorem recv_file_failure_is_atomic dest len sha mode max (r r' : reader) (w w' : World) e :
  recv_file_body dest len sha mode max (r, w) = (Err e, (r', w')) →
  fs w' !! dest = fs w !! dest ∧
  (∀ p, fs w' !! p = fs w !! p ∨ made_dir (dest_dir dest) w w' p ∨
        (is_part dest p ∧ fs w !! p = None ∧ last_fault w w')) ∧
  (faults w = [] → ∀ p, fs w' !! p = fs w !! p ∨ made_dir (dest_dir dest) w w' p).
Proof.
  intros Hr. apply recv_file_body_spec in Hr as [Hd Hp]. split_and!; [done..|].
  intros Hq p. destruct (Hp p) as [?|[?|(_ & _ & pre & f & E)]]; [auto..|].
  rewrite Hq in E. by destruct pre.
Qed.

(** C19: Copying a file end to end: hashing and sending a regular file on one
    machine and receiving it on another, under any chunking of the stream, ends
    in success with the same bytes and permission bits at the destination,
    provided no system call fails and the receiver has room. *)
Theorem copy_file_end_to_end src dest max (ws wr : World) f :
  faults ws = [] → fs ws !! src = Some (NFile f) → ready wr dest (zlen (f_data f)) max →
  ∃ out, send_file_body src (new_writer, ws) = (Ok tt, (out, ws)) ∧
  ∃ mode len sha, stat_and_hash src ws = (Ok (mode, len, sha), ws) ∧
  ∀ r : reader, clean r → rd_bytes r = w_out out →
  ∃ r' wr', recv_file_body dest len sha mode max (r, wr) = (Ok tt, (r', wr')) ∧
    fs wr' !! dest = Some (NFile (mkFile (f_data f) (Z.land (f_mode f) o7777))).
Proof.
  intros Hq Hf Hr. destruct (sender_quiet src ws f Hq Hf) as ([[mode len] sha] & out & Es & Eb).
  destruct (stat_and_hash_ok _ _ _ _ _ _ Es) as (f' & Hf' & _ & -> & -> & Hlen).
  assert (f' = f) as -> by congruence.
  destruct (send_file_body_ok _ _ _ f _ _ Hf Eb) as [_ Hout]. simpl in Hout.
  pose proof (ready_len _ _ _ _ Hr) as [_ Hu]. rewrite Hlen in * by done.
  exists out. split; [done|]. do 3 eexists. split; [done|]. intros r Hc Hb. rewrite Hout in Hb.
  destruct (recv_quiet dest (zlen (f_data f)) (Z.land (f_mode f) o7777) max r wr) as [[r' wr'] E];
    [done..|by rewrite Hb|].
  rewrite Hb in E. exists r', wr'. split; [done|].
  apply recv_file_body_spec in E as (_ & _ & _ & -> & _). rewrite Hb.
  by rewrite <- Z.land_assoc, Z.land_diag.
Qed.
End properties.

(** ** Concrete transfers *)

Section examples.
Import DemoSha.

Instance demo_statvfs : StatvfsCall := λ _, Ok (mkStatvfs 100 50 4096).

Definition demo_src : path := ["/"; "srv"; "a.txt"].
Definition demo_dest : path := ["/"; "home"; "b.txt"].
Definition demo_body : bytes := as_bytes "hello".
Definition demo_nonce : bytes := as_bytes "01234567".
Definition demo_sender : World :=
  mkWorld {[ demo_src := NFile (mkFile demo_body 33188) ]} [] [] [] 1 18.
Definition demo_receiver (l : list (option fault)) : World :=
  mkWorld {[ demo_dest := NFile (mkFile (as_bytes "old") 384) ]} l [Ok demo_nonce] [] 1 18.
(** The fourth call, the write of the body, meets a full disk. *)
Definition demo_faults : list (option fault) :=
  [None; None; None; Some (mkFault StorageFull "No space left on device (os error 28)" 2)].

Lemma demo_ready : ready (demo_receiver []) demo_dest (zlen demo_body) 10.
Proof.
  split.
  - done.
  - by vm_compute.
  - vm_compute. by eexists.
  - intros k Hk Hne. left. destruct Hk as [l Hl]. cbv in Hl.
    destruct k as [|? [|? [|? ?]]]; simplify_eq/=; vm_compute; reflexivity.
  - intros m. by vm_compute.
  - eexists. split; [done|]. right. vm_compute. done.
  - exists demo_nonce, []. split; [done|]. vm_compute. reflexivity.
Qed.

Lemma recv_file_lands_witness :
  let w' := (recv_file_body demo_dest 5 (sha256_of demo_body) 420 10
               ([RData (as_bytes "hel"); RData (as_bytes "lo")], demo_receiver [])).2.2 in
  5 ≤ 10 ∧ zlen (rd_bytes [RData (as_bytes "hel"); RData (as_bytes "lo")]) = 5 ∧
  sha256_of (rd_bytes [RData (as_bytes "hel"); RData (as_bytes "lo")]) = sha256_of demo_body ∧
  fs w' !! demo_dest = Some (NFile (mkFile (rd_bytes [RData (as_bytes "hel"); RData (as_bytes "lo")])
                                          (Z.land 420 o7777))) ∧
  ∀ p, p ≠ demo_dest → fs w' !! p = fs (demo_receiver []) !! p ∨
                       made_dir (dest_dir demo_dest) (demo_receiver []) w' p.
Proof.
  eapply (recv_file_lands demo_dest 5 (sha256_of demo_body) 420 10
           [RData (as_bytes "hel"); RData (as_bytes "lo")] []); vm_compute; [reflexivity|done].
Defined.

Lemma recv_file_failure_is_atomic_witness :
  let w' := (recv_file_body demo_dest 5 (sha256_of demo_body) 420 10
               ([RData demo_body], demo_receiver demo_faults)).2.2 in
  let w := demo_receiver demo_faults in
  fs w' !! demo_dest = fs w !! demo_dest ∧
  (∀ p, fs w' !! p = fs w !! p ∨ made_dir (dest_dir demo_dest) w w' p ∨
        (is_part demo_dest p ∧ fs w !! p = None ∧ last_fault w w')) ∧
  (faults w = [] → ∀ p, fs w' !! p = fs w !! p ∨ made_dir (dest_dir demo_dest) w w' p).
Proof.
  eapply (recv_file_failure_is_atomic demo_dest 5 (sha256_of demo_body) 420 10 [RData demo_body] []
            (demo_receiver demo_faults)).
  vm_compute. reflexivity.
Defined.

Lemma copy_file_end_to_end_witness :
  ∃ out, send_file_body demo_src (new_writer, demo_sender) = (Ok tt, (out, demo_sender)) ∧
  ∃ mode len sha, stat_and_hash demo_src demo_sender = (Ok (mode, len, sha), demo_sender) ∧
  ∀ r : reader, clean r → rd_bytes r = w_out out →
  ∃ r' wr', recv_file_body demo_dest len sha mode 10 (r, demo_receiver []) = (Ok tt, (r', wr')) ∧
    fs wr' !! demo_dest = Some (NFile (mkFile demo_body (Z.land 33188 o7777))).
Proof.
  apply (copy_file_end_to_end demo_src demo_dest 10 demo_sender (demo_receiver [])
           (mkFile demo_body 33188)); [done|vm_compute; reflexivity|apply demo_ready].
Defined.
End examples.
