(* ===== verification/Pipe.v ===== *)
(** * Splicing two duplex streams (src/src/pipe.rs)

    The two directions share nothing, so running them concurrently is running
    them one after the other. *)

From S2P Require Import Prelude Stream Proto.

(** [tokio::io::copy]: everything the reader delivers, then a flush; it stops at
    the first error of either side.  It moves at most [COPY_BUF] bytes at a time
    and one fuel unit is one chunk. *)
Definition COPY_BUF : nat := Z.to_nat 8192.
Fixpoint copy_loop (fuel : nat) (r : reader) (w : writer) : result unit * reader * writer :=
  match fuel with
  | O => (Err out_of_fuel, r, w)
  | S fuel =>
      match read COPY_BUF r with
      | (Err e, r) => (Err e, r, w)
      | (Ok [], r) => let '(f, w) := flush w in (f, r, w)
      | (Ok b, r) =>
          match write_all b w with
          | (Err e, w) => (Err e, r, w)
          | (Ok _, w) => copy_loop fuel r w
          end
      end
  end.
Definition copy (r : reader) (w : writer) : result unit * reader * writer :=
  copy_loop (S (length (rd_bytes r))) r w.

(** One direction: copy, then shut the writer down whatever happened. *)
Definition one_way (r : reader) (w : writer) : reader * writer :=
  let '(_, r, w) := copy r w in
  (r, (shutdown w).2).

Definition splice (ar : reader) (aw : writer) (br : reader) (bw : writer) :
    (reader * writer) * (reader * writer) :=
  let '(ar, bw) := one_way ar bw in
  let '(br, aw) := one_way br aw in
  ((ar, aw), (br, bw)).

Lemma copy_loop_bytes fuel r w res r' w' :
  copy_loop fuel r w = (res, r', w') →
  ∃ d, w_out w' = w_out w ++ d ∧ d `prefix_of` rd_bytes r.
Proof.
  revert r w. induction fuel as [|fuel IH]; intros r w E; cbn [copy_loop] in E.
  { simplify_eq. exists []. rewrite app_nil_r. split; [done|apply prefix_nil]. }
  assert (Hsame : w_out w = w_out w ++ [] ∧ [] `prefix_of` rd_bytes r) by (rewrite app_nil_r; split; [done|apply prefix_nil]).
  destruct (read COPY_BUF r) as [[[|x b]|e] r1] eqn:Er.
  - unfold flush in E. destruct (w_flush_err w); simplify_eq; by exists [].
  - apply read_shrinks in Er. destruct (write_all (x :: b) w) as [[[]|e] w1] eqn:Ew.
    + apply write_all_ok in Ew as [Ew _]. apply IH in E as (d & Hd & Hp). exists ((x :: b) ++ d).
      rewrite Hd, Ew, <- app_assoc, Er. split; [done|]. by apply prefix_app.
    + destruct (write_all_prefix (x :: b) w) as [k Hk]. rewrite Ew in Hk. simplify_eq.
      exists (take k (x :: b)). rewrite Er. split; [done|]. apply prefix_app_r, prefix_take.
  - simplify_eq. by exists [].
Qed.

Lemma copy_loop_clean fuel r w :
  clean r → healthy w → (length (rd_bytes r) < fuel)%nat →
  copy_loop fuel r w = (Ok tt, [], mkWriter (w_out w ++ rd_bytes r) None None false).
Proof.
  revert r w. induction fuel as [|fuel IH]; intros r w Hc Hw Hf; [lia|]. cbn [copy_loop].
  destruct (read_clean COPY_BUF r) as (b & r1 & E & Hc1 & Hr & _ & He); [done|unfold COPY_BUF; lia|].
  rewrite E. destruct b as [|x b].
  - rewrite flush_healthy by done. rewrite (He eq_refl), app_nil_r.
    apply read_eof in E as [_ ->]; [|unfold COPY_BUF; lia].
    destruct w as [o br fe fin], Hw as (Hb & Hfe & Hfin); simpl in *; by subst.
  - rewrite write_all_healthy by done. rewrite Hr, length_app in Hf. simpl in Hf.
    rewrite IH; [|done|done|lia]. simpl. by rewrite Hr, <- app_assoc.
Qed.

Lemma one_way_clean r w : clean r → healthy w → one_way r w = ([], mkWriter (w_out w ++ rd_bytes r) None None true).
Proof. intros Hc Hw. unfold one_way, copy. by rewrite copy_loop_clean by (auto; lia). Qed.

(** Splicing loses nothing and always propagates the end: both writers are
    shut down however each direction ended, each has received a prefix of what
    the opposite reader delivered and nothing else, and a direction whose streams
    did not fail delivers everything, whatever became of the other one. *)
Lemma splice_propagates_both_ends ar aw br bw ar' aw' br' bw' :
  splice ar aw br bw = ((ar', aw'), (br', bw')) →
  w_fin aw' = true ∧ w_fin bw' = true ∧
  (∃ d, w_out bw' = w_out bw ++ d ∧ d `prefix_of` rd_bytes ar) ∧
  (∃ d, w_out aw' = w_out aw ++ d ∧ d `prefix_of` rd_bytes br) ∧
  (clean ar → healthy bw → w_out bw' = w_out bw ++ rd_bytes ar) ∧
  (clean br → healthy aw → w_out aw' = w_out aw ++ rd_bytes br).
Proof.
  unfold splice, one_way.
  destruct (copy ar bw) as [[r1 ar1] bw1] eqn:E1, (copy br aw) as [[r2 br1] aw1] eqn:E2.
  intros; simplify_eq/=. unfold copy in *. split_and!; [done|done|by eapply copy_loop_bytes..| |].
  - intros Hc Hw. rewrite copy_loop_clean in E1 by (auto; lia). by simplify_eq.
  - intros Hc Hw. rewrite copy_loop_clean in E2 by (auto; lia). by simplify_eq.
Qed.

Example splice_with_a_failing_side :
  let run := splice [RData (as_bytes "pi"); RData (as_bytes "ng")] new_writer
                    [RData (as_bytes "po"); RErr closed_error; RData (as_bytes "ng")] new_writer in
  w_fin run.1.2 = true ∧ w_fin run.2.2 = true ∧
  (∃ d, w_out run.2.2 = [] ++ d ∧ d `prefix_of` rd_bytes [RData (as_bytes "pi"); RData (as_bytes "ng")]) ∧
  (∃ d, w_out run.1.2 = [] ++ d ∧
        d `prefix_of` rd_bytes [RData (as_bytes "po"); RErr closed_error; RData (as_bytes "ng")]) ∧
  (clean [RData (as_bytes "pi"); RData (as_bytes "ng")] → healthy new_writer →
     w_out run.2.2 = [] ++ rd_bytes [RData (as_bytes "pi"); RData (as_bytes "ng")]) ∧
  (clean [RData (as_bytes "po"); RErr closed_error; RData (as_bytes "ng")] → healthy new_writer →
     w_out run.1.2 = [] ++ rd_bytes [RData (as_bytes "po"); RErr closed_error; RData (as_bytes "ng")]).
Proof.
  intros run. apply (splice_propagates_both_ends _ new_writer _ new_writer run.1.1 _ run.2.1).
  vm_compute. reflexivity.
Qed.
