(* ===== verification/Net.v ===== *)
(** * Endpoint construction, path classification and the probe (src/src/net.rs)

    iroh is a parameter: its relay URLs, its endpoint builder's [bind], and what
    a connection reports of its paths.  What the program makes of them (the
    configuration it asks for, the label it gives a path, the changes it
    reports, when a probe counts as answered) is translated. *)

From S2P Require Import Prelude Text Crypto Proto.

(** ** IP and socket addresses, as [std::net] has them *)

Inductive IpAddr :=
  | V4 (a b c d : byte)
  | V6 (octets : bytes).        (** 16 bytes *)
Record SocketAddr := mkSocketAddr { sa_ip : IpAddr; sa_port : Z }.

#[export] Instance IpAddr_eq_dec : EqDecision IpAddr.
Proof. solve_decision. Defined.
#[export] Instance SocketAddr_eq_dec : EqDecision SocketAddr.
Proof. solve_decision. Defined.

Definition octet (o : bytes) (i : nat) : Z := byte_to_Z (nth i o x00).

(** [IpAddr::is_loopback], [Ipv4Addr::is_private], [is_link_local],
    [is_unspecified]. *)
Definition is_loopback (ip : IpAddr) : bool :=
  match ip with
  | V4 a _ _ _ => bool_decide (byte_to_Z a = 127)
  | V6 o => bool_decide (o = replicate 15 x00 ++ [x01])
  end.
Definition v4_is_private (a b c d : byte) : bool :=
  bool_decide (byte_to_Z a = 10) ||
  (bool_decide (byte_to_Z a = 172) && bool_decide (16 ≤ byte_to_Z b ≤ 31)) ||
  (bool_decide (byte_to_Z a = 192) && bool_decide (byte_to_Z b = 168)).
Definition v4_is_link_local (a b c d : byte) : bool :=
  bool_decide (byte_to_Z a = 169) && bool_decide (byte_to_Z b = 254).
Definition v4_is_unspecified (a b c d : byte) : bool := bool_decide ([a; b; c; d] = [x00; x00; x00; x00]).
Definition v6_is_unspecified (o : bytes) : bool := bool_decide (o = replicate 16 x00).

(** [Display] for addresses: lower-case groups, the longest run of at least two
    zero groups (the first one of that length) written as [::], a v4-mapped
    address in dotted form. *)
Definition show_v4 (a b c d : byte) : string :=
  String.concat "." (pretty <$> [byte_to_Z a; byte_to_Z b; byte_to_Z c; byte_to_Z d]).
Fixpoint segments (o : bytes) : list Z :=
  match o with
  | h :: l :: o' => (256 * byte_to_Z h + byte_to_Z l) :: segments o'
  | _ => []
  end.
Definition show_segment (z : Z) : string :=
  let ds := hex_digit <$> [z / 4096; z / 256 mod 16; z / 16 mod 16; z mod 16] in
  of_bytes (match ds with
            | [x30; x30; x30; d] => [d]
            | [x30; x30; c; d] => [c; d]
            | [x30; b; c; d] => [b; c; d]
            | _ => ds
            end).
Fixpoint zero_run (l : list Z) : nat :=
  match l with 0 :: l' => S (zero_run l') | _ => O end.
(** Start and length of the longest run of zeros, from index [i] on. *)
Fixpoint longest_run (i : nat) (l : list Z) (best : nat * nat) : nat * nat :=
  match l with
  | [] => best
  | _ :: l' =>
      let n := zero_run l in
      longest_run (S i) l' (if (best.2 <? n)%nat then (i, n) else best)
  end.
Definition show_v6 (o : bytes) : string :=
  let segs := segments o in
  let groups l := String.concat ":" (show_segment <$> l) in
  match o with
  | [x00; x00; x00; x00; x00; x00; x00; x00; x00; x00; xff; xff; a; b; c; d] =>
      "::ffff:" +:+ show_v4 a b c d
  | _ =>
      let '(i, n) := longest_run 0 segs (O, O) in
      if (1 <? n)%nat then groups (take i segs) +:+ "::" +:+ groups (drop (i + n) segs)
      else groups segs
  end.
Definition show_ip (ip : IpAddr) : string :=
  match ip with V4 a b c d => show_v4 a b c d | V6 o => show_v6 o end.
Definition show_socket_addr (sa : SocketAddr) : string :=
  match sa_ip sa with
  | V4 a b c d => show_v4 a b c d +:+ ":" +:+ pretty (sa_port sa)
  | V6 o => "[" +:+ show_v6 o +:+ "]:" +:+ pretty (sa_port sa)
  end.

(** ** The relay and lookup choices *)

Inductive RelayChoice := N0 | Disabled | Urls (urls : list string).
Inductive Lookup := LookupNone | Resolve | Both.
Inductive ProbeMode := Discovery | Direct.

#[export] Instance Lookup_eq_dec : EqDecision Lookup.
Proof. solve_decision. Defined.
#[export] Instance ProbeMode_eq_dec : EqDecision ProbeMode.
Proof. solve_decision. Defined.

(** [iroh::RelayUrl] and [iroh::RelayMap]. *)
Class RelayUrls := {
  RelayUrl : Type;
  #[global] RelayUrl_eq_dec :: EqDecision RelayUrl;
  RelayMap : Type;
  url_parse : string → result RelayUrl;
  url_to_string : RelayUrl → string;
  relay_map_try_from_iter : list string → result RelayMap
}.

Definition from_flags (no_relay : bool) (urls : list string) : RelayChoice :=
  match no_relay, urls with
  | true, _ => Disabled
  | false, [] => N0
  | false, _ => Urls urls
  end.

Section net.
Context `{IrohKeys} `{RelayUrls}.

Inductive RelayMode := RelayDefault | RelayDisabled | RelayCustom (m : RelayMap).

Definition mode (r : RelayChoice) : result RelayMode :=
  match r with
  | N0 => Ok RelayDefault
  | Disabled => Ok RelayDisabled
  | Urls urls =>
      match context "parsing --relay url" (relay_map_try_from_iter urls) with
      | Ok m => Ok (RelayCustom m)
      | Err e => Err e
      end
  end.

Definition enabled (r : RelayChoice) : bool :=
  match r with Disabled => false | _ => true end.

Definition first_url (r : RelayChoice) : result (option RelayUrl) :=
  match r with
  | Urls (u :: _) =>
      match url_parse u with
      | Ok x => Ok (Some x)
      | Err e => Err (anyhow ("parsing relay url " +:+ u +:+ ": " +:+ show_error e))
      end
  | _ => Ok None
  end.

(** ** Building an endpoint *)

(** What the builder has been told by the time [bind] is called. *)
Record EndpointConfig := mkConfig {
  ec_relay : RelayMode;
  ec_ip : option SocketAddr;         (** [None]: the default transports *)
  ec_secret : option SecretKey;      (** [None]: a fresh key *)
  ec_publish : bool;                 (** [PkarrPublisher] installed *)
  ec_resolve : bool                  (** [DnsAddressLookup] installed *)
}.

(** The builder's own calls: checking the address to pin, and binding. *)
Class EndpointBuild := {
  Endpoint : Type;
  builder_bind_addr : SocketAddr → result unit;
  builder_bind : EndpointConfig → result Endpoint
}.

Definition bind_config `{EndpointBuild} (secret : option SecretKey) (relay : RelayChoice) (lookup : Lookup)
    (bind_addr : option SocketAddr) : result EndpointConfig :=
  match mode relay with
  | Err e => Err e
  | Ok rm =>
      let b := mkConfig rm None secret (bool_decide (lookup = Both)) (bool_decide (lookup ≠ LookupNone)) in
      match bind_addr with
      | None => Ok b
      | Some addr =>
          match builder_bind_addr addr with
          | Ok _ => Ok (mkConfig rm (Some addr) secret (ec_publish b) (ec_resolve b))
          | Err e => Err (anyhow ("binding " +:+ show_socket_addr addr +:+ ": " +:+ show_error e))
          end
      end
  end.
(** [bind]; the ten-second wait for the home relay has no outcome. *)
Definition bind `{EndpointBuild} secret relay lookup bind_addr : result Endpoint :=
  match bind_config secret relay lookup bind_addr with
  | Err e => Err e
  | Ok b => context "binding iroh endpoint" (builder_bind b)
  end.

(** ** Naming the path a connection uses *)

Inductive TransportAddr :=
  | Relay (url : RelayUrl)
  | Ip (sa : SocketAddr)
  | OtherTransport (debug : string).

#[export] Instance TransportAddr_eq_dec : EqDecision TransportAddr.
Proof. solve_decision. Defined.

Definition classify_ip (ip : IpAddr) : PathKind :=
  if is_loopback ip then DirectLocal else
  let private :=
    match ip with
    | V4 a b c d => v4_is_private a b c d || v4_is_link_local a b c d || v4_is_unspecified a b c d
    | V6 o =>
        bool_decide (Z.land (octet o 0) 254 = 252) ||
        (bool_decide (octet o 0 = 254) && bool_decide (Z.land (octet o 1) 192 = 128)) ||
        v6_is_unspecified o
    end in
  if private then DirectLan else DirectWan.

Definition classify (addr : TransportAddr) : PathKind :=
  match addr with
  | Relay _ => Relayed
  | Ip sa => classify_ip (sa_ip sa)
  | OtherTransport _ => Unknown
  end.

Definition describe (addr : TransportAddr) : string :=
  match addr with
  | Ip sa => show_socket_addr sa
  | Relay url => url_to_string url
  | OtherTransport d => d
  end.

(** One entry of [conn.paths()]. *)
Record Path := mkPath { is_selected : bool; remote_addr : TransportAddr }.

Definition session_path (paths : list Path) : option (PathKind * string) :=
  match List.find is_selected paths with
  | None => None
  | Some p => Some (classify (remote_addr p), describe (remote_addr p))
  end.
Definition session_path_report (paths : list Path) : PathKind * string :=
  default (Unknown, "no open path") (session_path paths).

Definition PathChange : Type := PathKind * PathKind * string.

(** The watcher's loop over the path events, each given by the paths the
    connection has when the event is handled; [capacity] is how many reports the
    receiver takes before it is dropped ([None]: it is never dropped). *)
Fixpoint path_changes_loop (last : PathKind) (events : list (list Path)) (capacity : option nat) :
    list PathChange :=
  match events with
  | [] => []
  | paths :: events =>
      let '(now, remote) := session_path_report paths in
      if bool_decide (now = last) then path_changes_loop last events capacity
      else match capacity with
           | Some O => []
           | Some (S n) => (last, now, remote) :: path_changes_loop now events (Some n)
           | None => (last, now, remote) :: path_changes_loop now events None
           end
  end.
Definition path_changes (initial : list Path) (events : list (list Path)) (capacity : option nat) :
    list PathChange :=
  path_changes_loop (session_path_report initial).1 events capacity.

(** ** Dialling *)

Record EndpointAddr := mkEndpointAddr { ea_id : PublicKey; ea_addrs : list TransportAddr }.
(** [EndpointAddr::new], [with_ip_addr], [with_relay_url]: the addresses are a set. *)
Definition ea_new (id : PublicKey) : EndpointAddr := mkEndpointAddr id [].
Definition ea_add (t : TransportAddr) (a : EndpointAddr) : EndpointAddr :=
  if bool_decide (t ∈ ea_addrs a) then a else mkEndpointAddr (ea_id a) (ea_addrs a ++ [t]).

Definition endpoint_addr (id : PublicKey) (direct : list SocketAddr) (relay : option RelayUrl) : EndpointAddr :=
  let addr := fold_left (λ addr a, ea_add (Ip a) addr) direct (ea_new id) in
  match relay with
  | Some url => ea_add (Relay url) addr
  | None => addr
  end.

(** What iroh does for one probe: the connection made for an address and a
    protocol name, with its paths, and the outcomes of the calls on its stream.
    [read_to_end] is given the limit. *)
Record ProbeNet := mkProbeNet {
  pn_connect : EndpointAddr → bytes → result (list Path);
  pn_open_bi : result unit;
  pn_write_all : bytes → result unit;
  pn_finish : result unit;
  pn_read_to_end : Z → result bytes;
  pn_elapsed : bool             (** the deadline passes first *)
}.

Definition probe_exchange (n : ProbeNet) (addr : EndpointAddr) : M unit PathKind :=
  paths ← lift (context "dialling self" (pn_connect n addr PROBE_ALPN));
  let '(path, _) := session_path_report paths in
  lift (pn_open_bi n);;
  lift (pn_write_all n PROBE_PING);;
  lift (pn_finish n);;
  pong ← lift (pn_read_to_end n (zlen PROBE_PONG));
  ensure (bool_decide (pong = PROBE_PONG)) "unexpected probe response";;
  mret path.

Definition probe `{EndpointBuild} (open : Endpoint → ProbeNet) (target : PublicKey) (m : ProbeMode)
    (direct : list SocketAddr) (relay : RelayChoice) (timeout : string) : result PathKind :=
  let lookup := match m with Discovery => Resolve | Direct => LookupNone end in
  match bind None relay lookup None with
  | Err e => Err e
  | Ok ep =>
      let addr := match m with Discovery => ea_new target | Direct => endpoint_addr target direct None end in
      if pn_elapsed (open ep) then Err (anyhow ("probe timed out after " +:+ timeout))
      else (probe_exchange (open ep) addr tt).1
  end.
End net.
#[global] Arguments bind : simpl never.
#[global] Arguments endpoint_addr : simpl never.

(** ** Reference: the address blocks, on addresses as numbers *)

(** Whether the [width]-bit number [v] lies in the block [net/len]. *)
Definition in_block (width v net len : Z) : bool :=
  bool_decide (Z.shiftr v (width - len) = Z.shiftr net (width - len)).
Definition v4_number (a b c d : byte) : Z := be_value [a; b; c; d].
Definition dotted (a b c d : Z) : Z := Z.shiftl a 24 + Z.shiftl b 16 + Z.shiftl c 8 + d.

(** 127/8 and ::1 are this machine; 10/8, 172.16/12, 192.168/16, 169.254/16,
    0.0.0.0, fc00::/7, fe80::/10 and :: are local networks. *)
Definition v4_local : list (Z * Z) := [(dotted 127 0 0 0, 8)].
Definition v4_lan : list (Z * Z) :=
  [(dotted 10 0 0 0, 8); (dotted 172 16 0 0, 12); (dotted 192 168 0 0, 16);
   (dotted 169 254 0 0, 16); (dotted 0 0 0 0, 32)].
Definition v6_local : list (Z * Z) := [(1, 128)].
Definition v6_lan : list (Z * Z) := [(Z.shiftl 0xfc00 112, 7); (Z.shiftl 0xfe80 112, 10); (0, 128)].

Definition in_blocks (width v : Z) (l : list (Z * Z)) : bool :=
  existsb (λ b, in_block width v b.1 b.2) l.
Definition block_kind (ip : IpAddr) : PathKind :=
  match ip with
  | V4 a b c d =>
      let v := v4_number a b c d in
      if in_blocks 32 v v4_local then DirectLocal
      else if in_blocks 32 v v4_lan then DirectLan else DirectWan
  | V6 o =>
      let v := be_value o in
      if in_blocks 128 v v6_local then DirectLocal
      else if in_blocks 128 v v6_lan then DirectLan else DirectWan
  end.
Definition ip_wf (ip : IpAddr) : bool :=
  match ip with V4 _ _ _ _ => true | V6 o => bool_decide (length o = 16%nat) end.

Lemma bool_decide_iff (P Q : Prop) `{Decision P} `{Decision Q} :
  (P ↔ Q) → bool_decide P = bool_decide Q.
Proof. intros E. by apply bool_decide_ext. Qed.

Lemma v4_number_eq a b c d :
  v4_number a b c d = byte_to_Z a * 16777216 + byte_to_Z b * 65536 + byte_to_Z c * 256 + byte_to_Z d.
Proof.
  unfold v4_number. rewrite !be_value_cons. change (be_value []) with 0.
  unfold length. change (256 ^ Z.of_nat 3) with 16777216. change (256 ^ Z.of_nat 2) with 65536.
  change (256 ^ Z.of_nat 1) with 256. change (256 ^ Z.of_nat 0) with 1. lia.
Qed.

(** The first two bytes of a 16-byte address, and the rest. *)
Lemma v6_number_eq x y o :
  length o = 14%nat → ∃ rest, be_value (x :: y :: o) = (byte_to_Z x * 256 + byte_to_Z y) * 2 ^ 112 + rest ∧ 0 ≤ rest < 2 ^ 112.
Proof.
  intros Hl. exists (be_value o). pose proof (be_value_range o) as Hr. rewrite !be_value_cons. simpl.
  rewrite Hl in *. change (256 ^ Z.of_nat 14) with (2 ^ 112) in *.
  change (256 ^ Z.of_nat 15) with (256 * 2 ^ 112). lia.
Qed.

(** Masks on the leading bytes select the same bits as the prefix lengths. *)
Lemma mask_fe b : Z.land (byte_to_Z b) 254 = 252 ↔ byte_to_Z b / 2 = 126.
Proof. by destruct b; vm_compute. Qed.
Lemma mask_c0 b : Z.land (byte_to_Z b) 192 = 128 ↔ byte_to_Z b / 64 = 2.
Proof. by destruct b; vm_compute. Qed.

Ltac div_lia := Z.div_mod_to_equations; lia.

(** A block test on a number split at the block's boundary. *)
Lemma in_block_at width v net len k hi lo :
  0 ≤ k → width - len = k → v = hi * 2 ^ k + lo → 0 ≤ lo < 2 ^ k →
  in_block width v net len = bool_decide (hi = net / 2 ^ k).
Proof.
  intros Hk Hl -> Hlo. unfold in_block. rewrite Hl, !Z.shiftr_div_pow2 by lia.
  by rewrite Z.div_add_l, (Z.div_small lo), Z.add_0_r by lia.
Qed.

Lemma classify_v4 a b c d : classify_ip (V4 a b c d) = block_kind (V4 a b c d).
Proof.
  pose proof (byte_to_Z_range a) as Ha. pose proof (byte_to_Z_range b) as Hb.
  pose proof (byte_to_Z_range c) as Hc. pose proof (byte_to_Z_range d) as Hd.
  unfold classify_ip, block_kind, in_blocks, is_loopback, v4_is_private, v4_is_link_local,
    v4_is_unspecified, v4_local, v4_lan, existsb. cbn [fst snd].
  assert (H8 : ∀ n, in_block 32 (v4_number a b c d) n 8 = bool_decide (byte_to_Z a = n / 2 ^ 24)).
  { intros n. apply (in_block_at _ _ _ _ _ _ (byte_to_Z b * 65536 + byte_to_Z c * 256 + byte_to_Z d));
      [lia..|rewrite v4_number_eq|]; lia. }
  assert (H16 : ∀ n, in_block 32 (v4_number a b c d) n 16 =
    bool_decide (byte_to_Z a * 256 + byte_to_Z b = n / 2 ^ 16)).
  { intros n. apply (in_block_at _ _ _ _ _ _ (byte_to_Z c * 256 + byte_to_Z d));
      [lia..|rewrite v4_number_eq|]; lia. }
  assert (H12 : ∀ n, in_block 32 (v4_number a b c d) n 12 =
    bool_decide (byte_to_Z a * 16 + byte_to_Z b / 16 = n / 2 ^ 20)).
  { intros n. apply (in_block_at _ _ _ _ _ _
      (byte_to_Z b mod 16 * 65536 + byte_to_Z c * 256 + byte_to_Z d));
      [lia..|rewrite v4_number_eq|]; div_lia. }
  assert (H32 : in_block 32 (v4_number a b c d) (dotted 0 0 0 0) 32 =
    bool_decide ([a; b; c; d] = [x00; x00; x00; x00])).
  { rewrite (in_block_at _ _ _ _ 0 (v4_number a b c d) 0) by lia. apply bool_decide_iff.
    split; [|by intros [= -> -> -> ->]]. intros E. by apply be_value_inj. }
  rewrite !H8, !H16, H12, H32, !orb_false_r.
  change (dotted 127 0 0 0 / 2 ^ 24) with 127. change (dotted 10 0 0 0 / 2 ^ 24) with 10.
  change (dotted 172 16 0 0 / 2 ^ 20) with 2753. change (dotted 192 168 0 0 / 2 ^ 16) with 49320.
  change (dotted 169 254 0 0 / 2 ^ 16) with 43518.
  rewrite <- !bool_decide_and.
  rewrite (bool_decide_iff (byte_to_Z a = 172 ∧ 16 ≤ byte_to_Z b ≤ 31) (byte_to_Z a * 16 + byte_to_Z b / 16 = 2753)) by div_lia.
  rewrite (bool_decide_iff (byte_to_Z a = 192 ∧ byte_to_Z b = 168) (byte_to_Z a * 256 + byte_to_Z b = 49320)) by lia.
  rewrite (bool_decide_iff (byte_to_Z a = 169 ∧ byte_to_Z b = 254) (byte_to_Z a * 256 + byte_to_Z b = 43518)) by lia.
  by rewrite !orb_assoc.
Qed.

Lemma classify_v6 o : length o = 16%nat → classify_ip (V6 o) = block_kind (V6 o).
Proof.
  intros Hl. unfold classify_ip, block_kind, in_blocks, is_loopback, v6_is_unspecified, v6_local, v6_lan, existsb.
  cbn [fst snd].
  assert (H128 : ∀ n k, length n = 16%nat → k = be_value n → in_block 128 (be_value o) k 128 = bool_decide (o = n)).
  { intros n k Hn ->. rewrite (in_block_at _ _ _ _ 0 (be_value o) 0) by lia.
    rewrite Z.pow_0_r, Z.div_1_r. apply bool_decide_iff. split; [|by intros ->].
    intros E. apply be_value_inj; congruence. }
  rewrite (H128 (replicate 15 x00 ++ [x01]) 1) by done.
  rewrite (H128 (replicate 16 x00) 0) by done.
  destruct o as [|x [|y o]]; [done..|]. unfold octet. cbn [nth].
  destruct (v6_number_eq x y o) as (rest & Hv & Hr); [by simpl in Hl; lia|].
  pose proof (byte_to_Z_range x) as Hx. pose proof (byte_to_Z_range y) as Hy.
  rewrite (in_block_at 128 _ _ 7 121 (byte_to_Z x / 2) ((byte_to_Z x mod 2 * 256 + byte_to_Z y) * 2 ^ 112 + rest))
    by (rewrite ?Hv; div_lia).
  rewrite (in_block_at 128 _ _ 10 118 (byte_to_Z x * 4 + byte_to_Z y / 64) (byte_to_Z y mod 64 * 2 ^ 112 + rest))
    by (rewrite ?Hv; div_lia).
  change (Z.shiftl 0xfc00 112 / 2 ^ 121) with 126. change (Z.shiftl 0xfe80 112 / 2 ^ 118) with 1018.
  rewrite (bool_decide_iff _ _ (mask_fe x)), (bool_decide_iff _ _ (mask_c0 y)), <- bool_decide_and.
  rewrite (bool_decide_iff (byte_to_Z x = 254 ∧ byte_to_Z y / 64 = 2) (byte_to_Z x * 4 + byte_to_Z y / 64 = 1018))
    by div_lia.
  by rewrite !orb_false_r, orb_assoc.
Qed.

(** ** Following a session's label *)

Section tracking.
Context `{IrohKeys} `{RelayUrls}.

(** What an observer who started with label [l] and applies the reports in turn
    believes; [None] when a report contradicts it or reports no change. *)
Fixpoint replay (l : PathKind) (changes : list PathChange) : option PathKind :=
  match changes with
  | [] => Some l
  | (was, now, _) :: changes =>
      if bool_decide (was = l ∧ now ≠ was) then replay now changes else None
  end.
Definition label (paths : list Path) : PathKind := (session_path_report paths).1.

Lemma replay_loop l events :
  replay l (path_changes_loop l events None) = Some (default l (label <$> last events)).
Proof.
  revert l. induction events as [|p events IH]; intros l; [done|]. cbn [path_changes_loop].
  destruct (session_path_report p) as [now remote] eqn:E.
  assert (Hp : label p = now) by (unfold label; by rewrite E).
  pose proof (last_cons p events) as Hlast.
  case_bool_decide as Hn.
  - rewrite IH, Hlast. destruct (last events); [done|]. simpl. congruence.
  - cbn [replay]. rewrite bool_decide_true by done. rewrite IH, Hlast.
    by destruct (last events); simpl; rewrite ?Hp.
Qed.

Lemma path_changes_take l events n :
  path_changes_loop l events (Some n) = take n (path_changes_loop l events None).
Proof.
  revert l n. induction events as [|p events IH]; intros l n; [by destruct n|]. cbn [path_changes_loop].
  destruct (session_path_report p) as [now remote]. case_bool_decide; [apply IH|].
  destruct n; [done|]. simpl. by rewrite IH.
Qed.

Lemma path_changes_prefix l ev1 ev2 :
  path_changes_loop l ev1 None `prefix_of` path_changes_loop l (ev1 ++ ev2) None.
Proof.
  revert l. induction ev1 as [|p ev1 IH]; intros l; [apply prefix_nil|]. cbn [path_changes_loop app].
  destruct (session_path_report p) as [now remote]. case_bool_decide; [apply IH|].
  by apply prefix_cons.
Qed.

(** ** Properties *)

(** C35: The label given to an IP address is the one the address blocks
    prescribe (127/8 and ::1 local; 10/8, 172.16/12, 192.168/16, 169.254/16,
    0.0.0.0, fc00::/7, fe80::/10 and :: LAN; everything else WAN), for every
    IPv4 and IPv6 address, seen as a 32- or 128-bit number. *)
Theorem classify_ip_by_blocks ip : ip_wf ip = true → classify_ip ip = block_kind ip.
Proof.
  destruct ip as [a b c d|o]; intros Hwf; [apply classify_v4|]. apply classify_v6.
  by apply bool_decide_eq_true in Hwf.
Qed.

(** A session is reported as direct only if the first path marked as
    selected goes to an IP address, and then with that address's label; traffic
    through a relay is reported as relayed and anything else as unknown, however
    many other paths are open. *)
Theorem direct_only_if_selected_is_ip (paths : list Path) :
  session_path_report paths =
    match List.find is_selected paths with
    | Some (mkPath _ (Ip sa)) => (classify_ip (sa_ip sa), show_socket_addr sa)
    | Some (mkPath _ (Relay url)) => (Relayed, url_to_string url)
    | Some (mkPath _ (OtherTransport d)) => (Unknown, d)
    | None => (Unknown, "no open path")
    end ∧
  (label paths ∈ [DirectLocal; DirectLan; DirectWan] ↔
   ∃ pre sel sa post, paths = pre ++ mkPath sel (Ip sa) :: post ∧ sel = true ∧
     Forall (λ p, is_selected p = false) pre).
Proof.
  unfold label, session_path_report, session_path. split.
  { destruct (List.find is_selected paths) as [[sel [|sa|]]|]; done. }
  induction paths as [|p paths IH].
  { simpl. split; [set_solver|]. intros (pre & ? & ? & ? & ? & _). by destruct pre. }
  destruct p as [[] addr]; simpl.
  - split.
    + destruct addr as [u|sa|d]; simpl; intros Hin; [set_solver| |set_solver].
      exists [], true, sa, paths. split_and!; auto.
    + intros (pre & sel & sa & post & E & -> & Hpre). destruct pre as [|q pre]; simplify_eq/=.
      * unfold classify_ip. repeat case_match; set_solver.
      * by apply Forall_cons in Hpre as [? _].
  - rewrite IH. split.
    + intros (pre & sel & sa & post & -> & -> & Hpre).
      exists (mkPath false addr :: pre), true, sa, post. split_and!; auto.
    + intros (pre & sel & sa & post & E & -> & Hpre). destruct pre as [|q pre]; simplify_eq/=.
      apply Forall_cons in Hpre as [_ ?]. eauto 10.
Qed.

(** Whoever starts with the label a session had and applies the reported
    changes knows the label after every event: each report starts from the
    label last reported and changes it, the reports made by the first events
    are a prefix of all reports and lead to the label the paths have then, and
    dropping the receiver only cuts the sequence. *)
Theorem path_changes_track (initial : list Path) (seen rest : list (list Path)) n :
  replay (label initial) (path_changes initial seen None) =
    Some (label (default initial (last seen))) ∧
  path_changes initial seen None `prefix_of` path_changes initial (seen ++ rest) None ∧
  path_changes initial seen (Some n) = take n (path_changes initial seen None).
Proof.
  split_and!.
  - unfold path_changes. change (session_path_report initial).1 with (label initial).
    rewrite replay_loop. by destruct (last seen).
  - apply path_changes_prefix.
  - apply path_changes_take.
Qed.

Context `{!EndpointBuild}.

(** A probe reports success exactly when a throwaway endpoint (fresh key,
    nothing published, no lookup unless discovery is what is being tested) was
    bound, dialled the controller's own id under the probe protocol before the
    deadline and read back exactly the expected answer; the path it returns is
    the one the probe connection was using, and in discovery mode it was given
    no address at all. *)
Theorem probe_answers_truthfully (open : Endpoint → ProbeNet) target m direct relay timeout path :
  probe open target m direct relay timeout = Ok path ↔
  ∃ rm ep paths,
    mode relay = Ok rm ∧
    builder_bind (mkConfig rm None None false (bool_decide (m = Discovery))) = Ok ep ∧
    pn_elapsed (open ep) = false ∧
    pn_connect (open ep)
      (match m with Discovery => mkEndpointAddr target [] | Direct => endpoint_addr target direct None end)
      PROBE_ALPN = Ok paths ∧
    is_ok (pn_open_bi (open ep)) = true ∧ is_ok (pn_write_all (open ep) PROBE_PING) = true ∧
    is_ok (pn_finish (open ep)) = true ∧
    pn_read_to_end (open ep) (zlen PROBE_PONG) = Ok PROBE_PONG ∧ path = label paths.
Proof.
  unfold probe, bind, bind_config, probe_exchange, label.
  replace (bool_decide (_ = Both)) with false by (by destruct m).
  replace (bool_decide (_ ≠ LookupNone)) with (bool_decide (m = Discovery)) by (by destruct m).
  split.
  - intros Hp. destruct (mode relay) as [rm|]; [|done]. simpl in Hp.
    destruct (builder_bind _) as [ep|] eqn:Hb; [|done]. simpl in Hp. exists rm, ep.
    destruct (pn_elapsed (open ep)); [done|]. unfold ea_new in Hp. run_unfold.
    destruct (pn_connect _ _ _) as [paths|]; [|done]. exists paths.
    destruct (session_path_report paths) as [l d].
    destruct (pn_open_bi (open ep)); [|done]. destruct (pn_write_all (open ep) PROBE_PING); [|done].
    destruct (pn_finish (open ep)); [|done]. destruct (pn_read_to_end _ _); [|done].
    case_bool_decide; [|done]. simplify_eq/=. by split_and!.
  - intros (rm & ep & paths & -> & Hb & He & Hc & Ho & Hw & Hf & Hr & ->). simpl. rewrite Hb. simpl.
    rewrite He. unfold ea_new. run_unfold. rewrite Hc. destruct (session_path_report paths) as [l d].
    destruct (pn_open_bi (open ep)); [|done]. destruct (pn_write_all (open ep) PROBE_PING); [|done].
    destruct (pn_finish (open ep)); [|done]. rewrite Hr. by rewrite bool_decide_true.
Qed.
End tracking.

(** ** Concrete addresses and a concrete probe *)

Section examples.
Import DemoSha DemoKeys.

Instance demo_relays : RelayUrls := {
  RelayUrl := string; RelayMap := list string;
  url_parse s := Ok s; url_to_string s := s; relay_map_try_from_iter l := Ok l
}.
Instance demo_build : EndpointBuild := {
  Endpoint := EndpointConfig; builder_bind_addr _ := Ok tt; builder_bind c := Ok c
}.
(** fe80::1 *)
Definition demo_v6 : IpAddr := V6 (xfe :: x80 :: replicate 13 x00 ++ [x01]).

Lemma classify_ip_by_blocks_witness : classify_ip demo_v6 = DirectLan.
Proof. rewrite (classify_ip_by_blocks demo_v6) by reflexivity. vm_compute. reflexivity. Defined.

Example show_ip_examples :
  show_ip demo_v6 = "fe80::1" ∧ show_ip (V6 (replicate 16 x00)) = "::" ∧
  show_ip (V4 x0a x00 x02 x0f) = "10.0.2.15" ∧
  show_socket_addr (mkSocketAddr (V6 (replicate 10 x00 ++ [xff; xff; x7f; x00; x00; x01])) 9)
    = "[::ffff:127.0.0.1]:9".
Proof. vm_compute. done. Qed.
End examples.
