(* ===== verification/State.v ===== *)
(** * The controller's state directory (src/src/state.rs)

    The approved list, the pending list, the published status and the identity
    key, as files of the [World] of Fs.v; every operation is the sequence of
    system calls the source makes, so every one of them may fail half way. *)

From S2P Require Import Prelude Text Fs Crypto Proto Net.

(** [serde_json], as a parameter. *)
Class SerdeJson (T : Type) := {
  to_vec_pretty : T → result bytes;
  from_slice : bytes → result T
}.
(** What is written for a well-formed value reads back as that value. *)
Class SerdeJsonLaws (T : Type) `{SerdeJson T} (wf : T → Prop) : Prop := {
  json_total x : wf x → is_ok (to_vec_pretty x) = true;
  json_roundtrip x b : wf x → to_vec_pretty x = Ok b → from_slice b = Ok x
}.

(** A codec for every countable type: the bits of its code. *)
Module DemoJson.
Fixpoint pos_bits (p : positive) : bytes :=
  match p with xH => [] | xO p => x30 :: pos_bits p | xI p => x31 :: pos_bits p end.
Fixpoint bits_pos (b : bytes) : positive :=
  match b with [] => xH | x :: b => if byte_eqb x x30 then xO (bits_pos b) else xI (bits_pos b) end.
Lemma bits_pos_bits p : bits_pos (pos_bits p) = p.
Proof. induction p; simpl; congruence. Qed.
#[export] Instance demo_json `{Countable T} : SerdeJson T := {
  to_vec_pretty x := Ok (pos_bits (encode x));
  from_slice b := match decode (bits_pos b) with Some x => Ok x | None => Err (anyhow "expected value") end
}.
#[export] Instance demo_json_laws `{Countable T} wf : SerdeJsonLaws T wf.
Proof.
  split; [done|]. intros x b _ [= <-]. simpl. by rewrite bits_pos_bits, decode_encode.
Qed.
End DemoJson.

(** ** Data *)

Record StateDir := mkStateDir { root : path }.

Record PendingAgent := mkPendingAgent {
  pubkey : string;
  first_seen_unix : Z;
  last_seen_unix : Z;
  attempts : Z
}.
Record SessionInfo := mkSessionInfo {
  si_agent : string;
  si_path : PathKind;
  si_remote : string;
  si_since_unix : Z
}.
Record Status := mkStatus {
  st_node_id : string;
  st_pid : Z;
  st_updated_unix : Z;
  st_direct_addrs : list string;
  st_dialable : option bool;
  st_probe_mode : ProbeMode;
  st_last_probe_ok_unix : option Z;
  st_last_probe_path : option PathKind;
  st_last_probe_error : option string;
  st_consecutive_probe_failures : Z;
  st_endpoint_restarts : Z;
  st_sessions : list SessionInfo
}.
Inductive OnUnusable := Replace | Refuse.

#[export] Instance PendingAgent_eq_dec : EqDecision PendingAgent.
Proof. solve_decision. Defined.
#[export] Instance SessionInfo_eq_dec : EqDecision SessionInfo.
Proof. solve_decision. Defined.
#[export] Instance OnUnusable_eq_dec : EqDecision OnUnusable.
Proof. solve_decision. Defined.

#[export] Instance PendingAgent_countable : Countable PendingAgent.
Proof.
  refine (inj_countable' (λ p, (pubkey p, first_seen_unix p, last_seen_unix p, attempts p))
    (λ t, mkPendingAgent t.1.1.1 t.1.1.2 t.1.2 t.2) _). by intros [].
Defined.

Definition PENDING_LIMIT : nat := 256.

(** ** Paths *)

Definition default_path (xdg_state_home home : option string) : path :=
  match xdg_state_home with
  | Some x => join (parse_path x) "egdod"
  | None => join (default [] (parse_path <$> home)) ".local/state/egdod"
  end.
Definition key_path (s : StateDir) : path := join (root s) "controller.key".
Definition sock_path (s : StateDir) : path := join (root s) "control.sock".
Definition approved_path (s : StateDir) : path := join (root s) "approved".
Definition pending_path (s : StateDir) : path := join (root s) "pending.json".
Definition status_path (s : StateDir) : path := join (root s) "status.json".
Definition ssh_dir (s : StateDir) : path := join (root s) "ssh".
Definition ssh_key_path (s : StateDir) : path := join (ssh_dir s) "id_ed25519".
Definition ssh_pub_path (s : StateDir) : path := join (ssh_dir s) "id_ed25519.pub".
Definition known_hosts_path (s : StateDir) : path := join (ssh_dir s) "known_hosts".

(** ** Writing files *)

Definition now_unix : M World Z := t ← now_m; mret (Z.max 0 t).

(** [Status::writer_alive] *)
Definition writer_alive (st : Status) : M World bool := fs_exists (parse_path ("/proc/" +:+ pretty (st_pid st))).

Definition restrict (dir : path) : M World unit :=
  with_context ("restricting " +:+ show_path dir) (fs_set_permissions dir o700).

Definition unique_tmp (p : path) (pid : Z) : path :=
  with_file_name p (default "" (file_name p) +:+ (".tmp." +:+ pretty pid)).

Definition write_atomic (p : path) (body : bytes) : M World unit :=
  me ← gets pid;
  let tmp := unique_tmp p me in
  with_context ("writing " +:+ show_path tmp) (fs_write tmp body);;
  with_context ("renaming into " +:+ show_path p) (fs_rename tmp p).

Definition write_private (p : path) (body : bytes) : M World unit :=
  me ← gets pid;
  let tmp := unique_tmp p me in
  with_context ("creating " +:+ show_path tmp) (fs_create_new tmp o600);;
  with_context "writing key" (fs_append tmp body);;
  with_context "flushing key" fs_sync;;
  with_context ("renaming into " +:+ show_path p) (fs_rename tmp p).

(** [std::fs::read_to_string] *)
Definition fs_read_to_string (p : path) : M World bytes :=
  b ← fs_read p;
  if utf8_valid b then mret b
  else fail (io_error InvalidData "stream did not contain valid UTF-8").

Section state.
Context `{IrohKeys} `{SerdeJson (list PendingAgent)}.

Definition ensure_dir (s : StateDir) : M World unit :=
  with_context ("creating state dir " +:+ show_path (root s)) (fs_create_dir_all (root s));;
  restrict (root s);;
  mret tt.

(** ** Keys *)

Definition read_key (p : path) : M World (option SecretKey) :=
  r ← attempt (fs_read p);
  match r with
  | Ok b =>
      if bool_decide (length b = 32%nat)
      then ignore (fs_metadata p);; mret (Some (sk_from_bytes b))
      else fail (anyhow ("key file " +:+ show_path p +:+ " is not 32 bytes"))
  | Err e =>
      if bool_decide (e_io e = Some NotFound) then mret None
      else fail (add_context ("reading " +:+ show_path p) e)
  end.

(** Makes the key file's directory, restricted, when it is missing. *)
Definition make_parent (p : path) : M World unit :=
  match parent p with
  | Some d =>
      if bool_decide (d = []) then mret tt else
      there ← fs_exists d;
      if (there : bool) then mret tt else
      with_context ("creating " +:+ show_path d) (fs_create_dir_all d);;
      restrict d
  | None => mret tt
  end.

Definition create_key (p : path) : M World SecretKey :=
  b ← getrandom 32;
  make_parent p;;
  write_private p b;;
  mret (sk_from_bytes b).

Definition load_or_create_key (p : path) (unusable : OnUnusable) : M World SecretKey :=
  r ← attempt (read_key p);
  match r with
  | Ok (Some k) => mret k
  | Ok None => create_key p
  | Err e => if bool_decide (unusable = Replace) then create_key p else fail e
  end.

Definition init_key (s : StateDir) : M World SecretKey :=
  ensure_dir s;;
  load_or_create_key (key_path s) Refuse.

Definition load_key (s : StateDir) : M World SecretKey :=
  o ← read_key (key_path s);
  match o with
  | Some k => mret k
  | None => fail (anyhow ("no controller key at " +:+ show_path (key_path s)
                            +:+ " — run `egdod controller init` first"))
  end.

(** ** The approved list *)

(** One line of the file: a key, nothing, or the [expect] that cannot fire. *)
Definition approved_line (line : bytes) : result (option PublicKey) :=
  match trim_bytes (hd [] (split_on (byte_eqb HASH) line)) with
  | [] => Ok None
  | l =>
      match split_whitespace l with
      | key :: _ =>
          match pk_parse (of_bytes key) with
          | Ok k => Ok (Some k)
          | Err _ => Ok None
          end
      | [] => Err (panic "non-empty line has a first field")
      end
  end.
Definition set_insert (k : PublicKey) (l : list PublicKey) : list PublicKey :=
  if bool_decide (k ∈ l) then l else l ++ [k].
Fixpoint approved_lines (ls : list bytes) (out : list PublicKey) : result (list PublicKey) :=
  match ls with
  | [] => Ok out
  | l :: ls =>
      match approved_line l with
      | Ok (Some k) => approved_lines ls (set_insert k out)
      | Ok None => approved_lines ls out
      | Err e => Err e
      end
  end.
Definition approved (s : StateDir) : M World (list PublicKey) :=
  r ← attempt (fs_read_to_string (approved_path s));
  match r with
  | Ok body => lift (approved_lines (lines body) [])
  | Err e =>
      if bool_decide (e_io e = Some NotFound) then mret []
      else fail (add_context "reading approved list" e)
  end.

(** ** The pending list *)

Definition pending (s : StateDir) : M World (list PendingAgent) :=
  r ← attempt (fs_read (pending_path s));
  match r with
  | Ok b => lift (context "parsing pending.json" (from_slice b))
  | Err e =>
      if bool_decide (e_io e = Some NotFound) then mret []
      else fail (add_context "reading pending.json" e)
  end.

Definition write_pending (s : StateDir) (l : list PendingAgent) : M World unit :=
  body ← lift (to_vec_pretty l);
  write_atomic (pending_path s) body.

(** [list.iter_mut().find(..)]: the first entry for the key is updated, or one
    is appended. *)
Fixpoint touch_pending (text : string) (now : Z) (l : list PendingAgent) : list PendingAgent :=
  match l with
  | [] => [mkPendingAgent text now now 1]
  | p :: l =>
      if bool_decide (pubkey p = text)
      then mkPendingAgent (pubkey p) (first_seen_unix p) now (u64_add (attempts p) 1) :: l
      else p :: touch_pending text now l
  end.

(** The stable [sort_by_key(last_seen_unix)]. *)
Fixpoint insert_by_seen (p : PendingAgent) (l : list PendingAgent) : list PendingAgent :=
  match l with
  | [] => [p]
  | q :: l' =>
      if bool_decide (last_seen_unix p ≤ last_seen_unix q) then p :: l else q :: insert_by_seen p l'
  end.
Definition sort_by_seen (l : list PendingAgent) : list PendingAgent := foldr insert_by_seen [] l.

Definition cap_pending (l : list PendingAgent) : list PendingAgent :=
  if (PENDING_LIMIT <? length l)%nat
  then drop (length l - PENDING_LIMIT) (sort_by_seen l)
  else l.

Definition record_pending (s : StateDir) (key : PublicKey) : M World unit :=
  ensure_dir s;;
  now ← now_unix;
  l ← pending s;
  write_pending s (cap_pending (touch_pending (pk_to_string key) now l)).

Definition forget_pending (s : StateDir) (key : PublicKey) : M World unit :=
  l ← pending s;
  let kept := filter (λ p, pubkey p ≠ pk_to_string key) l in
  if bool_decide (length kept = length l) then mret tt
  else write_pending s kept.

Definition approve (s : StateDir) (key : PublicKey) : M World bool :=
  ensure_dir s;;
  l ← approved s;
  if bool_decide (key ∈ l) then mret false else
  r ← attempt (fs_read_to_string (approved_path s));
  let body := match r with Ok b => b | Err _ => [] end in
  let body := if negb (bool_decide (body = [])) && negb (ends_with LF body) then body ++ [LF] else body in
  write_atomic (approved_path s) (body ++ as_bytes (pk_to_string key) ++ [LF]);;
  forget_pending s key;;
  mret true.

(** ** The published status *)

Definition write_status `{SerdeJson Status} (s : StateDir) (st : Status) : M World unit :=
  body ← lift (to_vec_pretty st);
  write_atomic (status_path s) body.
Definition read_status `{SerdeJson Status} (s : StateDir) : M World Status :=
  body ← with_context ("reading " +:+ show_path (status_path s)
                         +:+ " — is `egdod controller serve` running?") (fs_read (status_path s));
  lift (context "parsing status.json" (from_slice body)).
End state.

(** ** Lemmas: paths *)

Lemma approved_path_eq s : approved_path s = root s ++ ["approved"].
Proof. reflexivity. Qed.
Lemma pending_path_eq s : pending_path s = root s ++ ["pending.json"].
Proof. reflexivity. Qed.
Lemma status_path_eq s : status_path s = root s ++ ["status.json"].
Proof. reflexivity. Qed.
Lemma key_path_eq s : key_path s = root s ++ ["controller.key"].
Proof. reflexivity. Qed.

(** The side file of [name] for process [n]. *)
Definition side (name : string) (n : Z) : string := name +:+ (".tmp." +:+ pretty n).

Lemma side_plain name n : plain_name (side name n).
Proof.
  unfold plain_name, side. rewrite !not_elem_of_cons. split_and!; [| | |apply not_elem_of_nil];
    destruct name as [|c1 [|c2 name]]; try done; intros E; simplify_eq/=. by destruct name.
Qed.
Lemma side_ne name n : side name n ≠ name.
Proof. unfold side. intros E. by apply string_app_longer in E. Qed.
Lemma unique_tmp_snoc d x n : plain_name x → unique_tmp (d ++ [x]) n = d ++ [side x n].
Proof. intros Hx. unfold unique_tmp, side. by rewrite file_name_snoc, with_file_name_snoc. Qed.
Lemma unique_tmp_ne p n : is_Some (file_name p) → unique_tmp p n ≠ p.
Proof.
  intros [x Hx]. unfold unique_tmp, with_file_name. rewrite Hx. simpl. intros E.
  apply (f_equal last) in E. rewrite last_snoc in E. unfold file_name in Hx.
  rewrite <- E in Hx. case_bool_decide; [done|]. injection Hx. apply side_ne.
Qed.

(** ** Lemmas: writing *)

(** Whatever fails, a file opened for truncation and written to is the only one
    that changes. *)
Lemma fs_write_spec p b w r w' :
  fs_write p b w = (r, w') →
  later w w' ∧ (∀ q, q ≠ p → fs w' !! q = fs w !! q) ∧
  (r = Ok tt → ∃ m, fs w' !! p = Some (NFile (mkFile b m))).
Proof.
  unfold fs_write, mbind, M_bind.
  destruct (syscall_cases (do_open_truncate p) w) as [(f & w1 & -> & Hfs & Hl & _)|(w1 & -> & Hfs & Hl)].
  { intros; simplify_eq. split_and!; [done| |done]. intros. by rewrite Hfs. }
  assert (Hopen : ∀ w2 m, fs w2 = <[p := NFile (mkFile [] m)]> (fs w1) → later w w2 →
    fs_append p b w2 = (r, w') → later w w' ∧ (∀ q, q ≠ p → fs w' !! q = fs w !! q) ∧
    (r = Ok tt → ∃ m, fs w' !! p = Some (NFile (mkFile b m)))).
  { intros w2 m Hw2 Hl2 E.
    destruct (fs_append_file p b w2 (mkFile [] m)) as (d & w3 & Hfs3 & Hl3 & Hr); [by rewrite Hw2, lookup_insert_eq|].
    destruct Hr as [[-> E3]|(e & E3 & _)]; rewrite E3 in E; simplify_eq/=.
    - split_and!; [by etrans| |].
      + intros q Hq. by rewrite Hfs3, lookup_insert_ne, Hw2, lookup_insert_ne, Hfs.
      + intros _. exists m. by rewrite Hfs3, lookup_insert_eq.
    - split_and!; [by etrans| |done].
      intros q Hq. by rewrite Hfs3, lookup_insert_ne, Hw2, lookup_insert_ne, Hfs. }
  unfold do_open_truncate. destruct (fs w1 !! p) as [[f| |]|] eqn:E.
  - apply (Hopen _ (f_mode f)); [done|]. etrans; [exact Hl|]. eauto with egdod.
  - intros; simplify_eq. split_and!; [done| |done]. intros. by rewrite Hfs.
  - intros; simplify_eq. split_and!; [done| |done]. intros. by rewrite Hfs.
  - destruct (parent_ok w1 p).
    + apply (Hopen _ (Z.ldiff o666 (umask w1))); [done|]. etrans; [exact Hl|]. eauto with egdod.
    + intros; simplify_eq. split_and!; [done| |done]. intros. by rewrite Hfs.
Qed.

(** A rename happens as a whole or not at all. *)
Lemma fs_rename_spec a b w r w' :
  fs_rename a b w = (r, w') →
  later w w' ∧
  ((r = Ok tt ∧ ∃ n, fs w !! a = Some n ∧ fs w' = <[b := n]> (delete a (fs w))) ∨
   (is_err r = true ∧ fs w' = fs w)).
Proof.
  unfold fs_rename.
  destruct (syscall_cases (do_rename a b) w) as [(f & w1 & -> & Hfs & Hl & _)|(w1 & -> & Hfs & Hl)].
  { intros; simplify_eq. auto. }
  unfold do_rename. rewrite Hfs. destruct (fs w !! a) as [n|] eqn:Ea.
  2:{ intros; simplify_eq. auto. }
  assert (Hgo : (if parent_ok w1 b then (Ok tt, set_fs (λ m, <[b:=n]> (delete a m)) w1) else (Err enoent, w1)) = (r, w') →
    later w w' ∧ ((r = Ok tt ∧ ∃ n0, Some n = Some n0 ∧ fs w' = <[b:=n0]> (delete a (fs w))) ∨
      (is_err r = true ∧ fs w' = fs w))).
  { destruct (parent_ok w1 b); intros; simplify_eq/=; [|auto].
    split; [etrans; [exact Hl|eauto with egdod]|]. left. split; [done|]. exists n. by rewrite Hfs. }
  destruct (fs w !! b) as [[]|]; [exact Hgo| |exact Hgo..]. intros; simplify_eq. auto.
Qed.

Lemma write_atomic_spec p b w r w' :
  is_Some (file_name p) → write_atomic p b w = (r, w') →
  later w w' ∧ (∀ q, q ≠ p → q ≠ unique_tmp p (pid w) → fs w' !! q = fs w !! q) ∧
  (r = Ok tt → ∃ m, fs w' !! p = Some (NFile (mkFile b m))) ∧
  (is_err r = true → fs w' !! p = fs w !! p).
Proof.
  intros Hp. pose proof (unique_tmp_ne p (pid w) Hp) as Hne.
  unfold write_atomic, mbind, M_bind, gets, with_context.
  destruct (fs_write (unique_tmp p (pid w)) b w) as [r1 w1] eqn:Ew.
  apply fs_write_spec in Ew as (Hl1 & Hsame1 & Hok1). destruct r1 as [[]|e]; simpl.
  2:{ intros; simplify_eq. split_and!; [done|auto|done|]. intros _. by apply Hsame1. }
  destruct (Hok1 eq_refl) as [m Hm].
  destruct (fs_rename (unique_tmp p (pid w)) p w1) as [r2 w2] eqn:Er.
  apply fs_rename_spec in Er as (Hl2 & [[-> (n & Hn & Hfs)]|[Herr Hfs]]).
  - intros; simplify_eq/=. split_and!; [by etrans| | |done].
    + intros q Hq1 Hq2. by rewrite Hfs, lookup_insert_ne, lookup_delete_ne, Hsame1.
    + intros _. exists m. rewrite Hfs, lookup_insert_eq. congruence.
  - intros; simplify_eq/=. split_and!; [by etrans| | |].
    + intros q Hq1 Hq2. by rewrite Hfs, Hsame1.
    + by destruct r2.
    + intros _. by rewrite Hfs, Hsame1.
Qed.

Lemma write_atomic_quiet d x b w :
  plain_name x → faults w = [] → is_dir w d = true →
  file_or_none w (d ++ [x]) → file_or_none w (d ++ [side x (pid w)]) →
  ∃ m, write_atomic (d ++ [x]) b w =
    (Ok tt, with_fs (<[d ++ [x] := NFile (mkFile b m)]> (delete (d ++ [side x (pid w)]) (fs w))) w).
Proof.
  intros Hx Hq Hd Hf Ht. unfold write_atomic, mbind, M_bind, gets, with_context.
  rewrite unique_tmp_snoc by done. set (tmp := d ++ [side x (pid w)]).
  assert (Hne : tmp ≠ d ++ [x]).
  { intros E. apply (inj (app d)) in E. injection E. apply side_ne. }
  destruct (fs_write_quiet tmp b w) as [m ->]; [done| |done|].
  { unfold tmp. rewrite parent_ok_snoc; [done|apply side_plain]. }
  exists m. simpl. rewrite (fs_rename_quiet _ _ _ (NFile (mkFile b m))).
  - simpl. unfold with_fs. simpl. by rewrite delete_insert_eq.
  - done.
  - simpl. by rewrite lookup_insert_eq.
  - intros k. simpl. rewrite lookup_insert_ne by done. unfold file_or_none in Hf.
    by destruct (fs w !! (d ++ [x])) as [[]|].
  - rewrite parent_ok_snoc by done. eapply is_dir_insert; [reflexivity| |done].
    intros k. unfold file_or_none in Ht. unfold tmp. by destruct (fs w !! _) as [[]|].
Qed.

(** ** Lemmas: keys *)

(** No scheduled failure claims that a file is missing: [NotFound] is what the
    system says of a file that is not there. *)
Definition honest (w : World) : Prop :=
  ∀ f, Some f ∈ faults w → flt_kind f ≠ NotFound.

Lemma honest_later w w' : honest w → later w w' → honest w'.
Proof. intros H [[pre E] _ _ _ _] f Hf. apply H. rewrite E. set_solver. Qed.

Lemma honest_head w f l : honest w → faults w = Some f :: l → flt_kind f ≠ NotFound.
Proof. intros H E. apply H. rewrite E. set_solver. Qed.

(** Reading a file changes no file, and an absence is reported only of a file
    that is absent, if failures are honest. *)
Lemma fs_read_spec p w r w' :
  fs_read p w = (r, w') →
  fs w' = fs w ∧ later w w' ∧
  (∀ b, r = Ok b → ∃ m, fs w !! p = Some (NFile (mkFile b m))) ∧
  (honest w → ∀ e, r = Err e → e_io e = Some NotFound → fs w !! p = None).
Proof.
  unfold fs_read, syscall, next_fault. intros E. destruct (faults w) as [|[f|] l] eqn:Ef.
  - destruct (fs w !! p) as [[[d m]| |]|] eqn:Ep; simplify_eq/=; (split_and!; [done|reflexivity| |]);
      intros; simplify_eq/=; eauto; done.
  - simplify_eq. split_and!; [done|eauto with egdod|done|]. intros Hh e [= <-] He.
    simpl in He. apply (honest_head w f l) in Hh; [congruence|done].
  - simpl in E. destruct (fs w !! p) as [[[d m]| |]|] eqn:Ep; simplify_eq/=;
      (split_and!; [done|eauto with egdod| |]); intros; simplify_eq/=; eauto; done.
Qed.

Lemma ignore_metadata_spec p w u w' :
  ignore (fs_metadata p) w = (u, w') → u = Ok tt ∧ fs w' = fs w ∧ later w w'.
Proof.
  unfold ignore, fs_metadata. destruct (syscall_cases (do_stat p) w)
    as [(f & w1 & -> & Hfs & Hl & _)|(w1 & -> & Hfs & Hl)]; intros; simplify_eq/=; [done|].
  unfold do_stat. destruct (fs w1 !! p), (is_dir w1 p); done.
Qed.

Section keys.
Context `{IrohKeys}.

(** The file at [p] is a usable key file for [k]. *)
Definition holds_key (w : World) (p : path) (k : SecretKey) : Prop :=
  ∃ b m, fs w !! p = Some (NFile (mkFile b m)) ∧ length b = 32%nat ∧ k = sk_from_bytes b.

Lemma read_key_spec p w r w' :
  read_key p w = (r, w') →
  fs w' = fs w ∧ later w w' ∧
  (∀ k, r = Ok (Some k) → holds_key w p k) ∧
  (honest w → r = Ok None → fs w !! p = None).
Proof.
  unfold read_key, mbind, M_bind, attempt. destruct (fs_read p w) as [r1 w1] eqn:Er.
  apply fs_read_spec in Er as (Hfs & Hl & Hok & Herr). destruct r1 as [b|e].
  - case_bool_decide as Hlen.
    + destruct (ignore (fs_metadata p) w1) as [u w2] eqn:Em.
      apply ignore_metadata_spec in Em as (-> & Hfs2 & Hl2). unfold mret, M_ret.
      intros; simplify_eq. split_and!; [congruence|by etrans| |done].
      intros k [= <-]. destruct (Hok b eq_refl) as [m Hm]. by exists b, m.
    + unfold fail. intros; by simplify_eq.
  - case_bool_decide as Hk; unfold mret, M_ret, fail; intros; simplify_eq; split_and!; try done.
    intros Hh _. by apply (Herr Hh e).
Qed.

Lemma read_key_quiet p w k :
  faults w = [] → holds_key w p k → read_key p w = (Ok (Some k), w).
Proof.
  intros Hq (b & m & Hf & Hlen & ->). unfold read_key, mbind, M_bind, attempt.
  rewrite (fs_read_quiet _ _ _ Hq Hf). simpl. rewrite bool_decide_true by done.
  unfold ignore, fs_metadata. rewrite syscall_quiet by done. unfold do_stat. by rewrite Hf.
Qed.

(** Making the directory changes only what leads to the file. *)
Lemma make_parent_spec p w r w' :
  make_parent p w = (r, w') →
  later w w' ∧ ∀ q, (∀ d, parent p = Some d → ¬ q `prefix_of` d) → fs w' !! q = fs w !! q.
Proof.
  unfold make_parent. unfold mret, M_ret.
  destruct (parent p) as [d|]; [|intros; simplify_eq; split; [reflexivity|done]].
  case_bool_decide; [intros; simplify_eq; split; [reflexivity|done]|].
  unfold fs_exists, mbind, M_bind, attempt, with_context.
  destruct (fs_metadata d w) as [r1 w1] eqn:Em.
  assert (fs w1 = fs w ∧ later w w1) as [Hfs1 Hl1].
  { assert (E : ignore (fs_metadata d) w = (Ok tt, w1)) by (unfold ignore; by rewrite Em).
    by apply ignore_metadata_spec in E as (_ & ? & ?). }
  unfold mret at 1, M_ret at 1. destruct (is_ok r1); [intros; inv_eq; split; [done|]; by intros; rewrite Hfs1|].
  destruct (fs_create_dir_all d w1) as [r2 w2] eqn:Ec. apply mkdirs_spec in Ec as [Hl2 Hd]. simpl in Hd.
  assert (Hsame2 : ∀ q, (∀ d0, Some d = Some d0 → ¬ q `prefix_of` d0) → fs w2 !! q = fs w !! q).
  { intros q Hq. rewrite <- Hfs1. destruct (Hd q) as [?|(_ & Hpre & _)]; [done|]. by destruct (Hq d). }
  destruct r2 as [[]|e]; simpl; [|intros; inv_eq; split; [by etrans|done]].
  unfold restrict, with_context. destruct (fs_set_permissions d o700 w2) as [r3 w3] eqn:Es.
  intros; simplify_eq. unfold fs_set_permissions in Es.
  destruct (syscall_cases (do_chmod d o700) w2) as [(f & w4 & E & Hfs & Hl & _)|(w4 & E & Hfs & Hl)];
    rewrite E in Es.
  { simplify_eq. split; [by rewrite Hl1, Hl2|]. intros q Hq. rewrite Hfs. auto. }
  assert (later w w4) as Hl4 by (by rewrite Hl1, Hl2).
  unfold do_chmod in Es. repeat case_match; simplify_eq/=;
    (split; [etrans; [exact Hl4|eauto with egdod]|]); intros q Hq;
    rewrite ?lookup_insert_ne by (intros <-; by destruct (Hq d)); rewrite Hfs; auto.
Qed.

(** Filling a side file that exists and renaming it into place, as keys and
    network credentials are: the target gets everything or stays. *)
Definition publish (c1 c2 c3 : string) (tmp p : path) (b : bytes) : M World unit :=
  with_context c1 (fs_append tmp b);;
  with_context c2 fs_sync;;
  with_context c3 (fs_rename tmp p).

Lemma publish_spec c1 c2 c3 tmp p b m w r w' :
  tmp ≠ p → fs w !! tmp = Some (NFile (mkFile [] m)) → publish c1 c2 c3 tmp p b w = (r, w') →
  later w w' ∧ (∀ q, q ≠ p → q ≠ tmp → fs w' !! q = fs w !! q) ∧
  (r = Ok tt → fs w' !! p = Some (NFile (mkFile b m)) ∧ fs w' !! tmp = None) ∧
  (is_err r = true → fs w' !! p = fs w !! p ∧ ∃ d, fs w' !! tmp = Some (NFile (mkFile d m))).
Proof.
  intros Hne Ht. unfold publish, mbind, M_bind, with_context.
  destruct (fs_append_file tmp b w (mkFile [] m)) as (d & w3 & Hfs3 & Hl3 & Hr); [done|]. simpl in Hfs3.
  assert (Hsame : ∀ w4 q, fs w4 = fs w3 → q ≠ tmp → fs w4 !! q = fs w !! q).
  { intros w4 q -> Hq. by rewrite Hfs3, lookup_insert_ne. }
  assert (Htmp : ∀ w4, fs w4 = fs w3 → ∃ d, fs w4 !! tmp = Some (NFile (mkFile d m))).
  { intros w4 ->. rewrite Hfs3, lookup_insert_eq. eauto. }
  destruct Hr as [[-> ->]|(e & -> & _)]; simpl.
  2:{ intros; simplify_eq/=. split_and!; [done| |done|]; intros; eauto. }
  unfold fs_sync.
  destruct (syscall_cases (mret tt : M World unit) w3) as [(f & w4 & -> & Hfs4 & Hl4 & _)|(w4 & -> & Hfs4 & Hl4)]; simpl.
  { intros; simplify_eq/=. split_and!; [by etrans| |done|]; intros; eauto. }
  destruct (fs_rename tmp p w4) as [r5 w5] eqn:Er.
  apply fs_rename_spec in Er as (Hl5 & [[-> (n & Hn & Hfs5)]|[Herr Hfs5]]); intros; simplify_eq/=.
  - split_and!; [by rewrite Hl3, Hl4| | |done].
    + intros q Hq1 Hq2. rewrite Hfs5, lookup_insert_ne, lookup_delete_ne by done. eauto.
    + intros _. rewrite Hfs5, lookup_insert_eq, lookup_insert_ne, lookup_delete_eq by done.
      rewrite Hfs4, Hfs3, lookup_insert_eq in Hn. split; congruence.
  - split_and!; [by rewrite Hl3, Hl4| | |].
    + intros q Hq1 Hq2. rewrite Hfs5. eauto.
    + by destruct r5.
    + intros _. rewrite Hfs5. eauto.
Qed.

(** Creating the side file: refused, or it is there and empty. *)
Lemma fs_create_new_spec tmp mode w r w' :
  fs_create_new tmp mode w = (r, w') →
  later w w' ∧ ((is_err r = true ∧ fs w' = fs w) ∨
    (r = Ok tt ∧ fs w !! tmp = None ∧ fs w' = <[tmp := NFile (mkFile [] (Z.ldiff mode (umask w)))]> (fs w))).
Proof.
  unfold fs_create_new.
  destruct (syscall_cases (do_create_new tmp mode) w) as [(f & w1 & -> & Hfs & Hl & _)|(w1 & -> & Hfs & Hl)].
  { intros; simplify_eq/=. auto. }
  unfold do_create_new. destruct (fs w1 !! tmp) eqn:Et; [intros; simplify_eq/=; by rewrite Hfs; auto|].
  destruct (parent_ok w1 tmp); simpl; intros; simplify_eq/=; [|by rewrite Hfs; auto].
  split; [etrans; [exact Hl|apply later_set_fs]|]. right.
  rewrite Hfs in *. by rewrite (later_umask _ _ Hl).
Qed.

(** What a private file holds after [write_private], whatever fails. *)
Lemma write_private_spec p b w r w' :
  is_Some (file_name p) → write_private p b w = (r, w') →
  later w w' ∧ (∀ q, q ≠ p → q ≠ unique_tmp p (pid w) → fs w' !! q = fs w !! q) ∧
  (r = Ok tt → fs w' !! p = Some (NFile (mkFile b (Z.ldiff o600 (umask w))))) ∧
  (is_err r = true → fs w' !! p = fs w !! p).
Proof.
  intros Hp. pose proof (unique_tmp_ne p (pid w) Hp) as Hne. set (tmp := unique_tmp p (pid w)) in *.
  unfold write_private. unfold mbind at 1, M_bind at 1, gets. fold tmp.
  unfold mbind at 1, M_bind at 1, with_context at 1.
  destruct (fs_create_new tmp o600 w) as [r1 w1] eqn:Ec.
  apply fs_create_new_spec in Ec as (Hl1 & [[He Hfs]|(-> & Hnone & Hfs)]).
  { destruct r1; [done|]. intros; simplify_eq/=. by rewrite Hfs. }
  simpl. intros Hpub. apply (publish_spec _ _ _ _ _ _ (Z.ldiff o600 (umask w))) in Hpub as (Hl & Hq & Hok & Herr);
    [|done|by rewrite Hfs, lookup_insert_eq].
  split_and!; [by etrans| |by intros ->; apply Hok|].
  - intros q Hq1 Hq2. by rewrite Hq, Hfs, lookup_insert_ne.
  - intros He. destruct (Herr He) as [-> _]. by rewrite Hfs, lookup_insert_ne.
Qed.

Lemma not_prefix_parent (p d : path) : parent p = Some d → ¬ p `prefix_of` d.
Proof.
  unfold parent, pop. destruct (last p) eqn:E; [|done]. case_bool_decide; [done|]. intros [= <-] Hpre.
  apply prefix_length in Hpre. rewrite length_take in Hpre. destruct p; simpl in *; [done|lia].
Qed.

Lemma create_key_spec p w r w' :
  is_Some (file_name p) → create_key p w = (r, w') →
  (∀ k, r = Ok k → ∃ b, fs w' !! p = Some (NFile (mkFile b (Z.ldiff o600 (umask w)))) ∧
                        length b = 32%nat ∧ k = sk_from_bytes b) ∧
  (is_err r = true → fs w' !! p = fs w !! p).
Proof.
  intros Hp. unfold create_key, mbind, M_bind.
  destruct (getrandom 32 w) as [[b|e] w1] eqn:Eg;
    apply getrandom_spec in Eg as (Hfs1 & _ & Hl1 & Hlen); [|intros; simplify_eq; by rewrite Hfs1].
  destruct (make_parent p w1) as [[[]|e] w2] eqn:Em; apply make_parent_spec in Em as [Hl2 Hsame];
    assert (Hp2 : fs w2 !! p = fs w !! p) by (rewrite <- Hfs1; apply Hsame; intros; by apply not_prefix_parent);
    [|by intros; simplify_eq].
  destruct (write_private p b w2) as [[[]|e] w3] eqn:Ew; apply write_private_spec in Ew as (_ & _ & Hok & Herr); try done.
  - unfold mret, M_ret. intros; simplify_eq. split; [|done]. intros k [= <-]. exists b.
    assert (umask w2 = umask w) as <- by (rewrite (later_umask _ _ Hl2); apply Hl1). auto.
  - intros; simplify_eq. split; [done|]. intros _. rewrite Herr; done.
Qed.

(** The cases of [load_or_create_key]. *)
Lemma load_or_create_key_cases p u w r w' :
  load_or_create_key p u w = (r, w') →
  ∃ w1, fs w1 = fs w ∧ later w w1 ∧
    ((w' = w1 ∧ ((∃ k, r = Ok k ∧ holds_key w p k) ∨ is_err r = true)) ∨
     (create_key p w1 = (r, w') ∧ (honest w → u = Refuse → fs w !! p = None))).
Proof.
  unfold load_or_create_key, mbind, M_bind, attempt.
  destruct (read_key p w) as [r1 w1] eqn:Er. apply read_key_spec in Er as (Hfs & Hl & Hok & Hnone).
  intros E. exists w1. split_and!; [done..|]. unfold mret, M_ret, fail in E.
  destruct r1 as [[k|]|e]; [simplify_eq; left; split; [done|]; left; by eauto|right; auto|].
  case_bool_decide as Hu; [right|simplify_eq; left; auto]. split; [done|]. congruence.
Qed.

Lemma ldiff_private u : Z.land (Z.ldiff o600 u) 63 = 0.
Proof.
  apply Z.bits_inj'. intros n Hn. rewrite Z.land_spec, Z.ldiff_spec, Z.bits_0.
  destruct (decide (n < 6)) as [Hlt|Hge].
  - replace (Z.testbit o600 n) with false; [done|].
    assert (n = 0 ∨ n = 1 ∨ n = 2 ∨ n = 3 ∨ n = 4 ∨ n = 5) as Hc by lia.
    by destruct Hc as [->|[->|[->|[->|[->| ->]]]]].
  - change 63 with (Z.ones 6). rewrite Z.ones_spec_high by lia. apply andb_false_r.
Qed.

(** A key that was handed out is on disk. *)
Lemma load_or_create_key_holds p u w k w' :
  is_Some (file_name p) → load_or_create_key p u w = (Ok k, w') → holds_key w' p k.
Proof.
  intros Hp E. apply load_or_create_key_cases in E as (w1 & Hfs & _ & [[-> [(k1 & [= <-] & Hk)|?]]|[Ec _]]); [|done|].
  - destruct Hk as (b & m & ? & ? & ?). exists b, m. by rewrite Hfs.
  - apply create_key_spec in Ec as [Hok _]; [|done]. destruct (Hok k eq_refl) as (b & ? & ? & ?). by exists b, (Z.ldiff o600 (umask w1)).
Qed.

(** Looking for a key, or making one, touches nothing but what leads to its file,
    the file and the side file. *)
Definition key_files (p : path) (w : World) (q : path) : Prop :=
  q = p ∨ q = unique_tmp p (pid w) ∨ ∃ d, parent p = Some d ∧ q `prefix_of` d.
Lemma load_or_create_key_frame p u w r w' :
  is_Some (file_name p) → load_or_create_key p u w = (r, w') →
  pid w' = pid w ∧ ∀ q, ¬ key_files p w q → fs w' !! q = fs w !! q.
Proof.
  intros Hp E. apply load_or_create_key_cases in E as (w1 & Hfs & Hl & [[-> _]|[Ec _]]).
  { split; [apply Hl|]. intros q _. by rewrite Hfs. }
  rewrite <- (later_pid _ _ Hl). revert Ec. unfold create_key, mbind, M_bind.
  destruct (getrandom 32 w1) as [[b|e] w2] eqn:Eg; apply getrandom_spec in Eg as (Hfs1 & _ & Hl1 & _);
    [|intros; simplify_eq; split; [apply Hl1|]; intros; by rewrite Hfs1, Hfs].
  assert (Hnot : ∀ q, ¬ key_files p w q → q ≠ p ∧ q ≠ unique_tmp p (pid w) ∧ ∀ d, parent p = Some d → ¬ q `prefix_of` d).
  { intros q Hq. unfold key_files in Hq. split_and!; [naive_solver..|]. intros d Hd Hpre. apply Hq. eauto. }
  destruct (make_parent p w2) as [[[]|e] w3] eqn:Em; apply make_parent_spec in Em as [Hl2 Hsame].
  2:{ intros; simplify_eq. split; [by rewrite (later_pid _ _ Hl2), (later_pid _ _ Hl1)|].
      intros q (_ & _ & Hd)%Hnot. by rewrite Hsame, Hfs1, Hfs. }
  assert (Hpid : pid w3 = pid w1) by (by rewrite (later_pid _ _ Hl2), (later_pid _ _ Hl1)).
  destruct (write_private p b w3) as [[[]|e] w4] eqn:Ew; apply write_private_spec in Ew as (Hl3 & Hq3 & _); try done;
    unfold mret, M_ret; intros; simplify_eq; (split; [by rewrite (later_pid _ _ Hl3)|]); intros q (? & ? & ?)%Hnot;
    rewrite Hq3, Hsame, Hfs1, Hfs; rewrite ?Hpid, ?(later_pid _ _ Hl); done.
Qed.
(** It is the key that was there, or it is in a private file. *)
Lemma load_or_create_key_private p u w k w' :
  is_Some (file_name p) → load_or_create_key p u w = (Ok k, w') →
  (holds_key w p k ∧ fs w' = fs w) ∨
  ∃ b m, fs w' !! p = Some (NFile (mkFile b m)) ∧ k = sk_from_bytes b ∧ Z.land m 63 = 0.
Proof.
  intros Hp E. apply load_or_create_key_cases in E as (w1 & Hfs & _ & [[-> [(k1 & [= <-] & Hk)|?]]|[Ec _]]); [by left|done|].
  right. apply create_key_spec in Ec as [Hok _]; [|done]. destruct (Hok k eq_refl) as (b & ? & _ & ?).
  exists b, (Z.ldiff o600 (umask w1)). split_and!; [done..|apply ldiff_private].
Qed.


(** C23: A controller's identity is never replaced: with [Refuse], whatever is
    at the key path stays exactly as it is, however the call ends, and the call
    succeeds only with the key that is there: a file that holds none is an error,
    and so is one that cannot be read, with the very error of reading it.  With
    either policy a failing call leaves the key path alone, and a key file this
    code creates is readable and writable by its owner only.  A call that reports
    that there is no such file is taken to be telling the truth. *)
Theorem key_never_clobbered p u w r w' :
  is_Some (file_name p) → honest w → load_or_create_key p u w = (r, w') →
  (u = Refuse → is_Some (fs w !! p) →
     fs w' !! p = fs w !! p ∧ (∀ k, r = Ok k → holds_key w p k) ∧
     (∀ e w1, read_key p w = (Err e, w1) → r = Err e ∧ w' = w1)) ∧
  (is_err r = true → fs w' !! p = fs w !! p) ∧
  (fs w !! p = None → is_ok r = true →
     ∃ b m, fs w' !! p = Some (NFile (mkFile b m)) ∧ length b = 32%nat ∧ Z.land m 63 = 0).
Proof.
  intros Hp Hh E. pose proof E as E0. apply load_or_create_key_cases in E as (w1 & Hfs & _ & Hcases).
  assert (Hread : u = Refuse → ∀ e w2, read_key p w = (Err e, w2) → r = Err e ∧ w' = w2).
  { intros -> e w2 Er. unfold load_or_create_key, mbind, M_bind, attempt in E0. rewrite Er in E0. by injection E0 as <- <-. }
  destruct Hcases as [[-> Hr]|[Ec Hnone]].
  - split_and!; [|by rewrite Hfs|].
    + intros Hu _. split_and!; [by rewrite Hfs| |by apply Hread]. intros k ->. by destruct Hr as [(? & [= <-] & ?)|?].
    + intros Hn Hok. destruct Hr as [(k & _ & b & m & Hf & _)|?]; [congruence|by destruct r].
  - apply create_key_spec in Ec as [Hok Herr]; [|done]. rewrite Hfs in Herr. split_and!; [|done|].
    + intros -> [n Hn]. by rewrite Hnone in Hn.
    + intros _ Hr. destruct r as [k|]; [|done]. destruct (Hok k eq_refl) as (b & ? & ? & _).
      exists b, (Z.ldiff o600 (umask w1)). split_and!; [done..|apply ldiff_private].
Qed.

(** A key file whose write failed half way blocks its own process: once the
    side file exists, every further attempt of the same process to create the
    key fails, and leaves the side file where it is. *)
Theorem stale_side_file_blocks_key p u w n :
  is_Some (file_name p) → faults w = [] → fs w !! p = None →
  fs w !! unique_tmp p (pid w) = Some n → is_dir w (default [] (parent p)) = true →
  ∃ e w', load_or_create_key p u w = (Err e, w') ∧
    fs w' !! p = None ∧ fs w' !! unique_tmp p (pid w') = Some n.
Proof.
  intros Hp Hq Hnone Hside Hdir. unfold load_or_create_key, mbind, M_bind, attempt.
  assert (Hr : read_key p w = (Ok None, w)).
  { unfold read_key, mbind, M_bind, attempt. by rewrite fs_read_none. }
  rewrite Hr. unfold create_key, mbind, M_bind.
  destruct (getrandom 32 w) as [[b|e] w1] eqn:Eg; pose proof Eg as Eg2;
    apply getrandom_spec in Eg as (Hfs1 & Hq1 & Hl1 & _); rewrite Hq in Hq1;
    assert (Hpid : pid w1 = pid w) by apply Hl1.
  2:{ exists e, w1. rewrite Hfs1, Hpid. done. }
  assert (Hm : make_parent p w1 = (Ok tt, w1)).
  { unfold make_parent. destruct (parent p) as [d|] eqn:Ep; [|done]. case_bool_decide; [done|].
    unfold fs_exists, fs_metadata, attempt, mbind, M_bind. rewrite syscall_quiet by done.
    unfold do_stat. simpl in Hdir. unfold is_dir in *. rewrite Hfs1.
    destruct (fs w !! d); [done|]. by rewrite Hdir. }
  rewrite Hm. unfold write_private, mbind, M_bind, gets, with_context, fs_create_new.
  rewrite syscall_quiet by done. unfold do_create_new. rewrite Hpid, Hfs1, Hside. simpl.
  do 2 eexists. split; [done|]. by rewrite Hpid, Hfs1.
Qed.
End keys.

(** ** Lemmas: the approved list *)

Section approved_list.
Context `{IrohKeysLaws}.

(** The keys a text approves. *)
Definition approves (body : bytes) (x : PublicKey) : Prop :=
  ∃ l, l ∈ lines body ∧ approved_line l = Ok (Some x).

(** The [expect] never fires. *)
Lemma approved_line_ok l : ∃ o, approved_line l = Ok o.
Proof.
  unfold approved_line. destruct (trim_bytes _) as [|x t] eqn:E; [by eexists|].
  pose proof (first_field (hd [] (split_on (byte_eqb HASH) l))) as Hf. rewrite E in Hf.
  destruct (split_whitespace (x :: t)) as [|key ?]; [by destruct Hf|].
  destruct (pk_parse (of_bytes key)); by eexists.
Qed.

Lemma elem_of_set_insert (x k : PublicKey) l : x ∈ set_insert k l ↔ x = k ∨ x ∈ l.
Proof. unfold set_insert. case_bool_decide; set_solver. Qed.

Lemma approved_lines_spec ls out :
  ∃ l, approved_lines ls out = Ok l ∧
       ∀ x, x ∈ l ↔ x ∈ out ∨ ∃ b, b ∈ ls ∧ approved_line b = Ok (Some x).
Proof.
  revert out. induction ls as [|b ls IH]; intros out; simpl.
  { exists out. split; [done|]. set_solver. }
  destruct (approved_line_ok b) as [[k|] E]; rewrite E.
  - destruct (IH (set_insert k out)) as (l & El & Hl). exists l. split; [done|]. intros x.
    rewrite Hl, elem_of_set_insert. split.
    + intros [[->|?]|(c & ? & ?)]; [right; exists b|by left|right; exists c]; by rewrite elem_of_cons; auto.
    + intros [?|(c & Hc & Ec)]; [auto|]. apply elem_of_cons in Hc as [->|Hc]; [|eauto].
      left. left. congruence.
  - destruct (IH out) as (l & El & Hl). exists l. split; [done|]. intros x. rewrite Hl. split.
    + intros [?|(c & ? & ?)]; [by left|right; exists c]. by rewrite elem_of_cons; auto.
    + intros [?|(c & Hc & Ec)]; [auto|]. apply elem_of_cons in Hc as [->|Hc]; [congruence|eauto].
Qed.

Lemma hexdigit_plain b : is_ascii_hexdigit b = true →
  33 ≤ byte_to_Z b < 128 ∧ b ≠ HASH ∧ b ≠ LF ∧ b ≠ CR.
Proof.
  unfold is_ascii_hexdigit. rewrite bool_decide_eq_true. intros Hb.
  split_and!; [lia|lia|..]; intros ->; vm_compute in Hb; destruct Hb as [[? ?]|[[? ?]|[? ?]]]; done.
Qed.
Definition key_text (k : PublicKey) : bytes := as_bytes (pk_to_string k).
Lemma key_text_plain k :
  key_text k ≠ [] ∧ Forall (λ b, 33 ≤ byte_to_Z b < 128 ∧ b ≠ HASH ∧ b ≠ LF ∧ b ≠ CR) (key_text k).
Proof.
  destruct (pk_string_digits k) as [Hne Hd]. split; [done|].
  eapply Forall_impl; [exact Hd|]. apply hexdigit_plain.
Qed.

Lemma approved_line_key k : approved_line (key_text k) = Ok (Some k).
Proof.
  destruct (key_text_plain k) as [Hne Hk]. unfold approved_line.
  assert (Hp : plain (key_text k)) by (eapply Forall_impl; [exact Hk|]; naive_solver).
  rewrite split_on_none. 2:{ eapply Forall_impl; [exact Hk|]. intros b (_ & Hb & _). by apply bool_decide_false. }
  simpl. rewrite trim_plain by done. destruct (key_text k) as [|x t] eqn:E; [done|].
  rewrite split_whitespace_plain by done. rewrite <- E. unfold key_text.
  by rewrite of_as_bytes, pk_parse_to_string.
Qed.
Lemma lines_key k : lines (key_text k ++ [LF]) = [key_text k].
Proof.
  destruct (key_text_plain k) as [_ Hk]. rewrite Forall_forall in Hk.
  apply lines_single; intros Hin; apply Hk in Hin; naive_solver.
Qed.

(** A carriage return at the end of a line does not matter. *)
Lemma split_on_snoc_other p b c :
  p c = false → ∃ fs f, split_on p b = fs ++ [f] ∧ split_on p (b ++ [c]) = (fs ++ [f ++ [c]]).
Proof.
  intros Hc. induction b as [|x b IH]; simpl.
  - exists [], []. by rewrite Hc.
  - destruct IH as (fs & f & E1 & E2). rewrite E1, E2. destruct (p x).
    + by exists ([] :: fs), f.
    + destruct fs as [|f0 fs]; simpl; [by exists [], (x :: f)|by exists ((x :: f0) :: fs), f].
Qed.
Lemma approved_line_cr l : approved_line (l ++ [CR]) = approved_line l.
Proof.
  unfold approved_line.
  destruct (split_on_snoc_other (byte_eqb HASH) l CR) as (fs & f & E1 & E2); [done|]. rewrite E1, E2.
  destruct fs as [|f0 fs]; simpl; [|done]. by rewrite trim_snoc_cr.
Qed.

(** What [approve] does to the text before it appends a line. *)
Definition terminated (body : bytes) : bytes :=
  if negb (bool_decide (body = [])) && negb (ends_with LF body) then body ++ [LF] else body.

Lemma terminated_ends body : terminated body = [] ∨ ends_with LF (terminated body) = true.
Proof.
  unfold terminated. case_bool_decide; [by left|]. simpl. destruct (ends_with LF body) eqn:E; simpl; [by right|].
  right. unfold ends_with. by rewrite last_snoc, bool_decide_true.
Qed.
Lemma terminated_approves body x : approves (terminated body) x ↔ approves body x.
Proof.
  unfold terminated. case_bool_decide as Hb; [done|]. destruct (ends_with LF body) eqn:E; [done|]. simpl.
  destruct (lines_open body Hb E) as (ls & l & l' & E1 & E2 & Hl).
  unfold approves. rewrite E1, E2. setoid_rewrite elem_of_app. setoid_rewrite elem_of_cons.
  assert (Hap : approved_line l' = approved_line l).
  { destruct Hl as [->| ->]; [done|]. by rewrite approved_line_cr. }
  split; intros (q & [?|[->|Hn]] & Hq); try (by apply not_elem_of_nil in Hn); eauto.
  - exists l. rewrite <- Hap. auto.
  - exists l'. rewrite Hap. auto.
Qed.
Lemma append_key_approves body k x :
  approves (terminated body ++ key_text k ++ [LF]) x ↔ x = k ∨ approves body x.
Proof.
  rewrite <- (terminated_approves body). unfold approves.
  rewrite lines_app by apply terminated_ends. rewrite lines_key.
  setoid_rewrite elem_of_app. setoid_rewrite list_elem_of_singleton. split.
  - intros (l & [?| ->] & Hl); [eauto|]. rewrite approved_line_key in Hl. left. congruence.
  - intros [->|(l & ? & ?)]; [|eauto]. exists (key_text k). auto using approved_line_key.
Qed.
Lemma append_key_utf8 body k :
  utf8_valid body = true → utf8_valid (terminated body ++ key_text k ++ [LF]) = true.
Proof.
  intros Hb. apply utf8_from_app.
  - change (utf8_valid (terminated body) = true). unfold terminated.
    destruct (negb _ && negb _); [|done]. by apply utf8_from_app.
  - apply utf8_ascii. apply Forall_app. split; [|by repeat constructor].
    destruct (key_text_plain k) as [_ Hk]. eapply Forall_impl; [exact Hk|]. naive_solver.
Qed.
End approved_list.

(** ** Lemmas: the pending list *)

Lemma insert_by_seen_perm p l : insert_by_seen p l ≡ₚ p :: l.
Proof.
  induction l as [|q l IH]; [done|]. simpl. case_bool_decide; [done|]. rewrite IH. apply perm_swap.
Qed.
Lemma sort_by_seen_perm l : sort_by_seen l ≡ₚ l.
Proof. induction l as [|p l IH]; [done|]. simpl. by rewrite insert_by_seen_perm, IH. Qed.

Definition seen_le (p q : PendingAgent) : Prop := last_seen_unix p ≤ last_seen_unix q.
Lemma insert_by_seen_sorted p l : StronglySorted seen_le l → StronglySorted seen_le (insert_by_seen p l).
Proof.
  induction 1 as [|q l Hl IH Hq]; simpl; [by repeat constructor|]. case_bool_decide as Hp.
  - constructor; [by constructor|]. constructor; [exact Hp|].
    eapply Forall_impl; [exact Hq|]. unfold seen_le in *. intros; lia.
  - constructor; [done|]. rewrite insert_by_seen_perm. constructor; [unfold seen_le; lia|done].
Qed.
Lemma sort_by_seen_sorted l : StronglySorted seen_le (sort_by_seen l).
Proof. induction l; simpl; [constructor|by apply insert_by_seen_sorted]. Qed.

(** The entries kept are the most recent ones: whatever is dropped was last seen
    no later than anything kept. *)
Lemma cap_pending_spec l :
  ∃ dropped, l ≡ₚ dropped ++ cap_pending l ∧ (length (cap_pending l) ≤ PENDING_LIMIT)%nat ∧
    (dropped ≠ [] → length (cap_pending l) = PENDING_LIMIT) ∧
    ∀ p q, p ∈ dropped → q ∈ cap_pending l → seen_le p q.
Proof.
  unfold cap_pending. destruct (Nat.ltb_spec PENDING_LIMIT (length l)) as [Hl|Hl].
  - set (n := (length l - PENDING_LIMIT)%nat). exists (take n (sort_by_seen l)).
    assert (Hlen : length (drop n (sort_by_seen l)) = PENDING_LIMIT).
    { rewrite length_drop, (Permutation_length (sort_by_seen_perm l)). unfold n. lia. }
    split_and!; [by rewrite take_drop, sort_by_seen_perm|lia|done|].
    pose proof (sort_by_seen_sorted l) as Hs. rewrite <- (take_drop n (sort_by_seen l)) in Hs.
    intros p q Hp Hq. by eapply StronglySorted_app_1_elem_of.
  - exists []. split_and!; [done|done|done|]. intros p q Hp. by apply not_elem_of_nil in Hp.
Qed.

(** One entry per key. *)
Definition one_per_key (l : list PendingAgent) : Prop := NoDup (pubkey <$> l).

Lemma touch_pending_keys text now l :
  pubkey <$> touch_pending text now l =
    if bool_decide (text ∈ pubkey <$> l) then pubkey <$> l else (pubkey <$> l) ++ [text].
Proof.
  induction l as [|p l IH]; [by rewrite bool_decide_false by apply not_elem_of_nil|]. cbn [touch_pending].
  rewrite fmap_cons. destruct (bool_decide_reflect (pubkey p = text)) as [Hp|Hp]; rewrite fmap_cons; simpl pubkey.
  - rewrite bool_decide_true; [done|]. rewrite Hp. apply elem_of_cons. by left.
  - rewrite IH. repeat case_bool_decide; set_solver.
Qed.
Lemma touch_pending_one text now l : one_per_key l → one_per_key (touch_pending text now l).
Proof.
  unfold one_per_key. intros Hl. rewrite touch_pending_keys. case_bool_decide as Ht; [done|].
  apply NoDup_app. split_and!; [done| |apply NoDup_singleton]. set_solver.
Qed.
Lemma cap_pending_one l : one_per_key l → one_per_key (cap_pending l).
Proof.
  intros Hl. destruct (cap_pending_spec l) as (dropped & Hp & _). unfold one_per_key in *.
  rewrite Hp, fmap_app in Hl. by apply NoDup_app in Hl as (_ & _ & ?).
Qed.

(** The touched entry: seen now, counted once more than before. *)
Lemma touch_pending_entry text now l :
  ∃ p, p ∈ touch_pending text now l ∧ pubkey p = text ∧ last_seen_unix p = now ∧
    (∀ q, q ∈ touch_pending text now l → q = p ∨ q ∈ l) ∧
    match List.find (λ q, bool_decide (pubkey q = text)) l with
    | Some q => first_seen_unix p = first_seen_unix q ∧ attempts p = u64_add (attempts q) 1
    | None => first_seen_unix p = now ∧ attempts p = 1
    end.
Proof.
  induction l as [|q l IH]; simpl.
  { eexists. split_and!; [apply list_elem_of_here|done|done| |done|done]. set_solver. }
  case_bool_decide as Hq.
  - eexists. split_and!; [apply list_elem_of_here|done|done| |done|done]. set_solver.
  - destruct IH as (p & Hp & Hk & Hn & Hall & Hm). exists p. split_and!; [set_solver|done|done| |done]. set_solver.
Qed.
Lemma touch_pending_keeps text now l q : q ∈ l → pubkey q ≠ text → q ∈ touch_pending text now l.
Proof.
  induction l as [|x l IH]; simpl; [set_solver|]. intros [->|Hq]%elem_of_cons Hne; case_bool_decide; set_solver.
Qed.
Definition pending_wf (l : list PendingAgent) : Prop :=
  Forall (λ p, 0 ≤ first_seen_unix p ≤ u64_max ∧ 0 ≤ last_seen_unix p ≤ u64_max ∧ 0 ≤ attempts p ≤ u64_max) l.
Lemma touch_pending_wf text now l :
  0 ≤ now ≤ u64_max → pending_wf l → pending_wf (touch_pending text now l).
Proof.
  intros Hn. unfold pending_wf. induction 1 as [|p l Hp Hl IH]; simpl.
  { repeat constructor; simpl; unfold u64_max in *; lia. }
  case_bool_decide; (constructor; [|done]); [|done]. simpl. unfold u64_add.
  pose proof (Z.mod_pos_bound (attempts p + 1) (u64_max + 1)). unfold u64_max in *. lia.
Qed.
Lemma cap_pending_wf l : pending_wf l → pending_wf (cap_pending l).
Proof.
  intros Hl. destruct (cap_pending_spec l) as (dropped & Hp & _). unfold pending_wf in *.
  rewrite Hp in Hl. by apply Forall_app in Hl as [_ ?].
Qed.

(** ** What the lists are, read without faults *)

Section views.
Context `{IrohKeysLaws} `{SerdeJson (list PendingAgent)}.

Definition approved_of (o : option node) : result (list PublicKey) :=
  match o with
  | Some (NFile f) =>
      if utf8_valid (f_data f) then approved_lines (lines (f_data f)) []
      else Err (add_context "reading approved list" (io_error InvalidData "stream did not contain valid UTF-8"))
  | Some _ => Err (add_context "reading approved list" eisdir)
  | None => Ok []
  end.
Definition pending_of (o : option node) : result (list PendingAgent) :=
  match o with
  | Some (NFile f) => context "parsing pending.json" (from_slice (f_data f))
  | Some _ => Err (add_context "reading pending.json" eisdir)
  | None => Ok []
  end.

Lemma approved_quiet s w : faults w = [] → approved s w = (approved_of (fs w !! approved_path s), w).
Proof.
  intros Hq. unfold approved, fs_read_to_string, attempt, mbind, M_bind, fs_read.
  rewrite syscall_quiet by done. destruct (fs w !! approved_path s) as [[f| |]|]; simpl; try done.
  by destruct (utf8_valid (f_data f)).
Qed.
Lemma pending_quiet s w : faults w = [] → pending s w = (pending_of (fs w !! pending_path s), w).
Proof.
  intros Hq. unfold pending, attempt, mbind, M_bind, fs_read.
  rewrite syscall_quiet by done. by destruct (fs w !! pending_path s) as [[f| |]|].
Qed.

(** The state directory as an operation without I/O faults needs it. *)
Record usable (s : StateDir) (w : World) : Prop := mkUsable {
  usable_quiet : faults w = [];
  usable_root : can_mkdirs w [] (root s);
  usable_files x : x ∈ ["approved"; side "approved" (pid w); "pending.json"; side "pending.json" (pid w)] →
    file_or_none w (root s ++ [x])
}.

Lemma not_above (d : path) (x : string) : ¬ (d ++ [x]) `prefix_of` d.
Proof. intros Hp. apply prefix_length in Hp. rewrite length_app in Hp. simpl in Hp. lia. Qed.

Lemma ensure_dir_quiet s w :
  usable s w →
  ∃ w1, ensure_dir s w = (Ok tt, w1) ∧ same_env w w1 ∧ is_dir w1 (root s) = true ∧
    ∀ x, fs w1 !! (root s ++ [x]) = fs w !! (root s ++ [x]).
Proof.
  intros [Hq Hroot _]. destruct (mkdirs_quiet [] (root s) w Hq Hroot) as (w1 & E & He & Hdir).
  simpl in Hdir. assert (is_dir w1 (root s) = true) as Hd.
  { destruct (decide (root s = [])) as [->|]; [done|]. apply Hdir. by left. }
  destruct (mkdirs_spec _ _ _ _ _ E) as [_ Hsame]. simpl in Hsame.
  assert (Hx : ∀ x, fs w1 !! (root s ++ [x]) = fs w !! (root s ++ [x])).
  { intros x. destruct (Hsame (root s ++ [x])) as [?|(_ & Hp & _)]; [done|]. by apply not_above in Hp. }
  unfold ensure_dir, mbind, M_bind, with_context, fs_create_dir_all. rewrite E. simpl.
  unfold restrict, with_context, fs_set_permissions. rewrite syscall_quiet by (by rewrite (same_env_faults _ _ He)).
  assert (Hins : ∀ n, (∃ m, n = NDir m) ∨ (∃ f, fs w1 !! root s = Some (NFile f)) → 
     same_env w (set_fs <[root s := n]> w1) ∧ is_dir (set_fs <[root s := n]> w1) (root s) = true ∧
     ∀ x, fs (set_fs <[root s := n]> w1) !! (root s ++ [x]) = fs w !! (root s ++ [x])).
  { intros n Hn. split_and!; [etrans; [done|]; eauto with egdod| |].
    - unfold is_dir in *. simpl. rewrite lookup_insert_eq. apply orb_true_iff in Hd as [->|Hd]; [done|].
      destruct Hn as [[m ->]|[f Hf]]; [by rewrite orb_true_r|]. by rewrite Hf in Hd.
    - intros x. simpl. rewrite lookup_insert_ne; [apply Hx|]. intros Eq.
      apply (not_above (root s) x). by rewrite <- Eq. }
  unfold do_chmod. destruct (fs w1 !! root s) as [[f|m|]|] eqn:Er; simpl; [..|rewrite Hd]; simpl;
    eexists; (split; [reflexivity|]); eauto.
Qed.
End views.

Section approval.
Context `{IrohKeysLaws} `{SerdeJson (list PendingAgent)}.
Context `{!SerdeJsonLaws (list PendingAgent) pending_wf}.

Lemma root_child_ne (d : path) (x y : string) : x ≠ y → d ++ [x] ≠ d ++ [y].
Proof. intros Hne E. apply (inj (app d)) in E. congruence. Qed.

(** A write that replaces one file of the directory, the rest unchanged. *)
Lemma write_file_quiet s x b w :
  plain_name x → faults w = [] → is_dir w (root s) = true →
  file_or_none w (root s ++ [x]) → file_or_none w (root s ++ [side x (pid w)]) →
  ∃ m w', write_atomic (root s ++ [x]) b w = (Ok tt, w') ∧ same_env w w' ∧
    fs w' !! (root s ++ [x]) = Some (NFile (mkFile b m)) ∧ is_dir w' (root s) = true ∧
    ∀ y, y ≠ x → y ≠ side x (pid w) → fs w' !! (root s ++ [y]) = fs w !! (root s ++ [y]).
Proof.
  intros Hx Hq Hd Hf Ht. destruct (write_atomic_quiet (root s) x b w) as [m E]; [done..|].
  exists m. eexists. split_and!; [exact E|done| | |].
  - simpl. by rewrite lookup_insert_eq.
  - unfold is_dir in *. simpl. apply orb_true_iff in Hd as [->|Hd]; [done|]. apply orb_true_iff. right.
    assert (∀ y, root s ≠ root s ++ [y]) as Hself.
    { intros y Eq. apply (not_above (root s) y). by rewrite <- Eq. }
    by rewrite lookup_insert_ne, lookup_delete_ne.
  - intros y Hy1 Hy2. simpl. rewrite lookup_insert_ne, lookup_delete_ne; auto using root_child_ne.
Qed.

Lemma write_pending_quiet s l w :
  pending_wf l → faults w = [] → is_dir w (root s) = true →
  file_or_none w (root s ++ ["pending.json"]) → file_or_none w (root s ++ [side "pending.json" (pid w)]) →
  ∃ w', write_pending s l w = (Ok tt, w') ∧ same_env w w' ∧ pending s w' = (Ok l, w') ∧
    ∀ y, y ≠ "pending.json" → y ≠ side "pending.json" (pid w) →
         fs w' !! (root s ++ [y]) = fs w !! (root s ++ [y]).
Proof.
  intros Hl Hq Hd Hf Ht. unfold write_pending, mbind, M_bind, lift.
  pose proof (json_total l Hl) as Hj. destruct (to_vec_pretty l) as [b|] eqn:Eb; [|done].
  rewrite pending_path_eq.
  destruct (write_file_quiet s "pending.json" b w) as (m & w' & -> & He & Hfile & _ & Hsame);
    [unfold plain_name; set_solver|done..|].
  exists w'. split_and!; [done..| |done].
  rewrite pending_quiet by (by rewrite (same_env_faults _ _ He)). rewrite pending_path_eq, Hfile. simpl.
  by rewrite (json_roundtrip l b).
Qed.

(** The text [approve] appends to, and the keys it approves. *)
Lemma approved_body_quiet s w old :
  faults w = [] → approved s w = (Ok old, w) →
  ∃ r, attempt (fs_read_to_string (approved_path s)) w = (Ok r, w) ∧
    let body := match r with Ok b => b | Err _ => [] end in
    utf8_valid body = true ∧ ∀ x, approves body x ↔ x ∈ old.
Proof.
  intros Hq Hold. rewrite approved_quiet in Hold by done. unfold approved_of in Hold.
  unfold attempt, fs_read_to_string, fs_read, mbind, M_bind. rewrite syscall_quiet by done.
  destruct (fs w !! approved_path s) as [[f| |]|]; try done; simpl.
  - destruct (utf8_valid (f_data f)) eqn:Eu; [|done]. eexists. split_and!; [done..|]. simpl.
    destruct (approved_lines_spec (lines (f_data f)) []) as (l & El & Hl).
    rewrite El in Hold. simplify_eq. intros x. rewrite Hl. unfold approves.
    split; [by right|]. intros [Hx|?]; [by apply not_elem_of_nil in Hx|done].
  - eexists. split_and!; [done..|]. simpl. simplify_eq. intros x. unfold approves.
    split; [|by intros ?%not_elem_of_nil]. by intros (l & ?%not_elem_of_nil & _).
Qed.

Lemma approved_after_append s w body k m :
  faults w = [] → utf8_valid body = true →
  fs w !! approved_path s = Some (NFile (mkFile (terminated body ++ key_text k ++ [LF]) m)) →
  ∃ new, approved s w = (Ok new, w) ∧ ∀ x, x ∈ new ↔ x = k ∨ approves body x.
Proof.
  intros Hq Hu Hf. rewrite approved_quiet by done. rewrite Hf. simpl. rewrite append_key_utf8 by done.
  destruct (approved_lines_spec (lines (terminated body ++ key_text k ++ [LF])) []) as (l & -> & Hl).
  exists l. split; [done|]. intros x. rewrite Hl, <- append_key_approves. unfold approves.
  split; [|by right]. intros [Hx|?]; [by apply not_elem_of_nil in Hx|done].
Qed.

Lemma forget_pending_quiet s k w plist :
  faults w = [] → is_dir w (root s) = true → pending s w = (Ok plist, w) → pending_wf plist →
  file_or_none w (root s ++ ["pending.json"]) → file_or_none w (root s ++ [side "pending.json" (pid w)]) →
  ∃ w', forget_pending s k w = (Ok tt, w') ∧ same_env w w' ∧
    pending s w' = (Ok (filter (λ p, pubkey p ≠ pk_to_string k) plist), w') ∧
    ∀ y, y ≠ "pending.json" → y ≠ side "pending.json" (pid w) →
         fs w' !! (root s ++ [y]) = fs w !! (root s ++ [y]).
Proof.
  intros Hq Hd Hp Hwf Hf Ht. unfold forget_pending, mbind, M_bind. rewrite Hp.
  set (kept := filter _ plist). case_bool_decide as Hlen.
  - exists w. by rewrite (filter_same_length _ plist Hlen : kept = plist).
  - apply write_pending_quiet; try done.
    unfold pending_wf in *. apply Forall_forall. intros p Hin.
    apply list_elem_of_filter in Hin as [_ Hin]. by eapply Forall_forall in Hwf.
Qed.

(** [approve] with no fault ahead. *)
Lemma approve_quiet s k w old plist :
  usable s w → approved s w = (Ok old, w) → pending s w = (Ok plist, w) → pending_wf plist →
  ∃ new w', approve s k w = (Ok (negb (bool_decide (k ∈ old))), w') ∧
    approved s w' = (Ok new, w') ∧ (∀ x, x ∈ new ↔ x = k ∨ x ∈ old) ∧
    pending s w' = (Ok (if bool_decide (k ∈ old) then plist
                        else filter (λ p, pubkey p ≠ pk_to_string k) plist), w') ∧
    faults w' = [].
Proof.
  intros Hu Hold Hpend Hwf. pose proof Hu as [Hq _ Hfiles].
  destruct (ensure_dir_quiet s w Hu) as (w1 & Een & He1 & Hd1 & Hsame1).
  assert (Hq1 : faults w1 = []) by (by rewrite (same_env_faults _ _ He1)).
  assert (Hpid : pid w1 = pid w) by (by apply same_env_pid).
  assert (Ha1 : approved s w1 = (Ok old, w1)).
  { rewrite approved_quiet, approved_path_eq in Hold |- * by done. rewrite Hsame1. congruence. }
  assert (Hp1 : pending s w1 = (Ok plist, w1)).
  { rewrite pending_quiet, pending_path_eq in Hpend |- * by done. rewrite Hsame1. congruence. }
  unfold approve. unfold mbind at 1, M_bind at 1. rewrite Een. unfold mbind at 1, M_bind at 1. rewrite Ha1.
  case_bool_decide as Hin.
  { exists old, w1. split_and!; [done|done| |done|done]. intros x. split; [by right|by intros [->|?]]. }
  destruct (approved_body_quiet s w1 old Hq1 Ha1) as (r & Er & Hutf & Hmem). simpl in Hutf, Hmem.
  unfold mbind at 1, M_bind at 1. rewrite Er.
  set (body := match r with Ok b => b | Err _ => [] end) in *.
  change (if negb (bool_decide (body = [])) && negb (ends_with LF body) then body ++ [LF] else body)
    with (terminated body).
  change (as_bytes (pk_to_string k)) with (key_text k). rewrite approved_path_eq.
  unfold mbind at 1, M_bind at 1.
  assert (Hfile1 : ∀ x, x ∈ ["approved"; side "approved" (pid w); "pending.json"; side "pending.json" (pid w)] →
    file_or_none w1 (root s ++ [x])).
  { intros x Hx. unfold file_or_none. rewrite Hsame1. by apply Hfiles. }
  destruct (write_file_quiet s "approved" (terminated body ++ key_text k ++ [LF]) w1)
    as (m & w2 & -> & He2 & Hfile & Hd2 & Hsame2);
    [unfold plain_name; set_solver|done|done|apply Hfile1; set_solver|rewrite Hpid; apply Hfile1; set_solver|].
  assert (Hq2 : faults w2 = []) by (by rewrite (same_env_faults _ _ He2)).
  assert (Hpid2 : pid w2 = pid w) by (by rewrite <- Hpid; apply same_env_pid).
  assert (Hs2 : ∀ y, y ∈ ["pending.json"; side "pending.json" (pid w)] →
    fs w2 !! (root s ++ [y]) = fs w1 !! (root s ++ [y])).
  { intros y Hy. apply Hsame2; rewrite ?Hpid; apply elem_of_cons in Hy as [->|Hy%list_elem_of_singleton]; subst; try done. }
  unfold mbind at 1, M_bind at 1.
  destruct (forget_pending_quiet s k w2 plist) as (w3 & -> & He3 & Hp3 & Hsame3); try done.
  { rewrite pending_quiet, pending_path_eq in Hp1 |- * by done. rewrite Hs2 by set_solver. congruence. }
  { unfold file_or_none. rewrite Hs2 by set_solver. apply Hfile1. set_solver. }
  { rewrite Hpid2. unfold file_or_none. rewrite Hs2 by set_solver. apply Hfile1. set_solver. }
  destruct (approved_after_append s w3 body k m) as (new & Hnew & Hmem3); [|done| |].
  { by rewrite (same_env_faults _ _ He3). }
  { rewrite approved_path_eq, Hsame3, Hfile; done. }
  exists new, w3. split_and!; [done|done| |done|by rewrite (same_env_faults _ _ He3)]. intros x. by rewrite Hmem3, Hmem.
Qed.

(** C24: Approving a key, with no I/O fault and with lists that can be read,
    makes the approved list exactly the old one and that key, whatever comments,
    blank lines, junk or missing final newline the file had; it reports whether
    the key was new.  A key that was new leaves the pending list, the other
    entries staying in order; one that was approved already changes neither list. *)
Theorem approve_adds_exactly_the_key s k w old plist :
  usable s w → approved s w = (Ok old, w) → pending s w = (Ok plist, w) → pending_wf plist →
  ∃ new w', approve s k w = (Ok (negb (bool_decide (k ∈ old))), w') ∧
    approved s w' = (Ok new, w') ∧ (∀ x, x ∈ new ↔ x = k ∨ x ∈ old) ∧
    pending s w' = (Ok (if bool_decide (k ∈ old) then plist
                        else filter (λ p, pubkey p ≠ pk_to_string k) plist), w').
Proof.
  intros Hu Ha Hp Hwf. destruct (approve_quiet s k w old plist Hu Ha Hp Hwf) as (new & w' & ? & ? & ? & ? & _). by exists new, w'.
Qed.

(** A full list makes room for a newcomer that is at least as recent as all. *)
Lemma insert_by_seen_snoc x l p : seen_le x p → insert_by_seen x (l ++ [p]) = insert_by_seen x l ++ [p].
Proof.
  unfold seen_le. intros Hx. induction l as [|q l IH]; simpl.
  - by rewrite bool_decide_true.
  - case_bool_decide; [done|]. by rewrite IH.
Qed.
Lemma sort_by_seen_snoc l p : Forall (λ x, seen_le x p) l → sort_by_seen (l ++ [p]) = sort_by_seen l ++ [p].
Proof.
  induction 1 as [|x l Hx _ IH]; [done|]. simpl. rewrite IH. by apply insert_by_seen_snoc.
Qed.
Lemma touch_pending_new text now l :
  text ∉ pubkey <$> l → touch_pending text now l = l ++ [mkPendingAgent text now now 1].
Proof.
  induction l as [|p l IH]; intros Hn; [done|]. rewrite fmap_cons, not_elem_of_cons in Hn. destruct Hn.
  simpl. rewrite bool_decide_false by done. by rewrite IH.
Qed.
Lemma length_touch_pending text now l :
  length (touch_pending text now l) = if bool_decide (text ∈ pubkey <$> l) then length l else S (length l).
Proof.
  rewrite <- (length_fmap pubkey), touch_pending_keys. case_bool_decide; [by rewrite length_fmap|].
  rewrite length_app, length_fmap. simpl. lia.
Qed.

(** The recorded key is kept, if the clock has not gone back. *)
Lemma cap_keeps_touched text now l p :
  (length l ≤ PENDING_LIMIT)%nat → Forall (λ q, last_seen_unix q ≤ now) l →
  p ∈ touch_pending text now l → pubkey p = text → p ∈ cap_pending (touch_pending text now l).
Proof.
  intros Hlen Hall Hp Hk. unfold cap_pending. destruct (Nat.ltb_spec PENDING_LIMIT (length (touch_pending text now l))) as [Hl|]; [|done].
  rewrite length_touch_pending in Hl. case_bool_decide as Hin; [lia|].
  rewrite touch_pending_new in * by done. rewrite sort_by_seen_snoc by done.
  assert (p = mkPendingAgent text now now 1) as ->.
  { apply elem_of_app in Hp as [Hp|Hp%list_elem_of_singleton]; [|done]. destruct Hin. subst text.
    by apply list_elem_of_fmap_2. }
  rewrite drop_app_le.
  - apply elem_of_app. right. by apply list_elem_of_singleton.
  - rewrite length_app, (Permutation_length (sort_by_seen_perm l)). simpl. unfold PENDING_LIMIT in *. lia.
Qed.

Lemma now_unix_spec w : ∃ t w', now_unix w = (Ok t, w') ∧ t = Z.max 0 (now w).1 ∧
  fs w' = fs w ∧ faults w' = faults w ∧ pid w' = pid w.
Proof.
  unfold now_unix, now_m, now, mbind, M_bind, mret, M_ret.
  destruct (clock w) as [|t [|t2 l]]; do 2 eexists; split_and!; reflexivity.
Qed.

(** C25: Recording a contact, with no I/O fault and from a well-formed list,
    leaves a pending list of at most 256 entries with one entry per key, which is
    the old list with the caller's entry renewed or added (seen now, first seen
    when it first was, counted once more) less what had to be dropped, and that
    was seen no later than anything kept.  The caller itself is kept unless the
    clock has gone back: then a full list may drop it. *)
Theorem record_pending_counts s k w l :
  usable s w → pending s w = (Ok l, w) → pending_wf l → one_per_key l →
  (length l ≤ PENDING_LIMIT)%nat → 0 ≤ (now w).1 ≤ u64_max →
  ∃ l' dropped w' p, record_pending s k w = (Ok tt, w') ∧ pending s w' = (Ok l', w') ∧
    (length l' ≤ PENDING_LIMIT)%nat ∧ one_per_key l' ∧
    pubkey p = pk_to_string k ∧ last_seen_unix p = (now w).1 ∧
    match List.find (λ q, bool_decide (pubkey q = pk_to_string k)) l with
    | Some q => first_seen_unix p = first_seen_unix q ∧ attempts p = u64_add (attempts q) 1
    | None => first_seen_unix p = (now w).1 ∧ attempts p = 1
    end ∧
    p ∈ dropped ++ l' ∧ (Forall (λ q, last_seen_unix q ≤ (now w).1) l → p ∈ l') ∧
    (∀ q, q ∈ dropped ++ l' → q = p ∨ q ∈ l) ∧
    (∀ q, q ∈ l → pubkey q ≠ pk_to_string k → q ∈ dropped ++ l') ∧
    touch_pending (pk_to_string k) (now w).1 l ≡ₚ dropped ++ l' ∧
    (dropped ≠ [] → length l' = PENDING_LIMIT) ∧
    (∀ q r, q ∈ dropped → r ∈ l' → seen_le q r).
Proof.
  intros Hu Hpend Hwf Hone Hlen Hclock. pose proof Hu as [Hq _ Hfiles].
  destruct (ensure_dir_quiet s w Hu) as (w1 & Een & He1 & Hd1 & Hsame1).
  destruct (now_unix_spec w1) as (t & w2 & Et & Ht & Hfs2 & Hq2 & Hpid2).
  rewrite (same_env_faults _ _ He1), Hq in Hq2. rewrite (same_env_pid _ _ He1) in Hpid2.
  assert (Hnow : (now w1).1 = (now w).1) by (unfold now; rewrite (same_env_clock _ _ He1); by destruct (clock w) as [|? []]).
  assert (t = (now w).1) as -> by (rewrite Ht, Hnow; lia).
  assert (Hp2 : pending s w2 = (Ok l, w2)).
  { rewrite pending_quiet, pending_path_eq in Hpend |- * by done. rewrite Hfs2, Hsame1. congruence. }
  set (l1 := touch_pending (pk_to_string k) (now w).1 l).
  assert (Hdir2 : is_dir w2 (root s) = true) by (unfold is_dir in *; by rewrite Hfs2).
  destruct (write_pending_quiet s (cap_pending l1) w2) as (w3 & Ew & _ & Hp3 & _); try done.
  { apply cap_pending_wf. by apply touch_pending_wf. }
  { unfold file_or_none. rewrite Hfs2, Hsame1. apply Hfiles. set_solver. }
  { unfold file_or_none. rewrite Hfs2, Hsame1, Hpid2. apply Hfiles. set_solver. }
  destruct (cap_pending_spec l1) as (dropped & Hperm & Hcap & Hfull & Hdrop).
  destruct (touch_pending_entry (pk_to_string k) (now w).1 l) as (p & Hp & Hk & Hn & Hothers & Hcount).
  exists (cap_pending l1), dropped, w3, p. split_and!; try done.
  - unfold record_pending, mbind, M_bind. by rewrite Een, Et, Hp2.
  - apply cap_pending_one. by apply touch_pending_one.
  - by rewrite <- Hperm.
  - intros Hall. by apply cap_keeps_touched.
  - intros q Hq'. apply Hothers. fold l1. by rewrite Hperm.
  - intros q Hq' Hne. rewrite <- Hperm. by apply touch_pending_keeps.
Qed.

(** *** Under any faults *)

(** What a pending list may look like: 64-bit fields, one entry per key, and no
    more entries than the limit. *)
Record well_typed (l : list PendingAgent) : Prop := mkWellTyped {
  wt_fields : pending_wf l;
  wt_keys : one_per_key l;
  wt_length : (length l ≤ PENDING_LIMIT)%nat
}.
Definition pending_typed (s : StateDir) (w : World) : Prop :=
  ∀ l, pending_of (fs w !! pending_path s) = Ok l → well_typed l.
(** The clock reads what [u64] seconds can hold. *)
Definition clock_fits (w : World) : Prop := Forall (λ t, t ≤ u64_max) (clock w).

Lemma clock_fits_later w w' : later w w' → clock_fits w → clock_fits w'.
Proof. intros [_ _ _ _ [k E]] Hc. unfold clock_fits in *. rewrite E in Hc. by apply Forall_app in Hc as [_ ?]. Qed.

Lemma ensure_dir_spec s w r w' :
  ensure_dir s w = (r, w') → later w w' ∧ ∀ x, fs w' !! (root s ++ [x]) = fs w !! (root s ++ [x]).
Proof.
  unfold ensure_dir. intros E.
  assert (Hmk : ∀ r1 w1, with_context ("creating state dir " +:+ show_path (root s)) (fs_create_dir_all (root s)) w = (r1, w1) →
    later w w1 ∧ ∀ x, fs w1 !! (root s ++ [x]) = fs w !! (root s ++ [x])).
  { intros r1 w1. unfold with_context. destruct (fs_create_dir_all (root s) w) as [x1 y1] eqn:Ec. intros; simplify_eq.
    apply mkdirs_spec in Ec as [Hl Hd]. split; [done|]. intros x.
    destruct (Hd (root s ++ [x])) as [?|(_ & Hp & _)]; [done|]. by apply not_above in Hp. }
  apply bind_inv in E as [(e & E1 & ->)|([] & w1 & E1 & E)]; [by eapply Hmk|].
  destruct (Hmk _ _ E1) as [Hl1 Hs1]. clear Hmk E1.
  assert (Hch : ∀ r2 w2, restrict (root s) w1 = (r2, w2) → later w w2 ∧ ∀ x, fs w2 !! (root s ++ [x]) = fs w !! (root s ++ [x])).
  { intros r2 w2. unfold restrict, with_context. destruct (fs_set_permissions (root s) o700 w1) as [x2 y2] eqn:Es.
    intros; simplify_eq. unfold fs_set_permissions in Es.
    assert (Hne : ∀ x, root s ≠ root s ++ [x]).
    { intros x Eq. apply (not_above (root s) x). by rewrite <- Eq. }
    destruct (syscall_cases (do_chmod (root s) o700) w1) as [(f & w4 & E4 & Hfs & Hl & _)|(w4 & E4 & Hfs & Hl)];
      rewrite E4 in Es; [simplify_eq; split; [by etrans|]; intros x; by rewrite Hfs|].
    unfold do_chmod in Es. repeat case_match; simplify_eq/=;
      (split; [by rewrite Hl1, Hl; eauto with egdod|]); intros x; rewrite ?lookup_insert_ne by done; by rewrite Hfs. }
  apply bind_inv in E as [(e & E2 & ->)|([] & w2 & E2 & [= <- <-])]; by eapply Hch.
Qed.

Lemma pending_spec s w r w' :
  pending s w = (r, w') →
  fs w' = fs w ∧ later w w' ∧ ∀ l, r = Ok l → l = [] ∨ pending_of (fs w !! pending_path s) = Ok l.
Proof.
  unfold pending. intros (x & w1 & E & Ek)%bind_attempt. unfold fs_read in E. unfold mret, M_ret, fail, lift in Ek.
  destruct (syscall_cases (λ w, match fs w !! pending_path s with
      | Some (NFile f) => (Ok (f_data f), w) | Some _ => (Err eisdir, w) | None => (Err enoent, w) end) w)
    as [(f & w2 & E2 & Hfs & Hl & _)|(w2 & E2 & Hfs & Hl)]; rewrite E2 in E; rewrite <- Hfs.
  - simplify_eq. case_bool_decide; simplify_eq; (split_and!; [done..|]); intros l Hr; simplify_eq; by left.
  - destruct (fs w2 !! pending_path s) as [[f| |]|]; simplify_eq/=; simplify_eq; (split_and!; [done..|]);
      intros l Hr; simplify_eq; auto.
Qed.

Lemma write_pending_typed s l w r w' :
  well_typed l → pending_typed s w → write_pending s l w = (r, w') → later w w' ∧ pending_typed s w'.
Proof.
  intros Hl Hs. unfold write_pending. intros [(e & [= _ <-] & _)|(b & w1 & [= Eb <-] & E)]%bind_inv; [by split|].
  apply write_atomic_spec in E as (Hlat & _ & Hok & Herr); [|rewrite pending_path_eq, file_name_snoc; [done|unfold plain_name; set_solver]].
  split; [done|]. unfold pending_typed. destruct r as [[]|e].
  - destruct (Hok eq_refl) as [m ->]. simpl. rewrite (json_roundtrip l b) by (done || apply Hl). by intros l' [= <-].
  - by rewrite Herr.
Qed.

Lemma typed_read s w r w' l : pending_typed s w → pending s w = (r, w') → r = Ok l → well_typed l.
Proof.
  intros Hs (_ & _ & Hp)%pending_spec Hr. destruct (Hp l Hr) as [->|?]; [|by apply Hs].
  split; [constructor|constructor|simpl; unfold PENDING_LIMIT; lia].
Qed.
Lemma filter_typed (P : PendingAgent → Prop) `{∀ p, Decision (P p)} l : well_typed l → well_typed (filter P l).
Proof.
  intros [Hf Hk Hn]. split.
  - unfold pending_wf in *. rewrite Forall_forall in *. intros p [_ Hp]%list_elem_of_filter. auto.
  - unfold one_per_key in *. clear -Hk. induction l as [|p l IH]; [done|]. rewrite fmap_cons in Hk.
    apply NoDup_cons in Hk as [Hn Hk]. rewrite filter_cons. case_decide; [|auto]. rewrite fmap_cons. constructor; [|auto].
    intros (q & E & [_ Hq]%list_elem_of_filter)%list_elem_of_fmap. apply Hn. rewrite E. by apply list_elem_of_fmap_2.
  - etrans; [apply length_filter|done].
Qed.
Lemma touched_typed text t l :
  0 ≤ t ≤ u64_max → well_typed l → well_typed (cap_pending (touch_pending text t l)).
Proof.
  intros Ht [Hf Hk Hn]. split; [by apply cap_pending_wf, touch_pending_wf|by apply cap_pending_one, touch_pending_one|].
  by destruct (cap_pending_spec (touch_pending text t l)) as (? & _ & ? & _).
Qed.

Lemma forget_pending_typed s k w r w' :
  pending_typed s w → forget_pending s k w = (r, w') → later w w' ∧ pending_typed s w'.
Proof.
  intros Hs. unfold forget_pending.
  intros [(e & (Hfs & Hl & _)%pending_spec & _)|(l & w1 & E & Ek)]%bind_inv.
  { split; [done|]. unfold pending_typed. by rewrite Hfs. }
  pose proof (typed_read _ _ _ _ _ Hs E eq_refl) as Hty. apply pending_spec in E as (Hfs & Hl & _).
  assert (Hs1 : pending_typed s w1) by (unfold pending_typed; by rewrite Hfs).
  case_bool_decide; [by injection Ek as _ <-|].
  apply write_pending_typed in Ek as [Hl2 ?]; [|by apply filter_typed|done]. split; [by etrans|done].
Qed.
Lemma record_pending_typed s k w r w' :
  clock_fits w → pending_typed s w → record_pending s k w = (r, w') → later w w' ∧ pending_typed s w'.
Proof.
  intros Hc Hs. unfold record_pending.
  assert (Hdir : ∀ r1 w1, ensure_dir s w = (r1, w1) → later w w1 ∧ pending_typed s w1).
  { intros r1 w1 [Hl Hx]%ensure_dir_spec. split; [done|]. unfold pending_typed. by rewrite pending_path_eq, Hx, <- pending_path_eq. }
  intros [(e & E & _)|([] & w1 & E & Ek)]%bind_inv; destruct (Hdir _ _ E) as [Hl1 Hs1]; [done|]. clear Hdir E Hs.
  apply (clock_fits_later _ _ Hl1) in Hc. apply bind_inv in Ek as [(e & E & _)|(t & w2 & E & Ek)].
  { destruct (now_unix_spec w1) as (t & w2 & En & _). by rewrite En in E. }
  assert (Hnow : fs w2 = fs w1 ∧ later w1 w2 ∧ 0 ≤ t ≤ u64_max).
  { destruct (now_unix_spec w1) as (t' & w3 & En & -> & Hfs & Hq & Hp). rewrite En in E. simplify_eq.
    split; [done|]. unfold clock_fits in Hc. revert En Hc. unfold now_unix, now_m, now, mbind, M_bind, mret, M_ret.
    destruct (clock w1) as [|t [|t2 l]] eqn:Ec; intros En Hc; simplify_eq/=.
    - split; [reflexivity|]. unfold u64_max. lia.
    - split; [reflexivity|]. apply Forall_cons in Hc as [Ht _]. cbn beta in Ht. unfold u64_max in *. lia.
    - apply Forall_cons in Hc as [Ht _]. cbn beta in Ht. split; [|unfold u64_max in *; lia]. split; simpl; [by exists []|done..|].
      rewrite Ec. by exists [t]. }
  destruct Hnow as (Hfs2 & Hl2 & Ht).
  assert (Hs2 : pending_typed s w2) by (unfold pending_typed; by rewrite Hfs2).
  apply bind_inv in Ek as [(e & (Hfs & Hl & _)%pending_spec & _)|(l & w3 & E3 & Ek)].
  { split; [by rewrite Hl1, Hl2, Hl|]. unfold pending_typed. by rewrite Hfs. }
  pose proof (typed_read _ _ _ _ _ Hs2 E3 eq_refl) as Hty. apply pending_spec in E3 as (Hfs & Hl & _).
  apply write_pending_typed in Ek as [Hl4 ?]; [|by apply touched_typed|unfold pending_typed; by rewrite Hfs].
  split; [by rewrite Hl1, Hl2, Hl, Hl4|done].
Qed.

Lemma fs_read_later p w r w' : fs_read p w = (r, w') → fs w' = fs w ∧ later w w'.
Proof.
  unfold fs_read. intros E.
  destruct (syscall_cases (λ w, match fs w !! p with
      | Some (NFile f) => (Ok (f_data f), w) | Some _ => (Err eisdir, w) | None => (Err enoent, w) end) w)
    as [(f & w2 & E2 & Hfs & Hl & _)|(w2 & E2 & Hfs & Hl)]; rewrite E2 in E; [by simplify_eq|].
  by destruct (fs w2 !! p) as [[f| |]|]; simplify_eq.
Qed.
Lemma fs_read_to_string_later p w r w' : fs_read_to_string p w = (r, w') → fs w' = fs w ∧ later w w'.
Proof.
  unfold fs_read_to_string. intros [(e & ?%fs_read_later & _)|(b & w1 & Hl%fs_read_later & E)]%bind_inv; [done|].
  by destruct (utf8_valid b); injection E as _ <-.
Qed.
Lemma approved_later s w r w' : approved s w = (r, w') → fs w' = fs w ∧ later w w'.
Proof.
  unfold approved. intros (x & w1 & Hl%fs_read_to_string_later & E)%bind_attempt.
  destruct x as [b|e]; [by injection E as _ <-|]. by case_bool_decide; injection E as _ <-.
Qed.

Lemma approve_typed s k w r w' :
  pending_typed s w → approve s k w = (r, w') → later w w' ∧ pending_typed s w'.
Proof.
  intros Hs. unfold approve.
  assert (Hdir : ∀ r1 w1, ensure_dir s w = (r1, w1) → later w w1 ∧ pending_typed s w1).
  { intros r1 w1 [Hl Hx]%ensure_dir_spec. split; [done|]. unfold pending_typed. by rewrite pending_path_eq, Hx, <- pending_path_eq. }
  assert (Hstill : ∀ w1 w2, fs w2 = fs w1 ∧ later w1 w2 → later w w1 ∧ pending_typed s w1 → later w w2 ∧ pending_typed s w2).
  { intros w1 w2 [Hf Hl] [Hl1 Hs1]. split; [by etrans|]. unfold pending_typed. by rewrite Hf. }
  intros [(e & E & _)|([] & w1 & E & Ek)]%bind_inv; pose proof (Hdir _ _ E) as G1; [done|].
  apply bind_inv in Ek as [(e & E2%approved_later & _)|(l & w2 & E2%approved_later & Ek)];
    pose proof (Hstill _ _ E2 G1) as G2; [done|].
  case_bool_decide; [by injection Ek as _ <-|].
  apply bind_attempt in Ek as (x & w3 & E3%fs_read_to_string_later & Ek). pose proof (Hstill _ _ E3 G2) as G3.
  assert (Hwrite : ∀ b r4 w4, write_atomic (approved_path s) b w3 = (r4, w4) → later w w4 ∧ pending_typed s w4).
  { intros b r4 w4 E4. destruct G3 as [Hl3 Hs3]. apply write_atomic_spec in E4 as (Hl & Hq & _).
    2:{ rewrite approved_path_eq, file_name_snoc; [done|unfold plain_name; set_solver]. }
    split; [by etrans|]. unfold pending_typed. rewrite pending_path_eq, Hq; rewrite ?approved_path_eq, ?unique_tmp_snoc.
    - by rewrite <- pending_path_eq.
    - by apply root_child_ne.
    - by apply root_child_ne.
    - unfold plain_name. set_solver. }
  apply bind_inv in Ek as [(e & E4%Hwrite & _)|([] & w4 & [Hl4 Hs4]%Hwrite & Ek)]; [done|].
  apply bind_inv in Ek as [(e & [Hl5 Hs5]%forget_pending_typed & _)|([] & w5 & [Hl5 Hs5]%forget_pending_typed & [= _ <-])];
    try done; (split; [by etrans|done]).
Qed.

(** Everything that touches the list, by the controller or by a command. *)
Inductive pending_op := Contact (k : PublicKey) | Forgotten (k : PublicKey) | Approval (k : PublicKey).
Definition run_op (s : StateDir) (op : pending_op) (w : World) : World :=
  match op with
  | Contact k => (record_pending s k w).2
  | Forgotten k => (forget_pending s k w).2
  | Approval k => (approve s k w).2
  end.

(** C34: The pending list stays well typed: after any sequence of contacts,
    removals and approvals, whatever system calls fail in them and whatever each
    reports, the file, if it can be read at all, holds a list whose counters and
    times fit 64 bits, with one entry per key and at most 256 entries. *)
Theorem pending_list_stays_well_typed s ops w :
  clock_fits w → pending_typed s w → pending_typed s (foldl (λ w op, run_op s op w) w ops).
Proof.
  revert w. induction ops as [|op ops IH]; intros w Hc Hs; [done|]. simpl.
  assert (later w (run_op s op w) ∧ pending_typed s (run_op s op w)) as [Hl Hs'].
  { destruct op as [k|k|k]; simpl; [eapply record_pending_typed|eapply forget_pending_typed|eapply approve_typed];
      try done; by apply surjective_pairing. }
  apply IH; [by eapply clock_fits_later|done].
Qed.
End approval.

(** Replacing a file of the state directory is atomic: whatever system call
    fails, and after however many bytes, the file is complete with its new
    contents if the call reports success and untouched if it reports failure;
    no other file than the process's own side file is affected. *)
Theorem write_atomic_old_or_new p b w r w' :
  is_Some (file_name p) → write_atomic p b w = (r, w') →
  (r = Ok tt → ∃ m, fs w' !! p = Some (NFile (mkFile b m))) ∧
  (is_err r = true → fs w' !! p = fs w !! p) ∧
  (∀ q, q ≠ p → q ≠ unique_tmp p (pid w) → fs w' !! q = fs w !! q).
Proof. intros Hp E. by apply write_atomic_spec in E as (_ & ? & ? & ?). Qed.

(** ** Concrete runs *)

Section examples.
Import DemoSha DemoKeys DemoJson.

Definition demo_root : StateDir := mkStateDir ["/"; "state"].
Definition demo_pk (b : byte) : PublicKey := mk_key (replicate 32 b).
Definition demo_other : PendingAgent := mkPendingAgent "other" 5 6 1.
(** A comment, a key with a remark and no final newline; two pending agents. *)
Definition demo_approved : bytes := as_bytes "# lab" ++ [LF] ++ key_text (demo_pk x01) ++ as_bytes "  bench".
Definition demo_pending : list PendingAgent :=
  [mkPendingAgent (pk_to_string (demo_pk x02)) 3 4 2; demo_other].
Definition demo_state (l : list (option fault)) : World :=
  mkWorld (<[["/"; "state"] := NDir o700]>
          (<[["/"; "state"; "approved"] := NFile (mkFile demo_approved 420)]>
          {[ ["/"; "state"; "pending.json"] := NFile (mkFile (pos_bits (encode demo_pending)) 420) ]}))
    l [Ok (replicate 32 x07)] [9] 42 18.

Lemma demo_usable : usable demo_root (demo_state []).
Proof.
  split; [done| |].
  - intros k [l Hl] Hne. change (root demo_root) with ["/"; "state"] in Hl.
    destruct k as [|a [|b [|c k]]]; [done|..]; injection Hl as Hl; subst; [left|right; exists o700|done];
      vm_compute; reflexivity.
  - intros x Hx. rewrite !elem_of_cons, elem_of_nil in Hx.
    destruct Hx as [->|[->|[->|[->|[]]]]]; vm_compute; exact I.
Qed.
Lemma demo_pending_wf : pending_wf demo_pending.
Proof. repeat constructor; by vm_compute. Qed.

Lemma approve_adds_exactly_the_key_witness :
  ∃ new w', approve demo_root (demo_pk x02) (demo_state []) =
      (Ok (negb (bool_decide (demo_pk x02 ∈ [demo_pk x01]))), w') ∧
    approved demo_root w' = (Ok new, w') ∧ (∀ x, x ∈ new ↔ x = demo_pk x02 ∨ x ∈ [demo_pk x01]) ∧
    pending demo_root w' = (Ok (if bool_decide (demo_pk x02 ∈ [demo_pk x01]) then demo_pending
      else filter (λ p, pubkey p ≠ pk_to_string (demo_pk x02)) demo_pending), w').
Proof.
  apply (approve_adds_exactly_the_key demo_root (demo_pk x02) (demo_state []) [demo_pk x01] demo_pending);
    [apply demo_usable | vm_compute; reflexivity | vm_compute; reflexivity | apply demo_pending_wf].
Defined.

(** A full disk in the middle of the first contact. *)
Definition demo_faulty : World :=
  mkWorld ∅ (replicate 5 None ++ [Some (mkFault StorageFull "No space left on device (os error 28)" 2)]) [] [9] 42 18.
Lemma pending_list_stays_well_typed_witness :
  pending_typed demo_root (foldl (λ w op, run_op demo_root op w) demo_faulty
    [Contact (demo_pk x01); Contact (demo_pk x02); Approval (demo_pk x01); Forgotten (demo_pk x02)]).
Proof.
  apply (pending_list_stays_well_typed demo_root).
  - constructor; [by vm_compute|constructor].
  - intros l Hl. assert (l = []) as -> by (vm_compute in Hl; congruence). split; [constructor|constructor|cbn; lia].
Defined.

Lemma record_pending_counts_witness :
  ∃ l' dropped w' p, record_pending demo_root (demo_pk x02) (demo_state []) = (Ok tt, w') ∧
    pending demo_root w' = (Ok l', w') ∧
    (length l' ≤ PENDING_LIMIT)%nat ∧ one_per_key l' ∧
    pubkey p = pk_to_string (demo_pk x02) ∧ last_seen_unix p = 9 ∧
    (first_seen_unix p = 3 ∧ attempts p = 3) ∧
    p ∈ dropped ++ l' ∧ (Forall (λ q, last_seen_unix q ≤ 9) demo_pending → p ∈ l') ∧
    (∀ q, q ∈ dropped ++ l' → q = p ∨ q ∈ demo_pending) ∧
    (∀ q, q ∈ demo_pending → pubkey q ≠ pk_to_string (demo_pk x02) → q ∈ dropped ++ l') ∧
    touch_pending (pk_to_string (demo_pk x02)) 9 demo_pending ≡ₚ dropped ++ l' ∧
    (dropped ≠ [] → length l' = PENDING_LIMIT) ∧
    (∀ q r, q ∈ dropped → r ∈ l' → seen_le q r).
Proof.
  apply (record_pending_counts demo_root (demo_pk x02) (demo_state []) demo_pending).
  - apply demo_usable.
  - vm_compute. reflexivity.
  - apply demo_pending_wf.
  - apply (bool_decide_unpack _). vm_compute. exact I.
  - vm_compute. lia.
  - by vm_compute.
Defined.

Definition demo_disk_full : fault := mkFault StorageFull "No space left on device (os error 28)" 3.

Lemma write_atomic_old_or_new_witness :
  let run := write_atomic (approved_path demo_root) [x41; x42; x43; x44] (demo_state [None; Some demo_disk_full]) in
  (run.1 = Ok tt → ∃ m, fs run.2 !! approved_path demo_root = Some (NFile (mkFile [x41; x42; x43; x44] m))) ∧
  (is_err run.1 = true → fs run.2 !! approved_path demo_root = fs (demo_state []) !! approved_path demo_root) ∧
  (∀ q, q ≠ approved_path demo_root → q ≠ unique_tmp (approved_path demo_root) 42 →
     fs run.2 !! q = fs (demo_state []) !! q).
Proof.
  apply (write_atomic_old_or_new (approved_path demo_root) [x41; x42; x43; x44]
           (demo_state [None; Some demo_disk_full])); [by eexists|by destruct (write_atomic _ _ _)].
Defined.

Definition demo_key_path : path := ["/"; "state"; "controller.key"].

Definition demo_sk : SecretKey := sk_from_bytes (replicate 32 x07).


Definition demo_badkey : World := set_fs <[demo_key_path := NFile (mkFile [x01] 384)]> (demo_state []).

Lemma key_never_clobbered_witness :
  let run := load_or_create_key demo_key_path Refuse demo_badkey in
  (Refuse = Refuse → is_Some (fs demo_badkey !! demo_key_path) →
     fs run.2 !! demo_key_path = fs demo_badkey !! demo_key_path ∧
     (∀ k, run.1 = Ok k → holds_key demo_badkey demo_key_path k) ∧
     (∀ e w1, read_key demo_key_path demo_badkey = (Err e, w1) → run.1 = Err e ∧ run.2 = w1)) ∧
  (is_err run.1 = true → fs run.2 !! demo_key_path = fs demo_badkey !! demo_key_path) ∧
  (fs demo_badkey !! demo_key_path = None → is_ok run.1 = true →
     ∃ b m, fs run.2 !! demo_key_path = Some (NFile (mkFile b m)) ∧ length b = 32%nat ∧ Z.land m 63 = 0).
Proof.
  apply (key_never_clobbered demo_key_path Refuse demo_badkey);
    [by eexists|by intros f Hf%not_elem_of_nil|by destruct (load_or_create_key _ _ _)].
Defined.

(** The run that leaves the side file: the write of the new key meets a full disk. *)
Definition demo_stale : World := (load_or_create_key demo_key_path Replace
  (demo_state [None; None; None; Some demo_disk_full])).2.

Lemma stale_side_file_blocks_key_witness :
  ∃ e w', load_or_create_key demo_key_path Replace demo_stale = (Err e, w') ∧
    fs w' !! demo_key_path = None ∧
    fs w' !! unique_tmp demo_key_path (pid w') = Some (NFile (mkFile [x07; x07; x07] 384)).
Proof.
  apply (stale_side_file_blocks_key demo_key_path Replace demo_stale (NFile (mkFile [x07; x07; x07] 384)));
    [by eexists|by vm_compute..].
Defined.

(** A read error at the wrong moment loses approvals: between checking the
    approved list and appending to it the file is read a second time, and an
    error there counts as an empty file, so that approving a second key can
    report success and leave a list without the first. *)
Theorem approve_can_drop_approvals :
  let eio := mkFault OtherKind "Input/output error (os error 5)" 0 in
  let run := approve demo_root (demo_pk x02) (demo_state [None; None; None; None; Some eio]) in
  (approved demo_root (demo_state [])).1 = Ok [demo_pk x01] ∧
  run.1 = Ok true ∧ (approved demo_root run.2).1 = Ok [demo_pk x02].
Proof. vm_compute. done. Qed.
End examples.
