(* ===== verification/Demo.v ===== *)
(** * Demonstration instances of the library parameters

    For the concrete runs: a codec for every countable message type that
    satisfies the laws asked of [postcard] and [serde_json], and relays that are
    plain strings.  The theorems do not mention them. *)

From S2P Require Import Prelude Text Crypto Proto Net State.

#[export] Instance PathKind_countable : Countable PathKind.
Proof.
  refine (inj_countable'
    (λ p, match p with DirectLocal => 0 | DirectLan => 1 | DirectWan => 2 | Relayed => 3 | Unknown => 4 end%N)
    (λ n, match n with 0 => DirectLocal | 1 => DirectLan | 2 => DirectWan | 3 => Relayed | _ => Unknown end%N) _).
  by intros [].
Defined.
#[export] Instance ProbeMode_countable : Countable ProbeMode.
Proof.
  refine (inj_countable' (λ p, match p with Discovery => true | Direct => false end)
    (λ b : bool, if b then Discovery else Direct) _). by intros [].
Defined.
#[export] Instance Admission_countable : Countable Admission.
Proof.
  refine (inj_countable' (λ p, match p with Pending => false | Approved => true end)
    (λ b : bool, if b then Approved else Pending) _). by intros [].
Defined.
#[export] Instance byte_countable : Countable byte.
Proof. refine (inj_countable' byte_to_Z byte_of_Z byte_of_to_Z). Defined.
#[export] Instance Route_eq_dec : EqDecision Route.
Proof. solve_decision. Defined.
#[export] Instance Route_countable : Countable Route.
Proof. refine (inj_countable' route_agent mkRoute _). by intros []. Defined.
#[export] Instance RouteReply_countable : Countable RouteReply.
Proof.
  refine (inj_countable'
    (λ r, match r with RouteOk a p m => inl (a, p, m) | RouteErr m => inr m end)
    (λ t, match t with inl (a, p, m) => RouteOk a p m | inr m => RouteErr m end) _). by intros [].
Defined.
#[export] Instance Request_countable : Countable Request.
Proof.
  refine (inj_countable'
    (λ r, match r with Exec a => inl (inl a) | Push p m l s => inl (inr (p, m, l, s))
          | Pull p => inr (inl p) | Forward a => inr (inr a) end)
    (λ t, match t with inl (inl a) => Exec a | inl (inr (p, m, l, s)) => Push p m l s
          | inr (inl p) => Pull p | inr (inr a) => Forward a end) _). by intros [].
Defined.
#[export] Instance PullStart_countable : Countable PullStart.
Proof.
  refine (inj_countable'
    (λ r, match r with PullOk m l s => inl (m, l, s) | PullMissing => inr None | PullErr e => inr (Some e) end)
    (λ t, match t with inl (m, l, s) => PullOk m l s | inr None => PullMissing | inr (Some e) => PullErr e end) _).
  by intros [].
Defined.
#[export] Instance SessionInfo_countable : Countable SessionInfo.
Proof.
  refine (inj_countable' (λ i, (si_agent i, si_path i, si_remote i, si_since_unix i))
    (λ t, mkSessionInfo t.1.1.1 t.1.1.2 t.1.2 t.2) _). by intros [].
Defined.
#[export] Instance Status_eq_dec : EqDecision Status.
Proof. solve_decision. Defined.
#[export] Instance Status_countable : Countable Status.
Proof.
  refine (inj_countable' (λ s, (st_node_id s, st_pid s, st_updated_unix s, st_direct_addrs s, st_dialable s,
      st_probe_mode s, st_last_probe_ok_unix s, st_last_probe_path s, st_last_probe_error s,
      st_consecutive_probe_failures s, st_endpoint_restarts s, st_sessions s))
    (λ '(a, b, c, d, e, f, g, h, i, j, k, l), mkStatus a b c d e f g h i j k l) _). by intros [].
Defined.

Module DemoPostcard.
Import DemoJson.
#[export] Instance demo_postcard `{Countable T} : Postcard T := {
  to_allocvec x := Ok (pos_bits (encode x));
  from_bytes b := match decode (bits_pos b) with Some x => Ok x | None => Err (anyhow "invalid message") end
}.
#[export] Instance demo_postcard_laws `{Countable T} : PostcardLaws T.
Proof. split. intros x b [= <-]. simpl. by rewrite bits_pos_bits, decode_encode. Qed.
End DemoPostcard.

Module DemoNet.
#[export] Instance demo_relays : RelayUrls := {
  RelayUrl := string; RelayMap := list string;
  url_parse s := Ok s; url_to_string s := s; relay_map_try_from_iter l := Ok l
}.
End DemoNet.
