(* ===== verification/Calls.v ===== *)
(** * The state directory's operations as programs of system calls
    (src/src/state.rs)

    State.v runs an operation at one go.  Processes, and the threads of [serve],
    really take turns between system calls.  Here the operations that write the
    shared files are syntax: a [proc] is what is left to do, cut at every call
    that touches the file system or the clock.  Run alone, call by call, it is
    the operation of State.v; Shared.v runs several of them interleaved. *)

From S2P Require Import Prelude Text Stream Fs Crypto Proto Net State Demo.

(** ** Programs *)

Inductive proc (A : Type) :=
  | Done (r : result A)
  | Now (k : Z → proc A)                                         (** [SystemTime::now] *)
  | Mkdir (p : path) (k : result unit → proc A)
  | Chmod (p : path) (mode : Z) (k : result unit → proc A)
  | ReadFile (p : path) (k : result bytes → proc A)              (** [std::fs::read] *)
  | WriteFile (p : path) (b : bytes) (k : result unit → proc A)  (** [std::fs::write] *)
  | Rename (a b : path) (k : result unit → proc A).
Arguments Done {A} r.
Arguments Now {A} k.
Arguments Mkdir {A} p k.
Arguments Chmod {A} p mode k.
Arguments ReadFile {A} p k.
Arguments WriteFile {A} p b k.
Arguments Rename {A} a b k.

#[export] Instance proc_ret : MRet proc := λ A a, Done (Ok a).
(** [?]: an error ends the program. *)
Fixpoint proc_then {A B} (f : result A → proc B) (m : proc A) : proc B :=
  match m with
  | Done r => f r
  | Now k => Now (λ t, proc_then f (k t))
  | Mkdir p k => Mkdir p (λ r, proc_then f (k r))
  | Chmod p mode k => Chmod p mode (λ r, proc_then f (k r))
  | ReadFile p k => ReadFile p (λ r, proc_then f (k r))
  | WriteFile p b k => WriteFile p b (λ r, proc_then f (k r))
  | Rename a b k => Rename a b (λ r, proc_then f (k r))
  end.
#[export] Instance proc_bind : MBind proc := λ A B f,
  proc_then (λ r, match r with Ok a => f a | Err e => Done (Err e) end).
Definition proc_context {A} (msg : string) : proc A → proc A := proc_then (λ r, Done (context msg r)).
Definition proc_attempt {A} : proc A → proc (result A) := proc_then (λ r, Done (Ok r)).

(** Run alone, on the machine of Fs.v. *)
Fixpoint run {A} (m : proc A) : M World A :=
  match m with
  | Done r => lift r
  | Now k => t ← now_m; run (k t)
  | Mkdir p k => r ← attempt (syscall (do_mkdir p)); run (k r)
  | Chmod p mode k => r ← attempt (fs_set_permissions p mode); run (k r)
  | ReadFile p k => r ← attempt (fs_read p); run (k r)
  | WriteFile p b k => r ← attempt (fs_write p b); run (k r)
  | Rename a b k => r ← attempt (fs_rename a b); run (k r)
  end.

(** ** The operations *)

Fixpoint mkdirs_calls (done rest : path) : proc unit :=
  match rest with
  | [] => mret tt
  | c :: rest => Mkdir (done ++ [c]) Done;; mkdirs_calls (done ++ [c]) rest
  end.
Definition ensure_dir_calls (s : StateDir) : proc unit :=
  proc_context ("creating state dir " +:+ show_path (root s)) (mkdirs_calls [] (root s));;
  proc_context ("restricting " +:+ show_path (root s)) (Chmod (root s) o700 Done);;
  mret tt.

(** [me] is [std::process::id()]. *)
Definition write_atomic_calls (me : Z) (p : path) (body : bytes) : proc unit :=
  let tmp := unique_tmp p me in
  proc_context ("writing " +:+ show_path tmp) (WriteFile tmp body Done);;
  proc_context ("renaming into " +:+ show_path p) (Rename tmp p Done).
Definition read_to_string_calls (p : path) : proc bytes :=
  b ← ReadFile p Done;
  if utf8_valid b then mret b
  else Done (Err (io_error InvalidData "stream did not contain valid UTF-8")).

Section state_calls.
Context `{IrohKeys} `{SerdeJson (list PendingAgent)}.
Context (me : Z) (s : StateDir).

Definition approved_calls : proc (list PublicKey) :=
  r ← proc_attempt (read_to_string_calls (approved_path s));
  match r with
  | Ok body => Done (approved_lines (lines body) [])
  | Err e =>
      if bool_decide (e_io e = Some NotFound) then mret []
      else Done (Err (add_context "reading approved list" e))
  end.
Definition pending_calls : proc (list PendingAgent) :=
  r ← proc_attempt (ReadFile (pending_path s) Done);
  match r with
  | Ok b => Done (context "parsing pending.json" (from_slice b))
  | Err e =>
      if bool_decide (e_io e = Some NotFound) then mret []
      else Done (Err (add_context "reading pending.json" e))
  end.
Definition write_pending_calls (l : list PendingAgent) : proc unit :=
  body ← Done (to_vec_pretty l);
  write_atomic_calls me (pending_path s) body.
Definition record_pending_calls (key : PublicKey) : proc unit :=
  ensure_dir_calls s;;
  now ← Now (λ t, mret (Z.max 0 t));
  l ← pending_calls;
  write_pending_calls (cap_pending (touch_pending (pk_to_string key) now l)).
Definition forget_pending_calls (key : PublicKey) : proc unit :=
  l ← pending_calls;
  let kept := filter (λ p, pubkey p ≠ pk_to_string key) l in
  if bool_decide (length kept = length l) then mret tt
  else write_pending_calls kept.
Definition approve_calls (key : PublicKey) : proc bool :=
  ensure_dir_calls s;;
  l ← approved_calls;
  if bool_decide (key ∈ l) then mret false else
  r ← proc_attempt (read_to_string_calls (approved_path s));
  let body := match r with Ok b => b | Err _ => [] end in
  let body := if negb (bool_decide (body = [])) && negb (ends_with LF body) then body ++ [LF] else body in
  write_atomic_calls me (approved_path s) (body ++ as_bytes (pk_to_string key) ++ [LF]);;
  forget_pending_calls key;;
  mret true.
Definition write_status_calls `{SerdeJson Status} (st : Status) : proc unit :=
  body ← Done (to_vec_pretty st);
  write_atomic_calls me (status_path s) body.
End state_calls.

(** ** Alone, a program is its operation *)

(** The same run from every world of process [me], which stays one. *)
Definition runs_as {A} (me : Z) (m : proc A) (op : M World A) : Prop :=
  ∀ w, pid w = me → run m w = op w ∧ pid (op w).2 = me.

Lemma run_then {A B} (f : result A → proc B) (m : proc A) w :
  run (proc_then f m) w = let '(r, w') := run m w in run (f r) w'.
Proof.
  revert w. induction m as [r|k IH|p k IH|p mode k IH|p k IH|p b k IH|a b k IH]; intros w; simpl; [done|..];
    unfold mbind, M_bind, attempt.
  - unfold now_m. destruct (now w). apply IH.
  - destruct (syscall (do_mkdir p) w). apply IH.
  - destruct (fs_set_permissions p mode w). apply IH.
  - destruct (fs_read p w). apply IH.
  - destruct (fs_write p b w). apply IH.
  - destruct (fs_rename a b w). apply IH.
Qed.

Section runs_as_rules.
Context (me : Z).
Lemma runs_as_done {A} (r : result A) : runs_as me (Done r) (lift r).
Proof. by intros w Hw. Qed.
Lemma runs_as_bind {A B} (m : proc A) op (f : A → proc B) k :
  runs_as me m op → (∀ a, runs_as me (f a) (k a)) → runs_as me (m ≫= f) (op ≫= k).
Proof.
  intros Hm Hf w Hw. destruct (Hm w Hw) as [E Hp]. unfold mbind at 1, proc_bind. rewrite run_then, E.
  unfold mbind, M_bind. destruct (op w) as [[a|e] w']; [by apply Hf|done].
Qed.
Lemma runs_as_context {A} msg (m : proc A) op :
  runs_as me m op → runs_as me (proc_context msg m) (with_context msg op).
Proof.
  intros Hm w Hw. destruct (Hm w Hw) as [E Hp]. unfold proc_context, with_context. rewrite run_then, E.
  by destruct (op w).
Qed.
Lemma runs_as_attempt {A} (m : proc A) op : runs_as me m op → runs_as me (proc_attempt m) (attempt op).
Proof.
  intros Hm w Hw. destruct (Hm w Hw) as [E Hp]. unfold proc_attempt, attempt. rewrite run_then, E. by destruct (op w).
Qed.

(** The calls themselves leave the process's number alone. *)
Lemma syscall_pid {A} (m : M World A) w : (∀ w, pid (m w).2 = pid w) → pid (syscall m w).2 = pid w.
Proof.
  intros Hm. unfold syscall, next_fault. destruct (faults w) as [|[f|] l]; [apply Hm|done|].
  by rewrite (Hm (set_faults l w)).
Qed.
Lemma runs_as_mkdir p : runs_as me (Mkdir p Done) (syscall (do_mkdir p)).
Proof.
  intros w <-. simpl. unfold mbind, M_bind, attempt, lift. destruct (syscall (do_mkdir p) w) as [r w'] eqn:E. split; [done|].
  change w' with ((r, w').2). rewrite <- E. apply syscall_pid. intros w1. unfold do_mkdir. by repeat case_match.
Qed.
Lemma runs_as_chmod p mode : runs_as me (Chmod p mode Done) (fs_set_permissions p mode).
Proof.
  intros w <-. simpl. unfold mbind, M_bind, attempt, lift. destruct (fs_set_permissions p mode w) as [r w'] eqn:E. split; [done|].
  change w' with ((r, w').2). rewrite <- E. apply syscall_pid. intros w1. unfold do_chmod. by repeat case_match.
Qed.
Lemma runs_as_read p : runs_as me (ReadFile p Done) (fs_read p).
Proof.
  intros w <-. simpl. unfold mbind, M_bind, attempt, lift. destruct (fs_read p w) as [r w'] eqn:E. split; [done|].
  change w' with ((r, w').2). rewrite <- E. apply syscall_pid. intros w1. by repeat case_match.
Qed.
Lemma runs_as_rename a b : runs_as me (Rename a b Done) (fs_rename a b).
Proof.
  intros w <-. simpl. unfold mbind, M_bind, attempt, lift. destruct (fs_rename a b w) as [r w'] eqn:E. split; [done|].
  change w' with ((r, w').2). rewrite <- E. apply syscall_pid. intros w1. unfold do_rename. by repeat case_match.
Qed.
Lemma runs_as_write p b : runs_as me (WriteFile p b Done) (fs_write p b).
Proof.
  intros w <-. simpl. unfold mbind at 1, M_bind at 1, attempt, lift.
  destruct (fs_write p b w) as [r w'] eqn:E. split; [done|].
  assert (Hopen : pid (syscall (do_open_truncate p) w).2 = pid w).
  { apply syscall_pid. intros w1. unfold do_open_truncate. by repeat case_match. }
  revert E Hopen. unfold fs_write, mbind, M_bind. destruct (syscall (do_open_truncate p) w) as [[[]|e] w1]; simpl.
  - unfold fs_append, next_fault. destruct (faults w1) as [|[f|] l]; intros; by simplify_eq/=.
  - intros; by simplify_eq.
Qed.
End runs_as_rules.
Create HintDb calls discriminated.
#[export] Hint Resolve runs_as_done runs_as_bind runs_as_context runs_as_attempt runs_as_mkdir runs_as_chmod
  runs_as_read runs_as_rename runs_as_write : calls.

Section sequential.
Context `{IrohKeys} `{SerdeJson (list PendingAgent)} `{SerdeJson Status}.
Context (me : Z) (s : StateDir).

Lemma runs_as_mkdirs done rest : runs_as me (mkdirs_calls done rest) (mkdirs done rest).
Proof. revert done. induction rest as [|c rest IH]; intros done; simpl; [apply runs_as_done|]. eauto with calls. Qed.
Lemma runs_as_ensure_dir : runs_as me (ensure_dir_calls s) (ensure_dir s).
Proof.
  unfold ensure_dir_calls, ensure_dir, fs_create_dir_all, restrict.
  apply runs_as_bind; [apply runs_as_context, runs_as_mkdirs|]. eauto with calls.
Qed.
Lemma runs_as_write_atomic p body : runs_as me (write_atomic_calls me p body) (write_atomic p body).
Proof.
  intros w <-. unfold write_atomic. unfold mbind at 1, M_bind at 1, gets. revert w. intros w.
  refine (runs_as_bind (pid w) _ _ _ _ _ _ w eq_refl); eauto with calls.
Qed.
Lemma runs_as_read_to_string p : runs_as me (read_to_string_calls p) (fs_read_to_string p).
Proof. apply runs_as_bind; [apply runs_as_read|]. intros b. destruct (utf8_valid b); apply runs_as_done. Qed.
Lemma runs_as_now : runs_as me (Now (λ t, mret (Z.max 0 t))) now_unix.
Proof.
  intros w <-. simpl. unfold now_unix, mbind, M_bind, now_m, now, lift, mret, M_ret.
  destruct (clock w) as [|t [|t2 l]]; split; reflexivity.
Qed.

Lemma runs_as_approved : runs_as me (approved_calls s) (approved s).
Proof.
  apply runs_as_bind; [apply runs_as_attempt, runs_as_read_to_string|]. intros [b|e]; [apply runs_as_done|].
  case_bool_decide; apply runs_as_done.
Qed.
Lemma runs_as_pending : runs_as me (pending_calls s) (pending s).
Proof.
  apply runs_as_bind; [apply runs_as_attempt, runs_as_read|]. intros [b|e]; [apply runs_as_done|].
  case_bool_decide; apply runs_as_done.
Qed.
Lemma runs_as_write_pending l : runs_as me (write_pending_calls me s l) (write_pending s l).
Proof. apply runs_as_bind; [apply runs_as_done|]. intros body. apply runs_as_write_atomic. Qed.
Lemma runs_as_record_pending k : runs_as me (record_pending_calls me s k) (record_pending s k).
Proof.
  apply runs_as_bind; [apply runs_as_ensure_dir|intros []]. apply runs_as_bind; [apply runs_as_now|intros t].
  apply runs_as_bind; [apply runs_as_pending|intros l]. apply runs_as_write_pending.
Qed.
Lemma runs_as_forget_pending k : runs_as me (forget_pending_calls me s k) (forget_pending s k).
Proof.
  apply runs_as_bind; [apply runs_as_pending|intros l]. cbv zeta. case_bool_decide; [apply runs_as_done|apply runs_as_write_pending].
Qed.
Lemma runs_as_approve k : runs_as me (approve_calls me s k) (approve s k).
Proof.
  apply runs_as_bind; [apply runs_as_ensure_dir|intros []]. apply runs_as_bind; [apply runs_as_approved|intros l].
  case_bool_decide; [apply runs_as_done|].
  apply runs_as_bind; [apply runs_as_attempt, runs_as_read_to_string|intros r].
  apply runs_as_bind; [apply runs_as_write_atomic|intros []].
  apply runs_as_bind; [apply runs_as_forget_pending|intros []]. apply runs_as_done.
Qed.
Lemma runs_as_write_status st : runs_as me (write_status_calls me s st) (write_status s st).
Proof. apply runs_as_bind; [apply runs_as_done|]. intros body. apply runs_as_write_atomic. Qed.
End sequential.
