(* ===== verification/Shared.v ===== *)
(** * The state directory shared by processes (src/src/state.rs)

    [serve] and the commands write the same files.  Here their programs
    (Calls.v) run interleaved at system calls, over a file system of names and
    inodes: an open file stays what it is when its name is taken over, two
    writers of one file have an offset each, reading and writing come in pieces,
    every call may fail, and processes come and go at any time. *)

From S2P Require Import Prelude Text Stream Fs Crypto Proto Net State Demo Calls.

(** ** Names and inodes *)

Inductive entry := EFile (i : nat) | EDir (mode : Z) | EOther.
Record store := mkStore {
  names : gmap path entry;
  inodes : gmap nat file;
  next_inode : nat;
  store_umask : Z
}.
Definition inode (s : store) (i : nat) : file := default (mkFile [] 0) (inodes s !! i).
Definition set_names (f : gmap path entry → gmap path entry) (s : store) : store :=
  mkStore (f (names s)) (inodes s) (next_inode s) (store_umask s).
Definition set_inode (i : nat) (f : file) (s : store) : store :=
  mkStore (names s) (<[i := f]> (inodes s)) (next_inode s) (store_umask s).

Definition node_of (s : store) (e : entry) : node :=
  match e with EFile i => NFile (inode s i) | EDir mode => NDir mode | EOther => NOther end.
(** What Fs.v sees of it. *)
Definition view (s : store) : gmap path node := node_of s <$> names s.

Definition store_dir (s : store) (p : path) : bool :=
  bool_decide (p = [] ∨ p = ["."] ∨ p = ["/"]) ||
  match names s !! p with Some (EDir _) => true | _ => false end.
Definition store_parent_ok (s : store) (p : path) : bool :=
  match parent p with Some d => store_dir s d | None => false end.

Definition store_mkdir (p : path) : M store unit := λ s,
  if store_dir s p then (Ok tt, s) else
  match names s !! p with
  | Some _ => (Err enotdir, s)
  | None => (Ok tt, set_names <[p := EDir (Z.ldiff o777 (store_umask s))]> s)
  end.
Definition store_chmod (p : path) (mode : Z) : M store unit := λ s,
  match names s !! p with
  | Some (EFile i) => (Ok tt, set_inode i (mkFile (f_data (inode s i)) (Z.land mode o7777)) s)
  | Some (EDir _) => (Ok tt, set_names <[p := EDir (Z.land mode o7777)]> s)
  | Some EOther => (Ok tt, s)
  | None => if store_dir s p then (Ok tt, s) else (Err enoent, s)
  end.
(** [open] for reading, and with [O_CREAT | O_TRUNC]. *)
Definition store_open (p : path) : M store nat := λ s,
  match names s !! p with
  | Some (EFile i) => (Ok i, s)
  | Some _ => (Err eisdir, s)
  | None => (Err enoent, s)
  end.
Definition store_create (p : path) : M store nat := λ s,
  match names s !! p with
  | Some (EFile i) => (Ok i, set_inode i (mkFile [] (f_mode (inode s i))) s)
  | Some (EDir _) => (Err eisdir, s)
  | Some EOther => (Err einval, s)
  | None =>
      if store_parent_ok s p then
        let i := next_inode s in
        (Ok i, mkStore (<[p := EFile i]> (names s)) (<[i := mkFile [] (Z.ldiff o666 (store_umask s))]> (inodes s))
                 (S i) (store_umask s))
      else (Err enoent, s)
  end.
(** A write at an offset overwrites what is there; a gap reads as zeros. *)
Definition pwrite (off : nat) (b d : bytes) : bytes :=
  take off (d ++ replicate (off - length d) x00) ++ b ++ drop (off + length b) d.
Definition store_write (i off : nat) (b : bytes) (s : store) : store :=
  set_inode i (mkFile (pwrite off b (f_data (inode s i))) (f_mode (inode s i))) s.
Definition store_rename (a b : path) : M store unit := λ s,
  match names s !! a with
  | None => (Err enoent, s)
  | Some e =>
      match names s !! b with
      | Some (EDir _) => (Err eisdir, s)
      | _ =>
          if store_parent_ok s b then (Ok tt, set_names (λ m, <[b := e]> (delete a m)) s)
          else (Err enoent, s)
      end
  end.

(** ** Threads *)

(** A thread between two calls, in the middle of [std::fs::read] with what it
    has got, or of [std::fs::write] with its offset and what it has left. *)
Inductive thread (A : Type) :=
  | Ready (m : proc A)
  | Reading (i : nat) (got : bytes) (k : result bytes → proc A)
  | Writing (i off : nat) (rest : bytes) (k : result unit → proc A).
Arguments Ready {A} m.
Arguments Reading {A} i got k.
Arguments Writing {A} i off rest k.

(** What the kernel does with the next call: fail it, let it go on (with at most
    [S n] bytes, for a read or a write), or tell the time. *)
Inductive choice := Fails (e : error) | Goes (n : nat) | Clock (t : Z).

Definition called {A X} (op : M store X) (c : choice) (k : result X → thread A) (s : store) : option (thread A * store) :=
  match c with
  | Fails e => Some (k (Err e), s)
  | Goes _ => let '(r, s) := op s in Some (k r, s)
  | Clock _ => None
  end.
Definition act {A} (c : choice) (t : thread A) (s : store) : option (thread A * store) :=
  match t with
  | Ready (Done _) => None
  | Ready (Now k) =>
      match c with Clock t => if bool_decide (t ≤ u64_max) then Some (Ready (k t), s) else None | _ => None end
  | Ready (Mkdir p k) => called (store_mkdir p) c (λ r, Ready (k r)) s
  | Ready (Chmod p mode k) => called (store_chmod p mode) c (λ r, Ready (k r)) s
  | Ready (Rename a b k) => called (store_rename a b) c (λ r, Ready (k r)) s
  | Ready (ReadFile p k) =>
      called (store_open p) c (λ r, match r with Ok i => Reading i [] k | Err e => Ready (k (Err e)) end) s
  | Ready (WriteFile p b k) =>
      called (store_create p) c (λ r, match r with Ok i => Writing i 0 b k | Err e => Ready (k (Err e)) end) s
  | Reading i got k =>
      match c with
      | Fails e => Some (Ready (k (Err e)), s)
      | Goes n =>
          match drop (length got) (f_data (inode s i)) with
          | [] => Some (Ready (k (Ok got)), s)
          | more => Some (Reading i (got ++ take (S n) more) k, s)
          end
      | Clock _ => None
      end
  | Writing i off rest k =>
      match c with
      | Fails e => Some (Ready (k (Err e)), s)
      | Goes n =>
          match rest with
          | [] => Some (Ready (k (Ok tt)), s)
          | _ => Some (Writing i (off + length (take (S n) rest)) (drop (S n) rest) k, store_write i off (take (S n) rest) s)
          end
      | Clock _ => None
      end
  end.

(** ** Processes *)

Section processes.
Context `{IrohKeys} `{SerdeJson (list PendingAgent)} `{SerdeJson Status}.

(** What a process does to the state directory, one thing after the other: an
    operator approves or looks, [serve] meets an unapproved agent, decides on a
    connection or publishes its status. *)
Inductive job :=
  | JApprove (k : PublicKey)
  | JContact (k : PublicKey)
  | JApproved
  | JPending
  | JPublish (st : Status).
Definition job_calls (me : Z) (dir : StateDir) (j : job) : proc unit :=
  match j with
  | JApprove k => approve_calls me dir k;; mret tt
  | JContact k => record_pending_calls me dir k
  | JApproved => approved_calls dir;; mret tt
  | JPending => pending_calls dir;; mret tt
  | JPublish st => write_status_calls me dir st
  end.
Fixpoint script (me : Z) (dir : StateDir) (js : list job) : proc unit :=
  match js with
  | [] => mret tt
  | j :: js => proc_attempt (job_calls me dir j);; script me dir js
  end.

(** The shared files a process may write. *)
Definition job_writes (dir : StateDir) (j : job) : list path :=
  match j with
  | JApprove _ => [approved_path dir; pending_path dir]
  | JContact _ => [pending_path dir]
  | JPublish _ => [status_path dir]
  | _ => []
  end.
Definition writes (dir : StateDir) (guarded : list path) (js : list job) : bool :=
  bool_decide (Exists (λ j, Exists (λ p, p ∈ guarded) (job_writes dir j)) js).

(** Per thread of a process: the process's number, whether it writes a guarded
    file, and where it is. *)
Definition Machine : Type := store * list (Z * bool * thread unit).

(** A thread takes its next turn; a thread starts, of a process that has no
    other one writing guarded files if it writes them itself; a thread ends,
    wherever it is. *)
Inductive step (dir : StateDir) (guarded : list path) (asked : job → Prop) : Machine → Machine → Prop :=
  | step_turn s ts n x t c t' s' :
      ts !! n = Some (x, t) → act c t s = Some (t', s') → step dir guarded asked (s, ts) (s', <[n := (x, t')]> ts)
  | step_start s ts me js :
      (writes dir guarded js = true → (me, true) ∉ ts.*1) → Forall asked js →
      step dir guarded asked (s, ts) (s, ts ++ [(me, writes dir guarded js, Ready (script me dir js))])
  | step_end s ts n : step dir guarded asked (s, ts) (s, delete n ts).
End processes.

(** ** Discipline *)

(** A contract per guarded file, as in rely-guarantee reasoning: a thread may
    rely on what it reads there to satisfy the contract and must write only what
    satisfies it, through a side file of its own, renamed into place when it is
    complete.  Whatever it does to other files is its business. *)
Section contract.
Context (targets : list path) (G : path → bytes → Prop).

Definition foreign (q : path) : Prop := (q ∉ targets) ∧ ∀ p me, p ∈ targets → q ≠ unique_tmp p me.

(** [o] is the process the side files belong to, if the thread has any. *)
Fixpoint disciplined {A} (o : option Z) (Q : result A → Prop) (m : proc A) : Prop :=
  match m with
  | Done r => Q r
  | Now k => ∀ t, t ≤ u64_max → disciplined o Q (k t)
  | Mkdir _ k | Chmod _ _ k => ∀ r, disciplined o Q (k r)
  | ReadFile p k =>
      (p ∈ targets ∧ (∀ b, G p b → disciplined o Q (k (Ok b))) ∧ (∀ e, disciplined o Q (k (Err e)))) ∨
      (foreign p ∧ ∀ r, disciplined o Q (k r))
  | WriteFile q b k =>
      (∃ p me, o = Some me ∧ p ∈ targets ∧ q = unique_tmp p me ∧ G p b ∧ (∀ e, disciplined o Q (k (Err e))) ∧
        match k (Ok tt) with
        | Rename a c k => a = q ∧ c = p ∧ (∀ r, disciplined o Q (k r))
        | _ => False
        end) ∨
      (foreign q ∧ ∀ r, disciplined o Q (k r))
  | Rename a b k => foreign a ∧ foreign b ∧ ∀ r, disciplined o Q (k r)
  end.
(** What comes after a complete side file for [p]. *)
Definition renames {A} (o : option Z) (Q : result A → Prop) (me : Z) (p : path) (m : proc A) : Prop :=
  match m with
  | Rename a c k => a = unique_tmp p me ∧ c = p ∧ ∀ r, disciplined o Q (k r)
  | _ => False
  end.

Lemma disciplined_then {A B} o (R : result A → Prop) (Q : result B → Prop) (f : result A → proc B) m :
  (∀ r, R r → disciplined o Q (f r)) → disciplined o R m → disciplined o Q (proc_then f m).
Proof.
  intros Hf.
  enough (Hboth : (disciplined o R m → disciplined o Q (proc_then f m)) ∧
    ∀ me p, renames o R me p m → renames o Q me p (proc_then f m)) by apply Hboth.
  induction m as [r|k IH|p k IH|p mode k IH|p k IH|q b k IH|a b k IH]; simpl; (split; try done).
  - apply Hf.
  - intros Hk t Ht. by apply IH, Hk.
  - intros Hk r. apply IH, Hk.
  - intros Hk r. apply IH, Hk.
  - intros [(Hp & Hok & Herr)|[Hp Hk]]; [left|right; split; [done|]; intros r; by apply IH, Hk].
    split_and!; [done|intros b Hb; by apply IH, Hok|intros e; apply IH, Herr].
  - intros [(p & me & -> & Hp & -> & Hb & Herr & Hren)|[Hp Hk]]; [left|right; split; [done|]; intros r; by apply IH, Hk].
    exists p, me. split_and!; [done..|intros e; apply IH, Herr|]. exact (proj2 (IH (Ok tt)) me p Hren).
  - intros (Ha & Hb & Hk). split_and!; [done..|]. intros r. apply IH, Hk.
  - intros me p (-> & -> & Hk). split_and!; [done..|]. intros r. apply IH, Hk.
Qed.
Lemma disciplined_bind {A B} o (R : result A → Prop) (Q : result B → Prop) (m : proc A) (f : A → proc B) :
  disciplined o R m → (∀ a, R (Ok a) → disciplined o Q (f a)) → (∀ e, R (Err e) → Q (Err e)) →
  disciplined o Q (m ≫= f).
Proof. intros Hm Hf He. eapply disciplined_then; [|exact Hm]. intros [a|e]; [apply Hf|apply He]. Qed.

(** ** The invariant *)

(** Every inode is guarded or not, for good. *)
Context (class : nat → Prop).

Definition data (s : store) (i : nat) : bytes := f_data (inode s i).
(** A guarded inode that no longer is a side file. *)
Definition settled (s : store) (i : nat) : Prop :=
  (i < next_inode s)%nat ∧ class i ∧ ∀ q, names s !! q = Some (EFile i) → q ∈ targets.
Definition alien (s : store) (i : nat) : Prop := (i < next_inode s)%nat ∧ ¬ class i.

Definition thread_ok (o : option Z) (s : store) (t : thread unit) : Prop :=
  let disciplined := disciplined o (λ _, True) in
  match t with
  | Ready m => disciplined m ∨
      ∃ me p i, o = Some me ∧ p ∈ targets ∧ renames o (λ _, True) me p m ∧
        names s !! unique_tmp p me = Some (EFile i) ∧ G p (data s i)
  | Reading i got k =>
      (∃ p, p ∈ targets ∧ settled s i ∧ G p (data s i) ∧ got `prefix_of` data s i ∧
        (∀ b, G p b → disciplined (k (Ok b))) ∧ (∀ e, disciplined (k (Err e)))) ∨
      (∀ r, disciplined (k r))
  | Writing i off rest k =>
      (∃ me p body, o = Some me ∧ p ∈ targets ∧ names s !! unique_tmp p me = Some (EFile i) ∧ body = data s i ++ rest ∧
        off = length (data s i) ∧ G p body ∧ (∀ e, disciplined (k (Err e))) ∧ renames o (λ _, True) me p (k (Ok tt))) ∨
      (alien s i ∧ ∀ r, disciplined (k r))
  end.

Record store_ok (s : store) : Prop := mkStoreOk {
  one_name p q i : names s !! p = Some (EFile i) → names s !! q = Some (EFile i) → p = q;
  allocated p i : names s !! p = Some (EFile i) → (i < next_inode s)%nat;
  guarded_target p i : p ∈ targets → names s !! p = Some (EFile i) → class i;
  guarded_side p me i : p ∈ targets → names s !! unique_tmp p me = Some (EFile i) → class i;
  unguarded q i : foreign q → names s !! q = Some (EFile i) → ¬ class i;
  kept_contract p i : p ∈ targets → names s !! p = Some (EFile i) → G p (data s i)
}.
End contract.

Section turns.
Context (targets : list path) (G : path → bytes → Prop).
Abbreviation settled := (settled targets).
Abbreviation store_ok := (store_ok targets G).
Abbreviation thread_ok := (thread_ok targets G).
Abbreviation disciplined := (disciplined targets G).
Abbreviation foreign := (foreign targets).

(** What a step of another thread may not touch: one's side files, settled
    inodes, and the class of an inode. *)
Record undisturbed (o : option Z) (class class' : nat → Prop) (s s' : store) : Prop := mkUndisturbed {
  und_side p me i : o = Some me → p ∈ targets → names s !! unique_tmp p me = Some (EFile i) →
    names s' !! unique_tmp p me = Some (EFile i) ∧ data s' i = data s i;
  und_settled i : settled class s i → settled class' s' i ∧ data s' i = data s i;
  und_alien i : alien class s i → alien class' s' i
}.
Lemma thread_ok_undisturbed o class class' s s' t :
  undisturbed o class class' s s' → thread_ok class o s t → thread_ok class' o s' t.
Proof.
  intros [Hside Hset Hal]. destruct t as [m|i got k|i off rest k]; simpl.
  - intros [?|(me & p & i & -> & Hp & Hr & Hn & Hg)]; [by left|right]. destruct (Hside p me i eq_refl Hp Hn) as [Hn' Hd].
    exists me, p, i. by rewrite Hd.
  - intros [(p & Hp & Hi & Hg & Hpre & Hok & Herr)|?]; [left|by right]. destruct (Hset i Hi) as [Hi' Hd]. exists p. by rewrite Hd.
  - intros [(me & p & body & -> & Hp & Hn & Hb & Ho & Hg & Herr & Hok)|[? ?]]; [left|right; split; [by apply Hal|done]].
    destruct (Hside p me i eq_refl Hp Hn) as [Hn' Hd]. exists me, p, body. by rewrite Hd.
Qed.

(** *** Steps that change no file's name and no file's bytes *)
Record gentle (s s' : store) : Prop := mkGentle {
  gentle_names p i : names s' !! p = Some (EFile i) ↔ names s !! p = Some (EFile i);
  gentle_data i : data s' i = data s i;
  gentle_next : next_inode s' = next_inode s
}.
Lemma gentle_refl s : gentle s s.
Proof. by split. Qed.
Lemma gentle_ok class s s' : gentle s s' → store_ok class s → store_ok class s'.
Proof.
  intros [Hn Hd Hx] [H1 H2 H3 H4 H5 H6]. split; setoid_rewrite Hn; try done; [by rewrite Hx|].
  intros p i. rewrite Hd. apply H6.
Qed.
Lemma gentle_undisturbed o class s s' : gentle s s' → undisturbed o class class s s'.
Proof.
  intros [Hn Hd Hx]. split; [intros p me i _ _; rewrite Hn; auto| |intros i [? ?]; split; [by rewrite Hx|done]].
  intros i (Hi & Hc & Hq). split; [|done]. split_and!; [by rewrite Hx|done|]. intros q. rewrite Hn. apply Hq.
Qed.
Lemma mkdir_gentle p s : gentle s (store_mkdir p s).2.
Proof.
  unfold store_mkdir. destruct (store_dir s p); [apply gentle_refl|]. destruct (names s !! p) eqn:E; [apply gentle_refl|].
  split; try done. intros q i. simpl. destruct (decide (p = q)) as [<-|?]; [|by rewrite lookup_insert_ne].
  rewrite lookup_insert_eq, E. split; by intros [=].
Qed.
Lemma data_set_inode s i f j : data (set_inode i f s) j = if decide (j = i) then f_data f else data s j.
Proof.
  unfold data, inode, set_inode. simpl. case_decide as Hij; [subst|]; [by rewrite lookup_insert_eq|by rewrite lookup_insert_ne].
Qed.
Lemma chmod_gentle p mode s : gentle s (store_chmod p mode s).2.
Proof.
  unfold store_chmod. destruct (names s !! p) as [[i|m|]|] eqn:E; [| |apply gentle_refl|destruct (store_dir s p); apply gentle_refl].
  - split; try done. intros j. simpl. rewrite data_set_inode. by case_decide; subst.
  - split; try done. intros q i. simpl. destruct (decide (p = q)) as [<-|?]; [|by rewrite lookup_insert_ne].
    rewrite lookup_insert_eq, E. split; by intros [=].
Qed.

(** *** Creating or truncating a file *)
Definition mark (i : nat) (b : Prop) (class : nat → Prop) (j : nat) : Prop := if decide (j = i) then b else class j.
(** Inode [i] is, or becomes, the file at [q], and nothing else changes. *)
Record file_change (q : path) (i : nat) (s s' : store) : Prop := mkFileChange {
  fc_now : names s' !! q = Some (EFile i);
  fc_before : names s !! q = Some (EFile i) ∨ i = next_inode s;
  fc_names q' : q' ≠ q → names s' !! q' = names s !! q';
  fc_data j : j ≠ i → data s' j = data s j;
  fc_next : (next_inode s ≤ next_inode s' ∧ i < next_inode s')%nat
}.
Lemma create_change q s i s' class :
  store_create q s = (Ok i, s') → store_ok class s → file_change q i s s' ∧ data s' i = [].
Proof.
  unfold store_create. intros E Hs. destruct (names s !! q) as [[j|m|]|] eqn:En; [|done..|].
  - injection E as -> <-. split; [|rewrite data_set_inode; by case_decide].
    split; simpl; [done|by left|done| |pose proof (allocated _ _ _ _ Hs _ _ En); lia].
    intros j Hj. rewrite data_set_inode. by case_decide.
  - destruct (store_parent_ok s q); [|done]. injection E as <- <-. split; [|by unfold data, inode; simpl; rewrite lookup_insert_eq].
    split; simpl; [by rewrite lookup_insert_eq|by right|intros q' Hq; by rewrite lookup_insert_ne| |lia].
    intros j Hj. unfold data, inode. simpl. by rewrite lookup_insert_ne.
Qed.
Lemma create_err q s e s' : store_create q s = (Err e, s') → s' = s.
Proof. unfold store_create. intros E. repeat case_match; by simplify_eq. Qed.

Section file_change_lemmas.
Context (class : nat → Prop) (s s' : store) (q : path) (i : nat) (Hs : store_ok class s) (Hc : file_change q i s s').
Lemma change_other q' j : names s !! q' = Some (EFile j) → q' ≠ q → j ≠ i.
Proof.
  intros Hn Hq ->. destruct (fc_before _ _ _ _ Hc) as [Hb| ->]; [by destruct Hq; eapply one_name|].
  apply (allocated _ _ _ _ Hs) in Hn. lia.
Qed.
Lemma change_cases q' j : names s' !! q' = Some (EFile j) →
  (q' = q ∧ j = i) ∨ (q' ≠ q ∧ j ≠ i ∧ names s !! q' = Some (EFile j)).
Proof.
  intros Hq. destruct (decide (q' = q)) as [->|Hne]; [left; rewrite (fc_now _ _ _ _ Hc) in Hq; by simplify_eq|].
  rewrite (fc_names _ _ _ _ Hc) in Hq by done. right. split_and!; [done| |done]. by eapply change_other.
Qed.
(** The class the file gets must be that of its name. *)
Lemma change_ok b :
  (q ∉ targets) → (∀ p me, p ∈ targets → q = unique_tmp p me → b) → (foreign q → ¬ b) →
  store_ok (mark i b class) s'.
Proof.
  intros Hq Hb Hf. unfold mark. split.
  - intros q1 q2 j H1 H2. destruct (change_cases _ _ H1) as [[-> ->]|(? & ? & H1')], (change_cases _ _ H2) as [[-> ?]|(? & ? & H2')];
      try done. by eapply one_name.
  - intros q' j Hj. destruct (fc_next _ _ _ _ Hc). destruct (change_cases _ _ Hj) as [[-> ->]|(_ & _ & Hj')]; [done|].
    apply (allocated _ _ _ _ Hs) in Hj'. lia.
  - intros p j Hp Hj. destruct (change_cases _ _ Hj) as [[-> ->]|(? & ? & Hj')]; [done|]. rewrite decide_False by done.
    by eapply guarded_target.
  - intros p me j Hp Hj. destruct (change_cases _ _ Hj) as [[E ->]|(? & ? & Hj')]; case_decide; try done.
    + by eapply Hb.
    + by eapply guarded_side.
  - intros q' j Hq' Hj. destruct (change_cases _ _ Hj) as [[-> ->]|(? & ? & Hj')]; case_decide; try done; [by apply Hf|].
    by eapply unguarded.
  - intros p j Hp Hj. destruct (change_cases _ _ Hj) as [[-> ->]|(? & ? & Hj')]; [done|].
    rewrite (fc_data _ _ _ _ Hc) by done. by eapply kept_contract.
Qed.
Lemma change_undisturbed o b :
  (q ∉ targets) → (∀ p me, p ∈ targets → o = Some me → unique_tmp p me ≠ q) →
  (names s !! q = Some (EFile i) → (class i ↔ b)) →
  undisturbed o class (mark i b class) s s'.
Proof.
  intros Hq Ho Hb. pose proof (fc_next _ _ _ _ Hc) as [Hx Hi]. unfold mark. split.
  - intros p me j -> Hp Hj. rewrite (fc_names _ _ _ _ Hc) by (by eapply Ho). split; [done|]. apply (fc_data _ _ _ _ Hc).
    eapply change_other; [done|]. by eapply Ho.
  - intros j (Hj & Hcl & Hl). assert (Hji : j ≠ i).
    { intros ->. destruct (fc_before _ _ _ _ Hc) as [E| ->]; [by apply Hl in E|lia]. }
    split; [|by apply (fc_data _ _ _ _ Hc)]. split_and!; [lia|by rewrite decide_False|]. intros q' E.
    destruct (change_cases _ _ E) as [[_ ?]|(_ & _ & E')]; [done|by apply Hl].
  - intros j [Hj Hcl]. split; [lia|]. case_decide as E; [|done]. subst j.
    destruct (fc_before _ _ _ _ Hc) as [E| ->]; [by rewrite <- Hb|lia].
Qed.
End file_change_lemmas.

(** *** Writing *)
Lemma data_write s i off b j :
  data (store_write i off b s) j = if decide (j = i) then pwrite off b (data s i) else data s j.
Proof. apply data_set_inode. Qed.
Lemma pwrite_end d b : pwrite (length d) b d = d ++ b.
Proof. unfold pwrite. by rewrite Nat.sub_diag, app_nil_r, firstn_all, drop_ge, app_nil_r by lia. Qed.
Lemma write_change class s q i off b :
  store_ok class s → names s !! q = Some (EFile i) → file_change q i s (store_write i off b s).
Proof.
  intros Hs Hn. split; simpl; [done|by left|done| |pose proof (allocated _ _ _ _ Hs _ _ Hn); lia].
  intros j Hj. rewrite data_write. by case_decide.
Qed.
Lemma alien_write_ok class s i off b : store_ok class s → alien class s i → store_ok class (store_write i off b s).
Proof.
  intros Hs [Hi Hcl]. split; simpl; try apply Hs. intros p j Hp Hj. rewrite data_write. case_decide as E; [|by eapply kept_contract].
  subst. pose proof (guarded_target _ _ _ _ Hs _ _ Hp Hj). congruence.
Qed.
Lemma alien_write_undisturbed o class s i off b :
  store_ok class s → alien class s i → undisturbed o class class s (store_write i off b s).
Proof.
  intros Hs [Hi Hcl]. split; [| |done].
  - intros p me j _ Hp Hj. split; [done|]. rewrite data_write. case_decide; [|done]. subst.
    pose proof (guarded_side _ _ _ _ Hs _ _ _ Hp Hj). congruence.
  - intros j (Hj & Hcj & Hl). split; [done|]. rewrite data_write. case_decide; [|done]. congruence.
Qed.

(** *** Renaming *)
Definition renamed (a b : path) (e : entry) (s : store) : store := set_names (λ m, <[b := e]> (delete a m)) s.
Lemma rename_cases a b s r s' : store_rename a b s = (r, s') → s' = s ∨ ∃ e, names s !! a = Some e ∧ s' = renamed a b e s.
Proof. unfold store_rename. intros E. repeat case_match; simplify_eq; eauto. Qed.
Lemma renamed_cases class a b e s q j :
  store_ok class s → names s !! a = Some e → a ≠ b → names (renamed a b e s) !! q = Some (EFile j) →
  (q = b ∧ e = EFile j) ∨ (q ≠ b ∧ q ≠ a ∧ e ≠ EFile j ∧ names s !! q = Some (EFile j)).
Proof.
  intros Hs Ha Hab. simpl. destruct (decide (q = b)) as [->|Hqb]; [rewrite lookup_insert_eq; intros [= ->]; by left|].
  rewrite lookup_insert_ne by done. intros [Hqa Hq]%lookup_delete_Some. right. split_and!; try done.
  intros ->. by destruct Hqa; eapply one_name.
Qed.
Lemma renamed_ok class a b e s :
  store_ok class s → names s !! a = Some e → a ≠ b → (foreign b → foreign a) →
  (b ∈ targets → ∀ i, e = EFile i → class i ∧ G b (data s i)) →
  (∀ p me, p ∈ targets → b ≠ unique_tmp p me) → store_ok class (renamed a b e s).
Proof.
  intros Hs Ha Hab Hf Ht Hside. pose proof (renamed_cases class a b e s) as Hcase. split.
  - intros q1 q2 j H1 H2. destruct (Hcase q1 j Hs Ha Hab H1) as [[-> ->]|(? & ? & ? & H1')], (Hcase q2 j Hs Ha Hab H2) as [[-> ?]|(? & ? & ? & H2')];
      try done. by eapply one_name.
  - intros q j Hq. destruct (Hcase q j Hs Ha Hab Hq) as [[-> ->]|(_ & _ & _ & Hq')]; [exact (allocated _ _ _ _ Hs _ _ Ha)|exact (allocated _ _ _ _ Hs _ _ Hq')].
  - intros q j Hp Hq. destruct (Hcase q j Hs Ha Hab Hq) as [[-> ->]|(_ & _ & _ & Hq')]; [by destruct (Ht Hp j eq_refl)|by eapply guarded_target].
  - intros p me j Hp Hq. destruct (Hcase _ j Hs Ha Hab Hq) as [[E ->]|(_ & _ & _ & Hq')]; [by destruct (Hside p me Hp)|by eapply guarded_side].
  - intros q j Hq Hj. destruct (Hcase q j Hs Ha Hab Hj) as [[-> ->]|(_ & _ & _ & Hq')]; [exact (unguarded _ _ _ _ Hs a j (Hf Hq) Ha)|by eapply unguarded].
  - intros q j Hp Hq. destruct (Hcase q j Hs Ha Hab Hq) as [[-> ->]|(_ & _ & _ & Hq')]; [by destruct (Ht Hp j eq_refl)|exact (kept_contract _ _ _ _ Hs _ _ Hp Hq')].
Qed.
Lemma renamed_undisturbed o class a b e s :
  store_ok class s → names s !! a = Some e → a ≠ b →
  (∀ p me, p ∈ targets → o = Some me → unique_tmp p me ≠ a ∧ unique_tmp p me ≠ b) →
  (∀ i, e = EFile i → ¬ settled class s i) → undisturbed o class class s (renamed a b e s).
Proof.
  intros Hs Ha Hab Ho Hse. split; [| |done].
  - intros p me j -> Hp Hj. destruct (Ho p me Hp eq_refl). split; [|done]. simpl. by rewrite lookup_insert_ne, lookup_delete_ne.
  - intros j Hj. split; [|done]. pose proof Hj as (Hn & Hc & Hl). split_and!; [done..|]. intros q Hq.
    destruct (renamed_cases class a b e s q j Hs Ha Hab Hq) as [[-> ->]|(_ & _ & _ & Hq')]; [by destruct (Hse j)|by apply Hl].
Qed.

(** *** One turn *)
Hypothesis side_inj : ∀ p q me me', p ∈ targets → q ∈ targets → unique_tmp p me = unique_tmp q me' → p = q ∧ me = me'.
Hypothesis side_apart : ∀ p me, p ∈ targets → unique_tmp p me ∉ targets.

Definition turn_ok (o : option Z) (class : nat → Prop) (s s' : store) (t' : thread unit) : Prop :=
  ∃ class', store_ok class' s' ∧ thread_ok class' o s' t' ∧
    ∀ o', (∀ me, o' = Some me → o ≠ Some me) → undisturbed o' class class' s s'.
Lemma turn_gentle o class s s' t' : gentle s s' → store_ok class s → thread_ok class o s' t' → turn_ok o class s s' t'.
Proof.
  intros Hg Hs Ht. exists class. split_and!; [by eapply gentle_ok|done|]. intros o' _. by apply gentle_undisturbed.
Qed.
Lemma turn_same o class s m : store_ok class s → disciplined o (λ _, True) m → turn_ok o class s s (Ready m).
Proof. intros Hs Hm. apply turn_gentle; [apply gentle_refl|done|by left]. Qed.

(** On a side file of one's own, and on a file that is not guarded. *)
Lemma turn_own me class p i s s' t' :
  p ∈ targets → store_ok class s → file_change (unique_tmp p me) i s s' →
  (∀ class', thread_ok class' (Some me) s' t') → turn_ok (Some me) class s s' t'.
Proof.
  intros Hp Hs Hc Ht. exists (mark i True class). split_and!; [|done|].
  - eapply change_ok; [done|done|by apply side_apart|done|]. intros [_ Hf]. by destruct (Hf p me Hp).
  - intros o' Ho'. eapply change_undisturbed; [done|done|by apply side_apart| |intros E; split; [done|intros _; by eapply guarded_side]].
    intros q me' Hq -> [_ <-]%side_inj; try done. by eapply Ho'.
Qed.
Lemma turn_foreign o class q i s s' t' :
  foreign q → store_ok class s → file_change q i s s' →
  (∀ class', alien class' s' i → thread_ok class' o s' t') → turn_ok o class s s' t'.
Proof.
  intros [Hq Hside] Hs Hc Ht. exists (mark i False class). split_and!.
  - eapply change_ok; [done|done|done| |by intros _ []]. intros p me Hp ->. by destruct (Hside p me Hp).
  - apply Ht. split; [apply Hc|]. unfold mark. rewrite decide_True by done. by intros [].
  - intros o' _. eapply change_undisturbed; [done..| |intros E; split; [by eapply unguarded|done]]. intros p me Hp _ <-. by destruct (Hside p me Hp).
Qed.

Lemma ready_turn o class m s c t' s' :
  store_ok class s → disciplined o (λ _, True) m → act c (Ready m) s = Some (t', s') → turn_ok o class s s' t'.
Proof.
  intros Hs Hm. destruct m as [r|k|p k|p mode k|p k|q b k|a b k]; simpl in *; unfold called; [done|..].
  - destruct c as [|n|t]; try done. case_bool_decide as Ht; [|done]. intros [= <- <-]. by apply turn_same, Hm.
  - pose proof (mkdir_gentle p s) as Hg. destruct c as [e|n|]; [|destruct (store_mkdir p s) as [r s1]|done]; intros [= <- <-];
      [by apply turn_same|]. apply turn_gentle; [done..|by left].
  - pose proof (chmod_gentle p mode s) as Hg. destruct c as [e|n|]; [|destruct (store_chmod p mode s) as [r s1]|done]; intros [= <- <-];
      [by apply turn_same|]. apply turn_gentle; [done..|by left].
  - destruct c as [e|n|]; [| |done].
    { intros [= <- <-]. apply turn_same; [done|]. destruct Hm as [(_ & _ & ?)|[_ ?]]; done. }
    unfold store_open. destruct (names s !! p) as [[i|m|]|] eqn:E; intros [= <- <-];
      try (apply turn_same; [done|destruct Hm as [(_ & _ & ?)|[_ ?]]; done]).
    apply turn_gentle; [apply gentle_refl|done|]. destruct Hm as [(Hp & Hok & Herr)|[_ Hk]]; [left|by right].
    exists p. split_and!; try done; [|by eapply kept_contract|apply prefix_nil].
    split_and!; [by eapply allocated|by eapply guarded_target|]. intros q Hq. by rewrite (one_name _ _ _ _ Hs q p i).
  - assert (Herr : ∀ e, disciplined o (λ _, True) (k (Err e))) by (destruct Hm as [(? & ? & _ & _ & _ & _ & ? & _)|[_ ?]]; done).
    destruct c as [e|n|]; [intros [= <- <-]; by apply turn_same| |done].
    destruct (store_create q s) as [[i|e] s1] eqn:E; intros [= <- <-]; [|apply create_err in E as ->; by apply turn_same].
    apply (create_change _ _ _ _ class) in E as [Hc Hd]; [|done]. destruct Hm as [(p & me & -> & Hp & -> & Hb & _ & Hren)|[Hq Hk]].
    + eapply turn_own; [done..|]. intros class'. left. exists me, p, b. rewrite Hd. split_and!; try done. apply Hc.
    + eapply turn_foreign; [done..|]. intros class' Ha. by right.
  - destruct Hm as (Ha & Hb & Hk). destruct c as [e|n|]; [intros [= <- <-]; by apply turn_same| |done].
    destruct (store_rename a b s) as [r s1] eqn:E. intros [= <- <-].
    apply rename_cases in E as [-> |(e & Hn & ->)]; [by apply turn_same|]. destruct (decide (a = b)) as [<-|Hab].
    { apply turn_gentle; [|done|by left]. split; try done. intros q i. simpl. destruct (decide (q = a)) as [->|?];
        [by rewrite lookup_insert_eq, Hn|by rewrite lookup_insert_ne, lookup_delete_ne]. }
    exists class. split_and!; [|by left|intros o' _].
    + destruct Hb as [Hb1 Hb2]. by apply renamed_ok.
    + destruct Ha as [Ha1 Ha], Hb as [_ Hb]. apply renamed_undisturbed; try done.
      * intros p me Hp _. split; [intros <-; by destruct (Ha p me Hp)|intros <-; by destruct (Hb p me Hp)].
      * intros i -> (_ & Hc & Hl). by apply Hl in Hn.
Qed.

Lemma act_ok o class t s c t' s' :
  store_ok class s → thread_ok class o s t → act c t s = Some (t', s') → turn_ok o class s s' t'.
Proof.
  intros Hs Ht. destruct t as [m|i got k|i off rest k].
  - destruct Ht as [Hm|(me & p & i & -> & Hp & Hr & Hn & Hg)]; [by apply ready_turn|].
    destruct m as [| | | | | |a b k]; try done. destruct Hr as (-> & -> & Hk). simpl. unfold called.
    destruct c as [e|n|]; [intros [= <- <-]; by apply turn_same| |done].
    destruct (store_rename (unique_tmp p me) p s) as [r s1] eqn:E. intros [= <- <-].
    apply rename_cases in E as [-> |(e & He & ->)]; [by apply turn_same|]. rewrite Hn in He. injection He as <-.
    assert (Hne : unique_tmp p me ≠ p) by (intros E; apply (side_apart p me Hp); by rewrite E).
    exists class. split_and!; [|by left|intros o' Ho'].
    + apply renamed_ok; [done..| |by intros _ j [= <-]; split; [eapply guarded_side|]|].
      * intros [? _]. done.
      * intros q me' Hq ->. by apply (side_apart q me' Hq).
    + apply renamed_undisturbed; [done..| |].
      * intros q me' Hq ->. split; [intros [_ <-]%side_inj; try done; by eapply Ho'|]. intros E. apply (side_apart q me' Hq). by rewrite E.
      * intros j [= <-] (_ & _ & Hl). by destruct (side_apart p me Hp); apply Hl.
  - destruct c as [e|n|]; simpl; [| |done].
    { intros [= <- <-]. apply turn_same; [done|]. by destruct Ht as [(? & _ & _ & _ & _ & _ & ?)|?]. }
    destruct Ht as [(p & Hp & Hi & Hg & [more Hpre] & Hok & Herr)|Hk].
    + fold (data s i). rewrite Hpre, drop_app_length. destruct more as [|x more]; intros [= <- <-].
      * apply turn_same; [done|]. apply Hok. by rewrite app_nil_r in Hpre; rewrite <- Hpre.
      * apply turn_gentle; [apply gentle_refl|done|]. left. exists p. split_and!; try done. rewrite Hpre.
        apply prefix_app. exists (drop n more). simpl. f_equal. by rewrite take_drop.
    + destruct (drop _ _); intros [= <- <-]; [by apply turn_same|]. apply turn_gentle; [apply gentle_refl|done|by right].
  - destruct c as [e|n|]; simpl; [| |done].
    { intros [= <- <-]. apply turn_same; [done|]. by destruct Ht as [(? & ? & ? & _ & _ & _ & _ & _ & _ & ? & _)|[_ ?]]. }
    destruct Ht as [(me & p & body & -> & Hp & Hn & -> & -> & Hg & Herr & Hren)|[Ha Hk]]; destruct rest as [|x rest]; intros [= <- <-].
    + rewrite app_nil_r in Hg. apply turn_gentle; [apply gentle_refl|done|]. right. by exists me, p, i.
    + eapply turn_own; [done|done|by eapply write_change|]. intros class'. left. exists me, p, (data s i ++ x :: rest).
      rewrite data_write, decide_True, pwrite_end by done. split_and!; try done; [by rewrite <- app_assoc; simpl; rewrite take_drop|].
      by rewrite length_app.
    + by apply turn_same.
    + exists class. split_and!; [by apply alien_write_ok|right; by split|intros o' _; by apply alien_write_undisturbed].
Qed.
End turns.

(** *** The machine *)
Section machine.
Context `{IrohKeys} `{SerdeJson (list PendingAgent)} `{SerdeJson Status}.
Context (targets : list path) (G : path → bytes → Prop) (dir : StateDir) (asked : job → Prop).
Hypothesis side_inj : ∀ p q me me', p ∈ targets → q ∈ targets → unique_tmp p me = unique_tmp q me' → p = q ∧ me = me'.
Hypothesis side_apart : ∀ p me, p ∈ targets → unique_tmp p me ∉ targets.

Definition owner (x : Z * bool) : option Z := if x.2 then Some x.1 else None.
Hypothesis scripts : ∀ me js, Forall asked js →
  disciplined targets G (owner (me, writes dir targets js)) (λ _, True) (script me dir js).

Record machine_ok (class : nat → Prop) (m : Machine) : Prop := mkMachineOk {
  mo_store : store_ok targets G class m.1;
  mo_owners i j me t t' : m.2 !! i = Some (me, true, t) → m.2 !! j = Some (me, true, t') → i = j;
  mo_threads i x t : m.2 !! i = Some (x, t) → thread_ok targets G class (owner x) m.1 t
}.
Lemma turn_machine_ok class s ts n x t c t' s' :
  machine_ok class (s, ts) → ts !! n = Some (x, t) → act c t s = Some (t', s') →
  ∃ class', machine_ok class' (s', <[n := (x, t')]> ts).
Proof.
  intros [Hs Hn Ht] Hi Hact. simpl in *.
  destruct (act_ok targets G side_inj side_apart (owner x) class t s c t' s' Hs (Ht n x t Hi) Hact) as (class' & Hs' & Hok & Hu).
  exists class'. assert (Hcase : ∀ j y u, <[n := (x, t')]> ts !! j = Some (y, u) →
    (j = n ∧ y = x ∧ u = t') ∨ (j ≠ n ∧ ts !! j = Some (y, u))).
  { intros j y u Hj. apply list_lookup_insert_Some in Hj as [(-> & ? & _)|[? ?]]; [left|right]; by simplify_eq. }
  split; simpl; [done| |].
  - intros i j me u u' Hx Hy. destruct (Hcase _ _ _ Hx) as [(-> & E1 & ->)|[? Hx']], (Hcase _ _ _ Hy) as [(-> & E2 & ->)|[? Hy']].
    + done.
    + eapply (Hn n j me); [rewrite Hi; by rewrite <- E1|done].
    + eapply (Hn i n me); [done|rewrite Hi; by rewrite <- E2].
    + by eapply Hn.
  - intros j y u Hj. destruct (Hcase _ _ _ Hj) as [(-> & -> & ->)|[Hjn Hj']]; [done|].
    eapply thread_ok_undisturbed; [apply Hu|by eapply Ht]. intros me Hme Ho. apply Hjn.
    unfold owner in *. destruct y as [a []], x as [b []]; simplify_eq/=. by eapply Hn.
Qed.
Lemma step_ok class m m' :
  machine_ok class m → step dir targets asked m m' → ∃ class', machine_ok class' m'.
Proof.
  intros Hm Hstep. destruct Hstep as [s ts n x t c t' s' Hi Hact|s ts me js Hme Hjs|s ts n].
  - by eapply turn_machine_ok.
  - destruct Hm as [Hs Hn Ht]. exists class. split; simpl in *; [done| |].
    + intros i j a t t' Hi Hj. apply lookup_snoc_Some in Hi as [[_ Hi]|[-> Ei]]; apply lookup_snoc_Some in Hj as [[_ Hj]|[-> Ej]]; [by eapply Hn| | |done].
      * injection Ej as -> Hw _. destruct (Hme Hw). apply list_elem_of_fmap. exists (a, true, t). split; [done|]. by eapply list_elem_of_lookup_2.
      * injection Ei as -> Hw _. destruct (Hme Hw). apply list_elem_of_fmap. exists (a, true, t'). split; [done|]. by eapply list_elem_of_lookup_2.
    + intros i x t Hi. apply lookup_snoc_Some in Hi as [[_ Hi]|[_ E]]; [by eapply Ht|]. injection E as <- <-. left. by apply scripts.
  - destruct Hm as [Hs Hn Ht]. exists class. split; simpl in *; [done| |].
    + intros i j a t t'. rewrite !list_lookup_delete. intros Hi Hj. pose proof (Hn _ _ _ _ _ Hi Hj). repeat case_decide; lia.
    + intros i x t. rewrite list_lookup_delete. apply Ht.
Qed.
Lemma reachable_ok class s s' ts :
  store_ok targets G class s → rtc (step dir targets asked) (s, []) (s', ts) → ∃ class', store_ok targets G class' s'.
Proof.
  intros Hs Hr. remember (s, []) as m eqn:E. remember (s', ts) as m' eqn:E'.
  assert (Hm : machine_ok class m) by (subst; split; [done|by intros i j|by intros i]). clear E Hs. revert class Hm.
  induction Hr as [|m1 m2 m3 Hst _ IH]; intros class Hm; subst; [by destruct Hm; eexists|].
  destruct (step_ok _ _ _ Hm Hst) as [class' Hm']. by eapply IH.
Qed.
End machine.

(** ** What the state directory promises *)

Definition shared_files (dir : StateDir) : list path := [approved_path dir; pending_path dir; status_path dir].

Lemma side_pid name n m : side name n = side name m → n = m.
Proof. unfold side. intros E. by apply (inj (String.append name)), (inj (String.append ".tmp.")), (inj pretty) in E. Qed.
Lemma shared_side dir p n : p ∈ shared_files dir →
  ∃ x, x ∈ ["approved"; "pending.json"; "status.json"] ∧ p = root dir ++ [x] ∧ unique_tmp p n = root dir ++ [side x n].
Proof.
  unfold shared_files. rewrite approved_path_eq, pending_path_eq, status_path_eq, !elem_of_cons, elem_of_nil.
  intros [->|[->|[->|[]]]]; eexists; (split_and!; [|reflexivity|apply unique_tmp_snoc; unfold plain_name; set_solver]); set_solver.
Qed.
Lemma shared_side_inj dir p q me me' :
  p ∈ shared_files dir → q ∈ shared_files dir → unique_tmp p me = unique_tmp q me' → p = q ∧ me = me'.
Proof.
  intros (x & Hx & -> & ->)%(shared_side _ _ me) (y & Hy & -> & ->)%(shared_side _ _ me').
  intros [= E]%(inj (app (root dir))). assert (x = y) as ->; [|by apply side_pid in E as ->].
  rewrite !elem_of_cons, elem_of_nil in Hx, Hy.
  destruct Hx as [->|[->|[->|[]]]], Hy as [->|[->|[->|[]]]]; done.
Qed.
Lemma shared_side_apart dir p me : p ∈ shared_files dir → unique_tmp p me ∉ shared_files dir.
Proof.
  intros (x & Hx & -> & ->)%(shared_side _ _ me) (y & Hy & E & _)%(shared_side _ _ me).
  apply (inj (app (root dir))) in E. injection E as E. rewrite !elem_of_cons, elem_of_nil in Hx, Hy.
  destruct Hx as [->|[->|[->|[]]]], Hy as [->|[->|[->|[]]]]; try done; by apply side_ne in E.
Qed.

Section promises.
Context `{IrohKeysLaws} `{SerdeJson (list PendingAgent)} `{SerdeJson Status}.
Context `{!SerdeJsonLaws (list PendingAgent) pending_wf}.
Context (status_wf : Status → Prop) `{!SerdeJsonLaws Status status_wf}.
Context (dir : StateDir) (guarded : list path) (asked : job → Prop) (before : PublicKey → Prop).
Hypothesis guarded_shared : guarded ⊆ shared_files dir.

(** The keys an operator asked for, besides those approved before. *)
Definition sanctioned (k : PublicKey) : Prop := before k ∨ asked (JApprove k).
Definition promised (p : path) (b : bytes) : Prop :=
  (p = approved_path dir → ∀ k, approves b k → sanctioned k) ∧
  (p = pending_path dir → ∃ l : list PendingAgent, from_slice b = Ok l ∧ well_typed l) ∧
  (p = status_path dir → ∃ st : Status, from_slice b = Ok st).

Lemma paths_apart : approved_path dir ≠ pending_path dir ∧ approved_path dir ≠ status_path dir ∧ pending_path dir ≠ status_path dir.
Proof.
  rewrite approved_path_eq, pending_path_eq, status_path_eq.
  split_and!; intros E; by apply (inj (app (root dir))) in E.
Qed.
Lemma promised_approved b : (∀ k, approves b k → sanctioned k) → promised (approved_path dir) b.
Proof. destruct paths_apart as (? & ? & ?). intros Hb. split_and!; [done|congruence..]. Qed.
Lemma promised_pending b l : from_slice b = Ok l → well_typed l → promised (pending_path dir) b.
Proof. destruct paths_apart as (? & ? & ?). intros. split_and!; [congruence|eauto|congruence]. Qed.
Lemma promised_status b (st : Status) : from_slice b = Ok st → promised (status_path dir) b.
Proof. destruct paths_apart as (? & ? & ?). intros. split_and!; [congruence|congruence|eauto]. Qed.

(** A shared file that is not guarded is nobody's concern, nor are its side files. *)
Lemma unguarded_foreign p me :
  p ∈ shared_files dir → p ∉ guarded → foreign guarded p ∧ foreign guarded (unique_tmp p me).
Proof.
  intros Hp Hg. split; split; [done| | |].
  - intros q me' Hq ->. by apply (shared_side_apart dir q me' (guarded_shared _ Hq)).
  - intros Hin%guarded_shared. by apply (shared_side_apart dir p me Hp).
  - intros q me' Hq E. apply (shared_side_inj dir) in E as [-> _]; [done..|by apply guarded_shared].
Qed.

Abbreviation disciplined' := (disciplined guarded promised).
Context (me : Z) (o : option Z).

Lemma mkdirs_disciplined above rest : disciplined' o (λ _, True) (mkdirs_calls above rest).
Proof.
  revert above. induction rest as [|c rest IH]; intros above; [done|].
  intros [[]|e]; [apply IH|done].
Qed.
Lemma ensure_dir_disciplined : disciplined' o (λ _, True) (ensure_dir_calls dir).
Proof.
  unfold ensure_dir_calls, proc_context.
  apply (disciplined_bind _ _ _ (λ _, True)); [|intros _ _|done].
  { apply (disciplined_then _ _ _ (λ _, True)); [done|apply mkdirs_disciplined]. }
  by apply (disciplined_bind _ _ _ (λ _, True)).
Qed.
Lemma write_atomic_disciplined p body :
  p ∈ shared_files dir → (p ∈ guarded → o = Some me ∧ promised p body) →
  disciplined' o (λ _, True) (write_atomic_calls me p body).
Proof.
  intros Hp Hg. destruct (decide (p ∈ guarded)) as [Hin|Hout]; simpl.
  - destruct (Hg Hin) as [Ho Hb]. left. exists p, me. by split_and!.
  - destruct (unguarded_foreign p me Hp Hout). right. split; [done|]. intros [[]|e]; by simpl.
Qed.
Lemma read_disciplined p (Q : result bytes → Prop) :
  p ∈ shared_files dir → (∀ b, (p ∈ guarded → promised p b) → Q (Ok b)) → (∀ e, Q (Err e)) →
  disciplined' o Q (ReadFile p Done).
Proof.
  intros Hp Hok Herr. destruct (decide (p ∈ guarded)) as [Hin|Hout]; simpl; [left|right].
  - split_and!; [done| |done]. intros b Hb. by apply Hok.
  - destruct (unguarded_foreign p me Hp Hout). split; [done|]. intros [b|e]; [by apply Hok|done].
Qed.

Definition reads_approved (r : result bytes) : Prop :=
  approved_path dir ∈ guarded → ∀ b, r = Ok b → ∀ k, approves b k → sanctioned k.
Lemma read_approved_disciplined : disciplined' o reads_approved (read_to_string_calls (approved_path dir)).
Proof.
  apply (disciplined_bind _ _ _ reads_approved); [|intros b Hb|done].
  - apply read_disciplined; [set_solver| |done]. intros b Hb Hin b' [= <-]. by apply (Hb Hin).
  - destruct (utf8_valid b); [|done]. intros Hin b' [= <-]. by apply Hb.
Qed.
Lemma approved_disciplined : disciplined' o (λ _, True) (approved_calls dir).
Proof.
  apply (disciplined_bind _ _ _ (λ _, True)); [|intros [b|e] _; [done|by case_bool_decide]|done].
  by eapply disciplined_then; [|apply read_approved_disciplined].
Qed.

Definition reads_typed (r : result (list PendingAgent)) : Prop :=
  pending_path dir ∈ guarded → ∀ l, r = Ok l → well_typed l.
Lemma pending_disciplined : disciplined' o reads_typed (pending_calls dir).
Proof.
  assert (Hnil : well_typed []) by (split; [constructor|constructor|simpl; lia]).
  apply (disciplined_bind _ _ _ (λ x, pending_path dir ∈ guarded → ∀ b, x = Ok (Ok b) → promised (pending_path dir) b));
    [|intros [b|e] Hb|done].
  - apply (disciplined_then _ _ _ (λ r, pending_path dir ∈ guarded → ∀ b, r = Ok b → promised (pending_path dir) b));
      [|apply read_disciplined; [set_solver| |done]].
    + by intros r Hr Hin b [= ->]; apply Hr.
    + intros b Hb Hin b' [= <-]. by apply Hb.
  - intros Hin l. destruct (Hb Hin b eq_refl) as (_ & Hp & _). destruct (Hp eq_refl) as (l' & -> & Hl). by intros [= <-].
  - case_bool_decide; [by intros _ l [= <-]|done].
Qed.
Lemma write_pending_disciplined l :
  (pending_path dir ∈ guarded → o = Some me ∧ well_typed l) → disciplined' o (λ _, True) (write_pending_calls me dir l).
Proof.
  intros Hl. apply (disciplined_bind _ _ _ (λ r, r = to_vec_pretty l)); [done| |done]. intros b Hb.
  apply write_atomic_disciplined; [set_solver|]. intros Hin. destruct (Hl Hin) as [Ho Ht]. split; [done|].
  eapply promised_pending; [|done]. by apply json_roundtrip; [apply Ht|].
Qed.
Lemma record_pending_disciplined k :
  (pending_path dir ∈ guarded → o = Some me) → disciplined' o (λ _, True) (record_pending_calls me dir k).
Proof.
  intros Ho. apply (disciplined_bind _ _ _ (λ _, True)); [apply ensure_dir_disciplined|intros _ _|done].
  apply (disciplined_bind _ _ _ (λ r, ∀ t, r = Ok t → 0 ≤ t ≤ u64_max)); [|intros t Ht|done].
  { intros t Ht t' [= <-]. unfold u64_max in *. lia. }
  apply (disciplined_bind _ _ _ reads_typed); [apply pending_disciplined|intros l Hl|done].
  apply write_pending_disciplined. intros Hin. split; [by apply Ho|]. apply touched_typed; [by apply Ht|by apply Hl].
Qed.
Lemma forget_pending_disciplined k :
  (pending_path dir ∈ guarded → o = Some me) → disciplined' o (λ _, True) (forget_pending_calls me dir k).
Proof.
  intros Ho. apply (disciplined_bind _ _ _ reads_typed); [apply pending_disciplined|intros l Hl|done]. cbv zeta.
  case_bool_decide; [done|]. apply write_pending_disciplined. intros Hin. split; [by apply Ho|]. apply filter_typed. by apply Hl.
Qed.
Lemma approve_disciplined k :
  asked (JApprove k) → (approved_path dir ∈ guarded → o = Some me) → (pending_path dir ∈ guarded → o = Some me) →
  disciplined' o (λ _, True) (approve_calls me dir k).
Proof.
  intros Hk Ha Hp. apply (disciplined_bind _ _ _ (λ _, True)); [apply ensure_dir_disciplined|intros _ _|done].
  apply (disciplined_bind _ _ _ (λ _, True)); [apply approved_disciplined|intros l _|done]. case_bool_decide; [done|].
  apply (disciplined_bind _ _ _ (λ x, ∀ r, x = Ok r → reads_approved r)); [|intros r Hr|done].
  { eapply disciplined_then; [|apply read_approved_disciplined]. by intros r Hr r' [= <-]. }
  apply (disciplined_bind _ _ _ (λ _, True)); [|intros _ _|done].
  - apply write_atomic_disciplined; [set_solver|]. intros Hin. split; [by apply Ha|]. apply promised_approved. intros x.
    set (body := match r with Ok b => b | Err _ => [] end).
    change (approves (terminated body ++ key_text k ++ [LF]) x → sanctioned x). rewrite append_key_approves.
    intros [->|Hx]; [by right|]. specialize (Hr r eq_refl Hin). destruct r as [b|e]; [by eapply Hr|].
    by destruct Hx as (? & ?%not_elem_of_nil & _).
  - apply (disciplined_bind _ _ _ (λ _, True)); [by apply forget_pending_disciplined|done|done].
Qed.

Lemma job_disciplined j :
  asked j → (∀ st, asked (JPublish st) → status_path dir ∈ guarded → status_wf st) →
  (∀ p, p ∈ job_writes dir j → p ∈ guarded → o = Some me) → disciplined' o (λ _, True) (job_calls me dir j).
Proof.
  intros Hj Hst Hw. destruct j as [k|k| | |st]; cbn [job_calls]; simpl in Hw.
  - apply (disciplined_bind _ _ _ (λ _, True)); [|done|done]. apply approve_disciplined; [done|apply Hw; set_solver..].
  - apply record_pending_disciplined. apply Hw. set_solver.
  - apply (disciplined_bind _ _ _ (λ _, True)); [apply approved_disciplined|done|done].
  - apply (disciplined_bind _ _ _ reads_typed); [apply pending_disciplined|done|done].
  - apply (disciplined_bind _ _ _ (λ r, r = to_vec_pretty st)); [done| |done]. intros b Hb.
    apply write_atomic_disciplined; [set_solver|]. intros Hin. split; [apply (Hw (status_path dir)); [set_solver|done]|].
    eapply promised_status. by apply json_roundtrip; [apply Hst|].
Qed.
Lemma script_disciplined js :
  Forall asked js → (∀ st, asked (JPublish st) → status_path dir ∈ guarded → status_wf st) →
  (∀ j p, j ∈ js → p ∈ job_writes dir j → p ∈ guarded → o = Some me) → disciplined' o (λ _, True) (script me dir js).
Proof.
  intros Hjs Hst Hw. induction Hjs as [|j js Hj Hjs IH]; [done|]. cbn [script].
  apply (disciplined_bind _ _ _ (λ _, True)); [|intros _ _; apply IH; set_solver|done].
  apply (disciplined_then _ _ _ (λ _, True)); [done|]. apply job_disciplined; [done..|]. set_solver.
Qed.
End promises.

(** ** In every reachable state *)

(** A file has one name, and inodes are numbered as they are made. *)
Record sound (s : store) : Prop := mkSound {
  sound_name p q i : names s !! p = Some (EFile i) → names s !! q = Some (EFile i) → p = q;
  sound_next p i : names s !! p = Some (EFile i) → (i < next_inode s)%nat
}.
Lemma sound_ok guarded G s :
  (∀ p me, p ∈ guarded → unique_tmp p me ∉ guarded) → sound s →
  (∀ p i, p ∈ guarded → names s !! p = Some (EFile i) → G p (data s i)) →
  ∃ class, store_ok guarded G class s.
Proof.
  intros Happ [Hone Hnext] Hg.
  exists (λ i, ∃ q, names s !! q = Some (EFile i) ∧ (q ∈ guarded ∨ ∃ p me, p ∈ guarded ∧ q = unique_tmp p me)).
  split; try done.
  - intros p i Hp Hi. exists p. auto.
  - intros p me i Hp Hi. exists (unique_tmp p me). eauto 10.
  - intros q i [Hq Hs] Hi (q' & Hi' & Hc). rewrite (Hone q' q i) in Hc by done. destruct Hc as [?|(p & me & Hp & ->)]; [done|].
    by destruct (Hs p me Hp).
Qed.

Section reachable.
Context `{IrohKeysLaws} `{SerdeJson (list PendingAgent)} `{SerdeJson Status}.
Context `{!SerdeJsonLaws (list PendingAgent) pending_wf}.
Context (status_wf : Status → Prop) `{!SerdeJsonLaws Status status_wf}.

(** [guarded] files keep their promise. *)
Lemma promises_kept dir guarded asked before s s' ts p i :
  guarded ⊆ shared_files dir → sound s →
  (∀ p i, p ∈ guarded → names s !! p = Some (EFile i) → promised dir asked before p (data s i)) →
  (∀ st, asked (JPublish st) → status_path dir ∈ guarded → status_wf st) →
  rtc (step dir guarded asked) (s, []) (s', ts) →
  p ∈ guarded → names s' !! p = Some (EFile i) → promised dir asked before p (data s' i).
Proof.
  intros Hsub Hs Hinit Hst Hr Hp Hi.
  assert (Happ : ∀ p me, p ∈ guarded → unique_tmp p me ∉ guarded).
  { intros q me Hq Hin%Hsub. by apply (shared_side_apart dir q me (Hsub _ Hq)). }
  destruct (sound_ok guarded (promised dir asked before) s Happ Hs Hinit) as [class Hok].
  destruct (reachable_ok guarded (promised dir asked before) dir asked) with (class := class) (s := s) (s' := s') (ts := ts)
    as [class' Hok']; [| |intros me js Hjs|done..|by eapply kept_contract].
  - intros q1 q2 me me' H1' H2' E. by apply (shared_side_inj dir) in E; [|apply Hsub..].
  - done.
  - apply (script_disciplined status_wf); [done..|]. intros j q Hj Hq Hin. unfold owner, writes. simpl.
    rewrite bool_decide_true; [done|]. apply Exists_exists. exists j. split; [done|]. apply Exists_exists. eauto.
Qed.

Lemma view_file s p f : view s !! p = Some (NFile f) → ∃ i, names s !! p = Some (EFile i) ∧ f = inode s i.
Proof.
  unfold view. rewrite lookup_fmap. destruct (names s !! p) as [[i|m|]|]; intros E; simplify_eq/=. eauto.
Qed.

(** The promise on the approved file, in every reachable state. *)
Lemma approved_file_promise dir asked s s' ts i k :
  sound s → rtc (step dir [approved_path dir] asked) (s, []) (s', ts) →
  names s' !! approved_path dir = Some (EFile i) → utf8_valid (data s' i) = true → approves (data s' i) k →
  asked (JApprove k) ∨ ∃ f, view s !! approved_path dir = Some (NFile f) ∧ approves (f_data f) k.
Proof.
  intros Hs Hr Hi Hutf Hk.
  set (before := λ k, ∃ f, view s !! approved_path dir = Some (NFile f) ∧ approves (f_data f) k).
  assert (Hp : promised dir asked before (approved_path dir) (data s' i)).
  { eapply (promises_kept dir [approved_path dir]); [set_solver|done| | |done|set_solver|done].
    - intros p j ->%list_elem_of_singleton Hj. apply promised_approved. intros x Hx. left. exists (inode s j).
      split; [|done]. unfold view. by rewrite lookup_fmap, Hj.
    - intros st _ E%list_elem_of_singleton. destruct (paths_apart dir) as (_ & ? & _). congruence. }
  destruct Hp as [Hp _]. destruct (Hp eq_refl k Hk); auto.
Qed.
(** What is on the list was read from the file. *)
Lemma approved_of_lines o l k :
  approved_of o = Ok l → k ∈ l → ∃ f, o = Some (NFile f) ∧ utf8_valid (f_data f) = true ∧ approves (f_data f) k.
Proof.
  destruct o as [[f| |]|]; simpl; [|done|done|intros [= <-] Hk; by apply not_elem_of_nil in Hk].
  destruct (utf8_valid (f_data f)) eqn:Hu; [|done]. destruct (approved_lines_spec (lines (f_data f)) []) as (l' & El & Hl').
  rewrite El. intros [= <-] [Hk|Hk]%Hl'; [by apply not_elem_of_nil in Hk|by exists f].
Qed.
Lemma listed_was_asked dir asked s s' ts l k :
  sound s → rtc (step dir [approved_path dir] asked) (s, []) (s', ts) →
  approved_of (view s' !! approved_path dir) = Ok l → k ∈ l →
  asked (JApprove k) ∨ ∃ f, view s !! approved_path dir = Some (NFile f) ∧ approves (f_data f) k.
Proof.
  intros Hs Hr Hl Hk. destruct (approved_of_lines _ _ _ Hl Hk) as (f & Hf & Hu & Ha).
  destruct (view_file _ _ _ Hf) as (i & Hi & ->). by eapply approved_file_promise.
Qed.

(** C3: No key is approved that nobody approved: whatever processes use the state
    directory at the same time, however their system calls interleave, come in
    pieces or fail, and wherever processes are killed, the list that [serve]
    reads before it admits an agent holds only keys that were on it before or
    that some [approve] command was asked to add.  Each approving process is one
    thread with a process number of its own; the others, [serve] among them, may
    have any number of threads. *)
Theorem approvals_are_asked_for dir asked s s' ts l k :
  sound s → rtc (step dir [approved_path dir] asked) (s, []) (s', ts) →
  approved_of (view s' !! approved_path dir) = Ok l → k ∈ l →
  asked (JApprove k) ∨ ∃ f, view s !! approved_path dir = Some (NFile f) ∧ approves (f_data f) k.
Proof. exact (listed_was_asked dir asked s s' ts l k). Qed.

(** C4: A reader never sees half a file: as long as no process has two threads
    that write the shared files, then under any interleaving of their system
    calls, with reads and writes cut anywhere, any calls failing and any process
    killed anywhere, the pending list can be read and is well typed, and the
    published status can be read, in every state in which the files exist. *)
Theorem shared_files_stay_whole dir asked s s' ts :
  sound s → (∀ st, asked (JPublish st) → status_wf st) →
  (∀ f, view s !! pending_path dir = Some (NFile f) → ∃ l, from_slice (f_data f) = Ok l ∧ well_typed l) →
  (∀ f, view s !! status_path dir = Some (NFile f) → ∃ st : Status, from_slice (f_data f) = Ok st) →
  rtc (step dir (shared_files dir) asked) (s, []) (s', ts) →
  (∀ f, view s' !! pending_path dir = Some (NFile f) → ∃ l, from_slice (f_data f) = Ok l ∧ well_typed l) ∧
  (∀ f, view s' !! status_path dir = Some (NFile f) → ∃ st : Status, from_slice (f_data f) = Ok st).
Proof.
  intros Hs Hst Hpe Hsu Hr.
  assert (Hview : ∀ s p i, names s !! p = Some (EFile i) → view s !! p = Some (NFile (inode s i))).
  { intros s1 p i E. unfold view. by rewrite lookup_fmap, E. }
  assert (Hall : ∀ p i, p ∈ shared_files dir → names s' !! p = Some (EFile i) → promised dir asked (λ _, True) p (data s' i)).
  { intros p i Hp Hi. eapply (promises_kept dir (shared_files dir)); [done|done| |by intros st ? _; apply Hst|done|done|done].
    intros q j Hq Hj. split_and!; intros ->; [by left|by eapply Hpe, Hview|by eapply Hsu, Hview]. }
  split; intros f (i & Hi & ->)%view_file.
  - destruct (Hall (pending_path dir) i) as (_ & Hp & _); [set_solver|done|]. by apply Hp.
  - destruct (Hall (status_path dir) i) as (_ & _ & Hp); [set_solver|done|]. by apply Hp.
Qed.
End reachable.

(** ** Alone, a process is what State.v says

    One thread, no failing call, a steady clock: the names and inodes then show
    what the path-indexed files of Fs.v show, whatever pieces reads and writes
    come in. *)
Section alone.
Context (t0 : Z).

Record sees (s : store) (w : World) : Prop := mkSees {
  sees_files : view s = fs w;
  sees_umask : store_umask s = umask w;
  sees_faults : faults w = [];
  sees_clock : clock w = [t0];
  sees_sound : sound s
}.

Lemma sees_lookup s w p : sees s w → fs w !! p = node_of s <$> names s !! p.
Proof. intros [<- _ _ _ _]. apply lookup_fmap. Qed.
Lemma sees_dir s w p : sees s w → store_dir s p = is_dir w p.
Proof.
  intros Hs. unfold store_dir, is_dir. rewrite (sees_lookup s w p Hs). by destruct (names s !! p) as [[]|].
Qed.
Lemma sees_parent s w p : sees s w → store_parent_ok s p = parent_ok w p.
Proof. intros Hs. unfold store_parent_ok, parent_ok. destruct (parent p); [by apply sees_dir|done]. Qed.
Lemma sees_set s w s' f :
  sees s w → view s' = f (fs w) → store_umask s' = store_umask s → sound s' → sees s' (set_fs f w).
Proof. intros [Hf Hu Hq Hc _] Hv Hu' Hs'. split; simpl; congruence. Qed.

Lemma view_dir s p mode : view (set_names <[p := EDir mode]> s) = <[p := NDir mode]> (view s).
Proof. unfold view. simpl. by rewrite fmap_insert. Qed.
Lemma view_inode s p i f :
  sound s → names s !! p = Some (EFile i) → view (set_inode i f s) = <[p := NFile f]> (view s).
Proof.
  intros Hs Hp. apply map_eq. intros q. unfold view. simpl. rewrite lookup_fmap.
  destruct (decide (q = p)) as [->|Hq].
  - rewrite lookup_insert_eq, Hp. simpl. unfold inode, set_inode. simpl. by rewrite lookup_insert_eq.
  - rewrite lookup_insert_ne, lookup_fmap by done. destruct (names s !! q) as [[j|m|]|] eqn:E; try done. simpl.
    unfold inode, set_inode. simpl. rewrite lookup_insert_ne; [done|]. intros ->. apply Hq. by eapply sound_name.
Qed.
Lemma sound_dir s p mode : sound s → (∀ i, names s !! p ≠ Some (EFile i)) → sound (set_names <[p := EDir mode]> s).
Proof.
  intros [Hone Hnext] Hp. split; simpl; intros; repeat match goal with
    | E : <[_ := _]> _ !! _ = Some (EFile _) |- _ => apply lookup_insert_Some in E as [[_ [=]]|[_ E]] end; eauto.
Qed.

Lemma mkdir_alone s w p r s' :
  sees s w → store_mkdir p s = (r, s') → ∃ w', do_mkdir p w = (r, w') ∧ sees s' w'.
Proof.
  intros Hs. unfold store_mkdir, do_mkdir. rewrite (sees_dir s w p Hs), (sees_lookup s w p Hs), (sees_umask _ _ Hs).
  destruct (is_dir w p); [intros [= <- <-]; eauto|].
  destruct (names s !! p) eqn:E; intros [= <- <-]; simpl; [eauto|]. eexists. split; [done|].
  eapply sees_set; [done|by rewrite view_dir, (sees_files _ _ Hs)|done|]. apply sound_dir; [apply Hs|]. intros i. by rewrite E.
Qed.
Lemma chmod_alone s w p mode r s' :
  sees s w → store_chmod p mode s = (r, s') → ∃ w', do_chmod p mode w = (r, w') ∧ sees s' w'.
Proof.
  intros Hs. unfold store_chmod, do_chmod. rewrite <- (sees_dir s w p Hs), (sees_lookup s w p Hs).
  destruct (names s !! p) as [[i|m|]|] eqn:E; simpl.
  - intros [= <- <-]. eexists. split; [done|]. eapply sees_set; [done| |done|].
    + by rewrite (view_inode s p), (sees_files _ _ Hs) by (done || apply Hs).
    + by destruct Hs as [_ _ _ _ []].
  - intros [= <- <-]. eexists. split; [done|]. eapply sees_set; [done|by rewrite view_dir, (sees_files _ _ Hs)|done|].
    apply sound_dir; [apply Hs|]. intros i. by rewrite E.
  - intros [= <- <-]. eauto.
  - destruct (store_dir s p); intros [= <- <-]; eauto.
Qed.
Lemma rename_alone s w a b r s' :
  sees s w → store_rename a b s = (r, s') → ∃ w', do_rename a b w = (r, w') ∧ sees s' w'.
Proof.
  intros Hs. unfold store_rename, do_rename. rewrite (sees_parent s w b Hs), !(sees_lookup s w _ Hs).
  destruct (names s !! a) as [e|] eqn:Ea; simpl; [|intros [= <- <-]; eauto].
  assert (Hgo : (if parent_ok w b then (Ok tt, set_names (λ m, <[b := e]> (delete a m)) s) else (Err enoent, s)) = (r, s') →
    ∃ w', (if parent_ok w b then (Ok tt, set_fs (λ m, <[b := node_of s e]> (delete a m)) w) else (Err enoent, w)) = (r, w') ∧ sees s' w').
  { destruct (parent_ok w b); intros [= <- <-]; [|eauto]. eexists. split; [done|]. eapply sees_set; [done| |done|].
    - unfold view. simpl. rewrite fmap_insert, fmap_delete. change (node_of _ <$> names s) with (view s). by rewrite (sees_files _ _ Hs).
    - destruct Hs as [_ _ _ _ [Hone Hnext]].
      assert (Hcase : ∀ q i, <[b := e]> (delete a (names s)) !! q = Some (EFile i) →
        (q = b ∧ e = EFile i) ∨ (q ≠ a ∧ names s !! q = Some (EFile i))).
      { intros q i [[<- ->]|[_ [? ?]%lookup_delete_Some]]%lookup_insert_Some; auto. }
      split; simpl.
      + intros q1 q2 i E1 E2. destruct (Hcase _ _ E1) as [[-> ->]|[? ?]], (Hcase _ _ E2) as [[-> ?]|[? ?]]; simplify_eq; try done.
        * exfalso. eauto.
        * exfalso. eauto.
        * eauto.
      + intros q i E. destruct (Hcase _ _ E) as [[-> ->]|[_ ?]]; eauto. }
  destruct (names s !! b) as [[i|m|]|] eqn:Eb; simpl; try done. intros [= <- <-]. eauto.
Qed.
Lemma create_alone s w p r s' :
  sees s w → store_create p s = (r, s') →
  ∃ w', sees s' w' ∧
    match r with
    | Ok i => do_open_truncate p w = (Ok tt, w') ∧ names s' !! p = Some (EFile i) ∧ data s' i = []
    | Err e => do_open_truncate p w = (Err e, w')
    end.
Proof.
  intros Hs. unfold store_create, do_open_truncate.
  rewrite (sees_parent s w p Hs), (sees_lookup s w p Hs), (sees_umask _ _ Hs).
  destruct (names s !! p) as [[i|m|]|] eqn:E; simpl; [| intros [= <- <-]; eauto..|].
  - intros [= <- <-]. eexists. split; [|split_and!; [done|done|by rewrite data_set_inode, decide_True]].
    eapply sees_set; [done| |done|by destruct Hs as [_ _ _ _ []]].
    by rewrite (view_inode s p), (sees_files _ _ Hs) by (done || apply Hs).
  - destruct (parent_ok w p); intros [= <- <-]; [|eauto]. eexists. split; [|split_and!; [done|by apply lookup_insert_eq|]].
    + pose proof (sees_sound _ _ Hs) as [Hone Hnext]. eapply sees_set; [done| |symmetry; apply Hs|].
      * rewrite <- (sees_files _ _ Hs). apply map_eq. intros q. unfold view. simpl. rewrite lookup_fmap.
        destruct (decide (q = p)) as [->|Hq]; [by rewrite !lookup_insert_eq; simpl; unfold inode; simpl; rewrite lookup_insert_eq|].
        rewrite !lookup_insert_ne, lookup_fmap by done. destruct (names s !! q) as [[j|m|]|] eqn:Eq; try done. simpl.
        unfold inode. simpl. rewrite lookup_insert_ne; [done|]. apply Hnext in Eq. lia.
      * assert (Hcase : ∀ q i, <[p := EFile (next_inode s)]> (names s) !! q = Some (EFile i) →
          (q = p ∧ i = next_inode s) ∨ ((i < next_inode s)%nat ∧ names s !! q = Some (EFile i))).
        { intros q i [[<- [= <-]]|[_ Eq]]%lookup_insert_Some; [by left|right]. split; [by eapply Hnext|done]. }
        split; simpl.
        -- intros q1 q2 i E1 E2. destruct (Hcase _ _ E1) as [[-> ->]|[? ?]], (Hcase _ _ E2) as [[-> ?]|[? ?]]; try lia; eauto.
        -- intros q i Eq. destruct (Hcase _ _ Eq) as [[_ ->]|[? _]]; lia.
    + unfold data, inode. simpl. by rewrite lookup_insert_eq.
Qed.

Lemma write_alone s w p i b :
  sees s w → names s !! p = Some (EFile i) →
  sees (store_write i (length (data s i)) b s) (set_fs (append_data p b) w).
Proof.
  intros Hs Hi. eapply sees_set; [done| |done|by destruct Hs as [_ _ _ _ []]]. unfold store_write, append_data.
  rewrite (view_inode s p) by (done || apply Hs). rewrite (sees_files _ _ Hs), (sees_lookup s w p Hs), Hi. simpl.
  by rewrite pwrite_end.
Qed.

(** The outcome a thread is heading for. *)
Definition heads_for {A} (t : thread A) (s : store) (w : World) (o : result A * World) : Prop :=
  match t with
  | Ready m => run m w = o
  | Reading i got k => got `prefix_of` data s i ∧ run (k (Ok (data s i))) w = o
  | Writing i off rest k =>
      ∃ p, names s !! p = Some (EFile i) ∧ off = length (data s i) ∧ run (k (Ok tt)) (set_fs (append_data p rest) w) = o
  end.
Definition smooth (c : choice) : Prop := match c with Fails _ => False | Goes _ => True | Clock t => t = t0 end.
Definition turn {A} (x y : thread A * store) : Prop := ∃ c, smooth c ∧ act c x.1 x.2 = Some y.

Lemma turn_alone {A} (t : thread A) s w o t' s' :
  sees s w → heads_for t s w o → turn (t, s) (t', s') → ∃ w', sees s' w' ∧ heads_for t' s' w' o.
Proof.
  intros Hs Ht (c & Hc & E). simpl in E. pose proof (sees_faults _ _ Hs) as Hq.
  destruct t as [[r|k|p k|p mode k|p k|p b k|a b k]|i got k|i off rest k]; simpl in *; unfold called in E; [done|..].
  - destruct c as [|n|t]; try done. case_bool_decide; [|done]. injection E as <- <-. rewrite Hc. exists w. split; [done|]. simpl.
    revert Ht. unfold mbind, M_bind, now_m, now. by rewrite (sees_clock _ _ Hs).
  - destruct c as [|n|]; try done. destruct (store_mkdir p s) as [r s1] eqn:Em. injection E as <- <-.
    apply (mkdir_alone s w) in Em as (w' & E' & Hs'); [|done]. exists w'. split; [done|]. revert Ht. unfold mbind, M_bind, attempt.
    by rewrite syscall_quiet, E'.
  - destruct c as [|n|]; try done. destruct (store_chmod p mode s) as [r s1] eqn:Em. injection E as <- <-.
    apply (chmod_alone s w) in Em as (w' & E' & Hs'); [|done]. exists w'. split; [done|]. revert Ht. unfold mbind, M_bind, attempt, fs_set_permissions.
    by rewrite syscall_quiet, E'.
  - destruct c as [|n|]; try done. unfold store_open in E. revert Ht. unfold mbind, M_bind, attempt, fs_read.
    rewrite syscall_quiet, (sees_lookup s w p Hs) by done.
    destruct (names s !! p) as [[i|m|]|]; injection E as <- <-; intros Ht; exists w; (split; [done|]); try done.
    split; [apply prefix_nil|done].
  - destruct c as [|n|]; try done. destruct (store_create p s) as [r s1] eqn:Em. injection E as <- <-.
    apply (create_alone s w) in Em as (w' & Hs' & Hr); [|done]. exists w'. split; [done|]. revert Ht.
    unfold mbind, M_bind, attempt, fs_write, mbind, M_bind. rewrite syscall_quiet by done. destruct r as [i|e].
    + destruct Hr as (-> & Hi & Hd). unfold fs_append, next_fault. rewrite (sees_faults _ _ Hs'). intros Ht.
      exists p. by rewrite Hd.
    + by rewrite Hr.
  - destruct c as [|n|]; try done. destruct (store_rename a b s) as [r s1] eqn:Em. injection E as <- <-.
    apply (rename_alone s w) in Em as (w' & E' & Hs'); [|done]. exists w'. split; [done|]. revert Ht. unfold mbind, M_bind, attempt, fs_rename.
    by rewrite syscall_quiet, E'.
  - destruct c as [|n|]; try done. destruct Ht as [[more Hpre] Ht]. fold (data s i) in E. rewrite Hpre, drop_app_length in E.
    exists w. destruct more as [|x more]; injection E as <- <-; (split; [done|]).
    + rewrite app_nil_r in Hpre. by rewrite <- Hpre.
    + split; [|done]. rewrite Hpre. apply prefix_app. exists (drop n more). simpl. f_equal. by rewrite take_drop.
  - destruct c as [|n|]; try done. destruct Ht as (p & Hi & -> & Ht). destruct rest as [|x rest]; injection E as <- <-.
    + exists (set_fs (append_data p []) w). split; [|done]. destruct Hs as [Hf Hu Hq' Hcl Hso]. split; try done. simpl.
      unfold append_data. destruct (fs w !! p) as [[f| |]|] eqn:Ef; try done. rewrite app_nil_r. by rewrite insert_id by (by destruct f).
    + exists (set_fs (append_data p (x :: take n rest)) w). split; [by apply write_alone|]. exists p. split_and!; [done| |].
      * by rewrite data_write, decide_True, pwrite_end, length_app.
      * rewrite <- Ht. f_equal. unfold set_fs. simpl. f_equal. unfold append_data.
        destruct (fs w !! p) as [[f| |]|] eqn:Ef; rewrite ?Ef; try done. rewrite lookup_insert_eq, insert_insert_eq. simpl.
        by rewrite <- app_assoc; simpl; rewrite take_drop.
Qed.

Lemma turn_goes {A} (t t' : thread A) s s' n : act (Goes n) t s = Some (t', s') → turn (t, s) (t', s').
Proof. by exists (Goes n). Qed.
(** Every program can be run to its end. *)
Lemma finishes {A} (m : proc A) s :
  t0 ≤ u64_max → ∃ r s', rtc turn (Ready m, s) (Ready (Done r), s').
Proof.
  intros Ht0. revert s. induction m as [r|k IH|p k IH|p mode k IH|p k IH|p b k IH|a b k IH]; intros s.
  - eauto using rtc_refl.
  - destruct (IH t0 s) as (r & s' & Hr). exists r, s'. eapply rtc_l; [|exact Hr]. exists (Clock t0). split; [done|]. simpl.
    by rewrite bool_decide_true.
  - destruct (store_mkdir p s) as [r s1] eqn:E. destruct (IH r s1) as (r' & s' & Hr). exists r', s'.
    eapply rtc_l; [|exact Hr]. apply (turn_goes _ _ _ _ 0). simpl. by rewrite E.
  - destruct (store_chmod p mode s) as [r s1] eqn:E. destruct (IH r s1) as (r' & s' & Hr). exists r', s'.
    eapply rtc_l; [|exact Hr]. apply (turn_goes _ _ _ _ 0). simpl. by rewrite E.
  - destruct (store_open p s) as [[i|e] s1] eqn:E.
    + destruct (IH (Ok (data s1 i)) s1) as (r' & s' & Hr). exists r', s'.
      eapply rtc_l; [apply (turn_goes _ (Reading i [] k) _ s1 0); simpl; by rewrite E|].
      destruct (data s1 i) as [|x d] eqn:Ed.
      { eapply rtc_l; [|exact Hr]. apply (turn_goes _ _ _ _ 0). simpl. fold (data s1 i). by rewrite Ed. }
      eapply rtc_l; [apply (turn_goes _ (Reading i (x :: d) k) _ s1 (length d)); simpl; fold (data s1 i); rewrite Ed; simpl; by rewrite firstn_all|].
      eapply rtc_l; [|exact Hr]. apply (turn_goes _ _ _ _ 0). simpl. fold (data s1 i). rewrite Ed. simpl. by rewrite drop_ge.
    + destruct (IH (Err e) s1) as (r' & s' & Hr). exists r', s'. eapply rtc_l; [|exact Hr]. apply (turn_goes _ _ _ _ 0). simpl. by rewrite E.
  - destruct (store_create p s) as [[i|e] s1] eqn:E.
    + assert (Hw : ∃ s2, rtc turn (Writing i 0 b k, s1) (Ready (k (Ok tt)), s2)).
      { destruct b as [|x b]; [exists s1; apply rtc_once, (turn_goes _ _ _ _ 0); done|].
        exists (store_write i 0 (take (S (length b)) (x :: b)) s1). eapply rtc_l.
        { apply (turn_goes (Writing i 0 (x :: b) k)
            (Writing i (0 + length (take (S (length b)) (x :: b))) (drop (S (length b)) (x :: b)) k) s1 (store_write i 0 (take (S (length b)) (x :: b)) s1) (length b)). reflexivity. }
        apply rtc_once, (turn_goes _ _ _ _ 0). simpl. by rewrite drop_ge. }
      destruct Hw as [s2 Hw]. destruct (IH (Ok tt) s2) as (r' & s' & Hr). exists r', s'.
      eapply rtc_l; [apply (turn_goes _ (Writing i 0 b k) _ s1 0); simpl; by rewrite E|]. by etrans.
    + destruct (IH (Err e) s1) as (r' & s' & Hr). exists r', s'. eapply rtc_l; [|exact Hr]. apply (turn_goes _ _ _ _ 0). simpl. by rewrite E.
  - destruct (store_rename a b s) as [r s1] eqn:E. destruct (IH r s1) as (r' & s' & Hr). exists r', s'.
    eapply rtc_l; [|exact Hr]. apply (turn_goes _ _ _ _ 0). simpl. by rewrite E.
Qed.
Lemma turns_alone {A} (x : thread A * store) (r : result A) s' w o :
  rtc turn x (Ready (Done r), s') → sees x.2 w → heads_for x.1 x.2 w o → o.1 = r ∧ view s' = fs o.2.
Proof.
  intros Hr. remember (Ready (Done r), s') as y eqn:Ey. revert w. induction Hr as [x|x y z Ht _ IH]; intros w Hs Hh.
  - subst. simpl in *. rewrite <- Hh. split; [done|apply Hs].
  - destruct x as [t s], y as [t1 s1]. destruct (turn_alone _ _ _ _ _ _ Hs Hh Ht) as (w1 & Hs1 & Hh1). by eapply IH.
Qed.
End alone.

Section operations_alone.
Context `{IrohKeys} `{SerdeJson (list PendingAgent)} `{SerdeJson Status}.

(** A process that has the state directory to itself does what State.v says, call
    by call: from a file system of names and inodes that shows the files of a
    world, and whatever pieces its reads and writes come in, the program of an
    operation can be run to its end, and every run to the end in which no call
    fails gives the result of the operation on that world and leaves the files
    the operation leaves. *)
Definition does_alone {A} (me : Z) (m : proc A) (op : M World A) : Prop := ∀ t0 s w,
  t0 ≤ u64_max → sees t0 s w → pid w = me →
  (∃ r s', rtc (turn t0) (Ready m, s) (Ready (Done r), s')) ∧
  ∀ r s', rtc (turn t0) (Ready m, s) (Ready (Done r), s') → ∃ w', op w = (r, w') ∧ view s' = fs w'.
Lemma runs_as_alone {A} me (m : proc A) (op : M World A) : runs_as me m op → does_alone me m op.
Proof.
  intros Hm t0 s w Ht Hs Hme. split; [by apply finishes|]. intros r s' Hr. destruct (Hm w Hme) as [E _].
  destruct (turns_alone t0 (Ready m, s) r s' w (op w) Hr Hs E) as [Er Ev].
  exists (op w).2. split; [|done]. rewrite <- Er. apply surjective_pairing.
Qed.
Lemma alone_is_at_one_go me dir :
  (∀ k, does_alone me (approve_calls me dir k) (approve dir k)) ∧
  (∀ k, does_alone me (record_pending_calls me dir k) (record_pending dir k)) ∧
  does_alone me (approved_calls dir) (approved dir) ∧ does_alone me (pending_calls dir) (pending dir) ∧
  (∀ st, does_alone me (write_status_calls me dir st) (write_status dir st)).
Proof.
  split_and!; intros; apply runs_as_alone;
    auto using runs_as_approve, runs_as_record_pending, runs_as_approved, runs_as_pending, runs_as_write_status.
Qed.

(** The world that a store shows to the process [me] at the time [t0]. *)
Definition shown (t0 me : Z) (s : store) : World := mkWorld (view s) [] [] [t0] me (store_umask s).
Lemma shown_sees t0 me s : sound s → sees t0 s (shown t0 me s).
Proof. by split. Qed.

Context `{!IrohKeysLaws} `{!SerdeJsonLaws (list PendingAgent) pending_wf}.

(** C26: An approval, down at its system calls: the operator's process has the
    state directory to itself and no call of it fails, but its reads and writes
    may come in any pieces.  Then the program comes to its end, and however it
    does, it reports whether the key was new, the approved file lists exactly the
    keys it listed and this one, and the pending file the entries it had, without
    this key's if the key was new. *)
Theorem approval_lands_call_by_call t0 me dir k s old plist :
  t0 ≤ u64_max → sound s → usable dir (shown t0 me s) →
  approved_of (view s !! approved_path dir) = Ok old →
  pending_of (view s !! pending_path dir) = Ok plist → pending_wf plist →
  (∃ r s', rtc (turn t0) (Ready (approve_calls me dir k), s) (Ready (Done r), s')) ∧
  ∀ r s', rtc (turn t0) (Ready (approve_calls me dir k), s) (Ready (Done r), s') →
    r = Ok (negb (bool_decide (k ∈ old))) ∧
    (∃ new, approved_of (view s' !! approved_path dir) = Ok new ∧ ∀ x, x ∈ new ↔ x = k ∨ x ∈ old) ∧
    pending_of (view s' !! pending_path dir) =
      Ok (if bool_decide (k ∈ old) then plist else filter (λ p, pubkey p ≠ pk_to_string k) plist).
Proof.
  intros Ht Hs Hu Ha Hp Hwf. pose proof (shown_sees t0 me s Hs) as Hsees.
  destruct (proj1 (alone_is_at_one_go me dir) k t0 s (shown t0 me s) Ht Hsees eq_refl) as [Hfin Hall]. split; [done|]. intros r s' Hr. destruct (Hall r s' Hr) as (w' & E & Hv).
  destruct (approve_quiet dir k (shown t0 me s) old plist Hu) as (new & w2 & E2 & Ha2 & Hnew & Hp2 & Hq);
    [by rewrite approved_quiet, <- Ha|by rewrite pending_quiet, <- Hp|done|].
  rewrite E in E2. injection E2 as -> <-. rewrite Hv. split; [done|].
  rewrite approved_quiet in Ha2 by done. rewrite pending_quiet in Hp2 by done. injection Ha2 as Ha2. injection Hp2 as Hp2. by split; [exists new|].
Qed.
End operations_alone.

(** ** Runs by a list of moves *)

Section moves.
Context `{IrohKeys} `{SerdeJson (list PendingAgent)} `{SerdeJson Status}.
Context (dir : StateDir) (guarded : list path) (asked : job → Prop).

Inductive move := Turn (n : nat) (c : choice) | Start (me : Z) (js : list job).
Definition run_move (mv : move) (m : Machine) : option Machine :=
  let '(s, ts) := m in
  match mv with
  | Turn n c =>
      x ← ts !! n;
      y ← act c (x : Z * bool * thread unit).2 s;
      Some ((y : thread unit * store).2, <[n := (x.1, y.1)]> ts)
  | Start me js =>
      if writes dir guarded js && bool_decide ((me, true) ∈ ts.*1) then None
      else Some (s, ts ++ [(me, writes dir guarded js, Ready (script me dir js))])
  end.
Fixpoint run_moves (mvs : list move) (m : Machine) : option Machine :=
  match mvs with
  | [] => Some m
  | mv :: mvs => m ← run_move mv m; run_moves mvs m
  end.
Definition move_asked (mv : move) : Prop := match mv with Turn _ _ => True | Start _ js => Forall asked js end.

Lemma run_moves_reach mvs m m' :
  Forall move_asked mvs → run_moves mvs m = Some m' → rtc (step dir guarded asked) m m'.
Proof.
  intros Ha. revert m. induction Ha as [|mv mvs Hmv _ IH]; intros m; simpl; [intros [= <-]; constructor|].
  intros (m1 & Em & Er)%bind_Some. eapply rtc_l; [|by apply IH]. destruct m as [s ts], mv as [n c|me js]; simpl in Em.
  - apply bind_Some in Em as ([x t] & Hn & Em). apply bind_Some in Em as ([t' s'] & Hact & [= <-]). by econstructor.
  - destruct (writes dir guarded js) eqn:Ew; simpl in Em.
    + case_bool_decide; [done|]. injection Em as <-. rewrite <- Ew. constructor; [by intros _|done].
    + injection Em as <-. rewrite <- Ew at 1. constructor; [by rewrite Ew|done].
Qed.
End moves.

(** Two threads of any result types taking turns, [true] for the first. *)
Fixpoint race {A B} (turns : list (bool * choice)) (x : thread A * thread B * store) : option (thread A * thread B * store) :=
  match turns with
  | [] => Some x
  | (one, c) :: turns =>
      let '(t1, t2, s) := x in
      if one : bool then y ← act c t1 s; race turns (y.1, t2, y.2)
      else y ← act c t2 s; race turns (t1, y.1, y.2)
  end.

(** ** What can go wrong *)

(** A pending list that cannot be parsed stays: every later contact fails. *)
Lemma unreadable_list_stays `{IrohKeys} `{SerdeJson (list PendingAgent)} dir k w e :
  faults w = [] → pending_of (fs w !! pending_path dir) = Err e →
  ∃ e' w', record_pending dir k w = (Err e', w') ∧ fs w' !! pending_path dir = fs w !! pending_path dir.
Proof.
  intros Hq He. unfold record_pending, mbind at 1, M_bind at 1.
  destruct (ensure_dir dir w) as [[[]|e1] w1] eqn:E1; apply ensure_dir_spec in E1 as [[[pre Hf] _ _ _ _] Hx];
    (assert (Hp : fs w1 !! pending_path dir = fs w !! pending_path dir) by (rewrite pending_path_eq; apply Hx)); [|by eexists _, _].
  rewrite Hq in Hf. symmetry in Hf. apply app_nil in Hf as [_ Hf].
  unfold mbind at 1, M_bind at 1, now_unix, now_m.
  unfold mbind, M_bind. destruct (now w1) as [t w2] eqn:En. simpl.
  assert (Hw : fs w2 = fs w1 ∧ faults w2 = faults w1) by (unfold now in En; destruct (clock w1) as [|? []]; by simplify_eq).
  destruct Hw as [Hfs Hfa]. rewrite (pending_quiet dir w2) by (by rewrite Hfa). rewrite Hfs, Hp, He.
  eexists _, _. split; [done|]. by rewrite Hfs.
Qed.

(** A codec that, like JSON, knows where a document ends and refuses more. *)
Module Framed.
Import DemoJson.
Definition unframe (b : bytes) : option bytes :=
  match list_find (λ x, x = LF) b with
  | Some (i, _) => if bool_decide (S i = length b) then Some (take i b) else None
  | None => None
  end.
#[export] Instance framed_json `{Countable T} : SerdeJson T := {
  to_vec_pretty x := Ok (pos_bits (encode x) ++ [LF]);
  from_slice b :=
    match unframe b with
    | Some b => match decode (bits_pos b) with Some x => Ok x | None => Err (anyhow "expected value") end
    | None => Err (anyhow "trailing characters")
    end
}.
Lemma pos_bits_no_LF p : LF ∉ pos_bits p.
Proof. induction p; simpl; set_solver. Qed.
Lemma unframe_pos_bits p : unframe (pos_bits p ++ [LF]) = Some (pos_bits p).
Proof.
  unfold unframe. assert (E : list_find (λ x, x = LF) (pos_bits p ++ [LF]) = Some (length (pos_bits p), LF)).
  { apply list_find_Some. split_and!; [by rewrite lookup_app_r, Nat.sub_diag by lia|done|].
    intros j y Hj Hlt ->. rewrite lookup_app_l in Hj by done. by apply list_elem_of_lookup_2, pos_bits_no_LF in Hj. }
  rewrite E, length_app, bool_decide_eq_true_2 by (simpl; lia). by rewrite take_app_length.
Qed.
#[export] Instance framed_json_laws `{Countable T} wf : SerdeJsonLaws T wf.
Proof. split; [done|]. intros x b _ [= <-]. simpl. by rewrite unframe_pos_bits, bits_pos_bits, decode_encode. Qed.
End Framed.

Section examples.
Import DemoKeys Framed.

Definition piece : choice := Goes (2 ^ 15).
Definition goes (n l : nat) : list move := replicate l (Turn n piece).
Definition demo_store (approved : bytes) (pending : list PendingAgent) : store :=
  mkStore (<[["/"; "state"] := EDir 448]> (<[approved_path demo_root := EFile 0]> {[ pending_path demo_root := EFile 1 ]}))
    (<[0%nat := mkFile approved 420]> {[ 1%nat := mkFile (match to_vec_pretty pending with Ok b => b | Err _ => [] end) 420 ]}) 2 18.
Definition known_agent : PendingAgent := mkPendingAgent (pk_to_string (demo_pk x02)) 3 4 2.

Definition turns_of (one : bool) (l : nat) : list (bool * choice) := replicate l (one, piece).
Definition tearing : list (bool * choice) :=
  turns_of true 3 ++ [(true, Clock 9)] ++ turns_of true 3 ++ turns_of false 3 ++ [(false, Clock 9)] ++ turns_of false 3 ++
  turns_of true 1 ++ turns_of false 1 ++ turns_of true 1 ++ turns_of false 1 ++ turns_of true 2 ++ turns_of false 2.

(** Handlers of one [serve] have one process number, so one side file: when two
    unapproved agents dial at the same time, one handler's bytes can land on top
    of the other's, in a file that no handler wrote and that cannot be read. *)
Theorem contacts_can_tear_the_list :
  ∃ turns,
    match race turns (Ready (record_pending_calls 42 demo_root (demo_pk x01)),
                      Ready (record_pending_calls 42 demo_root (demo_pk x02)), demo_store [] [known_agent]) with
    | Some (Ready (Done (Ok _)), Ready (Done (Err _)), s) => is_err (pending_of (view s !! pending_path demo_root)) = true
    | _ => False
    end.
Proof. exists tearing. vm_compute. reflexivity. Qed.

(** Two [approve] commands that run at the same time can both report success and
    leave one of their keys unapproved. *)
Theorem approvals_can_be_lost :
  ∃ turns,
    match race turns (Ready (approve_calls 42 demo_root (demo_pk x01)),
                      Ready (approve_calls 43 demo_root (demo_pk x02)), demo_store [] []) with
    | Some (Ready (Done (Ok true)), Ready (Done (Ok true)), s) =>
        approved_of (view s !! approved_path demo_root) = Ok [demo_pk x01]
    | _ => False
    end.
Proof. exists (turns_of true 7 ++ turns_of false 14 ++ turns_of true 7). vm_compute. reflexivity. Qed.

Lemma demo_sound b l : sound (demo_store b l).
Proof.
  assert (Hn : ∀ p i, names (demo_store b l) !! p = Some (EFile i) →
    (p = approved_path demo_root ∧ i = 0%nat) ∨ (p = pending_path demo_root ∧ i = 1%nat)).
  { intros p i. simpl. rewrite !lookup_insert_Some, lookup_singleton_Some.
    intros [[? ?]|[? [[? ?]|[? [? ?]]]]]; simplify_eq; auto. }
  split; [intros p q i [[? ?]|[? ?]]%Hn [[? ?]|[? ?]]%Hn; congruence|intros p i [[? ->]|[? ->]]%Hn; simpl; lia].
Qed.

(** Two operators and a dialling agent at once; the first operator's command is
    in the middle of its side file when the second one's goes through. *)
Definition busy : list move :=
  [Start 42 [JApprove (demo_pk x01)]; Start 43 [JApprove (demo_pk x02)]; Start 44 [JContact (demo_pk x03)]] ++
  goes 0 9 ++ goes 2 3 ++ [Turn 2 (Clock 9)] ++ goes 2 4 ++ goes 1 14 ++ goes 2 3.
Definition busy_job (j : job) : Prop :=
  j = JApprove (demo_pk x01) ∨ j = JApprove (demo_pk x02) ∨ j = JContact (demo_pk x03).
Definition busy_end (guarded : list path) : Machine :=
  default (demo_store [] [], []) (run_moves demo_root guarded busy (demo_store [] [], [])).
Lemma busy_reached guarded :
  is_Some (run_moves demo_root guarded busy (demo_store [] [], [])) →
  rtc (step demo_root guarded busy_job) (demo_store [] [], []) (busy_end guarded).
Proof.
  intros [m E]. unfold busy_end. rewrite E. apply (run_moves_reach demo_root guarded busy_job) with busy; [|done].
  assert (Hgo : ∀ n l, Forall (move_asked busy_job) (goes n l)) by (intros n l; by apply Forall_replicate).
  unfold busy. rewrite !Forall_app. split_and!; try apply Hgo; [|by constructor].
  rewrite !Forall_cons. unfold move_asked. rewrite !Forall_singleton. unfold busy_job. auto 6.
Qed.

Lemma approvals_are_asked_for_witness :
  let '(s', ts) := busy_end [approved_path demo_root] in
  approved_of (view s' !! approved_path demo_root) = Ok [demo_pk x02] ∧
  (busy_job (JApprove (demo_pk x02)) ∨
    ∃ f, view (demo_store [] []) !! approved_path demo_root = Some (NFile f) ∧ approves (f_data f) (demo_pk x02)).
Proof.
  destruct (busy_end [approved_path demo_root]) as [s' ts] eqn:E.
  assert (Hl : approved_of (view s' !! approved_path demo_root) = Ok [demo_pk x02]).
  { change s' with (s', ts).1. rewrite <- E. vm_compute. reflexivity. }
  split; [done|].
  refine (approvals_are_asked_for (λ _, True) demo_root busy_job (demo_store [] []) s' ts _ (demo_pk x02) (demo_sound [] []) _ Hl _);
    [|by left].
  rewrite <- E. apply busy_reached. vm_compute. by eexists.
Defined.

Lemma shared_files_stay_whole_witness :
  let '(s', ts) := busy_end (shared_files demo_root) in
  pending_of (view s' !! pending_path demo_root) = Ok [mkPendingAgent (pk_to_string (demo_pk x03)) 9 9 1] ∧
  (∀ f, view s' !! pending_path demo_root = Some (NFile f) → ∃ l, from_slice (f_data f) = Ok l ∧ well_typed l) ∧
  (∀ f, view s' !! status_path demo_root = Some (NFile f) → ∃ st : Status, from_slice (f_data f) = Ok st).
Proof.
  destruct (busy_end (shared_files demo_root)) as [s' ts] eqn:E. split.
  { change s' with (s', ts).1. rewrite <- E. vm_compute. reflexivity. }
  refine (shared_files_stay_whole (λ _, True) demo_root busy_job (demo_store [] []) s' ts (demo_sound [] []) _ _ _ _).
  - done.
  - vm_compute view. intros f [= <-]. exists []. split; [vm_compute; reflexivity|]. split; simpl; [constructor|constructor|lia].
  - intros f. vm_compute. discriminate.
  - rewrite <- E. apply busy_reached. vm_compute. by eexists.
Defined.

(** An approval of the one agent that is known to be waiting. *)
Definition waiting_store : store := demo_store [] [known_agent].
Lemma waiting_usable : usable demo_root (shown 9 42 waiting_store).
Proof.
  split; [done| |].
  - intros k [l Hl] Hne. change (root demo_root) with ["/"; "state"] in Hl.
    destruct k as [|a [|b [|c k]]]; [done|..]; injection Hl as Hl; subst; [left|right; exists 448|done]; vm_compute; reflexivity.
  - intros x Hx. rewrite !elem_of_cons, elem_of_nil in Hx. destruct Hx as [->|[->|[->|[->|[]]]]]; vm_compute; exact I.
Qed.
Lemma approval_lands_call_by_call_witness :
  (∃ r s', rtc (turn 9) (Ready (approve_calls 42 demo_root (demo_pk x02)), waiting_store) (Ready (Done r), s')) ∧
  ∀ r s', rtc (turn 9) (Ready (approve_calls 42 demo_root (demo_pk x02)), waiting_store) (Ready (Done r), s') →
    r = Ok true ∧
    (∃ new, approved_of (view s' !! approved_path demo_root) = Ok new ∧ ∀ x, x ∈ new ↔ x = demo_pk x02 ∨ x ∈ []) ∧
    pending_of (view s' !! pending_path demo_root) = Ok [].
Proof.
  apply (approval_lands_call_by_call 9 42 demo_root (demo_pk x02) waiting_store [] [known_agent]).
  - unfold u64_max. lia.
  - apply demo_sound.
  - exact waiting_usable.
  - vm_compute. reflexivity.
  - vm_compute. reflexivity.
  - repeat constructor; by vm_compute.
Defined.
End examples.
