(* ===== verification/Controller.v ===== *)
(** * The serving controller (src/src/controller.rs, the [serve] side)

    [serve] is a set of tokio tasks that share the session map, the status file
    and the state directory: a handler per connection, two watchers per session,
    the canary and the serving loop itself.  A [task] is what one of them has
    still to do, cut at the points where it awaits; [run_task] is one piece of a
    task between two awaits, given what it was waiting for ([stimulus]); [step]
    interleaves the tasks with each other, with the network and with other
    processes that write the state directory. *)

From S2P Require Import Prelude Text Stream Fs Crypto Proto Net State Demo.

(** ** Hash maps, iterated in some order *)

Section assoc.
Context {K V : Type} `{EqDecision K}.
Fixpoint assoc_get (k : K) (l : list (K * V)) : option V :=
  match l with
  | [] => None
  | (k', v) :: l => if bool_decide (k' = k) then Some v else assoc_get k l
  end.
Fixpoint assoc_insert (k : K) (v : V) (l : list (K * V)) : list (K * V) :=
  match l with
  | [] => [(k, v)]
  | (k', v') :: l => if bool_decide (k' = k) then (k, v) :: l else (k', v') :: assoc_insert k v l
  end.
Definition assoc_remove (k : K) (l : list (K * V)) : list (K * V) := filter (λ e, e.1 ≠ k) l.

Lemma assoc_get_insert k v l k' :
  assoc_get k' (assoc_insert k v l) = if bool_decide (k = k') then Some v else assoc_get k' l.
Proof.
  induction l as [|[k0 v0] l IH]; simpl; [done|].
  destruct (bool_decide_reflect (k0 = k)) as [->|Hne]; simpl.
  - by destruct (bool_decide_reflect (k = k')) as [->|].
  - rewrite IH. destruct (bool_decide_reflect (k0 = k')) as [->|]; [|done].
    by rewrite (bool_decide_false (k = k')) by congruence.
Qed.
Lemma assoc_get_remove k l k' :
  assoc_get k' (assoc_remove k l) = if bool_decide (k = k') then None else assoc_get k' l.
Proof.
  unfold assoc_remove. induction l as [|[k0 v0] l IH]; simpl; [by case_bool_decide|].
  rewrite filter_cons. simpl. destruct (decide (k0 ≠ k)) as [Hne|He%dec_stable]; simpl; rewrite IH.
  - destruct (bool_decide_reflect (k0 = k')) as [->|]; [|done].
    by rewrite (bool_decide_false (k = k')) by congruence.
  - subst k0. by destruct (bool_decide_reflect (k = k')).
Qed.
Lemma assoc_get_elem k v l : assoc_get k l = Some v → (k, v) ∈ l.
Proof.
  induction l as [|[k0 v0] l IH]; simpl; [done|]. case_bool_decide; intros; simplify_eq; set_solver.
Qed.
Lemma assoc_get_Some k v l : NoDup l.*1 → (k, v) ∈ l → assoc_get k l = Some v.
Proof.
  induction l as [|[k0 v0] l IH]; simpl; [by intros _ ?%not_elem_of_nil|].
  intros [Hn Hd]%NoDup_cons [E|Hin]%elem_of_cons; [by simplify_eq; rewrite bool_decide_true|].
  rewrite bool_decide_false; [by apply IH|]. intros ->. destruct Hn.
  apply list_elem_of_fmap. by exists (k, v).
Qed.
Lemma assoc_insert_keys k v l :
  (assoc_insert k v l).*1 = if bool_decide (k ∈ l.*1) then l.*1 else l.*1 ++ [k].
Proof.
  induction l as [|[k0 v0] l IH]; [by rewrite bool_decide_false by apply not_elem_of_nil|]. cbn [assoc_insert].
  destruct (bool_decide_reflect (k0 = k)) as [->|Hne]; rewrite !fmap_cons; simpl.
  - rewrite bool_decide_true; [done|]. apply elem_of_cons. by left.
  - rewrite IH. repeat case_bool_decide; set_solver.
Qed.
Lemma assoc_insert_NoDup k v l : NoDup l.*1 → NoDup (assoc_insert k v l).*1.
Proof.
  intros Hl. rewrite assoc_insert_keys. case_bool_decide; [done|].
  apply NoDup_app. split_and!; [done|set_solver|apply NoDup_singleton].
Qed.
Lemma assoc_remove_sub k l e : e ∈ assoc_remove k l → e ∈ l.
Proof. unfold assoc_remove. intros [_ ?]%list_elem_of_filter. done. Qed.
Lemma assoc_remove_NoDup k l : NoDup l.*1 → NoDup (assoc_remove k l).*1.
Proof.
  unfold assoc_remove. induction l as [|[k0 v0] l IH]; simpl; [done|]. intros [Hn Hd]%NoDup_cons.
  rewrite filter_cons. case_decide; simpl; [|by apply IH]. constructor; [|by apply IH].
  intros ([k1 v1] & E & Hin)%list_elem_of_fmap. simpl in E. subst. apply list_elem_of_filter in Hin as [_ Hin].
  destruct Hn. apply list_elem_of_fmap. by exists (k1, v1).
Qed.
Lemma assoc_insert_elem k v l e : e ∈ assoc_insert k v l → e = (k, v) ∨ (e ∈ l ∧ e.1 ≠ k) ∨ (e ∈ l ∧ ¬ NoDup l.*1).
Proof.
  induction l as [|[k0 v0] l IH]; simpl; [set_solver|].
  case_bool_decide as Hk; [subst|]; intros [->|Hin]%elem_of_cons; [by left| | |].
  - destruct (decide (e.1 = k)) as [He|]; [|set_solver]. right. right. split; [set_solver|].
    intros [Hn _]%NoDup_cons. destruct Hn. rewrite <- He. by apply list_elem_of_fmap_2.
  - right. left. split; [apply elem_of_cons; by left|done].
  - apply IH in Hin as [?|[[? ?]|[? Hn]]]; [by left|right; left; set_solver|].
    right. right. split; [set_solver|]. by intros [_ ?]%NoDup_cons.
Qed.
End assoc.

(** ** Connections, sessions and what the controller keeps *)

Section controller.
Context `{IrohKeys} `{RelayUrls} `{SerdeJson (list PendingAgent)} `{SerdeJson Status} `{Postcard Admission}.

(** A connection: [conn.stable_id()] and [conn.remote_id()]. *)
Record Conn := mkConn { stable_id : Z; remote_id : PublicKey }.
Record Session := mkSession { s_conn : Conn; s_id : Z; s_since : Z }.

(** What has happened, for the theorems; the program does not read it. *)
Inductive event :=
  | Decided (c : Conn) (w : World)       (** the approved list was read, in this world *)
  | Told (c : Conn) (a : Admission)      (** the admission went out *)
  | Inserted (c : Conn)
  | Removed (c : Conn)
  | Cleared.

Record Ctl := mkCtl {
  ctl_world : World;
  ctl_sessions : list (PublicKey * Session);
  ctl_status : Status;
  ctl_restart : bool;                  (** the canary's oneshot *)
  ctl_paths : gmap Z (list Path);      (** [conn.paths()] *)
  ctl_closed : gset Z;                 (** connections [conn.closed()] returns for *)
  ctl_dialled : gset Z;                (** every connection there has been *)
  ctl_log : list event
}.

Definition set_world (w : World) (s : Ctl) : Ctl :=
  mkCtl w (ctl_sessions s) (ctl_status s) (ctl_restart s) (ctl_paths s) (ctl_closed s) (ctl_dialled s) (ctl_log s).
Definition set_sessions (l : list (PublicKey * Session)) (s : Ctl) : Ctl :=
  mkCtl (ctl_world s) l (ctl_status s) (ctl_restart s) (ctl_paths s) (ctl_closed s) (ctl_dialled s) (ctl_log s).
Definition set_status (st : Status) (s : Ctl) : Ctl :=
  mkCtl (ctl_world s) (ctl_sessions s) st (ctl_restart s) (ctl_paths s) (ctl_closed s) (ctl_dialled s) (ctl_log s).
Definition set_restart (b : bool) (s : Ctl) : Ctl :=
  mkCtl (ctl_world s) (ctl_sessions s) (ctl_status s) b (ctl_paths s) (ctl_closed s) (ctl_dialled s) (ctl_log s).
Definition set_net (p : gmap Z (list Path)) (closed dialled : gset Z) (s : Ctl) : Ctl :=
  mkCtl (ctl_world s) (ctl_sessions s) (ctl_status s) (ctl_restart s) p closed dialled (ctl_log s).
Definition note (e : event) (s : Ctl) : Ctl :=
  mkCtl (ctl_world s) (ctl_sessions s) (ctl_status s) (ctl_restart s) (ctl_paths s) (ctl_closed s) (ctl_dialled s)
    (ctl_log s ++ [e]).

Definition paths_of (s : Ctl) (c : Conn) : list Path := default [] (ctl_paths s !! stable_id c).
Definition is_closed (s : Ctl) (c : Conn) : bool := bool_decide (stable_id c ∈ ctl_closed s).

(** [StatusFile::update]: the change, the time, and the file, whose failure is
    only logged. *)
Definition with_updated (t : Z) (st : Status) : Status :=
  mkStatus (st_node_id st) (st_pid st) t (st_direct_addrs st) (st_dialable st) (st_probe_mode st)
    (st_last_probe_ok_unix st) (st_last_probe_path st) (st_last_probe_error st)
    (st_consecutive_probe_failures st) (st_endpoint_restarts st) (st_sessions st).
Definition update (dir : StateDir) (f : Status → Status) (s : Ctl) : Ctl :=
  let st := f (ctl_status s) in
  match now_unix (ctl_world s) with
  | (Ok t, w) =>
      let st := with_updated t st in
      set_status st (set_world (write_status dir st w).2 s)
  | (Err _, w) => set_status st (set_world w s)
  end.

Definition with_sessions (l : list SessionInfo) (st : Status) : Status :=
  mkStatus (st_node_id st) (st_pid st) (st_updated_unix st) (st_direct_addrs st) (st_dialable st)
    (st_probe_mode st) (st_last_probe_ok_unix st) (st_last_probe_path st) (st_last_probe_error st)
    (st_consecutive_probe_failures st) (st_endpoint_restarts st) l.
Definition with_direct_addrs (l : list string) (st : Status) : Status :=
  mkStatus (st_node_id st) (st_pid st) (st_updated_unix st) l (st_dialable st)
    (st_probe_mode st) (st_last_probe_ok_unix st) (st_last_probe_path st) (st_last_probe_error st)
    (st_consecutive_probe_failures st) (st_endpoint_restarts st) (st_sessions st).
(** The closures of the canary and of the restart. *)
Definition probe_ok_status (t : Z) (path : PathKind) (st : Status) : Status :=
  mkStatus (st_node_id st) (st_pid st) (st_updated_unix st) (st_direct_addrs st) (Some true)
    (st_probe_mode st) (Some t) (Some path) None 0 (st_endpoint_restarts st) (st_sessions st).
Definition probe_failed_status (msg : string) (failures : Z) (st : Status) : Status :=
  mkStatus (st_node_id st) (st_pid st) (st_updated_unix st) (st_direct_addrs st) (Some false)
    (st_probe_mode st) (st_last_probe_ok_unix st) (st_last_probe_path st) (Some msg) failures
    (st_endpoint_restarts st) (st_sessions st).
Definition restarted_status (st : Status) : Status :=
  mkStatus (st_node_id st) (st_pid st) (st_updated_unix st) (st_direct_addrs st) (st_dialable st)
    (st_probe_mode st) (st_last_probe_ok_unix st) (st_last_probe_path st) (st_last_probe_error st)
    0 (u32_add (st_endpoint_restarts st) 1) [].
Definition initial_status (node_id : string) (pid t : Z) (m : ProbeMode) : Status :=
  mkStatus node_id pid t [] None m None None None 0 0 [].

(** What [publish_sessions] collects under the session lock. *)
Definition session_infos (s : Ctl) : list SessionInfo :=
  (λ e, let '(path, remote) := session_path_report (paths_of s (s_conn e.2)) in
        mkSessionInfo (pk_to_string e.1) path remote (s_since e.2)) <$> ctl_sessions s.

(** ** Tasks *)

(** What follows a publication. *)
Inductive after :=
  | AfterAccept (c : Conn)
  | AfterChange (c : Conn)
  | AfterClose
  | AfterCanary (failures : Z).
Inductive task :=
  | Accept (c : Conn)                            (** [Acceptor::accept] entered *)
  | Admit (c : Conn) (a : Admission)             (** about to send the admission *)
  | Hold (c : Conn)                              (** pending: until the agent closes *)
  | Insert (c : Conn)
  | Snapshot (k : after)                         (** [publish_sessions], first lock *)
  | Publish (l : list SessionInfo) (k : after)   (** [publish_sessions], second lock *)
  | WatchPath (c : Conn)
  | WatchClose (c : Conn)
  | Canary (failures : Z)                        (** top of the canary's loop *)
  | Probing (failures : Z)
  | ServeRun                                     (** [serve] in its [select!] *)
  | ServeClear | ServeRestarted | ServeBind.     (** [serve] between two endpoints *)

(** What a task may be waiting for. *)
Inductive stimulus :=
  | Go
  | UniStream (r : result writer) (finish : result unit)   (** [open_uni], and its [finish] *)
  | PathChanged
  | Probed (r : result PathKind)
  | Bound (r : result (list SocketAddr)).

(** [send_admission]: did the whole message go out? *)
Definition send_admission (r : result writer) (finish : result unit) (a : Admission) : bool :=
  match r with
  | Err _ => false
  | Ok wr => is_ok (write_msg a wr).1 && is_ok finish
  end.

(** The tasks a finished publication goes on as. *)
Definition resume (k : after) : list task :=
  match k with
  | AfterAccept c => [WatchPath c; WatchClose c]
  | AfterChange c => [WatchPath c]
  | AfterClose => []
  | AfterCanary n => [Probing n]
  end.

Section running.
Context (dir : StateDir) (restart_after : Z).

(** [Acceptor::accept] up to its first await: the decision. *)
Definition decide_admission (c : Conn) (s : Ctl) : list task * Ctl :=
  let '(r, w) := approved dir (ctl_world s) in
  let ok := match r with Ok l => bool_decide (remote_id c ∈ l) | Err _ => false end in
  let s1 := note (Decided c (ctl_world s)) (set_world w s) in
  if ok then ([Admit c Approved], s1)
  else ([Admit c Pending], set_world (record_pending dir (remote_id c) w).2 s1).

Definition insert_session (c : Conn) (s : Ctl) : Ctl :=
  match now_unix (ctl_world s) with
  | (Ok t, w) =>
      note (Inserted c)
        (set_sessions (assoc_insert (remote_id c) (mkSession c (stable_id c) t) (ctl_sessions s)) (set_world w s))
  | (Err _, w) => set_world w s
  end.

(** The close watcher, woken: only its own session is forgotten. *)
Definition forget_session (c : Conn) (s : Ctl) : list task * Ctl :=
  match assoc_get (remote_id c) (ctl_sessions s) with
  | Some x =>
      if bool_decide (s_id x = stable_id c)
      then ([Snapshot AfterClose],
            note (Removed c) (set_sessions (assoc_remove (remote_id c) (ctl_sessions s)) s))
      else ([], s)
  | None => ([], s)
  end.

(** The canary after its probe. *)
Definition canary_verdict (failures : Z) (r : result PathKind) (s : Ctl) : list task * Ctl :=
  match r with
  | Ok path =>
      match now_unix (ctl_world s) with
      | (Ok t, w) => ([Canary 0], update dir (probe_ok_status t path) (set_world w s))
      | (Err _, w) => ([], set_world w s)
      end
  | Err e =>
      let failures := failures + 1 in
      let s := update dir (probe_failed_status (show_alt e) failures) s in
      if bool_decide (restart_after ≤ failures) then ([], set_restart true s)
      else ([Canary failures], s)
  end.

Definition run_task (ev : stimulus) (t : task) (s : Ctl) : option (list task * Ctl) :=
  match t, ev with
  | Accept c, Go => Some (decide_admission c s)
  | Admit c a, UniStream r fin =>
      if send_admission r fin a
      then Some ([match a with Pending => Hold c | Approved => Insert c end], note (Told c a) s)
      else Some ([], s)
  | Hold c, Go => if is_closed s c then Some ([], s) else None
  | Insert c, Go => Some ([Snapshot (AfterAccept c)], insert_session c s)
  | Snapshot k, Go => Some ([Publish (session_infos s) k], s)
  | Publish l k, Go => Some (resume k, update dir (with_sessions l) s)
  | WatchPath c, PathChanged => Some ([Snapshot (AfterChange c)], s)
  | WatchPath c, Go => if is_closed s c then Some ([], s) else None
  | WatchClose c, Go => if is_closed s c then Some (forget_session c s) else None
  | Canary n, Go => Some ([Snapshot (AfterCanary n)], s)
  | Probing n, Probed r => Some (canary_verdict n r s)
  | ServeClear, Go => Some ([ServeRestarted], note Cleared (set_sessions [] s))
  | ServeRestarted, Go => Some ([ServeBind], update dir restarted_status s)
  | ServeBind, Bound (Ok addrs) =>
      Some ([ServeRun; Canary 0], update dir (with_direct_addrs (show_socket_addr <$> addrs)) s)
  | ServeBind, Bound (Err _) => Some ([ServeBind], s)
  | _, _ => None
  end.

(** What the router's shutdown and [canary.abort()] leave running: the spawned
    watchers and their publications. *)
Definition survives (t : task) : bool :=
  match t with
  | WatchPath _ | WatchClose _ => true
  | Snapshot k | Publish _ k => match k with AfterChange _ | AfterClose => true | _ => false end
  | _ => false
  end.

Definition Sys : Type := list task * Ctl.

Inductive step : Sys → Sys → Prop :=
  (** one task proceeds to its next await *)
  | step_task pre t post ev new s s' :
      run_task ev t s = Some (new, s') → step (pre ++ t :: post, s) (pre ++ new ++ post, s')
  (** a stranger or an agent dials; the router hands the connection over *)
  | step_dial ts s c :
      ServeRun ∈ ts → stable_id c ∉ ctl_dialled s →
      step (ts, s) (Accept c :: ts, set_net (ctl_paths s) (ctl_closed s) ({[stable_id c]} ∪ ctl_dialled s) s)
  (** the network: paths change, connections end *)
  | step_net ts s paths more :
      step (ts, s) (ts, set_net paths (more ∪ ctl_closed s) (ctl_dialled s) s)
  (** another process writes the state directory, time passes, faults lie ahead *)
  | step_world ts s w : step (ts, s) (ts, set_world w s)
  (** the restart signal reaches [serve]: canary and router end, the endpoint closes *)
  | step_restart ts s :
      ServeRun ∈ ts → ctl_restart s = true →
      step (ts, s) (ServeClear :: filter survives ts,
                    set_net (ctl_paths s) (ctl_dialled s) (ctl_dialled s) (set_restart false s)).

(** [serve] serving: its first endpoint is bound and its address published. *)
Definition init_sys (w : World) (st : Status) : Sys :=
  ([ServeRun; Canary 0], mkCtl w [] st false ∅ ∅ ∅ []).
Definition reachable (w : World) (st : Status) : Sys → Prop := rtc step (init_sys w st).

End running.

(** ** The start of [serve] *)

(** What answers on a control socket. *)
Class ControlSocket := ctl_connect : path → result unit.

Record ServeConfig := mkServeConfig {
  sc_state : StateDir;
  sc_relay : RelayChoice;
  sc_probe_interval : Z;           (** seconds *)
  sc_probe_timeout : Z;
  sc_restart_after : Z;
  sc_bind_addr : option SocketAddr
}.

Section starting.
Context `{!EndpointBuild} `{!ControlSocket}.

(** [serve] up to its first [select!]: what it printed and the tasks it started.
    [listen] is the outcome of binding the control socket, [ip_addrs] what a
    bound endpoint's addresses are. *)
Definition serve_start (listen : path → result unit) (ip_addrs : Endpoint → list SocketAddr) (cfg : ServeConfig)
    : M World (list string * Sys) :=
  let dir := sc_state cfg in
  ensure_dir dir;;
  secret ← load_key dir;
  let node_id := sk_public secret in
  let sock := sock_path dir in
  (if is_ok (ctl_connect sock) then fail (anyhow ("another controller is already serving " +:+ show_path (root dir)))
   else mret tt);;
  ignore (fs_remove_file sock);;
  lift (context ("binding control socket " +:+ show_path sock) (listen sock));;
  ((λ w, (Ok tt, set_fs <[sock := NOther]> w)) : M World unit);;
  let probe_mode := if enabled (sc_relay cfg) then Discovery else Direct in
  me ← gets pid;
  t ← now_unix;
  ep ← lift (bind (Some secret) (sc_relay cfg) Both (sc_bind_addr cfg));
  ((λ w,
    let '(ts, s) := init_sys w (initial_status (pk_to_string node_id) me t probe_mode) in
    let s := update dir (with_direct_addrs (show_socket_addr <$> ip_addrs ep)) s in
    (Ok (["controller node id: " +:+ pk_to_string node_id; "state dir: " +:+ show_path (root dir)], (ts, s)),
     ctl_world s)) : M World (list string * Sys)).
End starting.
End controller.

(** ** The invariant *)

Section invariant.
Context `{IrohKeys} `{RelayUrls} `{SerdeJson (list PendingAgent)} `{SerdeJson Status} `{Postcard Admission}.
Context (dir : StateDir) (restart_after : Z).
Implicit Types (s : Ctl) (t : task) (c : Conn) (sys : Sys).

(** The approved list contained the peer when its connection was decided on. *)
Definition decided_ok (log : list event) (c : Conn) : Prop :=
  ∃ w l, Decided c w ∈ log ∧ (approved dir w).1 = Ok l ∧ remote_id c ∈ l.
Definition admitted (log : list event) (c : Conn) : Prop := decided_ok log c ∧ Told c Approved ∈ log.

Definition task_ok (log : list event) (t : task) : Prop :=
  match t with
  | Admit c Approved => decided_ok log c
  | Insert c => admitted log c
  | _ => True
  end.

(** The task will run the close watcher of [c]. *)
Definition watches (t : task) (c : Conn) : Prop :=
  t = WatchClose c ∨ t = Snapshot (AfterAccept c) ∨ ∃ l, t = Publish l (AfterAccept c).

Definition session_ok (log : list event) (e : PublicKey * Session) : Prop :=
  remote_id (s_conn e.2) = e.1 ∧ s_id e.2 = stable_id (s_conn e.2) ∧ admitted log (s_conn e.2).

Record inv (sys : Sys) : Prop := mkInv {
  inv_keys : NoDup (ctl_sessions sys.2).*1;
  inv_sessions : Forall (session_ok (ctl_log sys.2)) (ctl_sessions sys.2);
  inv_tasks : Forall (task_ok (ctl_log sys.2)) sys.1;
  inv_told c : Told c Approved ∈ ctl_log sys.2 → decided_ok (ctl_log sys.2) c;
  inv_watch : ServeClear ∈ sys.1 ∨
    ∀ p x, (p, x) ∈ ctl_sessions sys.2 → ∃ t, t ∈ sys.1 ∧ watches t (s_conn x)
}.

(** A longer history keeps what was established. *)
Lemma decided_ok_mono log e c : decided_ok log c → decided_ok (log ++ e) c.
Proof. intros (w & l & Hin & Hr). exists w, l. split; [apply elem_of_app; by left|done]. Qed.
Lemma admitted_mono log e c : admitted log c → admitted (log ++ e) c.
Proof. intros [Hd Ht]. split; [by apply decided_ok_mono|apply elem_of_app; by left]. Qed.
Lemma task_ok_mono log e t : task_ok log t → task_ok (log ++ e) t.
Proof. destruct t as [|? []| | | | | | | | | | | |]; simpl; auto using decided_ok_mono, admitted_mono. Qed.
Lemma session_ok_mono log e x : session_ok log x → session_ok (log ++ e) x.
Proof. intros (? & ? & ?). split_and!; auto using admitted_mono. Qed.

(** The status file touches neither the session map nor the history. *)
Lemma update_same f s :
  ctl_sessions (update dir f s) = ctl_sessions s ∧ ctl_log (update dir f s) = ctl_log s ∧
  ctl_closed (update dir f s) = ctl_closed s ∧ ctl_restart (update dir f s) = ctl_restart s ∧
  ctl_dialled (update dir f s) = ctl_dialled s ∧ ctl_paths (update dir f s) = ctl_paths s.
Proof. unfold update. by destruct (now_unix (ctl_world s)) as [[] ?]. Qed.


(** What a publication in progress, or one just finished, watches. *)
Lemma watches_resume k c l : watches (Publish l k) c → ∃ t, t ∈ resume k ∧ watches t c.
Proof.
  intros [?|[?|[? E]]]; [done..|]. injection E as -> ->. exists (WatchClose c).
  split; [simpl; set_solver|by left].
Qed.
Lemma watches_publish k c l : watches (Snapshot k) c → watches (Publish l k) c.
Proof. intros [?|[E|[? ?]]]; [done| |done]. injection E as ->. right. right. by eexists. Qed.

(** What one piece of a task does to the invariant's ingredients. *)
Record good_piece (t : task) (s : Ctl) (new : list task) (s' : Ctl) : Prop := mkGood {
  gp_log : ∃ e, ctl_log s' = ctl_log s ++ e ∧ ∀ c, Told c Approved ∈ e → t = Admit c Approved;
  gp_tasks : task_ok (ctl_log s) t → Forall (task_ok (ctl_log s')) new;
  gp_sessions : ∀ e, e ∈ ctl_sessions s' → e ∈ ctl_sessions s ∨
    (∃ c x, t = Insert c ∧ e = (remote_id c, x) ∧ s_conn x = c ∧ s_id x = stable_id c ∧ new = [Snapshot (AfterAccept c)]);
  gp_keys : NoDup (ctl_sessions s).*1 → NoDup (ctl_sessions s').*1;
  gp_watch : ∀ c, watches t c →
    (∃ t', t' ∈ new ∧ watches t' c) ∨
    (is_closed s c = true ∧
     ∀ p x, (p, x) ∈ ctl_sessions s' → NoDup (ctl_sessions s).*1 → Forall (session_ok (ctl_log s)) (ctl_sessions s) → s_conn x ≠ c)
}.

Lemma log_same t s s' : ctl_log s' = ctl_log s →
  ∃ e, ctl_log s' = ctl_log s ++ e ∧ ∀ c, Told c Approved ∈ e → t = Admit c Approved.
Proof. intros ->. exists []. rewrite app_nil_r. split; [done|]. by intros c ?%not_elem_of_nil. Qed.
Lemma log_note t s s' e : ctl_log s' = ctl_log s ++ [e] → (∀ c, e = Told c Approved → t = Admit c Approved) →
  ∃ e', ctl_log s' = ctl_log s ++ e' ∧ ∀ c, Told c Approved ∈ e' → t = Admit c Approved.
Proof. intros -> He. exists [e]. split; [done|]. intros c E%list_elem_of_singleton. by apply He. Qed.

(** Pieces that leave map and history alone. *)
Lemma good_piece_same t s new s' :
  ctl_sessions s' = ctl_sessions s → ctl_log s' = ctl_log s →
  (task_ok (ctl_log s) t → Forall (task_ok (ctl_log s)) new) →
  (∀ c, watches t c → ∃ t', t' ∈ new ∧ watches t' c) →
  good_piece t s new s'.
Proof.
  intros Hs Hl Ht Hw. split; [by apply log_same|..]; rewrite ?Hs, ?Hl; eauto.
Qed.

Lemma not_watching t c : (∀ c k l, t ≠ WatchClose c ∧ t ≠ Snapshot k ∧ t ≠ Publish l k) → ¬ watches t c.
Proof.
  intros Hn [E|[E|[l E]]]; [destruct (Hn c (AfterAccept c) [])|destruct (Hn c (AfterAccept c) [])|
    destruct (Hn c (AfterAccept c) l)]; naive_solver.
Qed.
Ltac no_watch := intros c0 Hw0; exfalso; revert Hw0; apply not_watching; by intros.

Lemma good_decide c s new s' : decide_admission dir c s = (new, s') → good_piece (Accept c) s new s'.
Proof.
  unfold decide_admission. destruct (approved dir (ctl_world s)) as [r w] eqn:E.
  assert (Hmem : match r with Ok l => bool_decide (remote_id c ∈ l) | Err _ => false end = true →
    decided_ok (ctl_log s ++ [Decided c (ctl_world s)]) c).
  { destruct r as [l|]; [|done]. intros Hin%bool_decide_eq_true. exists (ctl_world s), l.
    split_and!; [set_solver|by rewrite E|done]. }
  destruct (match r with Ok l => _ | Err _ => _ end); intros; simplify_eq;
    (split; [by eapply log_note| |auto|done|no_watch]); intros _; repeat constructor; simpl; auto.
Qed.

Lemma good_insert c s : good_piece (Insert c) s [Snapshot (AfterAccept c)] (insert_session c s).
Proof.
  unfold insert_session. destruct (now_unix_spec (ctl_world s)) as (t & w & -> & _).
  split; [by eapply log_note|intros _; repeat constructor| | |no_watch].
  - simpl. intros e He. apply assoc_insert_elem in He as [->|[[? _]|[? _]]]; [|by left..].
    right. eexists _, _. by split_and!.
  - simpl. apply assoc_insert_NoDup.
Qed.

Lemma good_forget c s new s' :
  is_closed s c = true → forget_session c s = (new, s') → good_piece (WatchClose c) s new s'.
Proof.
  intros Hclosed. unfold forget_session.
  assert (Hkeep : ∀ x, assoc_get (remote_id c) (ctl_sessions s) = x →
    (∀ y, x = Some y → s_id y ≠ stable_id c) →
    ∀ p y, (p, y) ∈ ctl_sessions s → NoDup (ctl_sessions s).*1 →
      Forall (session_ok (ctl_log s)) (ctl_sessions s) → s_conn y ≠ c).
  { intros x Hx Hne p y Hin Hd Hall Hc. pose proof (proj1 (Forall_forall _ _) Hall _ Hin) as (Hr & Hid & _).
    simpl in *. subst c p. rewrite (assoc_get_Some _ y) in Hx by done. by apply (Hne y). }
  assert (Hw : ∀ c0, watches (WatchClose c) c0 → c0 = c) by (intros c0 [?|[?|[? ?]]]; by simplify_eq).
  destruct (assoc_get (remote_id c) (ctl_sessions s)) as [x|] eqn:Eg.
  - case_bool_decide as Hid; intros; simplify_eq.
    + split; [by eapply log_note|intros _; repeat constructor| | |].
      * simpl. intros e He. left. by eapply assoc_remove_sub.
      * simpl. apply assoc_remove_NoDup.
      * intros c0 ->%Hw. right. split; [done|]. simpl. intros p y Hin Hd Hall Hc.
        pose proof Hin as Hin2. apply assoc_remove_sub in Hin2.
        pose proof (proj1 (Forall_forall _ _) Hall _ Hin2) as (Hr & _). simpl in Hr.
        unfold assoc_remove in Hin. apply list_elem_of_filter in Hin as [Hne _]. simpl in Hne. congruence.
    + split; [by apply log_same|by constructor|auto|done|].
      intros c0 ->%Hw. right. split; [done|]. apply (Hkeep (Some x)); [done|]. by intros y [= <-].
  - intros; simplify_eq. split; [by apply log_same|by constructor|auto|done|].
    intros c0 ->%Hw. right. split; [done|]. by apply (Hkeep None).
Qed.

Lemma run_task_good ev t s new s' :
  run_task dir restart_after ev t s = Some (new, s') → t = ServeClear ∨ good_piece t s new s'.
Proof.
  destruct t as [c|c a|c|c|k|l k|c|c|n|n| | | |]; simpl; intros E; try done.
  - destruct ev; try done. right. injection E as E. by apply good_decide.
  - destruct ev as [|r fin| | |]; try done. right. destruct (send_admission r fin a); simplify_eq.
    + split; [by eapply log_note; [done|]; intros; simplify_eq| |auto|done|no_watch]. intros Ht. repeat constructor.
      destruct a; [done|]. simpl in *. split; [by apply decided_ok_mono|]. apply elem_of_app. set_solver.
    + apply good_piece_same; [done|done|by constructor|no_watch].
  - destruct ev; try done. right. destruct (is_closed s c); simplify_eq.
    apply good_piece_same; [done|done|by constructor|no_watch].
  - destruct ev; try done. right. simplify_eq. apply good_insert.
  - destruct ev; try done. right. simplify_eq. apply good_piece_same; [done|done|by repeat constructor|].
    intros c Hw. eexists. split; [by apply list_elem_of_singleton|]. by apply watches_publish.
  - destruct ev; try done. right. simplify_eq. destruct (update_same (with_sessions l) s) as (? & ? & _).
    apply good_piece_same; [done|done|by destruct k; repeat constructor|]. intros c. apply watches_resume.
  - right. destruct ev; try done; [destruct (is_closed s c)|]; simplify_eq;
      (apply good_piece_same; [done|done|by repeat constructor|no_watch]).
  - destruct ev; try done. right. destruct (is_closed s c) eqn:Ec; [|done]. injection E as E. by apply good_forget.
  - destruct ev; try done. right. simplify_eq. apply good_piece_same; [done|done|by repeat constructor|no_watch].
  - destruct ev as [| | |r|]; try done. right. unfold canary_verdict in E. injection E as E. destruct r as [path|e].
    + destruct (now_unix_spec (ctl_world s)) as (t & w & Et & _). rewrite Et in E. simplify_eq.
      destruct (update_same (probe_ok_status t path) (set_world w s)) as (? & ? & _).
      apply good_piece_same; [done|done|by repeat constructor|no_watch].
    + destruct (update_same (probe_failed_status (show_alt e) (n + 1)) s) as (? & ? & _).
      case_bool_decide; simplify_eq; (apply good_piece_same; [done|done|by repeat constructor|no_watch]).
  - auto.
  - destruct ev; try done. right. simplify_eq. destruct (update_same restarted_status s) as (? & ? & _).
    apply good_piece_same; [done|done|by repeat constructor|no_watch].
  - destruct ev as [| | | |[addrs|e]]; try done; right; simplify_eq.
    + destruct (update_same (with_direct_addrs (show_socket_addr <$> addrs)) s) as (? & ? & _).
      apply good_piece_same; [done|done|by repeat constructor|no_watch].
    + apply good_piece_same; [done|done|by repeat constructor|no_watch].
Qed.

Lemma step_task_inv pre t post s new s' :
  t ≠ ServeClear → good_piece t s new s' → inv (pre ++ t :: post, s) → inv (pre ++ new ++ post, s').
Proof.
  intros Hnc [(e & Hlog & Htold') Htasks Hsess Hkeys Hwatch] [Hk Hs Ht Htold Hw]. simpl in *.
  apply Forall_app in Ht as [Hpre [Ht Hpost]%Forall_cons]. split; simpl.
  - auto.
  - apply Forall_forall. intros x Hx. rewrite Hlog.
    apply Hsess in Hx as [Hx|(c & y & -> & -> & Hc & Hid & _)].
    + apply session_ok_mono. by eapply Forall_forall in Hs.
    + split_and!; simpl; rewrite ?Hc; [done..|]. apply admitted_mono. exact Ht.
  - rewrite !Forall_app. split_and!; [|auto|]; rewrite Hlog;
      (eapply Forall_impl; [eassumption|]); intros; by apply task_ok_mono.
  - intros c Hc. rewrite Hlog in *. apply decided_ok_mono. apply elem_of_app in Hc as [?|Hc]; [auto|].
    by rewrite (Htold' _ Hc) in Ht.
  - destruct Hw as [Hc|Hw].
    { left. apply elem_of_app in Hc as [?|[?|?]%elem_of_cons]; [|done|]; rewrite !elem_of_app; auto. }
    right. intros p x Hx. pose proof (Hsess _ Hx) as [Hx0|(c & y & -> & E & Hc & _ & ->)].
    + destruct (Hw _ _ Hx0) as (t0 & Hin & Hwt). apply elem_of_app in Hin as [?|[->|?]%elem_of_cons].
      * exists t0. split; [rewrite !elem_of_app; auto|done].
      * destruct (Hwatch _ Hwt) as [(t' & ? & ?)|[_ Hgone]].
        -- exists t'. split; [rewrite !elem_of_app; auto|done].
        -- by destruct (Hgone _ _ Hx Hk Hs).
      * exists t0. split; [rewrite !elem_of_app; auto|done].
    + simplify_eq/=. exists (Snapshot (AfterAccept (s_conn y))).
      split; [rewrite !elem_of_app; right; left; by apply list_elem_of_singleton|right; by left].
Qed.

Lemma step_inv sys sys' : step dir restart_after sys sys' → inv sys → inv sys'.
Proof.
  intros Hstep Hinv. destruct Hstep as [pre t post ev new s s' E|ts s c Hrun Hfresh|ts s paths more|ts s w|ts s Hrun Hr].
  - assert (t = ServeClear ∨ t ≠ ServeClear) as [->|Hne] by (destruct t; auto).
    + destruct ev; try done. simpl in E. simplify_eq. destruct Hinv as [_ _ Ht Htold _]. simpl in *.
      apply Forall_app in Ht as [Hpre [_ Hpost]%Forall_cons]. split; simpl; [constructor|constructor| | |].
      * rewrite Forall_app, Forall_cons. split_and!; [|done|]; (eapply Forall_impl; [eassumption|]);
          intros; by apply task_ok_mono.
      * intros c [?|Hc]%elem_of_app; [apply decided_ok_mono; auto|]. by apply list_elem_of_singleton in Hc.
      * right. by intros p x ?%not_elem_of_nil.
    + destruct (run_task_good ev t s new s' E) as [?|Hgood]; [done|]. by eapply step_task_inv.
  - destruct Hinv as [? ? ? ? Hw]. split; simpl in *; [done|done|by constructor|done|].
    destruct Hw as [?|Hw]; [left; set_solver|right]. intros p x Hx.
    destruct (Hw p x Hx) as (t & ? & ?). exists t. split; [set_solver|done].
  - destruct Hinv. by split.
  - destruct Hinv. by split.
  - destruct Hinv as [? ? Ht ? _]. split; simpl in *; [done|done| |done|left; set_solver].
    constructor; [done|]. apply Forall_forall. intros t Hin%list_elem_of_filter.
    eapply Forall_forall in Ht; [done|]. apply Hin.
Qed.

Lemma reachable_inv w st sys : reachable dir restart_after w st sys → inv sys.
Proof.
  intros Hr. unfold reachable in Hr. remember (init_sys w st) as s0 eqn:E0.
  assert (Hi : inv s0).
  { subst. split; simpl; [constructor|constructor|by repeat constructor|by intros ? ?%not_elem_of_nil|]. right. by intros ? ? ?%not_elem_of_nil. }
  clear E0. induction Hr as [|x y z Hxy _ IH]; [done|]. apply IH. by eapply step_inv.
Qed.

(** ** Properties of the serving controller *)

(** C1: Admission gate: in every state [serve] can reach, under any interleaving
    of connections, watchers, canary, restarts, I/O faults and other processes
    editing the state directory, an agent has a session only if its key was in
    the approved list when its connection was decided on and it was told so; and
    nobody was ever told [Approved] whose key was not in that list. *)
Theorem only_approved_agents_have_sessions w st ts s :
  reachable dir restart_after w st (ts, s) →
  (∀ p x, (p, x) ∈ ctl_sessions s →
     remote_id (s_conn x) = p ∧ Told (s_conn x) Approved ∈ ctl_log s ∧
     ∃ w0 l, Decided (s_conn x) w0 ∈ ctl_log s ∧ (approved dir w0).1 = Ok l ∧ p ∈ l) ∧
  (∀ c, Told c Approved ∈ ctl_log s →
     ∃ w0 l, Decided c w0 ∈ ctl_log s ∧ (approved dir w0).1 = Ok l ∧ remote_id c ∈ l).
Proof.
  intros Hr. apply reachable_inv in Hr as [_ Hs _ Ht _]. simpl in *. split; [|exact Ht].
  intros p x Hx. pose proof (proj1 (Forall_forall _ _) Hs _ Hx) as (Hp & _ & (w0 & l & ? & ? & ?) & ?).
  simpl in *. subst p. split_and!; eauto.
Qed.

Lemma run_task_sessions ev t s new s' :
  run_task dir restart_after ev t s = Some (new, s') →
  ctl_sessions s' = ctl_sessions s ∨
  (∃ c x, t = Insert c ∧ s_conn x = c ∧ s_id x = stable_id c ∧
     ctl_sessions s' = assoc_insert (remote_id c) x (ctl_sessions s)) ∨
  (∃ c x, t = WatchClose c ∧ is_closed s c = true ∧ assoc_get (remote_id c) (ctl_sessions s) = Some x ∧
     s_id x = stable_id c ∧ ctl_sessions s' = assoc_remove (remote_id c) (ctl_sessions s)) ∨
  (t = ServeClear ∧ ctl_sessions s' = []).
Proof.
  destruct t as [c|c a|c|c|k|l k|c|c|n|n| | | |]; destruct ev as [|r fin| |r|r]; simpl; intros E; try done.
  - left. unfold decide_admission in E. destruct (approved dir (ctl_world s)) as [r w].
    destruct (match r with Ok l => _ | Err _ => _ end); by simplify_eq.
  - left. destruct (send_admission r fin a); by simplify_eq.
  - left. destruct (is_closed s c); by simplify_eq.
  - right. left. simplify_eq. unfold insert_session.
    destruct (now_unix_spec (ctl_world s)) as (t & w & -> & _). by exists c, (mkSession c (stable_id c) t).
  - left. by simplify_eq.
  - left. simplify_eq. apply update_same.
  - left. destruct (is_closed s c); by simplify_eq.
  - left. by simplify_eq.
  - destruct (is_closed s c) eqn:Ec; [|done]. injection E as E. unfold forget_session in E.
    destruct (assoc_get _ _) as [x|] eqn:Eg; [|left; by simplify_eq].
    case_bool_decide; [|left; by simplify_eq]. simplify_eq. right. right. left. exists c, x. by split_and!.
  - left. by simplify_eq.
  - left. unfold canary_verdict in E. injection E as E. destruct r as [path|e].
    + destruct (now_unix (ctl_world s)) as [[t|] w]; simplify_eq; [|done].
      by destruct (update_same (probe_ok_status t path) (set_world w s)) as (-> & _).
    + case_bool_decide; simplify_eq; simpl; apply update_same.
  - simplify_eq. auto.
  - left. simplify_eq. apply update_same.
  - left. destruct r as [addrs|]; simplify_eq; [apply update_same|done].
Qed.

(** *** A connection is taken in once *)

(** Connections on their way into the session map. *)
Definition incoming (t : task) : option Z :=
  match t with Accept c | Admit c _ | Insert c => Some (stable_id c) | _ => None end.
Record once (sys : Sys) : Prop := mkOnce {
  once_each : NoDup (omap incoming sys.1);
  once_dialled i : i ∈ omap incoming sys.1 → i ∈ ctl_dialled sys.2;
  once_in p x : (p, x) ∈ ctl_sessions sys.2 → ¬ (s_id x ∈ omap incoming sys.1) ∧ s_id x ∈ ctl_dialled sys.2
}.
Local Ltac told := split_and!; [done|solve [auto]|done].
Lemma run_task_incoming ev t s new s' :
  run_task dir restart_after ev t s = Some (new, s') →
  ctl_dialled s' = ctl_dialled s ∧ (omap incoming new = omap incoming [t] ∨ omap incoming new = []) ∧
  (∀ c, t = Insert c → omap incoming new = []).
Proof.
  assert (Hup : ∀ f s0, ctl_dialled (update dir f s0) = ctl_dialled s0) by (intros; apply update_same).
  destruct t as [c|c a|c|c|k|l k|c|c|n|n| | | |]; destruct ev as [|r fin| |r|r]; simpl; intros E; try done.
  - unfold decide_admission in E. destruct (approved dir (ctl_world s)) as [r w].
    destruct (match r with Ok l => _ | Err _ => _ end); (simplify_eq; told).
  - destruct (send_admission r fin a); [|simplify_eq; told]. destruct a; (simplify_eq; told).
  - destruct (is_closed s c); (simplify_eq; told).
  - simplify_eq. unfold insert_session. destruct (now_unix (ctl_world s)) as [[t|] w]; told.
  - simplify_eq. told.
  - simplify_eq. rewrite Hup. destruct k; told.
  - destruct (is_closed s c); (simplify_eq; told).
  - simplify_eq. told.
  - destruct (is_closed s c); [|done]. injection E as E. unfold forget_session in E.
    destruct (assoc_get _ _); [case_bool_decide|]; (simplify_eq; told).
  - simplify_eq. told.
  - unfold canary_verdict in E. injection E as E. destruct r as [path|e].
    + destruct (now_unix (ctl_world s)) as [[t|] w]; simplify_eq; rewrite ?Hup; told.
    + case_bool_decide; simplify_eq; simpl; rewrite Hup; told.
  - simplify_eq. told.
  - simplify_eq. rewrite Hup. told.
  - destruct r as [addrs|]; simplify_eq; rewrite ?Hup; told.
Qed.

Lemma step_once sys sys' : step dir restart_after sys sys' → inv sys → once sys → once sys'.
Proof.
  intros Hstep [Hkeys _ _ _ _] [Hnd Hdl Hin]. destruct Hstep as [pre t post ev new s s' E|ts s c Hrun Hfresh|ts s paths more|ts s w|ts s Hrun Hr].
  - pose proof (run_task_sessions _ _ _ _ _ E) as Hs. apply run_task_incoming in E as (Hd & Hnew & Hins). simpl in *.
    rewrite !omap_app in *. change (omap incoming (t :: post)) with (omap incoming ([t] ++ post)) in *. rewrite omap_app in *.
    assert (Hsub : ∀ i, i ∈ omap incoming pre ++ omap incoming new ++ omap incoming post →
      i ∈ omap incoming pre ++ omap incoming [t] ++ omap incoming post).
    { intros i. destruct Hnew as [->| ->]; [done|]. set_solver. }
    split; simpl; rewrite ?omap_app, ?Hd.
    + destruct Hnew as [->| ->]; [done|]. simpl. rewrite !NoDup_app in *. set_solver.
    + auto.
    + intros p x Hx.
      assert (Hold : (p, x) ∈ ctl_sessions s → ¬ (s_id x ∈ omap incoming pre ++ omap incoming new ++ omap incoming post) ∧ s_id x ∈ ctl_dialled s).
      { intros Hx0. destruct (Hin p x Hx0) as [Hn ?]. split; [|done]. by intros ?%Hsub. }
      destruct Hs as [Hs|[(c & y & -> & _ & Hy & Hs)|[(c & y & -> & _ & _ & _ & Hs)|[-> Hs]]]]; rewrite Hs in Hx; [by apply Hold| | |].
      * apply assoc_insert_elem in Hx as [Hx|[[Hx _]|[Hx _]]]; [|by apply Hold..]. injection Hx as -> ->.
        rewrite (Hins c eq_refl), Hy. simpl in *. split; [|apply Hdl; set_solver].
        apply NoDup_app in Hnd as (_ & Hnd1 & [Hnd2 _]%NoDup_cons). intros [Hi|Hi]%elem_of_app; [|done].
        apply (Hnd1 _ Hi). set_solver.
      * apply Hold. by eapply assoc_remove_sub.
      * set_solver.
  - split; simpl in *; [|set_solver|].
    + constructor; [|done]. by intros ?%Hdl.
    + intros p x Hx. destruct (Hin p x Hx) as [Hn Hd]. split; [|set_solver].
      intros [E|?]%elem_of_cons; [|done]. congruence.
  - by split.
  - by split.
  - assert (Hnone : omap incoming (ServeClear :: filter survives ts) = []).
    { simpl. clear. induction ts as [|t ts IH]; [done|]. rewrite filter_cons. case_decide as Ht; [|done].
      simpl. rewrite IH. by destruct t. }
    split; simpl in *; rewrite Hnone; [constructor|set_solver|]. intros p x Hx. destruct (Hin p x Hx). set_solver.
Qed.
Lemma reachable_once w st sys : reachable dir restart_after w st sys → once sys.
Proof.
  intros Hr. unfold reachable in Hr.
  assert (Hi : once (init_sys w st)) by (split; simpl; [constructor|set_solver|set_solver]).
  assert (Hv : inv (init_sys w st)) by (apply (reachable_inv w st), rtc_refl).
  induction Hr as [|x y z Hxy _ IH]; [done|]. apply IH; [by eapply step_once|by eapply step_inv].
Qed.

(** C20: A session is only ever dropped or replaced for a reason of its own: if a
    step of the system changes what is listed for an agent, then that very
    connection has closed and nothing is listed any more; or another connection
    of the same agent, on the approved list when it was decided on and told so,
    is at this moment being taken in and is listed now; or [serve] is rebuilding
    its endpoint and nothing is listed at all.  In particular the watcher of an
    old connection never evicts the session of a redial. *)
Theorem session_ends_only_for_cause w st ts s ts' s' p x :
  reachable dir restart_after w st (ts, s) → step dir restart_after (ts, s) (ts', s') →
  assoc_get p (ctl_sessions s) = Some x →
  assoc_get p (ctl_sessions s') = Some x ∨
  (is_closed s (s_conn x) = true ∧ assoc_get p (ctl_sessions s') = None) ∨
  (∃ y, assoc_get p (ctl_sessions s') = Some y ∧ Insert (s_conn y) ∈ ts ∧ remote_id (s_conn y) = p ∧
     stable_id (s_conn y) ≠ stable_id (s_conn x) ∧ Told (s_conn y) Approved ∈ ctl_log s ∧
     ∃ w0 l, Decided (s_conn y) w0 ∈ ctl_log s ∧ (approved dir w0).1 = Ok l ∧ p ∈ l) ∨
  (ServeClear ∈ ts ∧ ctl_sessions s' = []).
Proof.
  intros Hr Hstep Hx. pose proof (reachable_once _ _ _ Hr) as [_ _ Honce]. apply reachable_inv in Hr as [_ Hs Ht _ _]. simpl in *.
  apply assoc_get_elem in Hx as Hel. pose proof (proj1 (Forall_forall _ _) Hs _ Hel) as (_ & Hid2 & _). simpl in Hid2.
  inversion Hstep; subst; simpl; auto.
  match goal with H : run_task _ _ _ _ _ = _ |- _ => apply run_task_sessions in H as Hc end.
  destruct Hc as [->|[(c & y & -> & <- & Hid & ->)|[(c & y & -> & Hcl & Hg & Hid & ->)|[-> ->]]]]; auto.
  - rewrite assoc_get_insert. case_bool_decide as Hp; [|auto]. right. right. left. exists y.
    apply Forall_app in Ht as [_ [Hins _]%Forall_cons]. destruct Hins as [(w0 & l & ? & ? & ?) Htold].
    split_and!; [done|set_solver|done| |done|exists w0, l; by rewrite <- Hp].
    destruct (Honce p x Hel) as [Hn _]. rewrite <- Hid2. intros E. apply Hn. rewrite omap_app. apply elem_of_app. right.
    simpl. rewrite E. by left.
  - rewrite assoc_get_remove. case_bool_decide as Hp; [|auto]. subst p. rewrite Hx in Hg. simplify_eq.
    right. left. split; [|done]. unfold is_closed in *. by rewrite <- Hid2, Hid.
  - right. right. right. split; [set_solver|done].
Qed.

(** C21: Dead sessions do not linger: in every reachable state each session has a
    close watcher running (or the map is about to be cleared), so that once no
    task can proceed on its own, no listed session belongs to a closed
    connection. *)
Theorem dead_sessions_do_not_linger w st ts s :
  reachable dir restart_after w st (ts, s) →
  (∀ p x, (p, x) ∈ ctl_sessions s → ServeClear ∈ ts ∨ ∃ t, t ∈ ts ∧ watches t (s_conn x)) ∧
  ((∀ t, t ∈ ts → run_task dir restart_after Go t s = None) →
   ∀ p x, (p, x) ∈ ctl_sessions s → is_closed s (s_conn x) = false).
Proof.
  intros Hr. apply reachable_inv in Hr as [_ _ _ _ Hw]. simpl in Hw.
  assert (Hall : ∀ p x, (p, x) ∈ ctl_sessions s → ServeClear ∈ ts ∨ ∃ t, t ∈ ts ∧ watches t (s_conn x)).
  { intros p x Hx. destruct Hw as [?|Hw]; [by left|right; by apply (Hw p)]. }
  split; [done|]. intros Hidle p x Hx. destruct (Hall p x Hx) as [Hc|(t & Hin & Hwt)].
  - by apply Hidle in Hc.
  - apply Hidle in Hin. destruct Hwt as [->|[->|[l ->]]]; simpl in Hin; [|done..].
    by destruct (is_closed s (s_conn x)).
Qed.

(** ** The canary *)

(** Successive probes of one canary, from a failure count on: the count after
    the last one, or [None] once the restart was requested. *)
Fixpoint canary_run (n : Z) (rs : list (result PathKind)) (s : Ctl) : option Z * Ctl :=
  match rs with
  | [] => (Some n, s)
  | r :: rs =>
      match canary_verdict dir restart_after n r s with
      | ([Canary n'], s') => canary_run n' rs s'
      | (_, s') => (None, s')
      end
  end.

(** How many failures in a row end the list, the ones before it included. *)
Fixpoint trailing (n : Z) (rs : list (result PathKind)) : Z :=
  match rs with
  | [] => n
  | Ok _ :: rs => trailing 0 rs
  | Err _ :: rs => trailing (n + 1) rs
  end.
Lemma trailing_app n rs1 rs2 : trailing n (rs1 ++ rs2) = trailing (trailing n rs1) rs2.
Proof. revert n. induction rs1 as [|[] rs1 IH]; intros n; simpl; auto. Qed.

Lemma update_status f s : ∃ t : Z, ctl_status (update dir f s) = with_updated t (f (ctl_status s)).
Proof.
  unfold update. destruct (now_unix_spec (ctl_world s)) as (t & w & -> & _). by exists t.
Qed.

Lemma canary_verdict_ok n path s :
  ∃ s', canary_verdict dir restart_after n (Ok path) s = ([Canary 0], s') ∧
    st_dialable (ctl_status s') = Some true ∧ st_consecutive_probe_failures (ctl_status s') = 0 ∧
    st_last_probe_path (ctl_status s') = Some path ∧ st_last_probe_error (ctl_status s') = None ∧
    ctl_restart s' = ctl_restart s.
Proof.
  unfold canary_verdict. destruct (now_unix_spec (ctl_world s)) as (t & w & -> & _).
  eexists. split; [done|]. destruct (update_status (probe_ok_status t path) (set_world w s)) as [t' ->].
  split_and!; try done. by destruct (update_same (probe_ok_status t path) (set_world w s)) as (_ & _ & _ & -> & _).
Qed.
Lemma canary_verdict_err n e s :
  ∃ s', canary_verdict dir restart_after n (Err e) s =
      (if bool_decide (restart_after ≤ n + 1) then [] else [Canary (n + 1)], s') ∧
    st_dialable (ctl_status s') = Some false ∧ st_consecutive_probe_failures (ctl_status s') = n + 1 ∧
    st_last_probe_error (ctl_status s') = Some (show_alt e) ∧
    ctl_restart s' = (bool_decide (restart_after ≤ n + 1) || ctl_restart s).
Proof.
  unfold canary_verdict. set (s1 := update dir _ s).
  destruct (update_status (probe_failed_status (show_alt e) (n + 1)) s) as [t Ht]. fold s1 in Ht.
  destruct (update_same (probe_failed_status (show_alt e) (n + 1)) s) as (_ & _ & _ & Hr & _). fold s1 in Hr.
  case_bool_decide; eexists; (split; [done|]); simpl; by rewrite Ht.
Qed.

(** The limit in force: a failure is needed at least. *)
Definition patience : Z := Z.max 1 restart_after.

Lemma canary_run_spec n rs s :
  0 ≤ n → (∀ q, q `prefix_of` rs → q ≠ [] → trailing n q < patience) →
  ∃ s', canary_run n rs s = (Some (trailing n rs), s') ∧ ctl_restart s' = ctl_restart s ∧
    (rs ≠ [] → st_dialable (ctl_status s') = is_ok <$> last rs ∧
               st_consecutive_probe_failures (ctl_status s') = trailing n rs).
Proof.
  revert n s. induction rs as [|r rs IH]; intros n s Hn Hq; [by exists s|]. cbn [canary_run trailing].
  assert (Hnext : ∀ q, q `prefix_of` rs → q ≠ [] → trailing (trailing n [r]) q < patience).
  { intros q Hp Hne. rewrite <- trailing_app. apply Hq; [by apply prefix_cons|done]. }
  assert (Hone : trailing n [r] < patience) by (apply Hq; [by exists rs|done]).
  destruct r as [path|e]; simpl in Hnext, Hone.
  - destruct (canary_verdict_ok n path s) as (s1 & -> & Hd & Hc & _ & _ & Hr).
    destruct rs as [|r2 rs]; [by exists s1|].
    destruct (IH 0 s1) as (s2 & -> & Hr2 & Hst); [lia|done|]. exists s2.
    split_and!; [done|congruence|]. intros _. rewrite last_cons_cons. by apply Hst.
  - destruct (canary_verdict_err n e s) as (s1 & -> & Hd & Hc & _ & Hr). unfold patience in Hone.
    rewrite bool_decide_false in Hr |- * by lia. simpl in Hr. destruct rs as [|r2 rs]; [by exists s1|].
    destruct (IH (n + 1) s1) as (s2 & -> & Hr2 & Hst); [lia|done|]. exists s2.
    split_and!; [done|congruence|]. intros _. rewrite last_cons_cons. by apply Hst.
Qed.

(** C27: The canary asks for a rebuild at exactly the right probe: as long as no
    run of failures has reached the limit ([restart_after], or one if that is
    zero) it keeps probing, status saying whether the last probe succeeded and
    how many failed in a row; the probe that completes such a run reports
    [dialable = false], raises the restart signal and ends the canary. *)
Theorem canary_restarts_on_the_dot rs e s :
  (∀ q, q `prefix_of` rs → q ≠ [] → trailing 0 q < patience) → ctl_restart s = false →
  (∃ s', canary_run 0 rs s = (Some (trailing 0 rs), s') ∧ ctl_restart s' = false ∧
     (rs ≠ [] → st_dialable (ctl_status s') = is_ok <$> last rs ∧
                st_consecutive_probe_failures (ctl_status s') = trailing 0 rs)) ∧
  (trailing 0 rs + 1 = patience →
   ∃ s', canary_run 0 (rs ++ [Err e]) s = (None, s') ∧ ctl_restart s' = true ∧
     st_dialable (ctl_status s') = Some false ∧
     st_consecutive_probe_failures (ctl_status s') = patience ∧
     st_last_probe_error (ctl_status s') = Some (show_alt e)).
Proof.
  intros Hq Hs. split.
  { destruct (canary_run_spec 0 rs s) as (s' & ? & ? & ?); [lia|done|]. exists s'. split_and!; [done|congruence|done]. }
  assert (Hgen : ∀ n s, 0 ≤ n → (∀ q, q `prefix_of` rs → q ≠ [] → trailing n q < patience) →
    trailing n rs + 1 = patience → ∃ s', canary_run n (rs ++ [Err e]) s = (None, s') ∧ ctl_restart s' = true ∧
     st_dialable (ctl_status s') = Some false ∧
     st_consecutive_probe_failures (ctl_status s') = patience ∧
     st_last_probe_error (ctl_status s') = Some (show_alt e)); [|by apply Hgen].
  clear Hs Hq s. induction rs as [|r rs IH]; intros n s Hn Hq Ht; cbn [canary_run trailing app] in *.
  - destruct (canary_verdict_err n e s) as (s1 & -> & Hd & Hc & He & Hr).
    unfold patience in *. rewrite bool_decide_true in Hr |- * by lia. exists s1. rewrite Hc. by split_and!.
  - assert (Hnext : ∀ q, q `prefix_of` rs → q ≠ [] → trailing (trailing n [r]) q < patience).
    { intros q Hp Hne. rewrite <- trailing_app. apply Hq; [by apply prefix_cons|done]. }
    assert (Hone : trailing n [r] < patience) by (apply Hq; [by exists rs|done]).
    destruct r as [path|e1]; simpl in Hnext, Hone.
    + destruct (canary_verdict_ok n path s) as (s1 & -> & _). apply IH; [lia|done|done].
    + destruct (canary_verdict_err n e1 s) as (s1 & -> & _). unfold patience in Hone.
      rewrite bool_decide_false by lia. apply IH; [lia|done|done].
Qed.
End invariant.

(** ** What the command has done once it serves *)

Section started.
Context `{IrohKeys} `{RelayUrls} `{SerdeJson (list PendingAgent)} `{SerdeJson Status} `{Postcard Admission}.
Context `{!EndpointBuild} `{!ControlSocket}.

Lemma load_key_spec dir w r w' :
  load_key dir w = (r, w') → fs w' = fs w ∧ ∀ k, r = Ok k → holds_key w (key_path dir) k.
Proof.
  intros [(e & E & ->)|(o & w1 & E & Ek)]%bind_inv; apply read_key_spec in E as (Hfs & _ & Hk & _); [done|].
  destruct o as [k|]; unfold mret, M_ret, fail in Ek; simplify_eq; (split; [done|]); intros; simplify_eq; auto.
Qed.

(** The system [serve] begins with is an initial one, whatever the clock says. *)
Lemma started_is_initial dir f w st :
  let s := update dir f (init_sys w st).2 in
  ((init_sys w st).1, s) = init_sys (ctl_world s) (ctl_status s) ∧
  ∃ t, ctl_status s = with_updated t (f st).
Proof.
  unfold update, init_sys. simpl. destruct (now_unix_spec w) as (t & w1 & -> & _). split; [done|by exists t].
Qed.

(** What it takes to get there, and that the key it serves under is its own. *)
Record started (ip_addrs : Endpoint → list SocketAddr) (cfg : ServeConfig) (w w' : World) (out : list string) (sys : Sys) : Prop := {
  started_alone : is_ok (ctl_connect (sock_path (sc_state cfg))) = false;
  started_key : ∃ key b ep st, holds_key w (key_path (sc_state cfg)) key ∧
    bind_config (Some key) (sc_relay cfg) Both (sc_bind_addr cfg) = Ok b ∧ builder_bind b = Ok ep ∧
    out = ["controller node id: " +:+ pk_to_string (sk_public key); "state dir: " +:+ show_path (root (sc_state cfg))] ∧
    sys = init_sys w' st ∧ st_node_id st = pk_to_string (sk_public key) ∧
    st_direct_addrs st = (show_socket_addr <$> ip_addrs ep)
}.
Lemma serve_start_spec listen ip_addrs cfg w r w' :
  serve_start listen ip_addrs cfg w = (r, w') →
  (is_ok (ctl_connect (sock_path (sc_state cfg))) = true →
     is_ok r = false ∧ ∀ x, fs w' !! (root (sc_state cfg) ++ [x]) = fs w !! (root (sc_state cfg) ++ [x])) ∧
  (∀ out sys, r = Ok (out, sys) → started ip_addrs cfg w w' out sys).
Proof.
  unfold serve_start. cbv zeta. intros [(e & E1 & ->)|([] & w1 & E1 & E)]%bind_inv; apply ensure_dir_spec in E1 as [_ Hd]; [done|].
  apply bind_inv in E as [(e & E2 & ->)|(key & w2 & E2 & E)]; apply load_key_spec in E2 as [Hf Hk].
  { split; [|done]. intros _. split; [done|]. intros x. by rewrite Hf. }
  specialize (Hk key eq_refl). assert (Hkey : holds_key w (key_path (sc_state cfg)) key).
  { unfold holds_key in *. change (key_path _) with (root (sc_state cfg) ++ ["controller.key"]) in *. by rewrite <- Hd. }
  destruct (is_ok (ctl_connect _)) eqn:Ea; [injection E as <- <-; split; [|done]; intros _; split; [done|]; intros x; by rewrite Hf|].
  split; [done|]. intros out sys ->.
  apply bind_ok in E as ([] & w3 & _ & E). apply bind_ok in E as ([] & w4 & _ & E). apply bind_ok in E as ([] & w5 & _ & E).
  apply bind_ok in E as ([] & w6 & _ & E). apply bind_ok in E as (me & w7 & _ & E). apply bind_ok in E as (t & w8 & _ & E).
  apply bind_ok in E as (ep & w9 & E9 & E). injection E9 as E9 <-. split; [done|].
  unfold bind in E9. destruct (bind_config _ _ _ _) as [b|] eqn:Eb; [|done].
  destruct (builder_bind b) as [ep'|] eqn:Ep; [|done]. injection E9 as ->.
  destruct (started_is_initial (sc_state cfg) (with_direct_addrs (show_socket_addr <$> ip_addrs ep)) w8
    (initial_status (pk_to_string (sk_public key)) me t (if enabled (sc_relay cfg) then Discovery else Direct))) as [Hi [t' Hst]].
  cbn [fst snd init_sys] in E, Hi, Hst. injection E as <- <- <-. exists key, b, ep. eexists.
  split_and!; [done..|exact Hi|by rewrite Hst|by rewrite Hst].
Qed.
End started.

(** ** Routing a command to a session *)

Section routing.
Context `{IrohKeys} `{RelayUrls} `{Postcard Route} `{Postcard RouteReply}.

(** [format!("{s:?}")] of text: quotes and backslashes escaped, control
    characters named or numbered; other characters as they are. *)
Definition debug_byte (b : byte) : bytes :=
  if bool_decide (b ∈ [QUOTE; BACKSLASH]) then [BACKSLASH; b]
  else if bool_decide (b = LF) then as_bytes "\n"
  else if bool_decide (b = CR) then as_bytes "\r"
  else if bool_decide (b = x09) then as_bytes "\t"
  else if bool_decide (b = x00) then as_bytes "\0"
  else if bool_decide (byte_to_Z b < 16) then as_bytes "\u{" ++ [hex_digit (byte_to_Z b)] ++ as_bytes "}"
  else if bool_decide (byte_to_Z b < 32 ∨ byte_to_Z b = 127) then as_bytes "\u{" ++ hex_byte b ++ as_bytes "}"
  else [b].
Definition show_debug (s : string) : string :=
  of_bytes ([QUOTE] ++ (as_bytes s ≫= debug_byte) ++ [QUOTE]).

(** [str::to_lowercase], as far as it can matter here: no character outside
    ASCII lower-cases to one that occurs in a key or in [any]. *)
Definition to_lowercase (b : bytes) : bytes := to_ascii_lowercase <$> b.

Definition selects (sel : bytes) (id : PublicKey) : bool :=
  bool_decide (sel = []) || bool_decide (sel = as_bytes "any") || starts_with sel (as_bytes (pk_to_string id)).

Definition pick (sessions : list (PublicKey * Session)) (selector : string) : result (PublicKey * Conn) :=
  let sel := to_lowercase (as_bytes (trim selector)) in
  let matches := filter (λ e, selects sel e.1 = true) sessions in
  match matches with
  | [] =>
      match sessions with
      | [] => Err (anyhow "no agent is connected")
      | _ => Err (anyhow ("no connected agent matches " +:+ show_debug selector))
      end
  | [(id, x)] => Ok (id, s_conn x)
  | _ => Err (anyhow (pretty (zlen matches) +:+ " connected agents match " +:+ show_debug selector
                        +:+ "; use a longer prefix"))
  end.

(** [route_local] up to the point where it only copies bytes: the connection to
    splice with, or [None] when the request was refused.  [open_bi] is the
    connection's. *)
Definition route_local (sessions : list (PublicKey * Session)) (paths : Conn → list Path)
    (open_bi : Conn → result unit) : M (reader * writer) (option Conn) :=
  route ← on_fst (with_context "reading route request" read_msg);
  match pick sessions (route_agent route) with
  | Err e => on_snd (write_msg (RouteErr (show_alt e)));; mret None
  | Ok (id, conn) =>
      let '(path, remote) := session_path_report (paths conn) in
      match open_bi conn with
      | Err e => on_snd (write_msg (RouteErr ("opening stream: " +:+ show_error e)));; mret None
      | Ok _ =>
          on_snd (write_msg (RouteOk (pk_to_string id) path remote));;
          mret (Some conn)
      end
  end.

(** A selector never picks the wrong machine: [pick] answers with an agent
    exactly when the lower-cased, trimmed selector is empty, [any] or a prefix
    of that agent's id, and of no other connected agent's. *)
Theorem pick_is_unambiguous (sessions : list (PublicKey * Session)) selector id c :
  NoDup sessions.*1 →
  let sel := to_lowercase (as_bytes (trim selector)) in
  pick sessions selector = Ok (id, c) ↔
  (∃ x, assoc_get id sessions = Some x ∧ s_conn x = c) ∧ selects sel id = true ∧
  ∀ id', id' ∈ sessions.*1 → selects sel id' = true → id' = id.
Proof.
  intros Hd sel. unfold pick. fold sel. set (m := filter _ sessions).
  assert (Hm : ∀ e, e ∈ m ↔ selects sel e.1 = true ∧ e ∈ sessions) by (intros e; unfold m; by rewrite list_elem_of_filter).
  assert (Hdm : NoDup m.*1).
  { clear -Hd. subst m. induction sessions as [|e l IH]; [done|]. rewrite fmap_cons in Hd.
    apply NoDup_cons in Hd as [Hn Hd]. rewrite filter_cons. case_decide; [|auto]. simpl. constructor; [|auto].
    intros ([k v] & E & Hin)%list_elem_of_fmap. apply list_elem_of_filter in Hin as [_ Hin].
    destruct Hn. rewrite E. by apply (list_elem_of_fmap_2 fst). }
  split.
  - destruct m as [|[id0 x] [|e2 m2]] eqn:Em.
    + by destruct sessions.
    + intros [= <- <-]. destruct (proj1 (Hm (id0, x))) as [Hs Hin]; [set_solver|]. split_and!.
      * exists x. split; [by apply assoc_get_Some|done].
      * done.
      * intros id' ([k v] & -> & Hin')%list_elem_of_fmap Hs'. simpl in *.
        assert ((k, v) ∈ [(id0, x)]) as Hk by by apply Hm. apply list_elem_of_singleton in Hk. by simplify_eq.
    + by destruct m2.
  - intros ((x & Hg & <-) & Hs & Huniq). apply assoc_get_elem in Hg.
    assert (Hin : (id, x) ∈ m) by by apply Hm.
    assert (Hall : ∀ e, e ∈ m → e.1 = id).
    { intros e He. apply Hm in He as [? ?]. apply Huniq; [by apply list_elem_of_fmap_2|done]. }
    destruct m as [|e1 [|e2 m2]] eqn:Em; [by apply not_elem_of_nil in Hin| |].
    + apply list_elem_of_singleton in Hin. by subst e1.
    + exfalso. rewrite !fmap_cons in Hdm. apply NoDup_cons in Hdm as [Hn _]. destruct Hn.
      rewrite (Hall e1), (Hall e2) by set_solver. apply elem_of_cons. by left.
Qed.
End routing.

(** ** The control socket and the probe's other end *)

(** [accept_local]: every connection gets a task of its own, and the first
    failing accept ends the loop. *)
Fixpoint accept_local {A} (incoming : list (result A)) : list A * option error :=
  match incoming with
  | [] => ([], None)
  | Ok stream :: incoming => let '(l, e) := accept_local incoming in (stream :: l, e)
  | Err e :: _ => ([], Some (add_context "accepting control socket" e))
  end.

(** [RecvStream::read_to_end]: everything up to the end, unless it is longer
    than the limit. *)
Fixpoint collect (r : reader) : result bytes :=
  match r with
  | [] => Ok []
  | RErr e :: _ => Err e
  | RData b :: r => match collect r with Ok l => Ok (b ++ l) | Err e => Err e end
  end.
Definition read_to_end (limit : Z) (r : reader) : result bytes :=
  match collect r with
  | Ok b => if bool_decide (limit < zlen b) then Err (anyhow "stream too long") else Ok b
  | Err e => Err e
  end.

(** [ProbeResponder::accept]: what was written to the dialer's stream, if it
    opened one. *)
Definition probe_accept (stream : result (reader * writer)) : option writer :=
  match stream with
  | Err _ => None
  | Ok (recv, send) =>
      match read_to_end (zlen PROBE_PING) recv with
      | Ok b => if bool_decide (b = PROBE_PING) then Some (shutdown (write_all PROBE_PONG send).2).2 else Some send
      | Err _ => Some send
      end
  end.

Lemma collect_clean r : clean r → collect r = Ok (rd_bytes r).
Proof.
  induction 1 as [|[b|e] r Hev Hc IH]; [done| |done]. simpl. rewrite IH, rd_bytes_data. done.
Qed.
Lemma collect_ok r b : collect r = Ok b → b = rd_bytes r.
Proof.
  revert b. induction r as [|[x|e] r IH]; intros b; simpl; [by intros [= <-]| |done].
  destruct (collect r); [|done]. intros [= <-]. by rewrite rd_bytes_data, (IH _ eq_refl).
Qed.

Section canary_composition.
Context `{IrohKeys} `{RelayUrls} `{!EndpointBuild}.

(** C33: The canary and its responder fit: a dialer learns nothing from the
    responder, which writes nothing unless it received exactly the ping and then
    at most the constant answer, however the stream was cut; and a probe whose
    throwaway endpoint can be bound and whose connection carries the two streams
    to a controller's responder before the deadline reports the controller as
    dialable, over the path the connection used. *)
Theorem canary_meets_its_responder :
  (∀ (recv : reader) send w, w_out send = [] → probe_accept (Ok (recv, send)) = Some w →
     w_out w `prefix_of` PROBE_PONG ∧ (w_out w ≠ [] → rd_bytes recv = PROBE_PING)) ∧
  (∀ (open : Endpoint → ProbeNet) target m direct relay timeout rm ep paths (there back : reader) w,
     mode relay = Ok rm →
     builder_bind (mkConfig rm None None false (bool_decide (m = Discovery))) = Ok ep →
     (∀ addr, pn_connect (open ep) addr PROBE_ALPN = Ok paths) → pn_elapsed (open ep) = false →
     pn_open_bi (open ep) = Ok tt → pn_write_all (open ep) PROBE_PING = Ok tt → pn_finish (open ep) = Ok tt →
     clean there → rd_bytes there = PROBE_PING → probe_accept (Ok (there, new_writer)) = Some w →
     clean back → rd_bytes back = w_out w → (∀ limit, pn_read_to_end (open ep) limit = read_to_end limit back) →
     probe open target m direct relay timeout = Ok (session_path_report paths).1).
Proof.
  split.
  - intros recv send w Hs. unfold probe_accept, read_to_end.
    assert (Hsame : Some send = Some w → w_out w `prefix_of` PROBE_PONG ∧ (w_out w ≠ [] → rd_bytes recv = PROBE_PING)).
    { intros [= <-]. rewrite Hs. split; [apply prefix_nil|done]. }
    destruct (collect recv) as [b|e] eqn:Ec; [|done]. case_bool_decide; [done|]. case_bool_decide as Hb; [|done].
    intros [= <-]. simpl. destruct (write_all_prefix PROBE_PONG send) as [k ->]. rewrite Hs. simpl.
    split; [apply prefix_take|]. intros _. by rewrite <- (collect_ok _ _ Ec).
  - intros open target m direct relay timeout rm ep paths there back w Hm Hb Hc He Ho Hw Hf Hct Hbt Hp Hcb Hbb Hr.
    revert Hp. unfold probe_accept, read_to_end. rewrite collect_clean, Hbt by done. rewrite bool_decide_false by lia.
    rewrite bool_decide_true by done. rewrite write_all_healthy by done. intros [= <-]. simpl in Hbb.
    unfold probe, bind, bind_config. rewrite Hm. simpl.
    replace (bool_decide (_ = Both)) with false by (by destruct m).
    replace (bool_decide (_ ≠ LookupNone)) with (bool_decide (m = Discovery)) by (by destruct m).
    rewrite Hb. simpl. rewrite He. unfold probe_exchange. run_unfold. rewrite Hc. simpl.
    destruct (session_path_report paths) as [path d]. rewrite Ho, Hw, Hf, Hr. unfold read_to_end.
    rewrite collect_clean, Hbb by done. rewrite bool_decide_false by lia. by rewrite bool_decide_true.
Qed.
End canary_composition.

Section canary_example.
Import DemoKeys.
Existing Instances demo_relays demo_build.

Definition demo_canary : ProbeNet :=
  mkProbeNet (λ _ _, Ok []) (Ok tt) (λ _, Ok tt) (Ok tt) (λ n, read_to_end n [RData PROBE_PONG]) false.
Lemma canary_meets_its_responder_witness :
  probe (λ _, demo_canary) (demo_pk x05) Direct [] Disabled "20s" = Ok (session_path_report []).1.
Proof.
  destruct (canary_meets_its_responder (H0 := demo_relays)) as [_ Hprobe].
  apply (Hprobe (λ _, demo_canary) (demo_pk x05) Direct [] Disabled "20s" RelayDisabled
    (mkConfig RelayDisabled None None false false) [] [RData (take 3 PROBE_PING); RData (drop 3 PROBE_PING)]
    [RData PROBE_PONG] (mkWriter PROBE_PONG None None true)); try reflexivity; by repeat constructor.
Defined.
End canary_example.

(** ** Runs by a list of moves *)

Section moves.
Context `{IrohKeys} `{RelayUrls} `{SerdeJson (list PendingAgent)} `{SerdeJson Status} `{Postcard Admission}.
Context (dir : StateDir) (restart_after : Z).

Inductive move :=
  | MTask (i : nat) (ev : stimulus)
  | MDial (c : Conn)
  | MNet (paths : gmap Z (list Path)) (more : gset Z)
  | MRestart.

Definition is_serve_run (t : task) : bool := match t with ServeRun => true | _ => false end.
Definition do_move (m : move) (sys : Sys) : option Sys :=
  let '(ts, s) := sys in
  match m with
  | MTask i ev =>
      match ts !! i with
      | Some t =>
          match run_task dir restart_after ev t s with
          | Some (new, s') => Some (take i ts ++ new ++ drop (S i) ts, s')
          | None => None
          end
      | None => None
      end
  | MDial c =>
      if existsb is_serve_run ts && bool_decide (stable_id c ∉ ctl_dialled s)
      then Some (Accept c :: ts, set_net (ctl_paths s) (ctl_closed s) ({[stable_id c]} ∪ ctl_dialled s) s)
      else None
  | MNet paths more => Some (ts, set_net paths (more ∪ ctl_closed s) (ctl_dialled s) s)
  | MRestart =>
      if existsb is_serve_run ts && ctl_restart s
      then Some (ServeClear :: filter survives ts,
                 set_net (ctl_paths s) (ctl_dialled s) (ctl_dialled s) (set_restart false s))
      else None
  end.
Fixpoint do_moves (ms : list move) (sys : Sys) : option Sys :=
  match ms with
  | [] => Some sys
  | m :: ms => match do_move m sys with Some sys' => do_moves ms sys' | None => None end
  end.

Lemma serve_run_in ts : existsb is_serve_run ts = true → ServeRun ∈ ts.
Proof.
  intros (t & Hin & Ht)%existsb_exists. destruct t; try done. by apply list_elem_of_In.
Qed.
Lemma do_move_step m sys sys' : do_move m sys = Some sys' → step dir restart_after sys sys'.
Proof.
  destruct sys as [ts s], m as [i ev|c|paths more|]; simpl; intros E.
  - destruct (ts !! i) as [t|] eqn:Et; [|done].
    destruct (run_task dir restart_after ev t s) as [[new s']|] eqn:Er; [|done]. simplify_eq.
    rewrite <- (take_drop_middle ts i t Et) at 1. by eapply step_task.
  - destruct (existsb is_serve_run ts) eqn:Es; [|done]. simpl in E. case_bool_decide; simplify_eq.
    apply step_dial; [by apply serve_run_in|done].
  - simplify_eq. apply step_net.
  - destruct (existsb is_serve_run ts) eqn:Es; [|done]. destruct (ctl_restart s) eqn:Er; simplify_eq/=.
    apply step_restart; [by apply serve_run_in|done].
Qed.
Lemma do_moves_reach ms sys sys' : do_moves ms sys = Some sys' → rtc (step dir restart_after) sys sys'.
Proof.
  revert sys. induction ms as [|m ms IH]; intros sys E; simpl in E; [simplify_eq; apply rtc_refl|].
  destruct (do_move m sys) as [sys1|] eqn:Em; [|done]. eapply rtc_l; [by eapply do_move_step|auto].
Qed.
Lemma do_moves_snoc ms m sys :
  do_moves (ms ++ [m]) sys = match do_moves ms sys with Some sys' => do_move m sys' | None => None end.
Proof.
  revert sys. induction ms as [|m0 ms IH]; intros sys; simpl; [by destruct (do_move m sys)|].
  by destruct (do_move m0 sys).
Qed.
End moves.

(** ** Concrete runs *)

Section examples.
Import DemoSha DemoKeys DemoJson DemoPostcard DemoNet.

(** The status file's contents do not matter here. *)
Instance demo_status_json : SerdeJson Status := {
  to_vec_pretty _ := Ok (as_bytes "{}"); from_slice _ := Err (anyhow "not read")
}.
Definition demo_controller : World :=
  mkWorld (<[["/"; "state"] := NDir o700]>
          {[ ["/"; "state"; "approved"] := NFile (mkFile demo_approved 420) ]}) [] [] [9] 42 18.

Definition demo_agent : PublicKey := demo_pk x01.
Definition demo_conn (n : Z) : Conn := mkConn n demo_agent.
Definition demo_status : Status := initial_status "controller" 42 9 Discovery.
Definition demo_run (ms : list move) : option Sys :=
  do_moves demo_root 3 ms (init_sys demo_controller demo_status).
Definition uni_ok : stimulus := UniStream (Ok new_writer) (Ok tt).
(** The approved agent dials and gets its session. *)
Definition demo_admission : list move :=
  [MDial (demo_conn 7); MTask 0 Go; MTask 0 uni_ok; MTask 0 Go].
Definition demo_sys (ms : list move) : Sys := default ([], (init_sys demo_controller demo_status).2) (demo_run ms).

Definition runs (ms : list move) : bool := match demo_run ms with Some _ => true | None => false end.
Lemma runs_sys ms : runs ms = true → demo_run ms = Some (demo_sys ms).
Proof. unfold runs, demo_sys. by destruct (demo_run ms). Qed.
Lemma demo_reachable ms : runs ms = true → reachable demo_root 3 demo_controller demo_status (demo_sys ms).
Proof. intros E%runs_sys. by eapply do_moves_reach. Qed.
Lemma demo_step ms m : runs ms = true → runs (ms ++ [m]) = true →
  step demo_root 3 (demo_sys ms) (demo_sys (ms ++ [m])).
Proof.
  intros E1%runs_sys E2%runs_sys. unfold demo_run in *. rewrite do_moves_snoc, E1 in E2.
  by eapply do_move_step.
Qed.

Example demo_admitted :
  (λ e, (e.1, s_id e.2)) <$> ctl_sessions (demo_sys demo_admission).2 = [(demo_agent, 7)].
Proof. vm_compute. reflexivity. Qed.

Lemma only_approved_agents_have_sessions_witness :
  let s := (demo_sys demo_admission).2 in
  (∀ p x, (p, x) ∈ ctl_sessions s →
     remote_id (s_conn x) = p ∧ Told (s_conn x) Approved ∈ ctl_log s ∧
     ∃ w0 l, Decided (s_conn x) w0 ∈ ctl_log s ∧ (approved demo_root w0).1 = Ok l ∧ p ∈ l) ∧
  (∀ c, Told c Approved ∈ ctl_log s →
     ∃ w0 l, Decided c w0 ∈ ctl_log s ∧ (approved demo_root w0).1 = Ok l ∧ remote_id c ∈ l).
Proof.
  apply (only_approved_agents_have_sessions demo_root 3 demo_controller demo_status (demo_sys demo_admission).1).
  rewrite <- surjective_pairing. apply demo_reachable. vm_compute. reflexivity.
Defined.

(** The agent redials before the end of its first connection is noticed; then
    the first connection's watcher runs. *)
Definition demo_redial : list move :=
  demo_admission ++ [MTask 0 Go; MTask 0 Go] ++
  [MDial (demo_conn 8); MTask 0 Go; MTask 0 uni_ok; MTask 0 Go; MTask 0 Go; MTask 0 Go; MNet ∅ {[7]}].

Lemma session_ends_only_for_cause_witness :
  let before := demo_sys demo_redial in
  let after := demo_sys (demo_redial ++ [MTask 3 Go]) in
  let x := default (mkSession (demo_conn 0) 0 0) (assoc_get demo_agent (ctl_sessions before.2)) in
  assoc_get demo_agent (ctl_sessions after.2) = Some x ∨
  (is_closed before.2 (s_conn x) = true ∧ assoc_get demo_agent (ctl_sessions after.2) = None) ∨
  (∃ y, assoc_get demo_agent (ctl_sessions after.2) = Some y ∧ Insert (s_conn y) ∈ before.1 ∧ remote_id (s_conn y) = demo_agent ∧
     stable_id (s_conn y) ≠ stable_id (s_conn x) ∧ Told (s_conn y) Approved ∈ ctl_log before.2 ∧
     ∃ w0 l, Decided (s_conn y) w0 ∈ ctl_log before.2 ∧ (approved demo_root w0).1 = Ok l ∧ demo_agent ∈ l) ∨
  (ServeClear ∈ before.1 ∧ ctl_sessions after.2 = []).
Proof.
  intros before after x.
  apply (session_ends_only_for_cause demo_root 3 demo_controller demo_status before.1 before.2 after.1 after.2).
  - rewrite <- surjective_pairing. apply demo_reachable. vm_compute. reflexivity.
  - rewrite <- !surjective_pairing. apply demo_step; vm_compute; reflexivity.
  - vm_compute. reflexivity.
Defined.
Example demo_redial_kept :
  (λ e, (e.1, s_id e.2)) <$> ctl_sessions (demo_sys (demo_redial ++ [MTask 3 Go])).2 = [(demo_agent, 8)].
Proof. vm_compute. reflexivity. Qed.

Lemma dead_sessions_do_not_linger_witness :
  let s := (demo_sys demo_admission).2 in
  let ts := (demo_sys demo_admission).1 in
  (∀ p x, (p, x) ∈ ctl_sessions s → ServeClear ∈ ts ∨ ∃ t, t ∈ ts ∧ watches t (s_conn x)) ∧
  ((∀ t, t ∈ ts → run_task demo_root 3 Go t s = None) →
   ∀ p x, (p, x) ∈ ctl_sessions s → is_closed s (s_conn x) = false).
Proof.
  apply (dead_sessions_do_not_linger demo_root 3 demo_controller demo_status).
  rewrite <- surjective_pairing. apply demo_reachable. vm_compute. reflexivity.
Defined.

Definition demo_err : error := anyhow "probe timed out after 30s".
Lemma canary_restarts_on_the_dot_witness :
  let s := (demo_sys []).2 in
  let rs := [Err demo_err; Ok Relayed; Err demo_err; Err demo_err] in
  (∃ s', canary_run demo_root 3 0 rs s = (Some (trailing 0 rs), s') ∧ ctl_restart s' = false ∧
     (rs ≠ [] → st_dialable (ctl_status s') = is_ok <$> last rs ∧
                st_consecutive_probe_failures (ctl_status s') = trailing 0 rs)) ∧
  (trailing 0 rs + 1 = patience 3 →
   ∃ s', canary_run demo_root 3 0 (rs ++ [Err demo_err]) s = (None, s') ∧ ctl_restart s' = true ∧
     st_dialable (ctl_status s') = Some false ∧
     st_consecutive_probe_failures (ctl_status s') = patience 3 ∧
     st_last_probe_error (ctl_status s') = Some (show_alt demo_err)).
Proof.
  apply (canary_restarts_on_the_dot demo_root 3); [|reflexivity].
  intros q [k Hk] Hne. destruct q as [|q1 [|q2 [|q3 [|q4 [|q5 q]]]]]; simpl in Hk; [done|..];
    injection Hk as Hk; subst; try (vm_compute; reflexivity); done.
Defined.

Lemma pick_is_unambiguous_witness :
  let sessions := ctl_sessions (demo_sys demo_admission).2 in
  let sel := to_lowercase (as_bytes (trim " 01 ")) in
  pick sessions " 01 " = Ok (demo_agent, demo_conn 7) ↔
  (∃ x, assoc_get demo_agent sessions = Some x ∧ s_conn x = demo_conn 7) ∧ selects sel demo_agent = true ∧
  ∀ id', id' ∈ sessions.*1 → selects sel id' = true → id' = demo_agent.
Proof.
  apply (pick_is_unambiguous (ctl_sessions (demo_sys demo_admission).2) " 01 " demo_agent (demo_conn 7)).
  apply (bool_decide_unpack _). vm_compute. exact I.
Defined.

Definition publishing (t : task) : bool :=
  match t with Snapshot _ | Publish _ _ => true | _ => false end.

(** The published session list can be stale: [publish_sessions] reads the map
    under one lock and writes the status under another, so two publications can
    cross.  There is a run after which nothing is being published any more, no
    agent has a session, and status.json still lists one. *)
Theorem published_sessions_can_be_stale :
  ∃ ts s, reachable demo_root 3 demo_controller demo_status (ts, s) ∧
    existsb publishing ts = false ∧
    ctl_sessions s = [] ∧ session_infos s = [] ∧
    si_agent <$> st_sessions (ctl_status s) = [pk_to_string demo_agent].
Proof.
  (** the canary collects the list, the session ends and is published, the
      canary publishes what it had collected *)
  set (ms := demo_admission ++ [MTask 0 Go; MTask 0 Go; MTask 3 Go; MTask 3 Go; MNet ∅ {[7]};
    MTask 1 Go; MTask 1 Go; MTask 1 Go; MTask 2 Go]).
  exists (demo_sys ms).1, (demo_sys ms).2. split_and!.
  - rewrite <- surjective_pairing. apply demo_reachable. vm_compute. reflexivity.
  - vm_compute. reflexivity.
  - vm_compute. reflexivity.
  - vm_compute. reflexivity.
  - vm_compute. reflexivity.
Qed.
End examples.
