(* ===== verification/Admission.v ===== *)
(** * Who gets in (src/src/controller.rs, src/src/state.rs)

    [serve] as Controller.v has it, in a state directory that processes share as
    Shared.v has it: a session belongs to somebody an operator asked for. *)

From S2P Require Import Prelude Text Stream Fs Crypto Proto Net State Demo Calls Shared Controller.

Section admission.
Context `{IrohKeysLaws} `{RelayUrls} `{SerdeJson (list PendingAgent)} `{SerdeJson Status} `{Postcard Admission}.
Context `{!SerdeJsonLaws (list PendingAgent) pending_wf}.
Context (status_wf : Status → Prop) `{!SerdeJsonLaws Status status_wf}.

(** A read of the approved list that fails, or finds no file, admits nobody. *)
Lemma approved_read dir w l k : (approved dir w).1 = Ok l → k ∈ l → approved_of (fs w !! approved_path dir) = Ok l.
Proof.
  unfold approved, fs_read_to_string, fs_read, attempt, mbind, M_bind, syscall, next_fault, lift, mret, M_ret, fail.
  assert (Hnone : ∀ l0 : list PublicKey, Ok [] = Ok l0 → k ∈ l0 → False) by (intros ? [= <-]; apply not_elem_of_nil).
  destruct (faults w) as [|[f|] fs0]; simpl; [| |]; try (case_bool_decide; simpl; [intros E Hk; by destruct (Hnone _ E Hk)|done]);
    (destruct (fs w !! approved_path dir) as [[f| |]|]; simpl; [by destruct (utf8_valid (f_data f))|done|done|intros E Hk; by destruct (Hnone _ E Hk)]).
Qed.

(** C2: Only agents an operator asked for get in: whenever [serve] decides on a
    connection, let the approved file be as some interleaving of the processes
    that share the state directory has left it (operators approving, [serve]'s
    own handlers, calls that fail, processes that die); then in every state
    [serve] can reach, every session belongs to a key that an [approve] command
    was given or that was on the list to begin with. *)
Theorem sessions_are_asked_for dir restart_after asked s0 w st ts s p x :
  sound s0 → reachable dir restart_after w st (ts, s) →
  (∀ c w0, Decided c w0 ∈ ctl_log s → ∃ s1 ts1,
     rtc (Shared.step dir [approved_path dir] asked) (s0, []) (s1, ts1) ∧
     approved_of (fs w0 !! approved_path dir) = approved_of (view s1 !! approved_path dir)) →
  (p, x) ∈ ctl_sessions s →
  asked (JApprove p) ∨ ∃ f, view s0 !! approved_path dir = Some (NFile f) ∧ approves (f_data f) p.
Proof.
  intros Hs Hr Hfiles Hx. apply reachable_inv in Hr as [_ Hses _ _ _].
  destruct (proj1 (Forall_forall _ _) Hses _ Hx) as (Hp & _ & (w0 & l & Hd & Hl & Hin) & _). simpl in *. subst p.
  destruct (Hfiles _ _ Hd) as (s1 & ts1 & Hrun & E). apply (listed_was_asked status_wf dir asked s0 s1 ts1 l); [done..| |done].
  rewrite <- E. by eapply approved_read.
Qed.
End admission.

Section examples.
Import DemoKeys DemoJson DemoPostcard DemoNet.
#[local] Existing Instance demo_status_json.
Instance demo_status_laws : SerdeJsonLaws Status (λ _, False).
Proof. by split. Qed.

(** Nothing is on disk but the directory; the operator approves the agent, whose
    key reaches the list; the agent dials. *)
Definition bare_store : store := mkStore {[ ["/"; "state"] := EDir 448 ]} ∅ 0 18.
Definition operator : list Shared.move := Start 43 [JApprove demo_agent] :: goes 0 10.
Definition operator_job (j : job) : Prop := j = JApprove demo_agent.
Definition operated : Machine :=
  default (bare_store, []) (run_moves demo_root [approved_path demo_root] operator (bare_store, [])).
Lemma bare_sound : sound bare_store.
Proof. split; intros p; [intros q i|intros i]; simpl; rewrite lookup_singleton_Some; by intros [_ ?]. Qed.
Lemma operated_reached :
  rtc (Shared.step demo_root [approved_path demo_root] operator_job) (bare_store, []) (operated.1, operated.2).
Proof.
  rewrite <- surjective_pairing. assert (Hs : is_Some (run_moves demo_root [approved_path demo_root] operator (bare_store, [])))
    by (vm_compute; by eexists).
  destruct Hs as [m E]. unfold operated. rewrite E.
  apply (run_moves_reach demo_root [approved_path demo_root] operator_job) with operator; [|done].
  constructor; [by constructor|by apply Forall_replicate].
Qed.

Lemma sessions_are_asked_for_witness :
  ∃ x, (demo_agent, x) ∈ ctl_sessions (demo_sys demo_admission).2 ∧
    (operator_job (JApprove demo_agent) ∨
     ∃ f, view bare_store !! approved_path demo_root = Some (NFile f) ∧ approves (f_data f) demo_agent).
Proof.
  assert (Hlog : (∀ c w0, Decided c w0 ∈ ctl_log (demo_sys demo_admission).2 → w0 = demo_controller)).
  { assert (E : Forall (λ e, match e with Decided _ w0 => w0 = demo_controller | _ => True end) (ctl_log (demo_sys demo_admission).2))
      by (vm_compute; repeat constructor).
    intros c w0 Hin. exact (proj1 (Forall_forall _ _) E _ Hin). }
  assert (Hin : ∃ x, (demo_agent, x) ∈ ctl_sessions (demo_sys demo_admission).2) by (vm_compute; eexists; left).
  destruct Hin as [x Hin]. exists x. split; [exact Hin|].
  refine (sessions_are_asked_for (λ _, False) demo_root 3 operator_job bare_store demo_controller demo_status
    (demo_sys demo_admission).1 (demo_sys demo_admission).2 demo_agent x bare_sound _ _ Hin).
  - rewrite <- surjective_pairing. apply demo_reachable. vm_compute. reflexivity.
  - intros c w0 ->%Hlog. exists operated.1, operated.2. split; [exact operated_reached|]. vm_compute. reflexivity.
Defined.
End examples.
