(* ===== verification/Agent.v ===== *)
(** * The agent (src/src/agent.rs)

    Dialling and backing off, one session, the handlers of the requests a
    controller sends over it, and the whole run as what can be seen of it.  iroh's connection, child processes and TCP
    sockets are parameters; file system and streams are those of Fs.v and
    Stream.v.  The effects of a command the agent runs are outside the model;
    what it prints and how it ends are not. *)

From S2P Require Import Prelude Text Stream Fs Crypto Proto Transfer Pipe Net State Demo.

(** ** Constants, in milliseconds *)

Definition CONNECT_TIMEOUT : Z := 45000.
Definition SHORT_RETRY : Z := 1000.
Definition PENDING_RETRY : Z := 5000.
Definition MAX_BACKOFF : Z := 30000.
Definition EXEC_CHUNK : nat := Z.to_nat (32 * 1024).
Definition DRAIN_IDLE : Z := 2000.
Definition DRAIN_CAP : Z := 15000.

(** [Outcome]; the error of an ended connection is carried along. *)
Inductive Outcome := OPending | Ended (e : error).

(** ** The dial loop *)

(** One turn of the loop of [run]: the delay before the next dial and the new
    backoff. *)
Definition next_delay (backoff : Z) (o : result Outcome) : Z * Z :=
  match o with
  | Ok OPending => (PENDING_RETRY, SHORT_RETRY)
  | Ok (Ended _) => (SHORT_RETRY, SHORT_RETRY)
  | Err _ => (backoff, (backoff * 2) `min` MAX_BACKOFF)
  end.
(** ** Running a command *)

(** [std::process::ExitStatus], as [code()] and [signal()] see it. *)
Inductive ExitStatus := Exited (code : Z) | Signaled (sig : Z) | OtherStatus.
Definition status_code (s : ExitStatus) : option Z := match s with Exited c => Some c | _ => None end.
Definition status_signal (s : ExitStatus) : option Z := match s with Signaled n => Some n | _ => None end.
Definition exit_code (s : ExitStatus) : Z :=
  default (128 + default 0 (status_signal s)) (status_code s).

(** A spawned child: what its pipes deliver and how it ends. *)
Record Child := mkChild { c_stdout : reader; c_stderr : reader; c_wait : result ExitStatus }.
Class Processes := spawn : string → list string → result Child.

(** [pump_frames]: the frames sent to the channel; the number of bytes bounds
    the number of reads. *)
Fixpoint pump_loop (fuel : nat) (is_stdout : bool) (r : reader) : list ExecFrame :=
  match fuel with
  | O => []
  | S fuel =>
      match read EXEC_CHUNK r with
      | (Err _, _) => []
      | (Ok [], _) => []
      | (Ok chunk, r) => (if is_stdout then Stdout chunk else Stderr chunk) :: pump_loop fuel is_stdout r
      end
  end.
Definition pump_frames (is_stdout : bool) (r : reader) : list ExecFrame :=
  pump_loop (S (length (rd_bytes r))) is_stdout r.

(** One turn of the loop of [drain_output]: did both pumps end within
    [DRAIN_IDLE]; the frame counter before and after; whether a frame is being
    sent; the time. *)
Record Round := mkRound { rd_both : bool; rd_before : Z; rd_after : Z; rd_sending : bool; rd_now : Z }.
Fixpoint drain_loop (deadline : Z) (rounds : list Round) : option bool :=
  match rounds with
  | [] => None
  | r :: rounds =>
      if rd_both r then Some false else
      let idle := bool_decide (rd_after r = rd_before r) && negb (rd_sending r) in
      if idle || bool_decide (deadline ≤ rd_now r) then Some true
      else drain_loop deadline rounds
  end.
Definition drain_output (start : Z) (rounds : list Round) : option bool :=
  drain_loop (start + DRAIN_CAP) rounds.

(** The scheduling of one [exec]: the frames the writer task receives, in the
    channel's order; what [drain_output] returned; whether the writer task ended
    within [DRAIN_CAP]. *)
Record Schedule := mkSchedule { sc_frames : list ExecFrame; sc_cut : bool; sc_joined : bool }.

(** The channel interleaves the two pumps; a cut keeps a prefix of each. *)
Inductive merge {A} : list A → list A → list A → Prop :=
  | merge_nil : merge [] [] []
  | merge_l x a b l : merge a b l → merge (x :: a) b (x :: l)
  | merge_r x a b l : merge a b l → merge a (x :: b) (x :: l).
Definition valid_schedule (c : Child) (sc : Schedule) : Prop :=
  ∃ a b, merge a b (sc_frames sc) ∧
    a `prefix_of` pump_frames true (c_stdout c) ∧ b `prefix_of` pump_frames false (c_stderr c) ∧
    (sc_cut sc = false → a = pump_frames true (c_stdout c) ∧ b = pump_frames false (c_stderr c)).

Section exec.
Context `{Postcard ExecFrame} `{!Processes}.

(** The writer task: [false] when the stream broke. *)
Fixpoint write_frames (frames : list ExecFrame) (wr : writer) : bool * writer :=
  match frames with
  | [] => (true, wr)
  | f :: frames =>
      match write_msg f wr with
      | (Err _, wr) => (false, wr)
      | (Ok _, wr) => write_frames frames wr
      end
  end.

Definition exec (argv : list string) (sc : Schedule) : M writer unit :=
  match argv with
  | [] => write_msg (Failed "empty argv");; shutdown;; mret tt
  | program :: args =>
      match spawn program args with
      | Err e =>
          write_msg (Failed ("spawning " +:+ program +:+ ": " +:+ show_error e));;
          shutdown;;
          mret tt
      | Ok child => λ wr,
          let '(alive, wr) := write_frames (sc_frames sc) wr in
          match c_wait child with
          | Err e => (Err (add_context "waiting for child" e), wr)
          | Ok status =>
              if sc_joined sc && alive then
                ((if sc_cut sc then write_msg Truncated else mret tt);;
                 write_msg (Exit (exit_code status));;
                 shutdown;;
                 mret tt) wr
              else (Ok tt, wr)
          end
      end
  end.
End exec.

(** ** The request handler *)

Section handler.
Context `{Sha256} `{!StatvfsCall} `{!Processes}.
Context `{Postcard Request} `{Postcard ExecFrame} `{Postcard Ack} `{Postcard PullStart}.

(** [TcpStream::connect], with the two halves of the socket. *)
Class TcpConnect := tcp_connect : string → result (reader * writer).
Context `{!TcpConnect}.

(** The request stream in both directions, and the target. *)
Definition served : Type := reader * (writer * World).
Definition on_send {A} (m : M writer A) : M served A := on_snd (on_fst m).
Definition on_target {A} (m : M World A) : M served A := on_snd (on_snd m).
Definition on_receive {A} (m : M (reader * World) A) : M served A := λ s,
  let '(x, (r, w)) := m (s.1, s.2.2) in (x, (r, (s.2.1, w))).

(** [splice(tcp_r, tcp_w, recv, send)] *)
Definition splice_served (tcp_r : reader) (tcp_w : writer) : M served (option (reader * writer)) := λ s,
  let '((tcp_r, tcp_w), (recv, send)) := splice tcp_r tcp_w s.1 s.2.1 in
  (Ok (Some (tcp_r, tcp_w)), (recv, (send, s.2.2))).

(** [handle]; a forwarded connection returns what became of the socket. *)
Definition handle (sc : Schedule) : M served (option (reader * writer)) :=
  req ← on_fst (with_context "reading request" read_msg);
  match req with
  | Exec argv => on_send (exec argv sc);; mret None
  | Push path mode len sha256 =>
      let dest := parse_path path in
      r ← attempt (on_receive (recv_file_body dest len sha256 mode u64_max));
      let ack := match r with Ok _ => AckOk | Err e => AckErr (show_alt e) end in
      on_send (write_msg ack);;
      on_send shutdown;;
      lift r;;
      mret None
  | Pull path =>
      let src := parse_path path in
      r ← attempt (on_target (stat_and_hash src));
      match r with
      | Err e =>
          let reply := if bool_decide (e_io e = Some NotFound) then PullMissing else PullErr (show_alt e) in
          on_send (write_msg reply);;
          on_send shutdown;;
          mret None
      | Ok (mode, len, sha256) =>
          on_send (write_msg (PullOk mode len sha256));;
          on_snd (send_file_body src);;
          on_send shutdown;;
          mret None
      end
  | Forward addr =>
      match tcp_connect addr with
      | Err e =>
          on_send (write_msg (AckErr ("connecting to " +:+ addr +:+ ": " +:+ show_error e)));;
          on_send shutdown;;
          mret None
      | Ok (tcp_r, tcp_w) =>
          on_send (write_msg AckOk);;
          splice_served tcp_r tcp_w
      end
  end.
End handler.

(** ** One session *)

(** A stream the controller opened, with the scheduling of its handler. *)
Record BiStream := mkBiStream { bi_recv : reader; bi_send : writer; bi_schedule : Schedule }.

(** What can be seen of the agent: lines on its two outputs, a path watcher with
    what it prints, [handle] started on a stream, an endpoint closed, a pause. *)
Inductive act :=
  | APrint (line : string)
  | AError (line : string)
  | AWatch (lines : list string)
  | AServe (b : BiStream)
  | AClose
  | ASleep (ms : Z).
Definition report_line (line : string) : string := "egdod: " +:+ line.
Definition report (line : string) : act := AError (report_line line).

Section session.
Context `{IrohKeys} `{RelayUrls} `{!EndpointBuild} `{Postcard Admission}.

Record Config := mkAgentConfig {
  controller : PublicKey;
  key_file : path;
  relay : RelayChoice;
  direct : list SocketAddr
}.

Definition route (cfg : Config) : string :=
  let relay := match relay cfg with
               | N0 => "the public relays"
               | Disabled => "no relay"
               | Urls urls => String.concat ", " urls
               end in
  match direct cfg with
  | [] => relay +:+ ", address found by DNS"
  | _ => String.concat ", " (show_socket_addr <$> direct cfg) +:+ " directly, " +:+ relay
  end.

(** A connection: its paths and what becomes of them, the outcome of
    [accept_uni], the streams [accept_bi] returns and its error in the end;
    [None] while the connection is up. *)
Record AgentConn := mkAgentConn {
  ac_paths : list Path;
  ac_changes : list (list Path);
  ac_uni : result reader;
  ac_bi : list BiStream;
  ac_end : option error
}.
(** What the transport does for one dial: [None] is the connect timeout. *)
Definition AgentNet : Type := Endpoint → EndpointAddr → bytes → option (result AgentConn).

Definition read_admission (conn : AgentConn) : result Admission :=
  match ac_uni conn with
  | Err e => Err e
  | Ok recv => (read_msg recv).1
  end.

(** The watcher's lines. *)
Definition path_lines (conn : AgentConn) : list string :=
  (λ '(was, now, remote), report_line ("path changed: " +:+ show_path_kind was +:+ " -> " +:+ show_path_kind now
     +:+ " (" +:+ remote +:+ ")")) <$> path_changes (ac_paths conn) (ac_changes conn) None.

(** A handler for every stream, until the connection ends. *)
Definition serve_connection (conn : AgentConn) : list act * option Outcome :=
  (AWatch (path_lines conn) :: (AServe <$> ac_bi conn), Ended <$> ac_end conn).

(** What [session] does once it is connected. *)
Definition connected (secret : SecretKey) (conn : AgentConn) : list act * option (result Outcome) :=
  let '(path, remote) := session_path_report (ac_paths conn) in
  let '(acts, o) :=
    match read_admission conn with
    | Ok Pending =>
        ([report ("waiting for approval: the controller has not approved " +:+ pk_to_string (sk_public secret) +:+ " yet")],
         Some (Ok OPending))
    | Ok Approved => let '(acts, o) := serve_connection conn in (acts, Ok <$> o)
    | Err e => ([], Some (Err (add_context "reading controller admission" e)))
    end in
  (report ("connected to controller via " +:+ show_path_kind path +:+ " (" +:+ remote +:+ ")") :: acts, o).

(** [None]: still connected. *)
Definition session (net : AgentNet) (secret : SecretKey) (cfg : Config) : list act * option (result Outcome) :=
  let lookup := match direct cfg with [] => Resolve | _ => LookupNone end in
  match bind (Some secret) (relay cfg) lookup None with
  | Err e => ([], Some (Err e))
  | Ok ep =>
      match first_url (relay cfg) with
      | Err e => ([], Some (Err e))
      | Ok url =>
          let '(acts, o) :=
            match net ep (endpoint_addr (controller cfg) (direct cfg) url) ALPN with
            | None => ([], Some (Err (anyhow "connect timed out after 45s")))
            | Some (Err e) => ([], Some (Err (add_context "dialling controller" e)))
            | Some (Ok conn) => connected secret conn
            end in
          (acts ++ match o with Some _ => [AClose] | None => [] end, o)
      end
  end.

(** ** The whole run *)

(** What [run] prints after a session, and when it dials again. *)
Definition after_session (o : result Outcome) : list act :=
  match o with
  | Ok OPending => []
  | Ok (Ended e) => [report ("controller connection ended (" +:+ show_error e +:+ "); redialing")]
  | Err e => [report ("dial failed: " +:+ show_alt e)]
  end.
(** One dial per element of [nets]; the last session may still be up. *)
Fixpoint dial_loop (secret : SecretKey) (cfg : Config) (attempt backoff : Z) (nets : list AgentNet) : list act :=
  match nets with
  | [] => []
  | net :: nets =>
      let attempt := u64_add attempt 1 in
      let '(acts, o) := session net secret cfg in
      report ("dial " +:+ pretty attempt +:+ ": controller " +:+ pk_to_string (controller cfg) +:+ " via " +:+ route cfg) :: acts ++
      match o with
      | None => []
      | Some o =>
          let '(delay, backoff) := next_delay backoff o in
          after_session o ++ ASleep delay :: dial_loop secret cfg attempt backoff nets
      end
  end.
(** The loop before it, until the key can be loaded or created; [fuel] bounds how
    often it is looked at. *)
Fixpoint key_loop (fuel : nat) (key_file : path) (w : World) : list act * option SecretKey * World :=
  match fuel with
  | O => ([], None, w)
  | S fuel =>
      match load_or_create_key key_file Replace w with
      | (Ok s, w) => ([], Some s, w)
      | (Err _, w) =>
          let '(acts, s, w) := key_loop fuel key_file w in
          (ASleep MAX_BACKOFF :: acts, s, w)
      end
  end.
(** It does not return: this is what it has done after so many looks at the key
    and so many dials. *)
Definition run (cfg : Config) (fuel : nat) (nets : list AgentNet) (w : World) : list act * World :=
  let '(acts, s, w) := key_loop fuel (key_file cfg) w in
  match s with
  | None => (acts, w)
  | Some secret =>
      (acts ++ APrint ("agent pubkey: " +:+ pk_to_string (sk_public secret)) :: dial_loop secret cfg 0 SHORT_RETRY nets, w)
  end.
End session.

(** ** Lemmas and properties: dialling *)

(** Failures in a row at the end of a history. *)
Fixpoint failures (n : nat) (l : list (result Outcome)) : nat :=
  match l with
  | [] => n
  | Ok _ :: l => failures O l
  | Err _ :: l => failures (S n) l
  end.
(** The backoff after [n] failures in a row: doubling from one second, capped. *)
Definition backoff_after (n : nat) : Z := (SHORT_RETRY * 2 ^ Z.of_nat n) `min` MAX_BACKOFF.

Lemma backoff_double n : (backoff_after n * 2) `min` MAX_BACKOFF = backoff_after (S n).
Proof.
  unfold backoff_after, SHORT_RETRY, MAX_BACKOFF. rewrite Nat2Z.inj_succ, Z.pow_succ_r by lia.
  pose proof (Z.pow_pos_nonneg 2 (Z.of_nat n)). lia.
Qed.
Lemma backoff_range n : SHORT_RETRY ≤ backoff_after n ≤ MAX_BACKOFF.
Proof.
  unfold backoff_after, SHORT_RETRY, MAX_BACKOFF. pose proof (Z.pow_pos_nonneg 2 (Z.of_nat n)). lia.
Qed.
(** The delays after a sequence of sessions, by the turns of the loop. *)
Fixpoint delays (backoff : Z) (outcomes : list (result Outcome)) : list Z :=
  match outcomes with
  | [] => []
  | o :: outcomes => let '(d, backoff) := next_delay backoff o in d :: delays backoff outcomes
  end.
Lemma delays_snoc n l o :
  delays (backoff_after n) (l ++ [o]) =
  delays (backoff_after n) l ++
    [match o with
     | Ok OPending => PENDING_RETRY
     | Ok (Ended _) => SHORT_RETRY
     | Err _ => backoff_after (failures n l)
     end].
Proof.
  revert n. induction l as [|o0 l IH]; intros n; [by destruct o as [[]|]|].
  destruct o0 as [[]|]; cbn [delays next_delay app failures]; change SHORT_RETRY with (backoff_after 0);
    rewrite ?backoff_double, IH; done.
Qed.
Lemma delays_range n l : Forall (λ d, 1000 ≤ d ≤ 30000) (delays (backoff_after n) l).
Proof.
  induction l as [|o l IH] using rev_ind; [constructor|]. rewrite delays_snoc.
  apply Forall_app. split; [done|]. constructor; [|constructor].
  pose proof (backoff_range (failures n l)). unfold SHORT_RETRY, PENDING_RETRY, MAX_BACKOFF in *.
  destruct o as [[]|]; lia.
Qed.
Lemma length_delays b l : length (delays b l) = length l.
Proof. revert b. induction l as [|o l IH]; intros b; simpl; [done|]. destruct (next_delay b o). simpl. by rewrite IH. Qed.

(** The pauses in a run. *)
Definition sleep_of (a : act) : option Z := match a with ASleep ms => Some ms | _ => None end.
Definition sleeps (acts : list act) : list Z := omap sleep_of acts.
Lemma sleeps_app a b : sleeps (a ++ b) = sleeps a ++ sleeps b.
Proof. apply omap_app. Qed.
(** Whom a run started handlers for. *)
Definition serves (acts : list act) (b : BiStream) : Prop := AServe b ∈ acts.

Section session_lemmas.
Context `{IrohKeys} `{RelayUrls} `{!EndpointBuild} `{Postcard Admission}.

Lemma session_no_sleep net secret cfg : sleeps (session net secret cfg).1 = [].
Proof.
  assert (Hbi : ∀ l, sleeps (AServe <$> l) = []) by (intros l; by induction l).
  assert (Hend : ∀ o : option (result Outcome), sleeps (match o with Some _ => [AClose] | None => [] end) = []) by (by intros []).
  unfold session. destruct (bind _ _ _ _); [|done]. destruct (first_url _); [|done].
  destruct (net _ _ _) as [[conn|]|]; [|done..]. unfold connected, serve_connection.
  destruct (session_path_report (ac_paths conn)). destruct (read_admission conn) as [[]|]; [done| |done].
  simpl. rewrite sleeps_app, Hend, app_nil_r. apply Hbi.
Qed.
Lemma dial_loop_sleeps secret cfg n b nets os :
  (λ net, (session net secret cfg).2) <$> nets = Some <$> os → sleeps (dial_loop secret cfg n b nets) = delays b os.
Proof.
  revert n b os. induction nets as [|net nets IH]; intros n b [|o os] E; try done.
  rewrite !fmap_cons in E. injection E as Eo Eos. cbn [dial_loop delays].
  pose proof (session_no_sleep net secret cfg) as Hs. destruct (session net secret cfg) as [acts o']. simpl in Eo, Hs. subst o'.
  destruct (next_delay b o) as [d b']. change (sleeps (?x :: ?l)) with (sleeps l). rewrite !sleeps_app, Hs.
  assert (Ha : sleeps (after_session o) = []) by (by destruct o as [[]|]). rewrite Ha. simpl. f_equal. by apply IH.
Qed.
Lemma key_loop_sleeps fuel p w acts s w' : key_loop fuel p w = (acts, s, w') → acts = replicate (length acts) (ASleep MAX_BACKOFF).
Proof.
  revert w acts. induction fuel as [|fuel IH]; intros w acts; simpl; [by intros [= <- <- <-]|].
  destruct (load_or_create_key p Replace w) as [[k|e] w1]; [by intros [= <- <- <-]|].
  destruct (key_loop fuel p w1) as [[acts1 s1] w2] eqn:E. intros [= <- -> ->]. simpl. f_equal. by eapply IH.
Qed.
Lemma sleeps_key n : sleeps (replicate n (ASleep MAX_BACKOFF)) = replicate n 30000.
Proof. induction n as [|n IH]; [done|]. cbn [replicate]. by rewrite <- IH. Qed.

(** C36: The agent never stops dialling and never hammers the controller: once it
    has its key (it tries every thirty seconds), there is exactly one delay after
    every session, between one and thirty seconds; after a refusal-for-now it is
    five seconds, after a session that ended it is one, and after the k-th
    failure in a row it is 2^(k-1) seconds, capped at thirty, the count starting
    over whenever the controller answered; and the next dial follows. *)
Theorem redial_backoff cfg fuel w key_acts secret w1 nets net os o :
  key_loop fuel (key_file cfg) w = (key_acts, Some secret, w1) →
  (λ net, (session net secret cfg).2) <$> nets = Some <$> os → (session net secret cfg).2 = Some o →
  sleeps (run cfg fuel (nets ++ [net]) w).1 = sleeps (run cfg fuel nets w).1 ++
    [match o with
     | Ok OPending => 5000
     | Ok (Ended _) => 1000
     | Err _ => (1000 * 2 ^ Z.of_nat (failures 0 os)) `min` 30000
     end] ∧
  length (sleeps (run cfg fuel nets w).1) = (length key_acts + length nets)%nat ∧
  Forall (λ d, 1000 ≤ d ≤ 30000) (sleeps (run cfg fuel nets w).1).
Proof.
  intros Hk Hos Ho. pose proof (key_loop_sleeps _ _ _ _ _ _ Hk) as Ek. unfold run. rewrite Hk. cbn [fst].
  rewrite Ek, length_replicate, !sleeps_app, sleeps_key. change (sleeps (APrint ?x :: ?l)) with (sleeps l).
  rewrite (dial_loop_sleeps _ _ _ _ nets os), (dial_loop_sleeps _ _ _ _ (nets ++ [net]) (os ++ [o])) by
    (done || by rewrite !fmap_app, Hos; simpl; rewrite Ho).
  change SHORT_RETRY with (backoff_after 0). split_and!.
  - rewrite delays_snoc, app_assoc. by destruct o as [[]|].
  - rewrite length_app, length_replicate, length_delays. apply (f_equal length) in Hos. rewrite !length_fmap in Hos. by rewrite Hos.
  - apply Forall_app. split; [apply Forall_replicate; lia|apply delays_range].
Qed.

(** A connection a handler may serve: dialled at the configured controller under
    the agent protocol, bound with the agent's own key, without a publisher and
    with address lookup only when no direct address was given, and opened by the
    controller's word of approval. *)
Record approved_conn (secret : SecretKey) (cfg : Config) (net : AgentNet) (conn : AgentConn) : Prop := mkApprovedConn {
  ap_dial : ∃ rm url ep, mode (relay cfg) = Ok rm ∧ first_url (relay cfg) = Ok url ∧
    builder_bind (mkConfig rm None (Some secret) false (bool_decide (direct cfg = []))) = Ok ep ∧
    net ep (endpoint_addr (controller cfg) (direct cfg) url) ALPN = Some (Ok conn);
  ap_admission : read_admission conn = Ok Approved
}.
Lemma session_serves net secret cfg b :
  serves (session net secret cfg).1 b → ∃ conn, approved_conn secret cfg net conn ∧ b ∈ ac_bi conn.
Proof.
  unfold serves, session, bind, bind_config.
  replace (bool_decide (_ = Both)) with false by (by destruct (direct cfg)).
  replace (bool_decide (_ ≠ LookupNone)) with (bool_decide (direct cfg = [])) by (by destruct (direct cfg)).
  destruct (mode (relay cfg)) as [rm|] eqn:Em; [|by intros ?%not_elem_of_nil]. simpl.
  destruct (builder_bind _) as [ep|] eqn:Eb; [|by intros ?%not_elem_of_nil]. simpl.
  destruct (first_url (relay cfg)) as [url|] eqn:Eu; [|by intros ?%not_elem_of_nil].
  destruct (net _ _ _) as [[conn|]|] eqn:Ec; [|set_solver..]. unfold connected, serve_connection.
  destruct (session_path_report (ac_paths conn)). destruct (read_admission conn) as [[]|] eqn:Ea; [set_solver| |set_solver].
  intros Hin. exists conn. split; [split; [by eexists _, _, _|done]|]. cbn [fst] in Hin.
  apply elem_of_app in Hin as [Hin|Hin]; [|by destruct (Ok <$> (Ended <$> ac_end conn)); set_solver].
  rewrite !elem_of_cons in Hin. destruct Hin as [?|[?|Hin]]; [done..|].
  apply list_elem_of_fmap in Hin as (b' & [= ->] & ?). done.
Qed.
(** And every stream of such a connection gets its handler. *)
Lemma session_serves_all net secret cfg conn b :
  approved_conn secret cfg net conn → b ∈ ac_bi conn → serves (session net secret cfg).1 b.
Proof.
  intros [(rm & url & ep & Hm & Hu & Hb & Hn) Ha] Hin. unfold serves, session, bind, bind_config.
  replace (bool_decide (_ = Both)) with false by (by destruct (direct cfg)).
  replace (bool_decide (_ ≠ LookupNone)) with (bool_decide (direct cfg = [])) by (by destruct (direct cfg)).
  rewrite Hm. cbn iota. rewrite Hb, Hu. cbn [context]. rewrite Hn. unfold connected, serve_connection. rewrite Ha.
  destruct (session_path_report (ac_paths conn)). cbn [fst]. apply elem_of_app. left. do 2 right. by apply list_elem_of_fmap_2.
Qed.
Lemma dial_loop_serves_all secret cfg n backoff pre net post conn b :
  Forall (λ net, is_Some (session net secret cfg).2) pre → approved_conn secret cfg net conn → b ∈ ac_bi conn →
  serves (dial_loop secret cfg n backoff (pre ++ net :: post)) b.
Proof.
  intros Hpre Hc Hb. revert n backoff. induction Hpre as [|net0 pre [o Ho] _ IH]; intros n backoff; simpl.
  - pose proof (session_serves_all net secret cfg conn b Hc Hb) as Hs. destruct (session net secret cfg) as [acts o].
    right. apply elem_of_app. by left.
  - destruct (session net0 secret cfg) as [acts o']. simpl in Ho. subst o'. destruct (next_delay backoff o) as [d b'].
    right. apply elem_of_app. right. apply elem_of_app. do 2 right. apply IH.
Qed.
Lemma dial_loop_serves secret cfg n backoff nets b :
  serves (dial_loop secret cfg n backoff nets) b → ∃ net conn, net ∈ nets ∧ approved_conn secret cfg net conn ∧ b ∈ ac_bi conn.
Proof.
  unfold serves. revert n backoff. induction nets as [|net nets IH]; intros n backoff; simpl; [by intros ?%not_elem_of_nil|].
  pose proof (session_serves net secret cfg b) as Hs. destruct (session net secret cfg) as [acts o].
  intros [?|[Hin|Hin]%elem_of_app]%elem_of_cons; [done| |].
  - destruct (Hs Hin) as (conn & ? & ?). exists net, conn. split; [by left|done].
  - destruct o as [o|]; [|by apply not_elem_of_nil in Hin]. destruct (next_delay backoff o).
    apply elem_of_app in Hin as [Hin|Hin]; [destruct o as [[]|]; set_solver|].
    apply elem_of_cons in Hin as [?|Hin]; [done|]. destruct (IH _ _ Hin) as (net' & conn & ? & ?). exists net', conn. split; [by right|done].
Qed.
Lemma key_loop_key fuel p w acts s w' :
  key_loop fuel p w = (acts, Some s, w') → ∃ w0, load_or_create_key p Replace w0 = (Ok s, w').
Proof.
  revert w acts. induction fuel as [|fuel IH]; intros w acts; simpl; [done|].
  destruct (load_or_create_key p Replace w) as [[k|e] w1] eqn:E; [intros [= <- -> ->]; by eexists|].
  destruct (key_loop fuel p w1) as [[acts1 s1] w2] eqn:E1. intros [= <- -> ->]. by eapply IH.
Qed.
Lemma run_serves cfg fuel nets w b :
  serves (run cfg fuel nets w).1 b → ∃ secret w0 net conn,
    load_or_create_key (key_file cfg) Replace w0 = (Ok secret, (run cfg fuel nets w).2) ∧
    net ∈ nets ∧ approved_conn secret cfg net conn ∧ b ∈ ac_bi conn.
Proof.
  unfold run, serves. destruct (key_loop fuel (key_file cfg) w) as [[acts [secret|]] w'] eqn:Ek; simpl;
    pose proof (key_loop_sleeps _ _ _ _ _ _ Ek) as Ea.
  - destruct (key_loop_key _ _ _ _ _ _ Ek) as [w0 Hk].
    intros [Hin|[?|Hin]%elem_of_cons]%elem_of_app; [|done|].
    + rewrite Ea in Hin. by apply elem_of_replicate in Hin as [? _].
    + destruct (dial_loop_serves _ _ _ _ _ _ Hin) as (net & conn & ? & ? & ?). by eexists _, _, net, conn.
  - intros Hin. rewrite Ea in Hin. by apply elem_of_replicate in Hin as [? _].
Qed.
Lemma run_serves_all cfg fuel w secret pre net post conn b :
  (key_loop fuel (key_file cfg) w).1.2 = Some secret → Forall (λ net, is_Some (session net secret cfg).2) pre →
  approved_conn secret cfg net conn → b ∈ ac_bi conn → serves (run cfg fuel (pre ++ net :: post) w).1 b.
Proof.
  intros Hk Hpre Hc Hb. unfold run. destruct (key_loop fuel (key_file cfg) w) as [[acts s] w']. simpl in Hk. subst s.
  apply elem_of_app. do 2 right. by eapply dial_loop_serves_all.
Qed.
End session_lemmas.

(** ** Lemmas and properties: commands *)

Lemma pump_loop_spec fuel b r f :
  f ∈ pump_loop fuel b r → ∃ chunk, f = (if b then Stdout chunk else Stderr chunk) ∧ (length chunk ≤ EXEC_CHUNK)%nat.
Proof.
  revert r. induction fuel as [|fuel IH]; intros r; cbn [pump_loop]; [by intros ?%not_elem_of_nil|].
  destruct (read EXEC_CHUNK r) as [[[|x chunk]|e] r1] eqn:E; [by intros ?%not_elem_of_nil| |by intros ?%not_elem_of_nil].
  intros [->|Hin]%elem_of_cons; [|by eapply IH]. eexists. split; [done|].
  by eapply read_cap.
Qed.
Lemma pump_loop_whole fuel (b : bool) r :
  clean r → (length (rd_bytes r) < fuel)%nat →
  (if b then exec_stdout (pump_loop fuel b r) else exec_stderr (pump_loop fuel b r)) = rd_bytes r.
Proof.
  revert r. induction fuel as [|fuel IH]; intros r Hc Hf; [lia|]. cbn [pump_loop].
  destruct (read_clean EXEC_CHUNK r) as (c & r1 & E & Hc1 & Hr & _ & He); [done|unfold EXEC_CHUNK; lia|].
  rewrite E. destruct c as [|x c]; [rewrite (He eq_refl); by destruct b|].
  rewrite Hr, length_app in Hf. simpl in Hf. rewrite Hr, <- IH by (done || lia).
  by destruct b.
Qed.

(** Frames of one stream say nothing of the other. *)
Definition only_out (f : ExecFrame) : Prop := frame_err f = [] ∧ not_failed f ∧ ∃ b, f = Stdout b ∧ (length b ≤ EXEC_CHUNK)%nat.
Definition only_err (f : ExecFrame) : Prop := frame_out f = [] ∧ not_failed f ∧ ∃ b, f = Stderr b ∧ (length b ≤ EXEC_CHUNK)%nat.

Lemma pump_out r l : l `prefix_of` pump_frames true r → Forall only_out l.
Proof.
  intros [k Hk]. apply Forall_forall. intros f Hf.
  destruct (pump_loop_spec (S (length (rd_bytes r))) true r f) as (c & -> & ?); [|by split_and!; eauto].
  change (f ∈ pump_frames true r). rewrite Hk. apply elem_of_app. by left.
Qed.
Lemma pump_err r l : l `prefix_of` pump_frames false r → Forall only_err l.
Proof.
  intros [k Hk]. apply Forall_forall. intros f Hf.
  destruct (pump_loop_spec (S (length (rd_bytes r))) false r f) as (c & -> & ?); [|by split_and!; eauto].
  change (f ∈ pump_frames false r). rewrite Hk. apply elem_of_app. by left.
Qed.

(** An interleaving keeps each stream's bytes in order. *)
Lemma merge_streams a b l :
  merge a b l → Forall only_out a → Forall only_err b →
  exec_stdout l = exec_stdout a ∧ exec_stderr l = exec_stderr b ∧
  Forall (λ f, only_out f ∨ only_err f) l.
Proof.
  induction 1 as [|x a b l _ IH|x a b l _ IH]; intros Ha Hb; [done|..].
  - apply Forall_cons in Ha as [Hx Ha]. destruct (IH Ha Hb) as (E1 & E2 & E3).
    rewrite !exec_out_cons, !exec_err_cons, E1, E2. split_and!; [done|by rewrite (proj1 Hx)|].
    constructor; auto.
  - apply Forall_cons in Hb as [Hx Hb]. destruct (IH Ha Hb) as (E1 & E2 & E3).
    rewrite !exec_out_cons, !exec_err_cons, E1, E2. split_and!; [by rewrite (proj1 Hx)|done|].
    constructor; auto.
Qed.
Lemma exec_stdout_prefix a b : a `prefix_of` b → exec_stdout a `prefix_of` exec_stdout b.
Proof. intros [k ->]. unfold exec_stdout. rewrite bind_app. by apply prefix_app_r. Qed.
Lemma exec_stderr_prefix a b : a `prefix_of` b → exec_stderr a `prefix_of` exec_stderr b.
Proof. intros [k ->]. unfold exec_stderr. rewrite bind_app. by apply prefix_app_r. Qed.

Section exec_lemmas.
Context `{PostcardLaws ExecFrame} `{!Processes}.

(** postcard encodes every frame (exit statuses are [i32]s), an output frame of
    [n] bytes in at most [n + 16]. *)
Definition is_i32 (c : Z) : Prop := - 2 ^ 31 ≤ c < 2 ^ 31.
Definition encodable (f : ExecFrame) : Prop :=
  match f with Failed _ => False | Exit c => is_i32 c | _ => True end.
Definition frames_encode : Prop :=
  ∀ f, encodable f → ∃ body, to_allocvec f = Ok body ∧
    zlen body ≤ match frame_payload f with Some b => zlen b | None => 0 end + 16.

Lemma frames_fit f : frames_encode → only_out f ∨ only_err f ∨ (∃ c, f = Exit c ∧ is_i32 c) ∨ f = Truncated →
  ∃ body, to_allocvec f = Ok body ∧ zlen body ≤ MAX_MSG.
Proof.
  intros Henc Hf. destruct (Henc f) as (body & Hb & Hl).
  { destruct Hf as [(_ & _ & ? & -> & _)|[(_ & _ & ? & -> & _)|[(c & -> & ?)| ->]]]; done. }
  exists body. split; [done|].
  assert (match frame_payload f with Some b => zlen b | None => 0 end ≤ 32768); [|change MAX_MSG with 1048576; lia].
  unfold EXEC_CHUNK in *.
  destruct Hf as [(_ & _ & b & -> & Hlen)|[(_ & _ & b & -> & Hlen)|[(c & -> & _)| ->]]]; unfold EXEC_CHUNK in *; simpl; unfold zlen; lia.
Qed.

Lemma write_frames_wire l wr :
  frames_encode → Forall (λ f, only_out f ∨ only_err f) l → healthy wr →
  ∃ bs, wire l bs ∧ write_frames l wr = (true, mkWriter (w_out wr ++ bs) None None false).
Proof.
  intros Henc Hl. revert wr. induction Hl as [|f l Hf _ IH]; intros wr Hw.
  { exists []. split; [constructor|]. destruct wr as [o br fe fin], Hw as (? & ? & ?); simpl in *; subst.
    by rewrite app_nil_r. }
  destruct (frames_fit f Henc) as (body & Hb & Hmax); [naive_solver|]. cbn [write_frames].
  rewrite (write_msg_healthy f wr body) by done.
  destruct (IH (mkWriter (w_out wr ++ frame body) None None false)) as (bs & Hbs & ->); [done|].
  exists (frame body ++ bs). split; [by constructor|]. simpl. by rewrite <- app_assoc.
Qed.

Lemma wire_app l1 l2 b1 b2 : wire l1 b1 → wire (T := ExecFrame) l2 b2 → wire (l1 ++ l2) (b1 ++ b2).
Proof.
  intros Hw1 Hw2. induction Hw1 as [|f fs body bs Hb Hm _ IH]; [done|]. rewrite <- app_assoc. by constructor.
Qed.

Definition tail_frames (cut : bool) (code : Z) : list ExecFrame :=
  (if cut then [Truncated] else []) ++ [Exit code].

(** What the agent puts on the stream for a command that ran. *)
Lemma exec_wire program args child status sc :
  frames_encode → spawn program args = Ok child → c_wait child = Ok status → is_i32 (exit_code status) →
  valid_schedule child sc → sc_joined sc = true →
  ∃ bs, wire (sc_frames sc ++ tail_frames (sc_cut sc) (exit_code status)) bs ∧
    exec (program :: args) sc new_writer = (Ok tt, mkWriter bs None None true).
Proof.
  intros Henc Hs Hw Hi (a & b & Hm & Ha & Hb & _) Hj.
  destruct (merge_streams a b (sc_frames sc) Hm) as (_ & _ & Hall); [by eapply pump_out|by eapply pump_err|].
  destruct (write_frames_wire (sc_frames sc) new_writer Henc Hall) as (bs & Hbs & Ew); [done|].
  destruct (frames_fit (Exit (exit_code status)) Henc) as (be & Hbe & Hbm); [naive_solver|].
  destruct (frames_fit Truncated Henc) as (bt & Hbt & Hbtm); [naive_solver|].
  unfold exec. rewrite Hs, Ew, Hw, Hj. simpl andb. cbn iota. simpl w_out.
  destruct (sc_cut sc); unfold mbind, M_bind, mret, M_ret, tail_frames; simpl app.
  - rewrite (write_msg_healthy Truncated _ bt) by done. simpl w_out.
    rewrite (write_msg_healthy (Exit _) _ be) by done. eexists. split; [|done].
    simpl. rewrite <- app_assoc. apply wire_app; [done|]. rewrite <- (app_nil_r (frame be)).
    by repeat constructor.
  - rewrite (write_msg_healthy (Exit _) _ be) by done. eexists. split; [|done].
    apply wire_app; [done|]. rewrite <- (app_nil_r (frame be)). by repeat constructor.
Qed.
Lemma tail_out cut code : exec_stdout (tail_frames cut code) = [] ∧ exec_stderr (tail_frames cut code) = [].
Proof. by destruct cut. Qed.

(** Running a command end to end: whatever order the agent's two pumps
    interleave in and however the transport cuts the stream, the controller's
    sinks receive the command's standard output and standard error complete and
    in order, and its exit status (128 plus the number for a signal); when the
    agent had to stop reading before the end, they receive a prefix of each and
    the result says so. *)
Lemma exec_end_to_end program args child status sc max (r : reader) (out err : writer) :
  frames_encode → spawn program args = Ok child → c_wait child = Ok status → is_i32 (exit_code status) →
  clean (c_stdout child) → clean (c_stderr child) →
  valid_schedule child sc → sc_joined sc = true →
  clean r → rd_bytes r = w_out (exec (program :: args) sc new_writer).2 →
  healthy out → healthy err →
  zlen (rd_bytes (c_stdout child)) + zlen (rd_bytes (c_stderr child)) ≤ max → max ≤ u64_max →
  ∃ o e, recv_exec_output max (r, (out, err)) =
      (Ok (exit_code status, sc_cut sc),
       ([], (mkWriter (w_out out ++ o) None None false, mkWriter (w_out err ++ e) None None false))) ∧
    o `prefix_of` rd_bytes (c_stdout child) ∧ e `prefix_of` rd_bytes (c_stderr child) ∧
    (sc_cut sc = false → o = rd_bytes (c_stdout child) ∧ e = rd_bytes (c_stderr child)).
Proof.
  intros Henc Hs Hw Hi Hco Hce Hv Hj Hc Hr Ho He Hmax Hu.
  destruct (exec_wire program args child status sc) as (bs & Hwire & E); [done..|].
  rewrite E in Hr. simpl in Hr. destruct Hv as (a & b & Hm & Ha & Hb & Hcut).
  destruct (merge_streams a b (sc_frames sc) Hm) as (Eo & Ee & Hall); [by eapply pump_out|by eapply pump_err|].
  destruct (tail_out (sc_cut sc) (exit_code status)) as [Et1 Et2].
  assert (Hpo : exec_stdout (pump_frames true (c_stdout child)) = rd_bytes (c_stdout child)).
  { apply (pump_loop_whole _ true); [done|lia]. }
  assert (Hpe : exec_stderr (pump_frames false (c_stderr child)) = rd_bytes (c_stderr child)).
  { apply (pump_loop_whole _ false); [done|lia]. }
  apply exec_stdout_prefix in Ha as Ha'. rewrite Hpo in Ha'.
  apply exec_stderr_prefix in Hb as Hb'. rewrite Hpe in Hb'.
  exists (exec_stdout a), (exec_stderr b). split_and!; [|done|done|].
  2:{ intros Hn. destruct (Hcut Hn) as [-> ->]. done. }
  set (l := sc_frames sc ++ tail_frames (sc_cut sc) (exit_code status)) in *.
  assert (Hlo : exec_stdout l = exec_stdout a).
  { unfold l, exec_stdout in *. by rewrite bind_app, Et1, app_nil_r. }
  assert (Hle : exec_stderr l = exec_stderr b).
  { unfold l, exec_stderr in *. by rewrite bind_app, Et2, app_nil_r. }
  rewrite <- Hlo, <- Hle.
  assert (Htr : exec_truncated false l = sc_cut sc).
  { unfold l, exec_truncated. rewrite foldl_app. replace (foldl _ false (sc_frames sc)) with false.
    { by destruct (sc_cut sc). }
    clear -Hall. generalize (sc_frames sc) Hall. induction 1 as [|f fs Hf _ IH]; [done|]. simpl.
    by destruct Hf as [(_ & _ & ? & -> & _)|(_ & _ & ? & -> & _)]. }
  rewrite <- Htr. apply (recv_frames l bs); try done.
  - unfold l. apply Forall_app. split; [eapply Forall_impl; [exact Hall|]; by intros f [(_ & ? & _)|(_ & ? & _)]|].
    destruct (sc_cut sc); by repeat constructor.
  - unfold l, exec_status. rewrite foldl_app. by destruct (sc_cut sc).
  - rewrite Hlo, Hle. apply prefix_length in Ha', Hb'. unfold zlen in *. lia.
Qed.
End exec_lemmas.

(** ** Properties: draining, and what a pull reports *)

(** A turn that did not end with both pumps done took [DRAIN_IDLE]; none takes
    longer, but for the [late] by which a timer may fire. *)
Fixpoint timed (late t : Z) (rounds : list Round) : Prop :=
  match rounds with
  | [] => True
  | r :: rounds =>
      (rd_both r = false → t + DRAIN_IDLE ≤ rd_now r) ∧ rd_now r ≤ t + DRAIN_IDLE + late ∧ timed late (rd_now r) rounds
  end.
(** Nothing went out during the turn, and nothing was being sent at its end. *)
Definition idle_turn (r : Round) : Prop := rd_after r = rd_before r ∧ rd_sending r = false.

Lemma drain_loop_ends late deadline t n rounds :
  timed late t rounds → t < deadline → deadline ≤ t + DRAIN_IDLE * Z.of_nat n → (n ≤ length rounds)%nat →
  ∃ k r b, (k < n)%nat ∧ rounds !! k = Some r ∧ drain_loop deadline (take (S k) rounds) = Some b ∧
    rd_now r < deadline + DRAIN_IDLE + late ∧
    if b then rd_both r = false ∧ (idle_turn r ∨ deadline ≤ rd_now r) else rd_both r = true.
Proof.
  revert t rounds. induction n as [|n IH]; intros t [|r rounds] Ht Hlt Hd Hn; simpl in *; unfold DRAIN_IDLE in *; try lia.
  destruct Ht as (Hlow & Hup & Ht). destruct (rd_both r) eqn:Eb.
  { exists 0%nat, r, false. cbn [take drain_loop]. rewrite Eb. split_and!; [lia|done|done|lia|done]. }
  specialize (Hlow eq_refl).
  destruct (bool_decide (rd_after r = rd_before r) && negb (rd_sending r)) eqn:Ei.
  { exists 0%nat, r, true. cbn [take drain_loop]. rewrite Eb. apply andb_true_iff in Ei as [Ei%bool_decide_eq_true Es%negb_true_iff].
    split_and!; [lia|done|done|lia|done|by left]. }
  destruct (decide (deadline ≤ rd_now r)) as [Hge|Hlt2].
  { exists 0%nat, r, true. cbn [take drain_loop]. rewrite Eb, bool_decide_true by done. split_and!; [lia|done|done|lia|done|by right]. }
  destruct (IH (rd_now r) rounds) as (k & r2 & b & ? & ? & Hrun & ?); [done|lia|lia|lia|].
  exists (S k), r2, b. split_and!; [lia|done| |tauto..]. cbn [take drain_loop]. rewrite bool_decide_false by done. exact Hrun.
Qed.

(** C37: Collecting a command's last output always ends: whatever the pipes and
    the network do (a daemon holding the pipes open, a peer that never reads),
    [drain_output] decides within eight turns of its loop and before fifteen
    seconds plus one idle period of two have passed, but for what the last timer
    is late; it reports complete output only if both pumps have really ended, and
    cuts it off only if they have not and a whole turn went by without anything
    being sent or the fifteen seconds are over. *)
Theorem drain_output_ends late start rounds :
  timed late start rounds → (8 ≤ length rounds)%nat →
  ∃ k r b, (k < 8)%nat ∧ rounds !! k = Some r ∧ drain_output start (take (S k) rounds) = Some b ∧
    rd_now r < start + 15000 + 2000 + late ∧
    if b then rd_both r = false ∧ (idle_turn r ∨ start + 15000 ≤ rd_now r) else rd_both r = true.
Proof.
  intros Ht Hl. unfold drain_output. apply (drain_loop_ends late (start + DRAIN_CAP) start 8 rounds);
    [done|unfold DRAIN_CAP; lia|unfold DRAIN_CAP, DRAIN_IDLE; lia|done].
Qed.

Section pull.
Context `{Sha256Laws}.

(** A file that is there is never reported as missing. *)
Lemma syscall_not_found {A} (m : M World A) w e w' :
  honest w → syscall m w = (Err e, w') → e_io e = Some NotFound →
  ∃ w1, fs w1 = fs w ∧ later w w1 ∧ m w1 = (Err e, w').
Proof.
  unfold syscall, next_fault. intros Hh E He. destruct (faults w) as [|[f|] l] eqn:Ef.
  - by exists w.
  - simplify_eq. simpl in He. apply (honest_head w f l) in Hh; [congruence|done].
  - exists (set_faults l w). split_and!; [done| |done]. eauto with egdod.
Qed.
Lemma syscall_file p w e w' (m : M World bytes) f :
  honest w → fs w !! p = Some (NFile f) → (∀ w1, fs w1 = fs w → is_ok (m w1).1 = true) →
  syscall m w = (Err e, w') → e_io e ≠ Some NotFound.
Proof.
  intros Hh Hf Hm E He. destruct (syscall_not_found m w e w' Hh E He) as (w1 & Hfs & _ & E1).
  specialize (Hm w1 Hfs). by rewrite E1 in Hm.
Qed.

Lemma hash_loop_not_found fuel p off h len w e w' f :
  honest w → fs w !! p = Some (NFile f) → hash_loop fuel p off h len w = (Err e, w') →
  e_io e ≠ Some NotFound.
Proof.
  revert off h len w. induction fuel as [|fuel IH]; intros off h len w Hh Hf; cbn [hash_loop].
  { unfold fail. intros; by simplify_eq. }
  unfold mbind, M_bind. destruct (fs_read_at p off (Z.to_nat CHUNK) w) as [[buf|e1] w1] eqn:Er.
  - destruct (fs_read_at_ok _ _ _ _ _ _ _ Hf Er) as (_ & Hfs & Hl).
    destruct buf as [|x buf]; [done|]. apply IH; [by eapply honest_later|by rewrite Hfs].
  - intros; simplify_eq. eapply syscall_file; [done|done| |exact Er]. intros w2 E2. simpl. by rewrite E2, Hf.
Qed.

Lemma stat_and_hash_not_found p w e w' :
  honest w → stat_and_hash p w = (Err e, w') → e_io e = Some NotFound → fs w !! p = None.
Proof.
  intros Hh E He. destruct (fs w !! p) as [n|] eqn:Hn; [exfalso|done]. revert E He.
  assert (Hstat : ∀ w1, fs w1 = fs w → do_stat p w1 = (Ok n, w1)).
  { intros w1 E1. unfold do_stat. by rewrite E1, Hn. }
  unfold stat_and_hash, mbind, M_bind, with_context, gets.
  destruct (fs_open p w) as [[[]|e1] w1] eqn:Eo; cbn [context].
  2:{ intros; simplify_eq. destruct (syscall_not_found _ _ _ _ Hh Eo He) as (w2 & Hfs & _ & E2).
      unfold mbind, M_bind in E2. rewrite (Hstat w2 Hfs) in E2. done. }
  destruct (fs_open_cases p w) as [(? & ? & ? & _)|(w1' & E1 & Hfs1 & Hl1)]; [congruence|].
  rewrite Eo in E1. simplify_eq. apply (honest_later _ _ Hh) in Hl1 as Hh1.
  destruct (fs_metadata p w1') as [[n1|e1] w2] eqn:Em.
  2:{ intros; simplify_eq. destruct (syscall_not_found _ _ _ _ Hh1 Em He) as (w3 & Hfs & _ & E2).
      rewrite (Hstat w3) in E2 by congruence. done. }
  destruct (fs_metadata_cases p w1') as [(? & ? & ? & _)|(n2 & w2' & E2 & Hfs2 & Hl2 & Hn2)]; [congruence|].
  rewrite Em in E2. simplify_eq. destruct n2 as [f| |]; unfold fail, mret, M_ret; try (intros; by simplify_eq).
  destruct (hash_loop (S (file_size p w2')) p 0 sha_new 0 w2') as [[[l h]|e1] w3] eqn:Eh; [intros; by simplify_eq|]. intros; simplify_eq.
  eapply hash_loop_not_found; [by eapply honest_later| |exact Eh|done].
  rewrite Hfs2. by apply Hn2.
Qed.

Context `{!StatvfsCall} `{!Processes} `{!TcpConnect}.
Context `{PostcardLaws Request} `{Postcard ExecFrame} `{Postcard Ack} `{PostcardLaws PullStart}.

Lemma handle_pull sc path r0 r wr w :
  read_msg r0 = (Ok (Pull path), r) →
  handle sc (r0, (wr, w)) =
    match stat_and_hash (parse_path path) w with
    | (Err e, w1) =>
        (on_send (write_msg (if bool_decide (e_io e = Some NotFound) then PullMissing else PullErr (show_alt e)));;
         on_send shutdown;; mret None) (r, (wr, w1))
    | (Ok (mode, len, sha256), w1) =>
        (on_send (write_msg (PullOk mode len sha256));;
         on_snd (send_file_body (parse_path path));;
         on_send shutdown;; mret None) (r, (wr, w1))
    end.
Proof.
  intros Hr. unfold handle. unfold mbind at 1, M_bind at 1, on_fst at 1, with_context at 1. simpl.
  rewrite Hr. simpl. unfold mbind at 1, M_bind at 1, attempt, on_target, on_snd at 1 2. cbn [fst snd].
  by destruct (stat_and_hash (parse_path path) w) as [[[[mode len] sha]|e] w1].
Qed.

(** Sending one message on a fresh stream and closing it. *)
Lemma reply_sent {T} `{PostcardLaws T} (msg : T) r wr w x r' wr' w' (rr : reader) :
  (on_send (write_msg msg);; on_send shutdown;; mret (None : option (reader * writer))) (r, (wr, w))
    = (Ok x, (r', (wr', w'))) →
  clean rr → w_out wr ++ rd_bytes rr = w_out wr' → ∃ rest, read_msg rr = (Ok msg, rest).
Proof.
  unfold mbind, M_bind, on_send, on_fst, on_snd. cbn [fst snd].
  destruct (write_msg msg wr) as [[[]|e] wr1] eqn:Ew; [|done]. simpl. unfold mret, M_ret. intros E Hc Hb. simplify_eq. simpl in Hb.
  destruct (read_written msg wr wr1 rr []) as (rest & ? & _); [done|done|by rewrite app_nil_r, Hb|eauto].
Qed.

(** What the agent answers to a pull is the truth: "missing" is said only if
    there is nothing at that path (a file that exists but cannot be read, for
    whatever reason and at whatever point, is never reported as missing), and an
    announcement names the permission bits and the digest of the file there is. *)
Theorem pull_reply_is_truthful sc path r0 r w x r' wr' w' (rr : reader) :
  honest w → read_msg r0 = (Ok (Pull path), r) →
  handle sc (r0, (new_writer, w)) = (Ok x, (r', (wr', w'))) →
  clean rr → rd_bytes rr = w_out wr' →
  match (read_msg (T := PullStart) rr).1 with
  | Ok PullMissing => fs w !! parse_path path = None
  | Ok (PullOk mode len sha) =>
      ∃ f, fs w !! parse_path path = Some (NFile f) ∧ mode = Z.land (f_mode f) o7777 ∧
           sha = sha256_of (f_data f) ∧ (zlen (f_data f) ≤ u64_max → len = zlen (f_data f))
  | Ok (PullErr _) => True
  | Err _ => False
  end.
Proof.
  intros Hh Hreq Hrun Hc Hb. rewrite (handle_pull _ _ _ r) in Hrun by done.
  destruct (stat_and_hash (parse_path path) w) as [[[[mode len] sha]|e] w1] eqn:Es.
  - apply stat_and_hash_ok in Es as (f & Hf & Hfs & Hmode & Hsha & Hlen).
    revert Hrun. unfold mbind, M_bind, on_send, on_fst, on_snd, mret, M_ret. cbn [fst snd].
    destruct (write_msg (PullOk mode len sha) new_writer) as [[[]|e] wr1] eqn:Ew; [|done]. cbn [fst snd].
    destruct (send_file_body (parse_path path) (wr1, w1)) as [[[]|e] [wr2 w2]] eqn:Ef; [|done]. simpl.
    apply (send_file_body_ok _ _ _ f) in Ef as [_ Ho]; [|by rewrite Hfs]. intros Hrun. simplify_eq. simpl in Hb.
    destruct (read_written (PullOk (Z.land (f_mode f) o7777) len (sha256_of (f_data f))) new_writer wr1 rr (f_data f))
      as (rest & -> & _); [done|done|by simpl; rewrite Hb|]. simpl. by exists f.
  - apply reply_sent with (rr := rr) in Hrun as [rest ->]; [|done|done]. simpl.
    case_bool_decide; [|done]. by eapply stat_and_hash_not_found.
Qed.
End pull.

(** ** Concrete runs *)

Section examples.
Import DemoSha DemoKeys DemoNet DemoCodec DemoPostcard.

Definition demo_child : Child :=
  mkChild [RData (as_bytes "hi"); RData (as_bytes "!")] [RData (as_bytes "e")] (Ok (Signaled 9)).
Instance demo_processes : Processes := λ _ _, Ok demo_child.
Instance demo_tcp : TcpConnect := λ _, Err (io_error OtherKind "Connection refused (os error 111)").
Instance demo_disk : StatvfsCall := λ _, Ok (mkStatvfs 100 50 4096).

Lemma demo_frames_encode : frames_encode.
Proof.
  intros f Hf. destruct f as [b|b|c|m|]; simpl in *; try done.
  - eexists. split; [done|]. rewrite zlen_cons. lia.
  - eexists. split; [done|]. rewrite zlen_cons. lia.
  - unfold put_i32. rewrite bool_decide_true by done. eexists. split; [done|].
    rewrite zlen_cons. unfold zlen. rewrite length_le_bytes. lia.
  - eexists. split; [done|]. by vm_compute.
Qed.

Definition demo_schedule : Schedule :=
  mkSchedule [Stdout (as_bytes "hi"); Stderr (as_bytes "e"); Stdout (as_bytes "!")] false true.

Lemma demo_schedule_valid : valid_schedule demo_child demo_schedule.
Proof.
  exists (pump_frames true (c_stdout demo_child)), (pump_frames false (c_stderr demo_child)).
  split_and!; [|done|done|done]. vm_compute. repeat constructor.
Qed.

(** A daemon holds the pipes while frames keep trickling. *)
Definition demo_rounds : list Round :=
  (λ i, mkRound false i (i + 1) false (2000 * (i + 1))) <$> [0; 1; 2; 3; 4; 5; 6; 7].
Lemma drain_output_ends_witness :
  ∃ k r b, (k < 8)%nat ∧ demo_rounds !! k = Some r ∧ drain_output 0 (take (S k) demo_rounds) = Some b ∧
    rd_now r < 0 + 15000 + 2000 + 5 ∧
    if b then rd_both r = false ∧ (idle_turn r ∨ 0 + 15000 ≤ rd_now r) else rd_both r = true.
Proof. apply (drain_output_ends 5 0 demo_rounds); [by vm_compute|vm_compute; lia]. Defined.

Definition demo_pull : reader := [RData (w_out (write_msg (Pull "/srv/a.txt") new_writer).2)].
Lemma pull_reply_is_truthful_witness :
  match (read_msg (T := PullStart) [RData (w_out (handle demo_schedule (demo_pull, (new_writer, demo_sender))).2.2.1)]).1 with
  | Ok PullMissing => fs demo_sender !! demo_src = None
  | Ok (PullOk mode len sha) =>
      ∃ f, fs demo_sender !! demo_src = Some (NFile f) ∧ mode = Z.land (f_mode f) o7777 ∧
           sha = sha256_of (f_data f) ∧ (zlen (f_data f) ≤ u64_max → len = zlen (f_data f))
  | Ok (PullErr _) => True
  | Err _ => False
  end.
Proof.
  eapply (pull_reply_is_truthful demo_schedule "/srv/a.txt" demo_pull [] demo_sender None
            (handle demo_schedule (demo_pull, (new_writer, demo_sender))).2.1
            (handle demo_schedule (demo_pull, (new_writer, demo_sender))).2.2.1
            (handle demo_schedule (demo_pull, (new_writer, demo_sender))).2.2.2).
  - by intros f Hf%not_elem_of_nil.
  - vm_compute. reflexivity.
  - vm_compute. reflexivity.
  - repeat constructor.
  - rewrite rd_bytes_data, rd_bytes_nil. apply app_nil_r.
Defined.

Instance demo_endpoint : EndpointBuild := {
  Endpoint := EndpointConfig; builder_bind_addr _ := Ok tt; builder_bind c := Ok c
}.
Definition demo_cfg : Config :=
  mkAgentConfig (demo_pk x05) ["/"; "agent.key"] Disabled [mkSocketAddr (V4 x0a x00 x00 x01) 7000].
Definition demo_stream : BiStream := mkBiStream demo_pull new_writer demo_schedule.
Definition demo_agent_conn : AgentConn :=
  mkAgentConn [mkPath true (Ip (mkSocketAddr (V4 x0a x00 x00 x01) 7000))] []
    (Ok [RData (w_out (write_msg Approved new_writer).2)]) [demo_stream] (Some (anyhow "closed by peer")).
Definition demo_agent_net : AgentNet := λ _ _ _, Some (Ok demo_agent_conn).
Definition demo_agent_world : World := mkWorld ∅ [] [Ok (replicate 32 x07)] [] 7 18.
(** Two dials that fail, then a session. *)
Definition demo_nets : list AgentNet := [λ _ _ _, None; λ _ _ _, Some (Err (anyhow "no route"))].

Lemma redial_backoff_witness :
  sleeps (run demo_cfg 1 (demo_nets ++ [λ _ _ _, None]) demo_agent_world).1 = [1000; 2000] ++ [4000].
Proof.
  change [1000; 2000] with (sleeps (run demo_cfg 1 demo_nets demo_agent_world).1).
  eapply (redial_backoff demo_cfg 1 demo_agent_world [] _ _ demo_nets (λ _ _ _, None)
    [Err (anyhow "connect timed out after 45s"); Err (add_context "dialling controller" (anyhow "no route"))]
    (Err (anyhow "connect timed out after 45s"))).
  - vm_compute. reflexivity.
  - vm_compute. reflexivity.
  - vm_compute. reflexivity.
Defined.
End examples.
