(* ===== verification/Commands.v ===== *)
(** * The controller's commands (src/src/controller.rs, the command side)

    Short-lived processes that reach [serve] over the unix socket in the state
    directory.  A command's state is what it exchanges over that socket and the
    files of its machine; what it prints is returned as lines. *)

From S2P Require Import Prelude Text Stream Fs Crypto Proto Transfer Pipe Net State Demo Controller Agent.

Definition DEFAULT_MAX_BYTES : Z := Z.shiftl 256 20.
Definition EXIT_UNDIALABLE : Z := 2.

(** What a pull found. *)
Inductive Pulled := Fetched (len : Z) (sha256 : bytes) | Missing.

Section commands.
Context `{Sha256} `{!StatvfsCall} `{!ControlSocket}.
Context `{Postcard Route} `{Postcard RouteReply} `{Postcard Request} `{Postcard ExecFrame}
  `{Postcard Ack} `{Postcard PullStart}.

(** Opens one request stream; the line is the report on stderr. *)
Definition route (dir : StateDir) (agent : string) : M served string :=
  let sock := sock_path dir in
  lift (context ("connecting to " +:+ show_path sock +:+ " — is `egdod controller serve` running?")
          (ctl_connect sock));;
  on_send (write_msg (mkRoute agent));;
  reply ← on_fst read_msg;
  match reply with
  | RouteErr e => fail (anyhow e)
  | RouteOk agent path remote =>
      mret ("egdod: session with " +:+ agent +:+ " via " +:+ show_path_kind path +:+ " (" +:+ remote +:+ ")")
  end.

(** Feeding the two sinks from the request stream. *)
Definition on_output {A} (m : M exec_io A) : M (served * (writer * writer)) A := λ s,
  let '(x, (r, sinks)) := m (s.1.1, s.2) in (x, ((r, s.1.2), sinks)).

Definition exec_into (dir : StateDir) (agent : string) (argv : list string) (max : Z) :
    M (served * (writer * writer)) (Z * bool) :=
  on_fst (route dir agent);;
  on_fst (on_send (write_msg (Exec argv)));;
  on_fst (on_send finish);;
  on_output (recv_exec_output max).

(** [exec] streams to the terminal, without a ceiling; [exec_capture] keeps what
    it receives, and fails before anything else when the run does. *)
Definition exec_terminal (dir : StateDir) (agent : string) (argv : list string) :
    M (served * (writer * writer)) (Z * bool) :=
  exec_into dir agent argv u64_max.
Definition exec_capture (dir : StateDir) (agent : string) (argv : list string) (max : Z) :
    M served (Z * bytes * bytes) := λ s,
  match exec_into dir agent argv max (s, (new_writer, new_writer)) with
  | (Ok (code, _), (s, (out, err))) => (Ok (code, w_out out, w_out err), s)
  | (Err e, (s, _)) => (Err e, s)
  end.

Definition push_file (dir : StateDir) (agent : string) (local : path) (remote : string) :
    M served (Z * bytes) :=
  h ← on_target (stat_and_hash local);
  let '(mode, len, sha256) := h in
  route dir agent;;
  on_send (write_msg (Push remote mode len sha256));;
  on_snd (send_file_body local);;
  on_send finish;;
  ack ← on_fst read_msg;
  match ack with
  | AckOk => mret (len, sha256)
  | AckErr e => fail (anyhow ("agent rejected the file: " +:+ e))
  end.
Definition push (dir : StateDir) (agent : string) (local : path) (remote : string) : M served string :=
  h ← push_file dir agent local remote;
  mret ("pushed " +:+ show_path local +:+ " -> " +:+ remote +:+ " (" +:+ pretty h.1
          +:+ " bytes, sha256 " +:+ hex h.2 +:+ ")").

Definition pull_file (dir : StateDir) (agent : string) (remote : string) (local : path) (max : Z) :
    M served Pulled :=
  route dir agent;;
  on_send (write_msg (Pull remote));;
  on_send finish;;
  start ← on_fst read_msg;
  match start with
  | PullMissing => mret Missing
  | PullErr e => fail (anyhow ("agent could not read " +:+ remote +:+ ": " +:+ e))
  | PullOk mode len sha256 =>
      on_receive (recv_file_body local len sha256 mode max);;
      mret (Fetched len sha256)
  end.
Definition pull (dir : StateDir) (agent : string) (remote : string) (local : path) (max : Z) : M served string :=
  p ← pull_file dir agent remote local max;
  match p with
  | Missing => fail (anyhow ("the target has no " +:+ remote))
  | Fetched len sha256 =>
      mret ("pulled " +:+ remote +:+ " -> " +:+ show_path local +:+ " (" +:+ pretty len
              +:+ " bytes, sha256 " +:+ hex sha256 +:+ ")")
  end.

(** One forwarded connection, [tcp] being the accepted socket. *)
Definition forward_one (dir : StateDir) (agent remote : string) (tcp : reader * writer) :
    M served (reader * writer) :=
  route dir agent;;
  on_send (write_msg (Forward remote));;
  ack ← on_fst read_msg;
  match ack with
  | AckErr e => fail (anyhow ("agent could not connect to " +:+ remote +:+ ": " +:+ e))
  | AckOk =>
      o ← splice_served tcp.1 tcp.2;
      mret (default tcp o)
  end.
End commands.

(** ** Commands that only use the state directory *)

Section local_commands.
Context `{IrohKeys} `{SerdeJson (list PendingAgent)} `{SerdeJson Status}.

(** [proto::parse_pubkey] *)
Definition parse_pubkey (s : string) : result PublicKey :=
  match pk_parse s with
  | Ok k => Ok k
  | Err e => Err (anyhow ("not a valid public key (" +:+ show_error e +:+ "): " +:+ s))
  end.

Definition init (dir : StateDir) : M World string :=
  secret ← init_key dir;
  mret (pk_to_string (sk_public secret)).

Definition pending_command (dir : StateDir) (json : bool) : M World (list string) :=
  l ← pending dir;
  if json then
    b ← lift (to_vec_pretty l);
    mret [of_bytes b]
  else
    mret ((if bool_decide (l = []) then ["no agents pending approval"] else []) ++
          ((λ p, pubkey p +:+ "  attempts=" +:+ pretty (attempts p) +:+ " first_seen=" +:+ pretty (first_seen_unix p)
                   +:+ " last_seen=" +:+ pretty (last_seen_unix p)) <$> l)).

Definition approve_command (dir : StateDir) (key : string) : M World string :=
  key ← lift (parse_pubkey key);
  fresh ← approve dir key;
  mret (if fresh : bool then "approved " +:+ pk_to_string key else pk_to_string key +:+ " was already approved").

Definition show_probe_mode (m : ProbeMode) : string :=
  match m with Discovery => "Discovery" | Direct => "Direct" end.
Definition status_lines (s : Status) (alive : bool) : list string :=
  ["node id:   " +:+ st_node_id s;
   "dialable:  " +:+ match st_dialable s with
                    | Some true => "yes"
                    | Some false => "NO — " +:+ default "unknown" (st_last_probe_error s)
                    | None => "not probed yet"
                    end;
   "probe:     " +:+ show_probe_mode (st_probe_mode s) +:+ " mode, last ok "
     +:+ match st_last_probe_ok_unix s with Some t => pretty t | None => "never" end;
   "restarts:  " +:+ pretty (st_endpoint_restarts s)] ++
  (if alive then [] else
     ["WARNING:   the controller that wrote this (pid " +:+ pretty (st_pid s)
        +:+ ") is gone; everything above is its last opinion, not the current one"]) ++
  ((λ i, "agent:     " +:+ si_agent i +:+ " via " +:+ show_path_kind (si_path i) +:+ " (" +:+ si_remote i +:+ ")")
     <$> st_sessions s) ++
  (if bool_decide (st_sessions s = []) then ["agent:     none connected"] else []).

(** The exit code and the lines; the writer's process is looked for again when
    the warning is due. *)
Definition status (dir : StateDir) (json : bool) : M World (Z * list string) :=
  s ← read_status dir;
  ok ← (if bool_decide (st_dialable s = Some true) then writer_alive s else mret false);
  let code := if (ok : bool) then 0 else EXIT_UNDIALABLE in
  if json then
    b ← lift (to_vec_pretty s);
    mret (code, [of_bytes b])
  else
    alive ← writer_alive s;
    mret (code, status_lines s alive).
End local_commands.

(** ** Lemmas: a request through [serve] *)

Section pipeline.
Context `{IrohKeys} `{RelayUrls} `{Sha256Laws} `{!StatvfsCall} `{!ControlSocket} `{!Processes} `{!TcpConnect}.
Context `{PostcardLaws Route} `{PostcardLaws RouteReply} `{PostcardLaws Request} `{PostcardLaws ExecFrame}
  `{PostcardLaws Ack} `{PostcardLaws PullStart}.

(** What the routed request stream carries, in both directions. *)
Record relayed (sessions : list (PublicKey * Session)) (paths : Conn → list Path) (open_bi : Conn → result unit)
    (sent : bytes) (agent_out : bytes) (conn : Conn) (agent_in received : bytes) : Prop := mkRelayed {
  (** [serve] reads what the command sent, routes it and splices *)
  rl_route : ∃ rs rs1 ws1 qr ws2 rs2 qs qr2,
    clean rs ∧ rd_bytes rs = sent ∧
    route_local sessions paths open_bi (rs, new_writer) = (Ok (Some conn), (rs1, ws1)) ∧
    clean qr ∧ rd_bytes qr = agent_out ∧
    splice rs1 ws1 qr new_writer = ((rs2, ws2), (qr2, qs)) ∧
    agent_in = w_out qs ∧ received = w_out ws2
}.

(** Routing strips the route request and puts the reply in front. *)
Lemma relayed_spec sessions paths open_bi agent rest (route_w : writer) sent agent_out conn agent_in received :
  write_msg (mkRoute agent) new_writer = (Ok tt, route_w) → sent = w_out route_w ++ rest →
  relayed sessions paths open_bi sent agent_out conn agent_in received →
  agent_in = rest ∧
  ∃ id path remote w, pick sessions agent = Ok (id, conn) ∧
    write_msg (RouteOk (pk_to_string id) path remote) new_writer = (Ok tt, w) ∧
    received = w_out w ++ agent_out.
Proof.
  intros Hw -> [(rs & rs1 & ws1 & qr & ws2 & rs2 & qs & qr2 & Hc & Hb & Hr & Hcq & Hbq & Hs & -> & ->)].
  destruct (read_written (mkRoute agent) new_writer route_w rs rest Hw Hc) as (rs0 & Er & Hc0 & Hb0);
    [by simpl; rewrite Hb|].
  revert Hr. unfold route_local, mbind, M_bind, on_fst, on_snd, with_context, context, mret, M_ret. cbn [fst snd].
  rewrite Er. cbn [fst snd route_agent].
  destruct (pick sessions agent) as [[id c]|e].
  2:{ cbn [fst snd]. destruct (write_msg (RouteErr (show_alt e)) new_writer) as [[[]|] ?]; simpl; intros; simplify_eq. }
  destruct (session_path_report (paths c)) as [path remote]. destruct (open_bi c) as [[]|e]; cbn [fst snd].
  2:{ destruct (write_msg (RouteErr _) new_writer) as [[[]|] ?]; simpl; intros; simplify_eq. }
  destruct (write_msg_new (RouteOk (pk_to_string id) path remote)) as [(body & _ & Ew)|[e Ew]]; rewrite Ew; [|done].
  intros; simplify_eq. unfold splice in Hs. rewrite !one_way_clean in Hs by done. simplify_eq. simpl.
  split; [done|]. exists id, path, remote. eexists. split_and!; [done|exact Ew|done].
Qed.

(** A route that was opened: what was sent for it and what answered. *)
Lemma route_ok dir agent r wr w x r' wr' w' :
  route dir agent (r, (wr, w)) = (Ok x, (r', (wr', w'))) →
  w' = w ∧ write_msg (mkRoute agent) wr = (Ok tt, wr') ∧
  ∃ a p m, read_msg r = (Ok (RouteOk a p m), r').
Proof.
  unfold route, mbind, M_bind, lift, on_send, on_fst, on_snd, fail, mret, M_ret. cbn [fst snd].
  destruct (context _ (ctl_connect _)) as [[]|]; [|done].
  destruct (write_msg (mkRoute agent) wr) as [[[]|] wr1]; [|done]. cbn [fst snd].
  destruct (read_msg r) as [[reply|] r1]; [|done]. destruct reply; intros; simplify_eq; eauto 10.
Qed.

Lemma write_msg_still msg1 (w w' : writer) :
  healthy w → write_msg (T := Request) msg1 w = (Ok tt, w') →
  ∃ body, to_allocvec msg1 = Ok body ∧ zlen body ≤ MAX_MSG ∧ w' = mkWriter (w_out w ++ frame body) None None false.
Proof.
  intros Hw E. destruct (write_msg_ok _ _ _ E) as (body & Hb & Hm & _). exists body. split_and!; [done|done|].
  rewrite (write_msg_healthy msg1 w body) in E by done. by simplify_eq.
Qed.

(** The agent acknowledges a pushed file only if it has landed. *)
Lemma handle_push_ack sc path mode len sha ra r1 wt x ra' wra wt' (qr : reader) rest :
  read_msg ra = (Ok (Push path mode len sha), r1) →
  handle sc (ra, (new_writer, wt)) = (x, (ra', (wra, wt'))) →
  clean qr → rd_bytes qr = w_out wra → read_msg qr = (Ok AckOk, rest) →
  ∃ rr, recv_file_body (parse_path path) len sha mode u64_max (r1, wt) = (Ok tt, (rr, wt')).
Proof.
  intros Hr Hh Hc Hb Hack. revert Hh. unfold handle. unfold mbind at 1, M_bind at 1, on_fst at 1, with_context, context.
  cbn [fst snd]. rewrite Hr. cbn [fst snd]. unfold mbind at 1, M_bind at 1, attempt, on_receive at 1. cbn [fst snd].
  destruct (recv_file_body (parse_path path) len sha mode u64_max (r1, wt)) as [res [rr w1]].
  unfold mbind, M_bind, on_send, on_fst, on_snd, lift, mret, M_ret. cbn [fst snd].
  set (ack := match res with Ok _ => AckOk | Err e => AckErr (show_alt e) end).
  destruct (write_msg_new ack) as [(body & _ & Ew)|[e Ew]]; rewrite Ew; cbn [fst snd].
  - intros E. assert (w_out wra = frame body ∧ wt' = w1) as [Ho ->] by (destruct res as [[]|]; simpl in E; simplify_eq; done).
    destruct (read_written ack new_writer _ qr [] Ew Hc) as (? & Ea & _); [simpl; by rewrite Hb, Ho, app_nil_r|].
    rewrite Ea in Hack. unfold ack in Hack. destruct res as [[]|]; [by eexists|by simplify_eq].
  - intros E. simplify_eq. simpl in Hb. pose proof (read_msg_empty (T := Ack) qr Hc Hb) as He.
    by rewrite Hack in He.
Qed.

(** What a successful push put on its stream, and what answered. *)
Lemma push_file_ok dir agent local remote r w len sha r' wr' w' :
  push_file dir agent local remote (r, (new_writer, w)) = (Ok (len, sha), (r', (wr', w'))) →
  ∃ f mode route_w req_w r1 a p m,
    fs w !! local = Some (NFile f) ∧ mode = Z.land (f_mode f) o7777 ∧ sha = sha256_of (f_data f) ∧
    write_msg (mkRoute agent) new_writer = (Ok tt, route_w) ∧
    write_msg (Push remote mode len sha) route_w = (Ok tt, req_w) ∧
    w_out wr' = w_out req_w ++ f_data f ∧
    read_msg r = (Ok (RouteOk a p m), r1) ∧ read_msg r1 = (Ok AckOk, r').
Proof.
  unfold push_file. unfold mbind at 1, M_bind at 1, on_target, on_snd at 1 2. cbn [fst snd].
  destruct (stat_and_hash local w) as [[[[mode len0] sha0]|e] w1] eqn:Es; [|done]. cbn [fst snd].
  apply stat_and_hash_ok in Es as (f & Hf & Hfs & Hmode & Hsha & _).
  unfold mbind at 1, M_bind at 1.
  destruct (route dir agent (r, (new_writer, w1))) as [[x|e] [r1 [route_w w2]]] eqn:Er; [|done].
  apply route_ok in Er as (-> & Hw & a & p & m & Hm).
  unfold mbind, M_bind, on_send, on_fst, on_snd, mret, M_ret, fail. cbn [fst snd].
  destruct (write_msg (Push remote mode len0 sha0) route_w) as [[[]|e] req_w] eqn:Ew; [|done]. cbn [fst snd].
  destruct (send_file_body local (req_w, w1)) as [[[]|e] [wr2 w3]] eqn:Eb; [|done]. cbn [fst snd].
  apply (send_file_body_ok _ _ _ f) in Eb as [_ Ho]; [|by rewrite Hfs].
  unfold finish, mbind, M_bind, shutdown, mret, M_ret.
  destruct (flush wr2) as [[[]|e] wr3] eqn:Efl; [|done]. cbn [fst snd].
  assert (w_out wr3 = w_out wr2) as Hfl by (unfold flush in Efl; destruct (w_flush_err wr2); by simplify_eq).
  destruct (read_msg r1) as [[[]|e] r2] eqn:Ea; [|intros; by simplify_eq..]. intros E. simplify_eq/=.
  exists f, (Z.land (f_mode f) o7777), route_w, req_w, r1, a, p, m. split_and!; try done. congruence.
Qed.

(** A command's stream as [serve] and an agent with world [wt] answer it: [sent]
    reaches the agent, whose handler leaves the world [wt'], and its answer comes
    back as [received]. *)
Record answered (sessions : list (PublicKey * Session)) (paths : Conn → list Path) (open_bi : Conn → result unit)
    (conn : Conn) (sent received : bytes) (wt wt' : World) : Prop := mkAnswered {
  an_run : ∃ agent_in sc (ra : reader) x ra' wra,
    relayed sessions paths open_bi sent (w_out wra) conn agent_in received ∧
    clean ra ∧ rd_bytes ra = agent_in ∧ handle sc (ra, (new_writer, wt)) = (x, (ra', (wra, wt')))
}.

Lemma push_landed dir agent local remote (r : reader) wc len sha r' wr' wc' sessions paths open_bi conn wt wt' :
  push_file dir agent local remote (r, (new_writer, wc)) = (Ok (len, sha), (r', (wr', wc'))) →
  clean r → answered sessions paths open_bi conn (w_out wr') (rd_bytes r) wt wt' →
  ∃ id f, pick sessions agent = Ok (id, conn) ∧ fs wc !! local = Some (NFile f) ∧
    sha = sha256_of (f_data f) ∧
    fs wt' !! parse_path remote = Some (NFile (mkFile (f_data f) (Z.land (f_mode f) o7777))).
Proof.
  intros Hpush Hc [(agent_in & sc & ra & x & ra' & wra & Hrel & Hca & Hba & Hh)].
  remember (rd_bytes r) as received eqn:Hb. symmetry in Hb.
  apply push_file_ok in Hpush as (f & mode & route_w & req_w & r1 & a & p & m & Hf & -> & -> & Hw & Hreq & Hout & Hr & Hack).
  destruct (write_msg_ok _ _ _ Hreq) as (body & Hbody & Hmax & Hreqout).
  destruct (relayed_spec sessions paths open_bi agent (frame body ++ f_data f) route_w (w_out wr') (w_out wra)
    conn agent_in received Hw) as (-> & id & path & rem & w0 & Hpick & Hw0 & ->);
    [by rewrite Hout, Hreqout, <- app_assoc|done|].
  exists id, f. split_and!; [done|done|done|].
  destruct (read_msg_opt_frame (Push remote (Z.land (f_mode f) o7777) len (sha256_of (f_data f))) body (f_data f) ra)
    as (ra1 & Hc1 & Hb1 & E1); [done..|].
  assert (Era : read_msg ra = (Ok (Push remote (Z.land (f_mode f) o7777) len (sha256_of (f_data f))), ra1)).
  { unfold read_msg. run_unfold. by rewrite E1. }
  destruct (read_written (RouteOk (pk_to_string id) path rem) new_writer w0 r (w_out wra) Hw0 Hc)
    as (r2 & Er2 & Hc2 & Hb2); [by simpl; rewrite Hb|].
  rewrite Hr in Er2. simplify_eq.
  destruct (handle_push_ack sc remote (Z.land (f_mode f) o7777) len (sha256_of (f_data f)) ra ra1 wt x ra' wra wt' r2 r')
    as (rr & Erecv); [done..|].
  apply recv_file_body_spec in Erecv as (_ & _ & _ & -> & _). rewrite Hb1.
  by rewrite <- Z.land_assoc, Z.land_diag.
Qed.

(** C7: An acknowledged push has happened, on the right machine: if the command
    reports success, then the file is on the target of the one session its
    selector matches, with exactly the bytes and permission bits of the local
    file, whatever I/O faults either machine met and however the three streams
    on the way were cut. *)
Theorem acknowledged_push_has_landed dir agent local remote (r : reader) wc len sha r' wr' wc'
    sessions paths open_bi conn agent_in received sc (ra : reader) wt x ra' wra wt' :
  push_file dir agent local remote (r, (new_writer, wc)) = (Ok (len, sha), (r', (wr', wc'))) →
  relayed sessions paths open_bi (w_out wr') (w_out wra) conn agent_in received →
  clean ra → rd_bytes ra = agent_in →
  handle sc (ra, (new_writer, wt)) = (x, (ra', (wra, wt'))) →
  clean r → rd_bytes r = received →
  ∃ id f, pick sessions agent = Ok (id, conn) ∧ fs wc !! local = Some (NFile f) ∧
    sha = sha256_of (f_data f) ∧
    fs wt' !! parse_path remote = Some (NFile (mkFile (f_data f) (Z.land (f_mode f) o7777))).
Proof.
  intros Hpush Hrel Hca Hba Hh Hc <-. eapply push_landed; [done..|]. constructor. eauto 10.
Qed.

(** What a pull sent, and what answered. *)
Lemma pull_file_ok dir agent remote local max r w x r' wr' w' :
  pull_file dir agent remote local max (r, (new_writer, w)) = (Ok x, (r', (wr', w'))) →
  ∃ route_w req_w r1 a p m r2 start,
    write_msg (mkRoute agent) new_writer = (Ok tt, route_w) ∧
    write_msg (Pull remote) route_w = (Ok tt, req_w) ∧ w_out wr' = w_out req_w ∧
    read_msg r = (Ok (RouteOk a p m), r1) ∧ read_msg r1 = (Ok start, r2) ∧
    match x with
    | Missing => start = PullMissing
    | Fetched len sha => ∃ mode, start = PullOk mode len sha ∧
        recv_file_body local len sha mode max (r2, w) = (Ok tt, (r', w'))
    end.
Proof.
  unfold pull_file. unfold mbind at 1, M_bind at 1.
  destruct (route dir agent (r, (new_writer, w))) as [[y|e] [r1 [route_w w2]]] eqn:Er; [|done].
  apply route_ok in Er as (-> & Hw & a & p & m & Hm).
  unfold mbind, M_bind, on_send, on_fst, on_snd, on_receive, mret, M_ret, fail. cbn [fst snd].
  destruct (write_msg (Pull remote) route_w) as [[[]|e] req_w] eqn:Ew; [|done]. cbn [fst snd].
  unfold finish, mbind, M_bind, shutdown, mret, M_ret.
  destruct (flush req_w) as [[[]|e] wr3] eqn:Efl; [|done]. cbn [fst snd].
  assert (w_out wr3 = w_out req_w) as Hfl by (unfold flush in Efl; destruct (w_flush_err req_w); by simplify_eq).
  destruct (read_msg r1) as [[[mode len sha| |e]|e] r2] eqn:Ea; cbn [fst snd].
  - destruct (recv_file_body local len sha mode max (r2, w)) as [[[]|e] [r3 w3]] eqn:Eb; [|intros; by simplify_eq].
    intros; simplify_eq/=. eexists route_w, req_w, r1, a, p, m, r2, _. split_and!; eauto.
  - intros; simplify_eq/=. eexists route_w, req_w, r1, a, p, m, r', _. split_and!; eauto.
  - intros; by simplify_eq.
  - intros; by simplify_eq.
Qed.

(** What the agent's answer to a pull says and carries. *)
Lemma handle_pull_stream sc path ra r1 wt x ra' wra wt' (qr : reader) start r2 :
  read_msg ra = (Ok (Pull path), r1) → handle sc (ra, (new_writer, wt)) = (x, (ra', (wra, wt'))) →
  clean qr → rd_bytes qr = w_out wra → read_msg qr = (Ok start, r2) →
  match start with
  | PullOk mode len sha =>
      ∃ f, fs wt !! parse_path path = Some (NFile f) ∧ mode = Z.land (f_mode f) o7777 ∧
           sha = sha256_of (f_data f) ∧ (zlen (f_data f) ≤ u64_max → len = zlen (f_data f)) ∧
           rd_bytes r2 `prefix_of` f_data f
  | PullMissing => honest wt → fs wt !! parse_path path = None
  | PullErr _ => True
  end.
Proof.
  intros Hr Hh Hc Hb Hstart. rewrite (handle_pull _ _ _ r1) in Hh by done.
  assert (Hdec : ∀ msg w1 rest, write_msg msg new_writer = (Ok tt, w1) → w_out wra = w_out w1 ++ rest →
    start = msg ∧ rd_bytes r2 = rest).
  { intros msg w1 rest Ew Ho. destruct (read_written msg new_writer w1 qr rest Ew Hc) as (? & E & _ & ?);
      [simpl; by rewrite Hb|]. rewrite E in Hstart. by simplify_eq. }
  assert (Hemp : w_out wra ≠ []).
  { intros Ho. rewrite Ho in Hb. pose proof (read_msg_empty (T := PullStart) qr Hc Hb) as He. by rewrite Hstart in He. }
  destruct (stat_and_hash (parse_path path) wt) as [[[[mode len] sha]|e] w1] eqn:Es.
  - apply stat_and_hash_ok in Es as (f & Hf & Hfs & Hmode & Hsha & Hlen).
    revert Hh. unfold mbind, M_bind, on_send, on_fst, on_snd, mret, M_ret. cbn [fst snd].
    destruct (write_msg_new (PullOk mode len sha)) as [(body & _ & Ew)|[e Ew]]; rewrite Ew; cbn [fst snd];
      [|intros; by simplify_eq].
    destruct (send_file_body (parse_path path) (mkWriter (frame body) None None false, w1)) as [res [wr2 w2]] eqn:Ef.
    apply (send_file_body_prefix _ _ _ f) in Ef as (d & Ho & Hd); [|by rewrite Hfs].
    intros Hx. assert (w_out wra = frame body ++ d) as Hwra by (destruct res as [[]|]; simpl in Hx; by simplify_eq).
    destruct (Hdec _ _ d Ew) as [-> Hrest]; [done|]. exists f. rewrite Hrest. by split_and!.
  - revert Hh. unfold mbind, M_bind, on_send, on_fst, on_snd, mret, M_ret. cbn [fst snd].
    set (reply := if bool_decide (e_io e = Some NotFound) then PullMissing else PullErr (show_alt e)).
    destruct (write_msg_new reply) as [(body & _ & Ew)|[e2 Ew]]; rewrite Ew; cbn [fst snd];
      [|intros; by simplify_eq].
    intros Hx. simplify_eq/=. destruct (Hdec _ _ [] Ew) as [-> _]; [by rewrite app_nil_r|].
    unfold reply. case_bool_decide; [|done]. intros Hh. by eapply stat_and_hash_not_found.
Qed.

Lemma pull_fetched dir agent remote local max (r : reader) wc p r' wr' wc' sessions paths open_bi conn wt wt' :
  pull_file dir agent remote local max (r, (new_writer, wc)) = (Ok p, (r', (wr', wc'))) →
  clean r → answered sessions paths open_bi conn (w_out wr') (rd_bytes r) wt wt' → honest wt →
  ∃ id, pick sessions agent = Ok (id, conn) ∧
  match p with
  | Fetched len sha =>
      ∃ f, fs wt !! parse_path remote = Some (NFile f) ∧
        (zlen (f_data f) ≤ u64_max →
           zlen (f_data f) ≤ max ∧
           fs wc' !! local = Some (NFile (mkFile (f_data f) (Z.land (f_mode f) o7777))))
  | Missing => fs wt !! parse_path remote = None
  end.
Proof.
  intros Hpull Hc [(agent_in & sc & ra & x & ra' & wra & Hrel & Hca & Hba & Hh)] Hhon.
  remember (rd_bytes r) as received eqn:Hb. symmetry in Hb.
  apply pull_file_ok in Hpull as (route_w & req_w & r1 & a & pk & m & r2 & start & Hw & Hreq & Hout & Hr & Hs & Hx).
  destruct (write_msg_ok _ _ _ Hreq) as (body & Hbody & Hmax & Hreqout).
  destruct (relayed_spec sessions paths open_bi agent (frame body) route_w (w_out wr') (w_out wra)
    conn agent_in received Hw) as (-> & id & path & rem & w0 & Hpick & Hw0 & ->); [by rewrite Hout, Hreqout|done|].
  exists id. split; [done|].
  destruct (read_msg_opt_frame (Pull remote) body [] ra) as (ra1 & Hc1 & Hb1 & E1); [done..|by rewrite app_nil_r|].
  assert (Era : read_msg ra = (Ok (Pull remote), ra1)) by (unfold read_msg; run_unfold; by rewrite E1).
  destruct (read_written (RouteOk (pk_to_string id) path rem) new_writer w0 r (w_out wra) Hw0 Hc)
    as (r3 & Er3 & Hc3 & Hb3); [by simpl; rewrite Hb|].
  rewrite Hr in Er3. simplify_eq.
  pose proof (handle_pull_stream sc remote ra ra1 wt x ra' wra wt' r3 start r2 Era Hh Hc3 Hb3 Hs) as Hst.
  destruct p as [len sha|].
  - destruct Hx as (md & -> & Erecv). destruct Hst as (f & Hf & -> & -> & Hlen & Hpre).
    exists f. split; [done|]. intros Hu. specialize (Hlen Hu).
    apply recv_file_body_spec in Erecv as (Hle & _ & Hgot & Hland & _).
    assert (rd_bytes r2 = f_data f) as Heq.
    { apply prefix_length_eq; [done|]. apply prefix_length in Hpre as Hpl. unfold zlen in *.
      assert (Z.of_nat (length (rd_bytes r2)) = len) by (apply Hgot; lia). lia. }
    rewrite Hland, Heq, <- Z.land_assoc, Z.land_diag. split; [lia|done].
  - subst start. by apply Hst.
Qed.

(** C8: A pull brings the file there is: if the command reports the file as
    fetched, the local path holds exactly the bytes and permission bits of the
    target's file, within the caller's ceiling, even if the target misbehaved or
    failed while sending; and it reports the file as missing only if there is
    nothing at that path on the target of the one session its selector matches. *)
Theorem completed_pull_is_the_file dir agent remote local max (r : reader) wc p r' wr' wc'
    sessions paths open_bi conn agent_in received sc (ra : reader) wt x ra' wra wt' :
  pull_file dir agent remote local max (r, (new_writer, wc)) = (Ok p, (r', (wr', wc'))) →
  relayed sessions paths open_bi (w_out wr') (w_out wra) conn agent_in received →
  clean ra → rd_bytes ra = agent_in →
  handle sc (ra, (new_writer, wt)) = (x, (ra', (wra, wt'))) →
  clean r → rd_bytes r = received → honest wt →
  ∃ id, pick sessions agent = Ok (id, conn) ∧
  match p with
  | Fetched len sha =>
      ∃ f, fs wt !! parse_path remote = Some (NFile f) ∧
        (zlen (f_data f) ≤ u64_max →
           zlen (f_data f) ≤ max ∧
           fs wc' !! local = Some (NFile (mkFile (f_data f) (Z.land (f_mode f) o7777))))
  | Missing => fs wt !! parse_path remote = None
  end.
Proof.
  intros Hpull Hrel Hca Hba Hh Hc <- Hhon. eapply pull_fetched; [done..| |done]. constructor. eauto 10.
Qed.

(** Running a command end to end, through [serve]: whatever order the agent's
    two pumps interleave in and however the streams on the way are cut, the
    operator's terminal receives the standard output and standard error of the
    program, run on the machine of the one session the selector matches, complete
    and in order, and the command returns its exit status (128 plus the number
    for a signal); when the agent had to stop reading before the end, it receives
    a prefix of each and the result says so. *)
Lemma exec_through_serve dir agent program args child status sc max (r : reader) wc out err
    sessions paths open_bi conn agent_in received route_w req_w (ra : reader) wt x ra' wra wt' :
  frames_encode → spawn program args = Ok child → c_wait child = Ok status → is_i32 (exit_code status) →
  clean (c_stdout child) → clean (c_stderr child) →
  valid_schedule child sc → sc_joined sc = true →
  zlen (rd_bytes (c_stdout child)) + zlen (rd_bytes (c_stderr child)) ≤ max → max ≤ u64_max →
  ctl_connect (sock_path dir) = Ok tt →
  write_msg (mkRoute agent) new_writer = (Ok tt, route_w) →
  write_msg (Exec (program :: args)) route_w = (Ok tt, req_w) →
  relayed sessions paths open_bi (w_out req_w) (w_out wra) conn agent_in received →
  clean ra → rd_bytes ra = agent_in → handle sc (ra, (new_writer, wt)) = (x, (ra', (wra, wt'))) →
  clean r → rd_bytes r = received → healthy out → healthy err →
  ∃ id o e s', pick sessions agent = Ok (id, conn) ∧
    exec_into dir agent (program :: args) max ((r, (new_writer, wc)), (out, err)) =
      (Ok (exit_code status, sc_cut sc),
       (s', (mkWriter (w_out out ++ o) None None false, mkWriter (w_out err ++ e) None None false))) ∧
    o `prefix_of` rd_bytes (c_stdout child) ∧ e `prefix_of` rd_bytes (c_stderr child) ∧
    (sc_cut sc = false → o = rd_bytes (c_stdout child) ∧ e = rd_bytes (c_stderr child)).
Proof.
  intros Henc Hsp Hwt Hi Hco Hce Hv Hj Hmax Hu Hctl Hw Hreq Hrel Hca Hba Hh Hc Hb Ho He.
  destruct (write_msg_new (mkRoute agent)) as [(rbody & _ & En)|[e0 En]]; rewrite En in Hw; [|done].
  injection Hw as <-. subst agent_in received.
  destruct (write_msg_still (Exec (program :: args)) (mkWriter (frame rbody) None None false) req_w ltac:(done) Hreq) as (body & Hbody & Hm & Ereq).
  rewrite Ereq in Hrel. simpl in Hrel.
  destruct (relayed_spec sessions paths open_bi agent (frame body) _ _ _ _ _ _ En eq_refl Hrel)
    as (Hba & id & path & rem & w0 & Hpick & Hw0 & Hrec).
  destruct (read_msg_opt_frame (Exec (program :: args)) body [] ra) as (ra1 & Hc1 & Hb1 & E1); [done..|by rewrite app_nil_r|].
  assert (Era : read_msg ra = (Ok (Exec (program :: args)), ra1)) by (unfold read_msg; run_unfold; by rewrite E1).
  assert (Hwra : wra = (exec (program :: args) sc new_writer).2).
  { revert Hh. unfold handle. unfold mbind at 1, M_bind at 1, on_fst at 1, with_context, context. cbn [fst snd].
    rewrite Era. cbn [fst snd]. unfold mbind, M_bind, on_send, on_snd, on_fst, mret, M_ret. cbn [fst snd].
    destruct (exec (program :: args) sc new_writer) as [[[]|] ?]; intros; by simplify_eq. }
  destruct (read_written (RouteOk (pk_to_string id) path rem) new_writer w0 r (w_out wra) Hw0 Hc)
    as (r3 & Er3 & Hc3 & Hb3); [simpl; congruence|].
  destruct (exec_end_to_end program args child status sc max r3 out err) as (o & e & Erun & Hpo & Hpe & Hall); try done.
  { by rewrite Hb3, Hwra. }
  exists id, o, e. eexists. split_and!; [done| |done..].
  unfold exec_into, route, mbind, M_bind, on_send, on_fst, on_snd, on_output, lift, context, mret, M_ret, finish, shutdown.
  cbn [fst snd]. rewrite Hctl. cbn [fst snd]. rewrite En. cbn [fst snd]. rewrite Er3. cbn [fst snd].
  rewrite Hreq. cbn [fst snd]. rewrite Ereq. unfold mbind, M_bind, flush, mret, M_ret. cbn [fst snd w_flush_err].
  by rewrite Erun.
Qed.

(** What the agent does with a connection it accepted. *)
Lemma handle_forward_ack sc addr ra r1 wt x ra' wra wt' (qr : reader) rest :
  read_msg ra = (Ok (Forward addr), r1) →
  handle sc (ra, (new_writer, wt)) = (x, (ra', (wra, wt'))) →
  clean qr → rd_bytes qr = w_out wra → read_msg qr = (Ok AckOk, rest) →
  ∃ rr rw ack_w rr' rw', tcp_connect addr = Ok (rr, rw) ∧
    write_msg AckOk new_writer = (Ok tt, ack_w) ∧ healthy ack_w ∧
    splice rr rw r1 ack_w = ((rr', rw'), (ra', wra)) ∧ x = Ok (Some (rr', rw')).
Proof.
  intros Hr Hh Hc Hb Hack. revert Hh. unfold handle. unfold mbind at 1, M_bind at 1, on_fst at 1, with_context, context.
  cbn [fst snd]. rewrite Hr. cbn [fst snd].
  assert (Hno : ∀ ack, ack ≠ AckOk → write_msg ack new_writer = (Ok tt, wra) → False).
  { intros ack Hne Ew. destruct (read_written ack new_writer wra qr [] Ew Hc) as (? & Ea & _);
      [simpl; by rewrite Hb, app_nil_r|]. rewrite Ea in Hack. by simplify_eq. }
  assert (Hempty : w_out wra = [] → False).
  { intros Ho. rewrite Ho in Hb. pose proof (read_msg_empty (T := Ack) qr Hc Hb) as He. by rewrite Hack in He. }
  destruct (tcp_connect addr) as [[rr rw]|e]; unfold mbind, M_bind, on_send, on_fst, on_snd, mret, M_ret; cbn [fst snd].
  - destruct (write_msg_new AckOk) as [(body & _ & Ew)|[e Ew]]; rewrite Ew; cbn [fst snd];
      [|intros; simplify_eq; by destruct Hempty].
    unfold splice_served. cbn [fst snd]. destruct (splice rr rw r1 _) as [[rr' rw'] [rc sd]] eqn:Es.
    intros; simplify_eq. exists rr, rw. eexists _, rr', rw'. by split_and!.
  - set (ack := AckErr _). destruct (write_msg_new ack) as [(body & _ & Ew)|[e2 Ew]]; rewrite Ew; cbn [fst snd];
      [|intros; simplify_eq; by destruct Hempty].
    unfold shutdown. intros; simplify_eq/=. destruct (read_written ack new_writer _ qr [] Ew Hc) as (? & Ea & _);
      [simpl; by rewrite Hb, app_nil_r|]. rewrite Ea in Hack. by simplify_eq.
Qed.

(** What a forwarded connection sent, and what answered. *)
Lemma forward_one_ok dir agent remote tr tw r w tr' tw' r' wr' w' :
  forward_one dir agent remote (tr, tw) (r, (new_writer, w)) = (Ok (tr', tw'), (r', (wr', w'))) →
  ∃ route_w req_w r1 r2 a p m,
    write_msg (mkRoute agent) new_writer = (Ok tt, route_w) ∧
    write_msg (Forward remote) route_w = (Ok tt, req_w) ∧ healthy req_w ∧
    read_msg r = (Ok (RouteOk a p m), r1) ∧ read_msg r1 = (Ok AckOk, r2) ∧
    splice tr tw r2 req_w = ((tr', tw'), (r', wr')).
Proof.
  unfold forward_one. intros (x & [r1 [route_w w1]] & (-> & Hw & a & p & m & Hm)%route_ok & E)%bind_ok.
  apply bind_ok in E as ([] & [r2 [req_w w2]] & Ereq & E). apply bind_ok in E as (ack & [r3 [wr3 w3]] & Eack & E).
  revert Ereq Eack E. unfold on_send, on_fst, on_snd. cbn [fst snd].
  destruct (write_msg (Forward remote) route_w) as [u rw] eqn:Ew. intros [= -> <- <- <-].
  destruct (read_msg r1) as [y r4] eqn:Er. intros [= -> <- <- <-]. destruct ack; [|done].
  unfold mbind, M_bind, splice_served, mret, M_ret. cbn [fst snd].
  destruct (splice tr tw r4 rw) as [[tr1 tw1] [rc sd]] eqn:Es. intros; simplify_eq/=.
  destruct (write_msg_new (mkRoute agent)) as [(body & _ & En)|[e En]]; rewrite En in Hw; simplify_eq.
  destruct (write_msg_still (Forward remote) (mkWriter (frame body) None None false) rw) as (? & _ & _ & ->); [done|done|].
  eexists _, _, r1, r4, a, p, m. by split_and!.
Qed.

(** C31: A tunnel carries the bytes: when a forwarded connection ends without an
    error, the agent of the one session its selector matches did connect to the
    requested address; everything that arrived there is, in order, what the local
    program sent, and everything the local program received is what the remote
    end sent; both sockets are shut down at the end; and nothing is missing from
    a direction whose sockets did not fail. *)
Theorem forwarded_bytes_arrive dir agent remote tr tw (r : reader) wc tr' tw' r' wr' wc'
    sessions paths open_bi conn agent_in received sc (ra : reader) wt x ra' wra wt' :
  forward_one dir agent remote (tr, tw) (r, (new_writer, wc)) = (Ok (tr', tw'), (r', (wr', wc'))) →
  relayed sessions paths open_bi (w_out wr') (w_out wra) conn agent_in received →
  clean ra → rd_bytes ra = agent_in →
  handle sc (ra, (new_writer, wt)) = (x, (ra', (wra, wt'))) →
  clean r → rd_bytes r = received →
  ∃ id rr rw rr' rw', pick sessions agent = Ok (id, conn) ∧ tcp_connect remote = Ok (rr, rw) ∧
    x = Ok (Some (rr', rw')) ∧ w_fin rw' = true ∧ w_fin tw' = true ∧
    (∃ d, w_out rw' = w_out rw ++ d ∧ d `prefix_of` rd_bytes tr) ∧
    (∃ d, w_out tw' = w_out tw ++ d ∧ d `prefix_of` rd_bytes rr) ∧
    (clean tr → healthy rw → w_out rw' = w_out rw ++ rd_bytes tr) ∧
    (clean rr → healthy tw → w_out tw' = w_out tw ++ rd_bytes rr).
Proof.
  intros Hf Hrel Hca Hba Hh Hc Hb.
  apply forward_one_ok in Hf as (route_w & req_w & r1 & r2 & a & p & m & Hw & Hreq & Hreqh & Hr & Hack & Hs).
  apply splice_propagates_both_ends in Hs as (Hfin & _ & (up & Hup & Hupp) & (down & Hdown & Hdownp) & Hupc & Hdownc).
  destruct (write_msg_ok _ _ _ Hreq) as (body & Hbody & Hmax & Hreqout).
  destruct (relayed_spec sessions paths open_bi agent (frame body ++ up) route_w (w_out wr') (w_out wra)
    conn agent_in received Hw) as (-> & id & path & rem & w0 & Hpick & Hw0 & ->);
    [by rewrite Hup, Hreqout, <- app_assoc|done|].
  destruct (read_msg_opt_frame (Forward remote) body up ra) as (ra1 & Hc1 & Hb1 & E1); [done..|].
  assert (Era : read_msg ra = (Ok (Forward remote), ra1)) by (unfold read_msg; run_unfold; by rewrite E1).
  destruct (read_written (RouteOk (pk_to_string id) path rem) new_writer w0 r (w_out wra) Hw0 Hc)
    as (r3 & Er3 & Hc3 & Hb3); [by simpl; rewrite Hb|].
  rewrite Hr in Er3. simplify_eq.
  destruct (handle_forward_ack sc remote ra ra1 wt x ra' wra wt' r3 r2)
    as (rr & rw & ack_w & rr' & rw' & Htcp & Hackw & Hackh & Hs & ->); [done..|].
  apply splice_propagates_both_ends in Hs as (Hfin2 & _ & (d2 & Hd2 & Hd2p) & (d1 & Hd1 & Hd1p) & Hd2c & Hd1c).
  assert (Hr2 : clean r2 ∧ rd_bytes r2 = d2).
  { destruct (read_written AckOk new_writer ack_w r3 d2 Hackw Hc3) as (r4 & E4 & ? & ?); [simpl; by rewrite Hb3, Hd2|].
    rewrite E4 in Hack. by simplify_eq. }
  destruct Hr2 as [Hcr2 <-].
  exists id, rr, rw, rr', rw'. split_and!; [done..| | | |].
  - exists d1. split; [done|]. by etrans.
  - exists down. split; [done|]. by etrans.
  - intros Hct Hhw. rewrite (Hd1c Hc1 Hhw). f_equal. pose proof (Hupc Hct Hreqh) as Hu. rewrite Hup in Hu.
    by apply app_inv_head in Hu.
  - intros Hcr Hhw. rewrite (Hdownc Hcr2 Hhw). f_equal. pose proof (Hd2c Hcr Hackh) as Hu. rewrite Hd2 in Hu.
    by apply app_inv_head in Hu.
Qed.
End pipeline.

(** ** The status command *)

(** The exit code of [status] tells an unattended caller the truth: it is 0
    exactly when the last probe of the controller succeeded and the process that
    wrote the status is still running, and 2 in every other case, a controller
    that was never probed, that cannot be dialled or that is gone. *)
Theorem status_exit_code `{SerdeJson Status} dir json w s code out w' :
  faults w = [] → read_status dir w = (Ok s, w) → status dir json w = (Ok (code, out), w') →
  code = (if bool_decide (st_dialable s = Some true ∧
                          is_ok (do_stat (parse_path ("/proc/" +:+ pretty (st_pid s))) w).1 = true)
          then 0 else 2).
Proof.
  intros Hq Hs. unfold status. unfold mbind at 1, M_bind at 1. rewrite Hs.
  assert (Hal : writer_alive s w = (Ok (is_ok (do_stat (parse_path ("/proc/" +:+ pretty (st_pid s))) w).1), w)).
  { unfold writer_alive, fs_exists, fs_metadata, attempt, mbind, M_bind. rewrite syscall_quiet by done.
    destruct (do_stat _ w) as [rr ww] eqn:E. unfold do_stat in E. repeat case_match; by simplify_eq. }
  set (alive := is_ok _) in *.
  assert (Hok : (if bool_decide (st_dialable s = Some true) then writer_alive s else mret false) w =
    (Ok (bool_decide (st_dialable s = Some true ∧ alive = true)), w)).
  { case_bool_decide as Hd.
    - rewrite Hal. repeat f_equal. destruct alive; symmetry; [by apply bool_decide_true|].
      by apply bool_decide_false; intros [_ ?].
    - unfold mret, M_ret. repeat f_equal. symmetry. apply bool_decide_false. by intros [? _]. }
  unfold mbind at 1, M_bind at 1. rewrite Hok. destruct json.
  - unfold mbind, M_bind, lift. destruct (to_vec_pretty s); [|done]. unfold mret, M_ret. intros; by simplify_eq.
  - unfold mbind, M_bind. rewrite Hal. unfold mret, M_ret. intros; by simplify_eq.
Qed.

(** ** Concrete runs *)

Section examples.
Import DemoSha DemoKeys DemoNet DemoCodec DemoPostcard.

Instance demo_space : StatvfsCall := λ _, Ok (mkStatvfs 100 50 4096).
Instance demo_ctl : ControlSocket := λ _, Ok tt.
Instance demo_no_processes : Processes := λ _ _, Err (io_error NotFound "No such file or directory (os error 2)").
Instance demo_no_tcp : TcpConnect := λ _, Err (io_error OtherKind "Connection refused (os error 111)").

Definition demo_sessions : list (PublicKey * Session) := [(demo_agent, mkSession (demo_conn 7) 7 9)].
Definition demo_paths (c : Conn) : list Path := [].
Definition demo_open (c : Conn) : result unit := Ok tt.
Definition sent_by {T} `{Postcard T} (msg : T) : bytes := w_out (write_msg msg new_writer).2.
Definition demo_route : bytes := sent_by (mkRoute "any").
Definition demo_routed : bytes := sent_by (RouteOk (pk_to_string demo_agent) Unknown "no open path").
Definition demo_idle : Schedule := mkSchedule [] false true.

(** Whatever is requested and answered, routed over the one session. *)
Lemma demo_relayed req out :
  relayed demo_sessions demo_paths demo_open (demo_route ++ req) out (demo_conn 7) req (demo_routed ++ out).
Proof.
  split. exists [RData demo_route; RData req], [RData req], (mkWriter demo_routed None None false),
    [RData out], (mkWriter (demo_routed ++ out) None None true), [], (mkWriter req None None true), [].
  assert (Hb : ∀ b, rd_bytes [RData b] = b) by (intros; rewrite rd_bytes_data; apply app_nil_r).
  split_and!.
  - by repeat constructor.
  - by rewrite rd_bytes_data, Hb.
  - vm_compute. reflexivity.
  - by repeat constructor.
  - by rewrite Hb.
  - unfold splice. rewrite !one_way_clean by (done || by repeat constructor). by rewrite !Hb.
  - done.
  - done.
Qed.

(** A push of /srv/a.txt to /home/b.txt. *)
Definition push_request : bytes :=
  sent_by (Push "/home/b.txt" (Z.land 33188 o7777) 5 (sha256_of demo_body)) ++ demo_body.
Definition push_handled := handle demo_idle ([RData push_request], (new_writer, demo_receiver [])).
Definition push_answer : reader := [RData (demo_routed ++ w_out push_handled.2.2.1)].
Definition push_command := push_file demo_root "any" demo_src "/home/b.txt" (push_answer, (new_writer, demo_sender)).

Lemma acknowledged_push_has_landed_witness :
  ∃ id f, pick demo_sessions "any" = Ok (id, demo_conn 7) ∧ fs demo_sender !! demo_src = Some (NFile f) ∧
    sha256_of demo_body = sha256_of (f_data f) ∧
    fs push_handled.2.2.2 !! parse_path "/home/b.txt" =
      Some (NFile (mkFile (f_data f) (Z.land (f_mode f) o7777))).
Proof.
  apply (acknowledged_push_has_landed demo_root "any" demo_src "/home/b.txt" push_answer demo_sender 5
    (sha256_of demo_body) push_command.2.1 push_command.2.2.1 push_command.2.2.2
    demo_sessions demo_paths demo_open (demo_conn 7) push_request (demo_routed ++ w_out push_handled.2.2.1)
    demo_idle [RData push_request] (demo_receiver []) push_handled.1 push_handled.2.1 push_handled.2.2.1
    push_handled.2.2.2).
  - vm_compute. reflexivity.
  - replace (w_out push_command.2.2.1) with (demo_route ++ push_request) by (vm_compute; reflexivity). apply demo_relayed.
  - by apply Forall_singleton.
  - vm_compute. reflexivity.
  - unfold push_handled. by destruct (handle _ _) as [? [? [? ?]]].
  - by apply Forall_singleton.
  - vm_compute. reflexivity.
Defined.

(** A pull of /srv/a.txt to /home/b.txt. *)
Definition pull_request : bytes := sent_by (Pull "/srv/a.txt").
Definition pull_handled := handle demo_idle ([RData pull_request], (new_writer, demo_sender)).
Definition pull_answer : reader := [RData (demo_routed ++ w_out pull_handled.2.2.1)].
Definition pull_command := pull_file demo_root "any" "/srv/a.txt" demo_dest 10 (pull_answer, (new_writer, demo_receiver [])).

Lemma completed_pull_is_the_file_witness :
  ∃ id, pick demo_sessions "any" = Ok (id, demo_conn 7) ∧
      ∃ f, fs demo_sender !! parse_path "/srv/a.txt" = Some (NFile f) ∧
        (zlen (f_data f) ≤ u64_max →
           zlen (f_data f) ≤ 10 ∧
           fs pull_command.2.2.2 !! demo_dest = Some (NFile (mkFile (f_data f) (Z.land (f_mode f) o7777)))).
Proof.
  apply (completed_pull_is_the_file demo_root "any" "/srv/a.txt" demo_dest 10 pull_answer (demo_receiver [])
    (Fetched 5 (sha256_of demo_body)) pull_command.2.1 pull_command.2.2.1 pull_command.2.2.2
    demo_sessions demo_paths demo_open (demo_conn 7) pull_request (demo_routed ++ w_out pull_handled.2.2.1)
    demo_idle [RData pull_request] demo_sender pull_handled.1 pull_handled.2.1 pull_handled.2.2.1
    pull_handled.2.2.2).
  - vm_compute. reflexivity.
  - apply demo_relayed.
  - by apply Forall_singleton.
  - vm_compute. reflexivity.
  - unfold pull_handled. by destruct (handle _ _) as [? [? [? ?]]].
  - by apply Forall_singleton.
  - vm_compute. reflexivity.
  - by intros f Hf%not_elem_of_nil.
Defined.

Definition demo_published : Status := probe_ok_status 8 DirectLan demo_status.
(** A file that holds this status. *)
Instance demo_published_json : SerdeJson Status := {
  to_vec_pretty _ := Ok (as_bytes "{}"); from_slice _ := Ok demo_published
}.
Definition demo_status_world : World :=
  mkWorld (<[["/"; "state"; "status.json"] := NFile (mkFile (as_bytes "{}") 420)]>
          {[ ["/"; "proc"; "42"] := NDir o755 ]}) [] [] [] 50 18.

Lemma status_exit_code_witness :
  0 = (if bool_decide (st_dialable demo_published = Some true ∧
          is_ok (do_stat (parse_path ("/proc/" +:+ pretty (st_pid demo_published))) demo_status_world).1 = true)
       then 0 else 2).
Proof.
  apply (status_exit_code demo_root false demo_status_world demo_published 0 (status_lines demo_published true)
    demo_status_world); [reflexivity|vm_compute; reflexivity|vm_compute; reflexivity].
Defined.
End examples.

(** A tunnel to a server that answers pong. *)
Section forward_example.
Import DemoSha DemoKeys DemoNet DemoCodec DemoPostcard.
Existing Instances demo_space demo_ctl demo_no_processes.
Instance demo_pong : TcpConnect := λ _, Ok ([RData (as_bytes "po"); RData (as_bytes "ng")], new_writer).

Definition forward_request : bytes := sent_by (Forward "t") ++ as_bytes "ping".
Definition forward_handled := handle demo_idle ([RData forward_request], (new_writer, demo_receiver [])).
Definition forward_answer : reader := [RData (demo_routed ++ w_out forward_handled.2.2.1)].
Definition forward_command :=
  forward_one demo_root "any" "t" ([RData (as_bytes "ping")], new_writer) (forward_answer, (new_writer, demo_sender)).

Lemma forwarded_bytes_arrive_witness :
  ∃ tr' tw', forward_command.1 = Ok (tr', tw') ∧
  ∃ id rr rw rr' rw', pick demo_sessions "any" = Ok (id, demo_conn 7) ∧ tcp_connect "t" = Ok (rr, rw) ∧
    forward_handled.1 = Ok (Some (rr', rw')) ∧ w_fin rw' = true ∧ w_fin tw' = true ∧
    (∃ d, w_out rw' = w_out rw ++ d ∧ d `prefix_of` rd_bytes [RData (as_bytes "ping")]) ∧
    (∃ d, w_out tw' = w_out new_writer ++ d ∧ d `prefix_of` rd_bytes rr) ∧
    (clean [RData (as_bytes "ping")] → healthy rw → w_out rw' = w_out rw ++ rd_bytes [RData (as_bytes "ping")]) ∧
    (clean rr → healthy new_writer → w_out tw' = w_out new_writer ++ rd_bytes rr).
Proof.
  exists [], (mkWriter (as_bytes "pong") None None true). split; [vm_compute; reflexivity|].
  apply (forwarded_bytes_arrive demo_root "any" "t" [RData (as_bytes "ping")] new_writer forward_answer demo_sender
    [] (mkWriter (as_bytes "pong") None None true) forward_command.2.1 forward_command.2.2.1 forward_command.2.2.2
    demo_sessions demo_paths demo_open (demo_conn 7) forward_request (demo_routed ++ w_out forward_handled.2.2.1)
    demo_idle [RData forward_request] (demo_receiver []) forward_handled.1 forward_handled.2.1 forward_handled.2.2.1
    forward_handled.2.2.2).
  - vm_compute. reflexivity.
  - apply demo_relayed.
  - by apply Forall_singleton.
  - vm_compute. reflexivity.
  - unfold forward_handled. by destruct (handle _ _) as [? [? [? ?]]].
  - by apply Forall_singleton.
  - vm_compute. reflexivity.
Defined.
End forward_example.

(** A command that prints to both streams and dies of a signal. *)
Section exec_example.
Import DemoSha DemoKeys DemoNet DemoCodec DemoPostcard.
Existing Instances demo_space demo_ctl demo_no_tcp demo_processes.

Definition exec_route : writer := (write_msg (mkRoute "any") new_writer).2.
Definition exec_sent : writer := (write_msg (Exec ["ls"]) exec_route).2.
Definition exec_request : bytes := sent_by (Exec ["ls"]).
Definition exec_handled := handle demo_schedule ([RData exec_request], (new_writer, demo_receiver [])).

Example exec_ends_in_a_signal :
  ∃ id o e s', pick demo_sessions "any" = Ok (id, demo_conn 7) ∧
    exec_into demo_root "any" ["ls"] 10
      (([RData (demo_routed ++ w_out exec_handled.2.2.1)], (new_writer, demo_sender)), (new_writer, new_writer)) =
      (Ok (137, false), (s', (mkWriter ([] ++ o) None None false, mkWriter ([] ++ e) None None false))) ∧
    o `prefix_of` as_bytes "hi!" ∧ e `prefix_of` as_bytes "e" ∧
    (false = false → o = as_bytes "hi!" ∧ e = as_bytes "e").
Proof.
  apply (exec_through_serve demo_root "any" "ls" [] demo_child (Signaled 9) demo_schedule 10
    [RData (demo_routed ++ w_out exec_handled.2.2.1)] demo_sender new_writer new_writer
    demo_sessions demo_paths demo_open (demo_conn 7) exec_request (demo_routed ++ w_out exec_handled.2.2.1)
    exec_route exec_sent [RData exec_request] (demo_receiver []) exec_handled.1 exec_handled.2.1 exec_handled.2.2.1
    exec_handled.2.2.2); try done; try (repeat constructor; done).
  - apply demo_frames_encode.
  - apply demo_schedule_valid.
  - change (w_out exec_sent) with (demo_route ++ exec_request). apply demo_relayed.
Qed.
End exec_example.
