(* ===== verification/Link.v ===== *)
(** * The derived radio link (src/src/link.rs)

    Network name, key, addresses and port of the access point a target offers,
    computed by both sides from the controller's public node id. *)

From S2P Require Import Prelude Text Fs Crypto Proto Transfer Net State.

Definition PREFIX_LEN : Z := 16.

Record Link := mkLink {
  ssid : string;
  psk : string;
  target : byte * byte * byte * byte;
  link_controller : byte * byte * byte * byte;
  port : Z
}.

(** [1 + b % 254] on [u8] *)
Definition host_octet (b : byte) : byte := byte_of_Z (1 + byte_to_Z b mod 254).

Definition show_addr (a : byte * byte * byte * byte) : string :=
  let '(a, b, c, d) := a in show_v4 a b c d.

Section link.
Context `{Sha256} `{IrohKeys}.

Definition hash (label : string) (id : PublicKey) : bytes :=
  sha_finalize (sha_update (sha_update sha_new (as_bytes label)) (pk_as_bytes id)).

Definition derive (id : PublicKey) : Link :=
  let ssid := hash "egdod-link-ssid" id in
  let psk := hash "egdod-link-psk" id in
  let a := hash "egdod-link-addr" id in
  let x := host_octet (nth 0 a x00) in
  let y := host_octet (nth 1 a x00) in
  let z := host_octet (nth 2 a x00) in
  let z := if bool_decide (z = y) then host_octet z else z in
  mkLink ("egdod-" +:+ hex (take 4 ssid)) (hex psk) (xa9, xfe, x, y) (xa9, xfe, x, z)
    (49152 + be_value [nth 3 a x00; nth 4 a x00] mod 16384).
End link.

Definition NL : string := of_bytes [LF].
Definition TAB : string := of_bytes [x09].
Definition DQ : string := of_bytes [QUOTE].

Definition hostapd_conf (l : Link) (iface : string) : string :=
  "interface=" +:+ iface +:+ NL +:+ "driver=nl80211" +:+ NL +:+ "ssid=" +:+ ssid l +:+ NL +:+ "hw_mode=g" +:+ NL
    +:+ "channel=6" +:+ NL +:+ "wpa=2" +:+ NL +:+ "wpa_key_mgmt=WPA-PSK" +:+ NL +:+ "rsn_pairwise=CCMP" +:+ NL
    +:+ "wpa_psk=" +:+ psk l +:+ NL.
Definition supplicant_conf (l : Link) : string :=
  "network={" +:+ NL +:+ TAB +:+ "ssid=" +:+ DQ +:+ ssid l +:+ DQ +:+ NL +:+ TAB +:+ "psk=" +:+ psk l +:+ NL
    +:+ TAB +:+ "key_mgmt=WPA-PSK" +:+ NL +:+ "}" +:+ NL.
Definition link_lines (l : Link) : string :=
  "ssid=" +:+ ssid l +:+ NL +:+ "psk=" +:+ psk l +:+ NL +:+ "target=" +:+ show_addr (target l) +:+ NL
    +:+ "controller=" +:+ show_addr (link_controller l) +:+ NL +:+ "prefix=" +:+ pretty PREFIX_LEN +:+ NL
    +:+ "port=" +:+ pretty (port l) +:+ NL.

(** What is printed. *)
Inductive Show := ShowLines | ShowJson | ShowHostapd (iface : string) | ShowSupplicant.
Definition show `{Sha256} `{IrohKeys} `{SerdeJson Link} (id : PublicKey) (what : Show) : result string :=
  let link := derive id in
  match what with
  | ShowLines => Ok (link_lines link)
  | ShowJson => match to_vec_pretty link with Ok b => Ok (of_bytes b +:+ NL) | Err e => Err e end
  | ShowHostapd iface => Ok (hostapd_conf link iface)
  | ShowSupplicant => Ok (supplicant_conf link)
  end.

(** ** Joining the link *)

(** The programs [join] runs: [ip] to completion ([Ok false]: it failed, with
    this status), and [wpa_supplicant], in the background. *)
Class JoinTools := {
  run_ip : list string → result (bool * string);
  spawn_supplicant : list string → result unit
}.

Definition JOIN_WAIT : Z := 60.

(** One turn of the wait for the carrier: what has become of the files by then
    (the kernel's [carrier] among them), the clock in seconds and whether the
    child is gone; and how the wait for the end of the session ends. *)
Record JoinRound := mkJoinRound {
  jr_fs : gmap path node → gmap path node;
  jr_now : Z;
  jr_exit : result (option string)
}.
Inductive Leave := CtrlC (r : result unit) | ChildEnded (s : result string).

Section join.
Context `{Sha256} `{IrohKeys} `{JoinTools}.

(** The invocations of [ip] so far, and the machine. *)
Definition joining : Type := list (list string) * World.
Definition ip (args : list string) : M joining unit := λ s,
  let s' := (s.1 ++ [args], s.2) in
  match run_ip args with
  | Err e => (Err (add_context ("running ip " +:+ String.concat " " args) e), s')
  | Ok (true, _) => (Ok tt, s')
  | Ok (false, status) => (Err (anyhow ("ip " +:+ String.concat " " args +:+ " failed with " +:+ status)), s')
  end.

Definition carrier (iface : string) : M World bool :=
  r ← attempt (fs_read_to_string (parse_path ("/sys/class/net/" +:+ iface +:+ "/carrier")));
  mret (match r with Ok s => bool_decide (trim_bytes s = as_bytes "1") | Err _ => false end).

(** [None]: the rounds are used up and it still waits. *)
Fixpoint join_wait (ssid iface : string) (deadline : Z) (rounds : list JoinRound) : M World (option unit) :=
  match rounds with
  | [] => mret None
  | r :: rounds =>
      ((λ w, (Ok tt, set_fs (jr_fs r) w)) : M World unit);;
      up ← carrier iface;
      if (up : bool) then mret (Some tt) else
      if bool_decide (deadline < jr_now r)
      then fail (anyhow (ssid +:+ " not in range within " +:+ pretty JOIN_WAIT +:+ "s")) else
      e ← lift (jr_exit r);
      match e with
      | Some status => fail (anyhow ("wpa_supplicant exited with " +:+ status))
      | None => join_wait ssid iface deadline rounds
      end
  end.
Definition join_leave (l : Leave) : result unit :=
  match l with
  | CtrlC r => context "waiting for ctrl-c" r
  | ChildEnded (Err e) => Err e
  | ChildEnded (Ok s) => Err (anyhow ("wpa_supplicant exited with " +:+ s))
  end.

Definition join (dir : StateDir) (iface : string) (start : Z) (rounds : list JoinRound) (leave : Leave)
    : M joining (option unit) :=
  key ← on_snd (load_key dir);
  let link := derive (sk_public key) in
  let cidr := show_addr (link_controller link) +:+ "/" +:+ pretty PREFIX_LEN in
  ip ["link"; "set"; "dev"; iface; "up"];;
  ip ["addr"; "replace"; cidr; "dev"; iface];;
  let conf := Fs.join (root dir) "link.conf" in
  on_snd (with_context ("writing " +:+ show_path conf) (fs_write conf (as_bytes (supplicant_conf link))));;
  lift (context "spawning wpa_supplicant" (spawn_supplicant ["-i"; iface; "-c"; show_path conf]));;
  outcome ← attempt (
    o ← on_snd (join_wait (ssid link) iface (start + JOIN_WAIT) rounds);
    match o with
    | None => mret None
    | Some _ => lift (match join_leave leave with Ok _ => Ok (Some tt) | Err e => Err e end)
    end);
  match outcome with
  | Ok None => mret None
  | r =>
      ignore (ip ["addr"; "del"; cidr; "dev"; iface]);;
      ignore (on_snd (fs_remove_file conf));;
      lift r
  end.
End join.

(** ** Lemmas *)

Lemma host_octet_Z b : byte_to_Z (host_octet b) = 1 + byte_to_Z b mod 254.
Proof.
  unfold host_octet. rewrite byte_to_of_Z. apply Z.mod_small.
  pose proof (Z.mod_pos_bound (byte_to_Z b) 254). lia.
Qed.
Lemma host_octet_range b : 1 ≤ byte_to_Z (host_octet b) ≤ 254.
Proof. rewrite host_octet_Z. pose proof (Z.mod_pos_bound (byte_to_Z b) 254). lia. Qed.
(** Applied to a host octet it moves to another one. *)
Lemma host_octet_moves b : 1 ≤ byte_to_Z b ≤ 254 → host_octet b ≠ b.
Proof.
  intros Hb E. apply (f_equal byte_to_Z) in E. rewrite host_octet_Z in E.
  destruct (decide (byte_to_Z b = 254)) as [E2|]; [by rewrite E2 in E|].
  rewrite Z.mod_small in E; lia.
Qed.

Lemma length_as_bytes_app a b : length (as_bytes (a +:+ b)) = (length (as_bytes a) + length (as_bytes b))%nat.
Proof.
  unfold as_bytes. induction a as [|c a IH]; [done|].
  change (S (length (String.list_byte_of_string (a +:+ b))) =
    (S (length (String.list_byte_of_string a)) + length (String.list_byte_of_string b))%nat). lia.
Qed.

(** C40: Both ends of the link compute parameters that work: for every node id
    the two addresses are distinct usable hosts of 169.254/16 (no octet 0 or 255,
    so never a network or broadcast address) on the same subnet, the port is a
    dynamic port, the network name is 14 bytes and the key exactly 64 lower-case
    hexadecimal digits, which is what makes it a raw key and not a passphrase. *)
Theorem derived_link_is_usable `{Sha256Laws} `{IrohKeys} (id : PublicKey) :
  let l := derive id in
  target l ≠ link_controller l ∧
  (∃ x y z, target l = (xa9, xfe, x, y) ∧ link_controller l = (xa9, xfe, x, z) ∧
     1 ≤ byte_to_Z x ≤ 254 ∧ 1 ≤ byte_to_Z y ≤ 254 ∧ 1 ≤ byte_to_Z z ≤ 254) ∧
  49152 ≤ port l ≤ 65535 ∧
  length (as_bytes (ssid l)) = 14%nat ∧
  length (as_bytes (psk l)) = 64%nat ∧ Forall hex_char (as_bytes (psk l)).
Proof.
  cbv zeta. unfold derive. cbn [target link_controller port ssid psk].
  set (a := hash "egdod-link-addr" id). set (x := host_octet (nth 0 a x00)).
  set (y := host_octet (nth 1 a x00)). set (z := host_octet (nth 2 a x00)).
  assert (Hz : 1 ≤ byte_to_Z (if bool_decide (z = y) then host_octet z else z) ≤ 254)
    by (case_bool_decide; apply host_octet_range).
  assert (Hne : (if bool_decide (z = y) then host_octet z else z) ≠ y).
  { case_bool_decide as E; [|done]. rewrite <- E. apply host_octet_moves, host_octet_range. }
  split_and!.
  - intros E. injection E as E. by destruct Hne.
  - exists x, y. eexists. split_and!; [done|done|apply host_octet_range..|apply Hz|apply Hz].
  - pose proof (Z.mod_pos_bound (be_value [nth 3 a x00; nth 4 a x00]) 16384). lia.
  - pose proof (Z.mod_pos_bound (be_value [nth 3 a x00; nth 4 a x00]) 16384). lia.
  - unfold hex. rewrite length_as_bytes_app, as_of_bytes, length_hex, length_take. unfold hash.
    by rewrite sha_length.
  - unfold hex. rewrite as_of_bytes, length_hex. unfold hash. by rewrite sha_length.
  - unfold hex. rewrite as_of_bytes. apply hex_chars.
Qed.

Lemma derived_link_is_usable_witness :
  let l := derive (H := DemoSha.demo_sha) (H0 := DemoKeys.demo_keys) (DemoKeys.mk_key [x01; x02]) in
  target l ≠ link_controller l ∧ 49152 ≤ port l ≤ 65535.
Proof.
  destruct (derived_link_is_usable (DemoKeys.mk_key [x01; x02] : PublicKey (IrohKeys := DemoKeys.demo_keys))
    (H0 := DemoSha.demo_sha_laws)) as (H1 & _ & H2 & _).
  exact (conj H1 H2).
Defined.
