(* ===== verification/Ble.v ===== *)
(** * First-hop provisioning over Bluetooth (src/src/ble.rs)

    The signed hello messages, the key schedule, the framing, the credential
    file, both ends of the exchange and the loop in which an unprovisioned agent
    waits for it.  [bluer], [x25519-dalek] and [chacha20poly1305] are
    parameters; the streams of Stream.v carry the bytes of a characteristic. *)

From S2P Require Import Prelude Text Stream Fs Crypto Proto Net State.

Definition SERVICE_UUID : Z := 0xe6d0d0007d7a4c6f8d8a7c4547444f44.
Definition CHARACTERISTIC_UUID : Z := 0xe6d0d0017d7a4c6f8d8a7c4547444f44.
Definition SERVER_LABEL : bytes := as_bytes "egdod-ble-server-v1".
Definition CLIENT_LABEL : bytes := as_bytes "egdod-ble-client-v1".
Definition KEY_LABEL : bytes := as_bytes "egdod-ble-key-v1".
Definition START : byte := x01.
Definition MAX_FRAME : Z := 64 * 1024.

(** [bluer::gatt::local]: one characteristic with I/O by streams, one service. *)
Record GattCharacteristic := mkGattCharacteristic {
  gc_uuid : Z;
  gc_write : option (bool * bool);  (** [write], [write_without_response] *)
  gc_notify : option bool
}.
Record GattService := mkGattService {
  gs_uuid : Z;
  gs_primary : bool;
  gs_characteristics : list GattCharacteristic
}.
Definition application : list GattService :=
  [mkGattService SERVICE_UUID true [mkGattCharacteristic CHARACTERISTIC_UUID (Some (true, true)) (Some true)]].

(** ** The credential file *)

(** [contains] of a line feed, carriage return, NUL, quote or backslash *)
Definition has_special (b : bytes) : bool :=
  existsb (λ x, bool_decide (x ∈ [LF; CR; x00; QUOTE; BACKSLASH])) b.

Definition network_conf (ssid psk : string) : result string :=
  let s := as_bytes ssid in
  let p := as_bytes psk in
  if bool_decide (s = []) || bool_decide (32 < zlen s) || has_special s
  then Err (anyhow "SSID must be 1–32 bytes without a quote, backslash, line break or NUL") else
  let raw := bool_decide (zlen p = 64) && forallb is_ascii_hexdigit p in
  let psk_ok := bool_decide (8 ≤ zlen p ≤ 63) || raw in
  if negb psk_ok || has_special p
  then Err (anyhow "PSK must be 8–63 bytes or 64 hexadecimal digits without a quote, backslash, line break or NUL") else
  let psk_line := if raw then as_bytes "psk=" ++ p else as_bytes "psk=" ++ [QUOTE] ++ p ++ [QUOTE] in
  Ok (of_bytes (as_bytes "network={" ++ [LF; x09] ++ as_bytes "ssid=" ++ hex_bytes s ++ [LF; x09]
        ++ psk_line ++ [LF; x09] ++ as_bytes "key_mgmt=WPA-PSK" ++ [LF] ++ as_bytes "}" ++ [LF])).

(** The side file is named by the text of the path. *)
Definition install_tmp (output : string) (pid : Z) : string := output +:+ (".ble.tmp." +:+ pretty pid).

Definition install (output : string) (b : bytes) : M World unit :=
  me ← gets pid;
  let tmp := parse_path (install_tmp output me) in
  with_context ("creating " +:+ install_tmp output me) (fs_create_new tmp o600);;
  r ← attempt (
    with_context "writing BLE credentials" (fs_append tmp b);;
    with_context "flushing BLE credentials" fs_sync;;
    with_context ("installing " +:+ output) (fs_rename tmp (parse_path output)));
  match r with
  | Ok _ => mret tt
  | Err e => ignore (fs_remove_file tmp);; fail e
  end.

(** ** One exchange

    A pair of characteristic streams, the timer of the surrounding
    [tokio::time::timeout] (the number of awaits it still lets pass, or one that
    never fires), whether it has fired, the rest of the world, and the
    [installed] flag the server's exchange captures. *)
Record Sess := mkSess {
  s_rd : reader;
  s_wr : writer;
  s_timer : option nat;
  s_fired : bool;
  s_world : World;
  s_installed : bool
}.

Definition on_rd {A} (m : M reader A) : M Sess A := λ s,
  let '(r, x) := m (s_rd s) in
  (r, mkSess x (s_wr s) (s_timer s) (s_fired s) (s_world s) (s_installed s)).
Definition on_wr {A} (m : M writer A) : M Sess A := λ s,
  let '(r, x) := m (s_wr s) in
  (r, mkSess (s_rd s) x (s_timer s) (s_fired s) (s_world s) (s_installed s)).
Definition on_os {A} (m : M World A) : M Sess A := λ s,
  let '(r, x) := m (s_world s) in
  (r, mkSess (s_rd s) (s_wr s) (s_timer s) (s_fired s) x (s_installed s)).
Definition set_timer (t : option nat) (s : Sess) : Sess :=
  mkSess (s_rd s) (s_wr s) t (s_fired s) (s_world s) (s_installed s).
Definition fire (s : Sess) : Sess :=
  mkSess (s_rd s) (s_wr s) (s_timer s) true (s_world s) (s_installed s).
Definition mark_installed : M Sess unit := λ s,
  (Ok tt, mkSess (s_rd s) (s_wr s) (s_timer s) (s_fired s) (s_world s) true).

Definition elapsed : error := anyhow "deadline has elapsed".

(** An await: where the timer may cancel the exchange, for good. *)
Definition awaiting {A} (m : M Sess A) : M Sess A := λ s,
  if s_fired s then (Err elapsed, s) else
  match s_timer s with
  | Some O => (Err elapsed, fire s)
  | Some (S n) => m (set_timer (Some n) s)
  | None => m s
  end.

Definition frame_size (size : Z) : result Z :=
  if bool_decide (MAX_FRAME < size)
  then Err (anyhow ("BLE frame exceeds " +:+ pretty MAX_FRAME +:+ " bytes")) else Ok size.

Definition write_frame (b : bytes) : M Sess unit :=
  _ ← lift (frame_size (zlen b));
  awaiting (on_wr (write_all (be_bytes 4 (zlen b))));;
  awaiting (on_wr (write_all b));;
  awaiting (on_wr flush).

Definition read_frame : M Sess bytes :=
  size ← awaiting (on_rd (read_exact 4));
  let size := be_value size in
  _ ← lift (context ("BLE frame declares " +:+ pretty size +:+ " bytes") (frame_size size));
  awaiting (on_rd (read_exact (Z.to_nat size))).

Section ble.
Context `{IrohKeys} `{Sha256} `{BleCrypto}.

Record ServerHello := mkServerHello {
  sh_agent : PublicKey;
  sh_ephemeral : bytes;
  sh_signature : bytes
}.

Definition identity_message (label : bytes) (controller agent : PublicKey) (keys : list bytes) : bytes :=
  label ++ pk_as_bytes controller ++ pk_as_bytes agent ++ mjoin keys.

Definition server_hello (key : SecretKey) (controller : PublicKey) (ephemeral : bytes) : bytes :=
  let agent := sk_public key in
  let signature := sk_sign key (identity_message SERVER_LABEL controller agent [ephemeral]) in
  pk_as_bytes agent ++ ephemeral ++ signature.

(** [bytes[a..b]], in range. *)
Definition slice (a b : nat) (l : bytes) : bytes := take (b - a) (drop a l).

Definition parse_server_hello (b : bytes) : result ServerHello :=
  if negb (bool_decide (length b = 128%nat))
  then Err (anyhow ("BLE server hello is " +:+ pretty (zlen b) +:+ " bytes, expected 128")) else
  match context "BLE agent node id" (pk_from_bytes (slice 0 32 b)) with
  | Err e => Err e
  | Ok agent => Ok (mkServerHello agent (slice 32 64 b) (slice 64 128 b))
  end.

Definition verify_server_hello (b : bytes) (controller expected_agent : PublicKey) : result ServerHello :=
  match parse_server_hello b with
  | Err e => Err e
  | Ok hello =>
      if negb (bool_decide (sh_agent hello = expected_agent))
      then Err (anyhow "BLE target node id does not match the requested agent") else
      match context "verifying BLE target identity"
              (pk_verify expected_agent
                 (identity_message SERVER_LABEL controller expected_agent [sh_ephemeral hello])
                 (sh_signature hello)) with
      | Err e => Err e
      | Ok _ => Ok hello
      end
  end.

Definition verify_client_hello (b : bytes) (controller agent : PublicKey) (server_ephemeral : bytes)
    : result bytes :=
  if bool_decide (length b < 128 + 16)%nat
  then Err (anyhow "BLE credential request is too short") else
  match context "BLE controller node id" (pk_from_bytes (slice 0 32 b)) with
  | Err e => Err e
  | Ok claimed_controller =>
      if negb (bool_decide (claimed_controller = controller))
      then Err (anyhow "BLE write came from a controller other than the one baked into the image") else
      let client_ephemeral := slice 32 64 b in
      let signature := slice 64 128 b in
      match context "verifying BLE controller identity"
              (pk_verify controller
                 (identity_message CLIENT_LABEL controller agent [server_ephemeral; client_ephemeral])
                 signature) with
      | Err e => Err e
      | Ok _ => Ok client_ephemeral
      end
  end.

Definition session_key (shared transcript : bytes) : bytes :=
  sha_finalize (sha_update (sha_update (sha_update sha_new KEY_LABEL) shared) transcript).

Definition nonce (n : Z) : bytes := replicate 11 x00 ++ [byte_of_Z n].

Definition crypt (key : bytes) (n : Z) (aad clear : bytes) : result bytes :=
  match aead_encrypt key (nonce n) aad clear with
  | Some c => Ok c
  | None => Err (anyhow "BLE encryption failed")
  end.
Definition decrypt (key : bytes) (n : Z) (aad cipher : bytes) : result bytes :=
  match aead_decrypt key (nonce n) aad cipher with
  | Some m => Ok m
  | None => Err (anyhow "BLE credential authentication failed")
  end.

(** [&id.to_string()[..8]] panics on a shorter text. *)
Definition local_name (id : PublicKey) : result string :=
  let text := as_bytes (pk_to_string id) in
  if bool_decide (length text < 8)%nat
  then Err (panic "end byte index 8 is out of bounds")
  else Ok ("egdod-" +:+ of_bytes (take 8 text)).

(** [bluer::adv::Advertisement], without the fields left at their default. *)
Record Advertisement := mkAdvertisement {
  adv_service_uuids : list Z;
  adv_local_name : option string;
  adv_discoverable : option bool
}.
Definition advertisement (id : PublicKey) : result Advertisement :=
  match local_name id with
  | Ok name => Ok (mkAdvertisement [SERVICE_UUID] (Some name) (Some true))
  | Err e => Err e
  end.

(** The body of the server's [timeout(EXCHANGE_WAIT, ..)]. *)
Definition serve_exchange (key : SecretKey) (controller agent : PublicKey) (output : string) : M Sess unit :=
  start ← awaiting (on_rd (read_exact 1));
  ensure (bool_decide (start = [START])) "BLE provisioning start marker is invalid";;
  secret ← on_os (getrandom 32);
  let server_ephemeral := x_public secret in
  let hello := server_hello key controller server_ephemeral in
  write_frame hello;;
  request ← read_frame;
  client_ephemeral ← lift (verify_client_hello request controller agent server_ephemeral);
  let transcript := hello ++ take 128 request in
  let shared := x_dh secret client_ephemeral in
  let session_key := session_key shared transcript in
  conf ← lift (decrypt session_key 0 transcript (drop 128 request));
  ensure (negb (bool_decide (conf = []))) "BLE credential file is empty";;
  on_os (install output conf);;
  mark_installed;;
  ack ← lift (crypt session_key 1 transcript (as_bytes "ok"));
  ignore (write_frame ack);;
  awaiting (mret tt).

(** The client's, once it has the two streams of the characteristic. *)
Definition provision_exchange (controller_key : SecretKey) (expected_agent : PublicKey) (conf : bytes)
    : M Sess unit :=
  awaiting (on_wr (write_all [START]));;
  awaiting (on_wr flush);;
  hello_bytes ← read_frame;
  let controller := sk_public controller_key in
  hello ← lift (verify_server_hello hello_bytes controller expected_agent);
  secret ← on_os (getrandom 32);
  let client_ephemeral := x_public secret in
  let signature := sk_sign controller_key
    (identity_message CLIENT_LABEL controller expected_agent [sh_ephemeral hello; client_ephemeral]) in
  let request := pk_as_bytes controller ++ client_ephemeral ++ signature in
  let transcript := hello_bytes ++ request in
  let shared := x_dh secret (sh_ephemeral hello) in
  let session_key := session_key shared transcript in
  cipher ← lift (crypt session_key 0 transcript conf);
  write_frame (request ++ cipher);;
  ack ← read_frame;
  answer ← lift (decrypt session_key 1 transcript ack);
  ensure (bool_decide (answer = as_bytes "ok")) "BLE target returned an invalid acknowledgement".

(** ** The server's loop *)

(** What the GATT application reports: a peer opens the write half or the
    notify half of the characteristic, or [CHANNEL_WAIT] passes without
    either.  The end of the list is the end of the control stream. *)
Inductive ctl_event :=
  | CtlWrite (accepted : result (Z * reader))
  | CtlNotify (peer : Z) (w : writer)
  | CtlQuiet.

Record Server := mkServer {
  sv_world : World;
  sv_active : option Z;          (** the [active] mutex *)
  sv_taken : list Z;             (** every peer written to it, in order; nobody reads this *)
  sv_removed : list Z;           (** [adapter.remove_device] calls, in order *)
  sv_timers : list (option nat)  (** the timers of the exchanges to come *)
}.

Fixpoint next_control (evs : list ctl_event) : list ctl_event :=
  match evs with CtlQuiet :: evs => next_control evs | _ => evs end.

Definition stopped : error := anyhow "BLE GATT service stopped".

(** Waits for the missing half from the same peer. *)
Fixpoint pair_loop (peer : Z) (rd : option reader) (wr : option writer) (evs : list ctl_event)
    : result (reader * writer) * list ctl_event :=
  match rd, wr with
  | Some r, Some w => (Ok (r, w), evs)
  | _, _ =>
      match evs with
      | [] => (Err stopped, [])
      | CtlQuiet :: evs => (Err (add_context "BLE characteristic pairing timed out" elapsed), evs)
      | CtlWrite (Err e) :: evs => (Err e, evs)
      | CtlWrite (Ok (a, r)) :: evs => pair_loop peer (if bool_decide (a = peer) then Some r else rd) wr evs
      | CtlNotify a w :: evs => pair_loop peer rd (if bool_decide (a = peer) then Some w else wr) evs
      end
  end.

Definition next_timer (sv : Server) : option nat * Server :=
  match sv_timers sv with
  | [] => (None, sv)
  | t :: l => (t, mkServer (sv_world sv) (sv_active sv) (sv_taken sv) (sv_removed sv) l)
  end.
Definition take_peer (peer : Z) (sv : Server) : Server :=
  mkServer (sv_world sv) (Some peer) (sv_taken sv ++ [peer]) (sv_removed sv) (sv_timers sv).
Definition drop_peer (peer : Z) (w : World) (sv : Server) : Server :=
  mkServer w None (sv_taken sv) (sv_removed sv ++ [peer]) (sv_timers sv).

(** Whether the loop breaks after an exchange that ended in [r]. *)
Definition exchange_done (r : result unit) (s : Sess) : bool :=
  if s_fired s then s_installed s else is_ok r.

Section loop.
Context (key : SecretKey) (controller agent : PublicKey) (output : string).

(** One iteration, from the first half on: [true] breaks the loop. *)
Definition serve_attempt (peer : Z) (rd : option reader) (wr : option writer) (evs : list ctl_event)
    (sv : Server) : bool * list ctl_event * Server :=
  let sv := take_peer peer sv in
  match pair_loop peer rd wr evs with
  | (Err _, evs) => (false, evs, drop_peer peer (sv_world sv) sv)
  | (Ok (r, w), evs) =>
      let '(timer, sv) := next_timer sv in
      let '(res, s) := serve_exchange key controller agent output
                         (mkSess r w timer false (sv_world sv) false) in
      (exchange_done res s, evs, drop_peer peer (s_world s) sv)
  end.

Fixpoint serve_loop (fuel : nat) (evs : list ctl_event) (sv : Server) : result unit * Server :=
  match fuel with
  | O => (Err (anyhow "out of fuel"), sv)
  | S fuel =>
      let first peer rd wr evs :=
        let '(brk, evs, sv) := serve_attempt peer rd wr evs sv in
        if (brk : bool) then (Ok tt, sv) else serve_loop fuel evs sv in
      match next_control evs with
      | [] => (Err stopped, sv)
      | CtlWrite (Err e) :: _ => (Err e, sv)
      | CtlWrite (Ok (peer, r)) :: evs => first peer (Some r) None evs
      | CtlNotify peer w :: evs => first peer None (Some w) evs
      | CtlQuiet :: _ => (Err stopped, sv)
      end
  end.

(** [advertise] and [serve_gatt] are what the adapter answers to what it is asked
    to announce and to serve.  Every iteration uses up an event, so the number of
    events is enough fuel. *)
Definition serve_on_adapter (advertise : Advertisement → result unit) (serve_gatt : list GattService → result unit)
    (evs : list ctl_event) (sv : Server) : result unit * Server :=
  match advertisement agent with
  | Err e => (Err e, sv)
  | Ok adv =>
      match advertise adv with
      | Err e => (Err e, sv)
      | Ok _ =>
          match serve_gatt application with
          | Err e => (Err e, sv)
          | Ok _ => serve_loop (S (length evs)) evs sv
          end
      end
  end.
End loop.
End ble.

(** ** Installing the credential file *)

Definition out_path (output : string) : path := parse_path output.
Definition tmp_path (output : string) (w : World) : path := parse_path (install_tmp output (pid w)).

Lemma install_tmp_ne output n : parse_path (install_tmp output n) ≠ parse_path output.
Proof. apply parse_path_extend; [|cbn; lia]. apply (bool_decide_eq_false (SLASH ∈ as_bytes ".ble.tmp.")). done. Qed.

Lemma fs_remove_file_spec p w r w' :
  fs_remove_file p w = (r, w') → later w w' ∧ (fs w' = fs w ∨ (r = Ok tt ∧ fs w' = delete p (fs w))).
Proof.
  unfold fs_remove_file.
  destruct (syscall_cases (do_remove_file p) w) as [(f & w1 & -> & Hfs & Hl & _)|(w1 & -> & Hfs & Hl)].
  { intros; simplify_eq/=. auto. }
  unfold do_remove_file. intros E. repeat case_hyp E; simplify_eq/=; rewrite ?Hfs; split; auto;
    (etrans; [exact Hl|apply later_set_fs]).
Qed.

(** The target gets everything or stays; the side file stays only where its
    removal failed as well. *)
Lemma install_spec output b w r w' :
  install output b w = (r, w') →
  later w w' ∧ (∀ q, q ≠ out_path output → q ≠ tmp_path output w → fs w' !! q = fs w !! q) ∧
  (r = Ok tt → fs w' !! out_path output = Some (NFile (mkFile b (Z.ldiff o600 (umask w)))) ∧
               fs w' !! tmp_path output w = None) ∧
  (is_err r = true → fs w' !! out_path output = fs w !! out_path output).
Proof.
  pose proof (install_tmp_ne output (pid w)) as Hne.
  unfold install. unfold mbind at 1, M_bind at 1, gets. fold (tmp_path output w) (out_path output).
  fold (tmp_path output w) (out_path output) in Hne. set (tmp := tmp_path output w) in *.
  unfold mbind at 1, M_bind at 1, with_context at 1.
  destruct (fs_create_new tmp o600 w) as [r1 w1] eqn:Ec.
  apply fs_create_new_spec in Ec as (Hl1 & [[He Hfs]|(-> & Hnone & Hfs)]).
  { destruct r1; [done|]. intros; simplify_eq/=. by rewrite Hfs. }
  remember (Z.ldiff o600 (umask w)) as md eqn:Emd. clear Emd. simpl. unfold mbind at 1, M_bind at 1, attempt.
  destruct (publish "writing BLE credentials" "flushing BLE credentials" ("installing " +:+ output)
    tmp (out_path output) b w1) as [r2 w2] eqn:Hpub.
  pose proof Hpub as Hrun. unfold publish in Hrun. rewrite Hrun. clear Hrun.
  apply (publish_spec _ _ _ _ _ _ md) in Hpub as (Hl & Hq & Hok & Herr);
    [|done|by rewrite Hfs, lookup_insert_eq].
  assert (Hrest : ∀ q, q ≠ out_path output → q ≠ tmp → fs w2 !! q = fs w !! q).
  { intros q Hq1 Hq2. by rewrite Hq, Hfs, lookup_insert_ne. }
  destruct r2 as [[]|e]; simpl.
  - unfold mret, M_ret. intros; simplify_eq/=. split_and!; [by etrans|done|by intros _; apply Hok|done].
  - unfold mbind, M_bind, ignore, fail. simpl. destruct (fs_remove_file tmp w2) as [r3 w3] eqn:Erm.
    destruct (Herr eq_refl) as [Hout _].
    apply fs_remove_file_spec in Erm as (Hl3 & [Hf|[_ Hf]]); intros; simplify_eq/=; rewrite Hf.
    + split_and!; [by rewrite Hl1, Hl|done|done|]. intros _. by rewrite Hout, Hfs, lookup_insert_ne.
    + split_and!; [by rewrite Hl1, Hl| |done|].
      * intros q Hq1 Hq2. rewrite lookup_delete_ne by done. auto.
      * intros _. by rewrite lookup_delete_ne, Hout, Hfs, lookup_insert_ne.
Qed.

(** ** What an operation leaves alone *)

(** The world but for the entropy it draws, and the [installed] flag. *)
Definition keeps {A} (m : M Sess A) : Prop := ∀ s,
  fs (s_world (m s).2) = fs (s_world s) ∧ pid (s_world (m s).2) = pid (s_world s) ∧
  umask (s_world (m s).2) = umask (s_world s) ∧ s_installed (m s).2 = s_installed s ∧
  rng (s_world (m s).2) `suffix_of` rng (s_world s).

Lemma keeps_bind {A B} (m : M Sess A) (k : A → M Sess B) : keeps m → (∀ a, keeps (k a)) → keeps (m ≫= k).
Proof.
  intros Hm Hk s. unfold mbind, M_bind. specialize (Hm s). destruct (m s) as [[a|e] s1]; [|done].
  simpl in *. destruct Hm as (E1 & E2 & E3 & E4 & E5), (Hk a s1) as (F1 & F2 & F3 & F4 & F5).
  split_and!; [congruence..|by etrans].
Qed.
Lemma keeps_awaiting {A} (m : M Sess A) : keeps m → keeps (awaiting m).
Proof.
  intros Hm s. unfold awaiting. destruct (s_fired s); [done|]. destruct (s_timer s) as [[|n]|]; [done| |apply Hm].
  apply (Hm (set_timer (Some n) s)).
Qed.
Lemma keeps_on_rd {A} (m : M reader A) : keeps (on_rd m).
Proof. intros s. unfold on_rd. by destruct (m (s_rd s)). Qed.
Lemma keeps_on_wr {A} (m : M writer A) : keeps (on_wr m).
Proof. intros s. unfold on_wr. by destruct (m (s_wr s)). Qed.
Lemma keeps_lift {A} (r : result A) : keeps (lift r).
Proof. by intros s. Qed.
Lemma keeps_ensure b msg : keeps (ensure b msg).
Proof. intros s. unfold ensure. by destruct b. Qed.
Lemma keeps_ret {A} (a : A) : keeps (mret a).
Proof. by intros s. Qed.
Lemma keeps_getrandom n : keeps (on_os (getrandom n)).
Proof.
  intros s. unfold on_os. destruct (getrandom n (s_world s)) as [r w'] eqn:E.
  apply getrandom_spec in E as (Hf & _ & Hl & _). simpl. split_and!; [done|apply Hl|apply Hl|done|apply Hl].
Qed.
Lemma keeps_ignore {A} (m : M Sess A) : keeps m → keeps (ignore m).
Proof. intros Hm s. apply Hm. Qed.
#[local] Hint Resolve keeps_bind keeps_awaiting keeps_on_rd keeps_on_wr keeps_lift keeps_ensure keeps_ret
  keeps_getrandom keeps_ignore : core.
Lemma keeps_write_frame b : keeps (write_frame b).
Proof. unfold write_frame. eauto 10. Qed.
Lemma keeps_read_frame : keeps read_frame.
Proof. unfold read_frame. eauto 10. Qed.
#[local] Hint Resolve keeps_write_frame keeps_read_frame : core.

Lemma keeps_provision_exchange `{IrohKeys} `{Sha256} `{BleCrypto} controller_key agent conf :
  keeps (provision_exchange controller_key agent conf).
Proof. unfold provision_exchange. eauto 20. Qed.

(** What a read consumes, whatever the stream does. *)
Definition frame (b : bytes) : bytes := be_bytes 4 (zlen b) ++ b.

Lemma awaiting_ok {A} (m : M Sess A) s a s' :
  awaiting m s = (Ok a, s') → ∃ t, m (set_timer t s) = (Ok a, s').
Proof.
  unfold awaiting. destruct (s_fired s); [done|]. destruct (s_timer s) as [[|n]|] eqn:Et; [done|by eexists|].
  intros E. exists None. unfold set_timer. rewrite <- Et. by destruct s.
Qed.
Lemma await_read_ok n s b s' :
  awaiting (on_rd (read_exact n)) s = (Ok b, s') → length b = n ∧ rd_bytes (s_rd s) = b ++ rd_bytes (s_rd s').
Proof.
  intros [t E]%awaiting_ok. revert E. unfold on_rd. simpl.
  destruct (read_exact n (s_rd s)) as [r rd] eqn:E. intros; simplify_eq. by apply read_exact_shrinks in E.
Qed.
Lemma read_frame_ok s b s' :
  read_frame s = (Ok b, s') → rd_bytes (s_rd s) = frame b ++ rd_bytes (s_rd s').
Proof.
  unfold read_frame. intros (h & s1 & [Hh E1]%await_read_ok & E)%Prelude.bind_ok.
  apply Prelude.bind_ok in E as (z & s2 & E2 & [Hb E3]%await_read_ok).
  assert (s2 = s1) as -> by (revert E2; unfold lift; by intros [= _ <-]).
  rewrite E1, E3, app_assoc. f_equal. unfold frame. f_equal.
  pose proof (be_value_range h) as Hr. rewrite Hh in Hr.
  apply be_value_inj; [by rewrite Hh, length_be_bytes|]. unfold zlen. rewrite Hb, Z2Nat.id by lia.
  by rewrite be_value_bytes.
Qed.
Lemma write_frame_still b s : s_rd (write_frame b s).2 = s_rd s.
Proof.
  assert (Hw : ∀ A (m : M writer A) s, s_rd (awaiting (on_wr m) s).2 = s_rd s).
  { intros A m s0. unfold awaiting, on_wr. destruct (s_fired s0); [done|].
    destruct (s_timer s0) as [[|n]|]; simpl; [done| |]; by destruct (m (s_wr s0)). }
  unfold write_frame, mbind, M_bind, lift. destruct (frame_size (zlen b)); [|done].
  destruct (awaiting _ s) as [[[]|e] s1] eqn:E1; apply (f_equal (s_rd ∘ snd)) in E1; simpl in E1; rewrite Hw in E1; [|done].
  rewrite E1. destruct (awaiting _ s1) as [[[]|e] s2] eqn:E2; apply (f_equal (s_rd ∘ snd)) in E2; simpl in E2; rewrite Hw in E2; [|done].
  rewrite E2. by rewrite Hw.
Qed.
(** What was drawn from the system. *)
Definition drawn (entropy : list (result bytes)) (n : nat) (b : bytes) : Prop :=
  ∃ x, Ok x ∈ entropy ∧ b = take n (x ++ replicate n x00).
Lemma getrandom_drawn n w b w' : getrandom n w = (Ok b, w') → drawn (rng w) n b.
Proof.
  unfold getrandom. destruct (rng w) as [|[x|e] l] eqn:E; intros; simplify_eq. exists x. split; [by left|done].
Qed.
Lemma drawn_suffix e1 e2 n b : e1 `suffix_of` e2 → drawn e1 n b → drawn e2 n b.
Proof. intros [k ->] (x & Hx & ->). exists x. split; [set_solver|done]. Qed.

Section safety.
Context `{IrohKeys} `{Sha256} `{BleCryptoLaws}.
Context (key : SecretKey) (controller agent : PublicKey) (output : string).

(** [conf] came from the holder of the controller's key: in the bytes received
    from one peer, [input], the start marker is followed by a request whose
    claimed node id is the controller's, whose signature binds both parties and
    both ephemeral keys of this very exchange (the agent's own drawn from the
    system's [entropy]), and whose ciphertext authenticates under the key derived
    from the exchange's transcript. *)
Definition authorised (entropy : list (result bytes)) (input conf : bytes) : Prop :=
  ∃ secret head ephemeral signature cipher rest,
    let hello := server_hello key controller (x_public secret) in
    let transcript := hello ++ head ++ ephemeral ++ signature in
    drawn entropy 32 secret ∧
    input = [START] ++ frame ((head ++ ephemeral ++ signature) ++ cipher) ++ rest ∧
    pk_from_bytes head = Ok controller ∧ length ephemeral = 32%nat ∧
    pk_verify controller
      (identity_message CLIENT_LABEL controller agent [x_public secret; ephemeral]) signature = Ok tt ∧
    decrypt (session_key (x_dh secret ephemeral) transcript) 0 transcript cipher = Ok conf ∧
    conf ≠ [].

(** The credential file holds a configuration authorised by one of the [inputs],
    private to root. *)
Definition provisioned (entropy : list (result bytes)) (inputs : list bytes) (w : World) : Prop :=
  ∃ input conf, input ∈ inputs ∧ authorised entropy input conf ∧
    fs w !! out_path output = Some (NFile (mkFile conf (Z.ldiff o600 (umask w)))).

Lemma slices_128 (b : bytes) : (128 ≤ length b)%nat →
  take 128 b = slice 0 32 b ++ slice 32 64 b ++ slice 64 128 b.
Proof.
  intros Hb. unfold slice. simpl.
  rewrite <- (take_drop 32 (take 128 b)), take_take. f_equal.
  rewrite skipn_firstn_comm. simpl. rewrite <- (take_drop 32 (take 96 (drop 32 b))), take_take. f_equal.
  by rewrite skipn_firstn_comm, drop_drop.
Qed.

Lemma verify_client_hello_ok b eph ce :
  verify_client_hello b controller agent eph = Ok ce →
  (128 ≤ length b)%nat ∧ pk_from_bytes (slice 0 32 b) = Ok controller ∧ ce = slice 32 64 b ∧
  length ce = 32%nat ∧
  pk_verify controller (identity_message CLIENT_LABEL controller agent [eph; ce]) (slice 64 128 b) = Ok tt.
Proof.
  unfold verify_client_hello. case_bool_decide as Hl; [done|]. unfold context.
  destruct (pk_from_bytes (slice 0 32 b)) as [c|]; [|done]. destruct (decide (c = controller)) as [->|].
  2:{ by rewrite bool_decide_false. }
  rewrite bool_decide_true by done. simpl.
  destruct (pk_verify _ _ _) as [[]|] eqn:Ev; [|done]. intros [= <-]. split_and!; try done; [lia|].
  unfold slice. rewrite length_take, length_drop. lia.
Qed.

Section run.
Context (entropy : list (result bytes)) (inputs : list bytes).
Abbreviation provisioned_ w := (provisioned entropy inputs w).

(** [w'] is [w] with possibly an authorised credential file, and no other file
    touched but the side file. *)
Definition only_credentials (w w' : World) : Prop :=
  pid w' = pid w ∧ umask w' = umask w ∧ rng w' `suffix_of` rng w ∧
  (∀ q, q ≠ out_path output → q ≠ tmp_path output w → fs w' !! q = fs w !! q) ∧
  (fs w' !! out_path output = fs w !! out_path output ∨ provisioned_ w').

Lemma only_credentials_trans w1 w2 w3 :
  only_credentials w1 w2 → only_credentials w2 w3 → only_credentials w1 w3.
Proof.
  intros (P1 & U1 & R1 & Q1 & O1) (P2 & U2 & R2 & Q2 & O2). unfold only_credentials.
  assert (tmp_path output w2 = tmp_path output w1) as Ht by (unfold tmp_path; by rewrite P1).
  rewrite Ht in Q2. split_and!; [congruence..|by etrans| |].
  - intros q Hq1 Hq2. by rewrite Q2, Q1.
  - destruct O2 as [O2|O2]; [|by right]. rewrite O2. destruct O1 as [O1|O1]; [by left|right].
    destruct O1 as (input & conf & Hi & Ha & Hf). exists input, conf. split_and!; [done..|]. by rewrite O2, U2.
Qed.

Definition kept (w : World) (b : bool) (s : Sess) : Prop :=
  fs (s_world s) = fs w ∧ pid (s_world s) = pid w ∧ umask (s_world s) = umask w ∧ s_installed s = b ∧
  rng (s_world s) `suffix_of` rng w.
(** The same, with [input] still to be read. *)
Definition at_input (w : World) (input : bytes) (s : Sess) : Prop := kept w false s ∧ rd_bytes (s_rd s) = input.

Lemma kept_only w b s : kept w b s → only_credentials w (s_world s).
Proof. intros (E1 & E2 & E3 & _ & E5). unfold only_credentials. rewrite E1, E2, E3. auto 10. Qed.
Lemma only_credentials_refl w : only_credentials w w.
Proof. unfold only_credentials. auto 10. Qed.

(** A step that leaves the files alone, in front of the rest; [F] relates its
    value to what is left of the input. *)
Lemma at_bind {A B} (F : A → bytes → Prop) (m : M Sess A) (k : A → M Sess B) w input Q :
  keeps m →
  (∀ s a s', m s = (Ok a, s') → rng (s_world s) `suffix_of` rng w → rd_bytes (s_rd s) = input → F a (rd_bytes (s_rd s'))) →
  (∀ e s, kept w false s → Q (Err e) s) → (∀ a rest, F a rest → triple (at_input w rest) (k a) Q) →
  triple (at_input w input) (m ≫= k) Q.
Proof.
  intros Hm HF He Hk s [(G1 & G2 & G3 & G4 & G5) Hin]. destruct (Hm s) as (E1 & E2 & E3 & E4 & E5).
  unfold mbind, M_bind. specialize (HF s). destruct (m s) as [[a|e] s1]; simpl in *.
  - apply (Hk a (rd_bytes (s_rd s1))); [by apply HF|]. unfold at_input, kept. rewrite E1, E2, E3, E4. split_and!; try done. by etrans.
  - apply He. unfold kept. rewrite E1, E2, E3, E4. split_and!; try done. by etrans.
Qed.
(** A pure step: the rest may use its value. *)
Lemma lift_bind {A B} (r : result A) (k : A → M Sess B) P Q :
  (∀ e s, P s → Q (Err e) s) → (∀ a, r = Ok a → triple P (k a) Q) → triple P (lift r ≫= k) Q.
Proof.
  intros He Hk s Hs. unfold mbind, M_bind, lift. destruct r as [a|e]; [by apply Hk|by apply He].
Qed.
Lemma ensure_bind {B} b msg (k : M Sess B) P Q :
  (∀ e s, P s → Q (Err e) s) → (b = true → triple P k Q) → triple P (ensure b msg;; k) Q.
Proof.
  intros He Hk s Hs. unfold mbind, M_bind, ensure. destruct b; [by apply Hk|by apply He].
Qed.

(** Whatever arrives and whatever fails: nothing happens to the files unless
    the [installed] flag is set, and then the file is authorised. *)
Definition exchange_post (w : World) (r : result unit) (s : Sess) : Prop :=
  only_credentials w (s_world s) ∧
  (if s_installed s then provisioned_ (s_world s) ∧ (s_fired s = false → r = Ok tt)
   else fs (s_world s) !! out_path output = fs w !! out_path output ∧ is_err r = true).

Lemma exchange_post_err w e s : kept w false s → exchange_post w (Err e) s.
Proof.
  intros Hk. split; [by eapply kept_only|]. destruct Hk as (E1 & _ & _ & -> & _). by rewrite E1.
Qed.

(** From the decrypted configuration on. *)
Lemma install_stage w input rest conf (tail : M Sess unit) :
  input ∈ inputs → authorised entropy input conf → keeps tail →
  (∀ s, s_fired (tail s).2 = false → (tail s).1 = Ok tt) →
  triple (at_input w rest) (on_os (install output conf);; mark_installed;; tail) (exchange_post w).
Proof.
  intros Hin Ha Hkeep Htail s [Hk _]. destruct (install output conf (s_world s)) as [r w'] eqn:Ei.
  set (s1 := mkSess (s_rd s) (s_wr s) (s_timer s) (s_fired s) w' (s_installed s)).
  set (s2 := mkSess (s_rd s) (s_wr s) (s_timer s) (s_fired s) w' true).
  assert ((on_os (install output conf);; mark_installed;; tail) s =
    match r with Ok _ => tail s2 | Err e => (Err e, s1) end) as ->.
  { unfold mbind, M_bind, on_os. rewrite Ei. by destruct r. }
  apply install_spec in Ei as (Hl & Hq & Hok & Herr). destruct Hk as (E1 & E2 & E3 & E4 & E5).
  assert (Hg : rng w' `suffix_of` rng w) by (etrans; [apply Hl|done]).
  assert (Hu : umask w' = umask w) by (rewrite <- E3; apply Hl).
  assert (Hp : pid w' = pid w) by (rewrite <- E2; apply Hl).
  assert (Ht : tmp_path output (s_world s) = tmp_path output w) by (unfold tmp_path; by rewrite E2).
  rewrite Ht, E1 in Hq. destruct r as [[]|e].
  - assert (Hprov : provisioned_ w').
    { exists input, conf. split_and!; [done..|]. rewrite Hu, <- E3. by apply Hok. }
    destruct (Hkeep s2) as (K1 & K2 & K3 & K4 & K5).
    unfold exchange_post. rewrite K4. simpl in K1, K2, K3, K5 |- *.
    assert (Hprov2 : ∀ w2, fs w2 = fs w' → umask w2 = umask w' → provisioned_ w2).
    { intros w2 F1 F2. destruct Hprov as (i & c & ? & ? & ?). exists i, c. by rewrite F1, F2. }
    split; [|split; [by apply Hprov2|apply Htail]].
    split_and!; [congruence|congruence|by etrans| |right; by apply Hprov2].
    intros q Hq1 Hq2. rewrite K1. by apply Hq.
  - unfold exchange_post. simpl. rewrite E4. specialize (Herr eq_refl). rewrite E1 in Herr.
    unfold only_credentials. auto 10.
Qed.

Lemma acknowledge_total k transcript s :
  let tail := (ack ← lift (crypt k 1 transcript (as_bytes "ok")); ignore (write_frame ack);; awaiting (mret tt)) in
  s_fired (tail s).2 = false → (tail s).1 = Ok tt.
Proof.
  unfold crypt. destruct (aead_correct k (nonce 1) transcript (as_bytes "ok")) as (c & -> & _ & _).
  { by vm_compute. }
  unfold mbind, M_bind, lift, ignore, awaiting. simpl. set (s1 := (write_frame c s).2).
  destruct (s_fired s1) eqn:Ef; simpl; [congruence|]. by destruct (s_timer s1) as [[|n]|].
Qed.

Lemma serve_exchange_safe w input :
  input ∈ inputs → rng w `suffix_of` entropy →
  triple (at_input w input) (serve_exchange key controller agent output) (exchange_post w).
Proof.
  intros Hin Hent.
  assert (He : ∀ e s, kept w false s → exchange_post w (Err e) s) by (intros; by eapply exchange_post_err).
  unfold serve_exchange.
  eapply (at_bind (λ a rest, input = a ++ rest)); [eauto| |done|intros start r1 E1].
  { intros s a s' [_ E]%await_read_ok _ <-. done. }
  apply ensure_bind; [by intros e s [? _]; apply He|intros Hst%bool_decide_eq_true].
  eapply (at_bind (λ a rest, rest = r1 ∧ drawn entropy 32 a)); [eauto| |done|intros secret ? [-> Hd]].
  { intros s a s'. unfold on_os. destruct (getrandom 32 (s_world s)) as [x w'] eqn:Eg. intros [= -> <-] Hs Hr.
    split; [done|]. eapply drawn_suffix; [|by eapply getrandom_drawn]. by etrans. }
  eapply (at_bind (λ _ rest, rest = r1)); [eauto| |done|intros [] ? ->].
  { intros s a s' E _ <-. by rewrite <- (write_frame_still (server_hello key controller (x_public secret)) s), E. }
  eapply (at_bind (λ a rest, r1 = frame a ++ rest)); [eauto| |done|intros request r2 E2].
  { intros s a s' E%read_frame_ok _ <-. done. }
  apply lift_bind; [by intros e s [? _]; apply He|intros ce Hv].
  apply lift_bind; [by intros e s [? _]; apply He|intros conf Hc].
  apply ensure_bind; [by intros e s [? _]; apply He|intros Hne].
  apply (install_stage w input); [done| |eauto 10|apply acknowledge_total].
  apply verify_client_hello_ok in Hv as (Hlen & Hid & Hce & Hl & Hsig).
  apply negb_true_iff, bool_decide_eq_false in Hne.
  exists secret, (slice 0 32 request), ce, (slice 64 128 request), (drop 128 request), r2.
  rewrite slices_128 in Hc by done. rewrite <- Hce in Hc. split_and!; try done.
  rewrite E1, Hst, E2. do 2 f_equal. rewrite Hce, <- slices_128 by done. by rewrite take_drop.
Qed.

(** ** The loop *)

Lemma pair_loop_length peer rd wr evs : (length (pair_loop peer rd wr evs).2 ≤ length evs)%nat.
Proof.
  revert rd wr. induction evs as [|ev evs IH]; intros rd wr; destruct rd, wr; simpl; try lia;
    destruct ev as [[[a x]|e]|a x|]; simpl; try lia; etrans; try apply IH; lia.
Qed.
Lemma next_control_length evs : (length (next_control evs) ≤ length evs)%nat.
Proof. induction evs as [|[] evs IH]; simpl; lia. Qed.
Lemma next_control_head evs evs' : next_control evs ≠ CtlQuiet :: evs'.
Proof. induction evs as [|[] evs IH]; by simpl. Qed.

Lemma serve_attempt_length peer rd wr evs sv :
  (length (serve_attempt key controller agent output peer rd wr evs sv).1.2 ≤ length evs)%nat.
Proof.
  unfold serve_attempt. pose proof (pair_loop_length peer rd wr evs) as Hlen.
  destruct (pair_loop peer rd wr evs) as [[[r w]|e] evs1]; [|done].
  destruct (next_timer _) as [t sv1]. by destruct (serve_exchange _ _ _ _ _).
Qed.

(** What the peers of the events send. *)
Definition received (evs : list ctl_event) : list bytes :=
  omap (λ ev, match ev with CtlWrite (Ok (_, r)) => Some (rd_bytes r) | _ => None end) evs.
Definition from_inputs (rd : option reader) : Prop := ∀ r, rd = Some r → rd_bytes r ∈ inputs.

Lemma received_cons ev evs : received (ev :: evs) ⊆ inputs → received evs ⊆ inputs.
Proof. unfold received. simpl. destruct ev as [[[]|]| |]; set_solver. Qed.
Lemma received_next evs : received evs ⊆ inputs → received (next_control evs) ⊆ inputs.
Proof. induction evs as [|[]]; simpl; auto. Qed.
Lemma received_first a r evs : received (CtlWrite (Ok (a, r)) :: evs) ⊆ inputs → from_inputs (Some r).
Proof. intros Hs x [= <-]. apply Hs. unfold received. simpl. by left. Qed.

Lemma pair_loop_inputs peer rd wr evs :
  from_inputs rd → received evs ⊆ inputs →
  received (pair_loop peer rd wr evs).2 ⊆ inputs ∧
  ∀ r w, (pair_loop peer rd wr evs).1 = Ok (r, w) → rd_bytes r ∈ inputs.
Proof.
  revert rd wr. induction evs as [|ev evs IH]; intros rd wr Hrd Hs.
  { destruct rd as [r|], wr; simpl; (split; [done|]); intros ? ? [=]; subst; by apply Hrd. }
  apply received_cons in Hs as Hs'.
  assert (Hstep : ∀ rd' wr', from_inputs rd' →
    received (pair_loop peer rd' wr' evs).2 ⊆ inputs ∧
    ∀ r w, (pair_loop peer rd' wr' evs).1 = Ok (r, w) → rd_bytes r ∈ inputs) by auto.
  assert (Hnew : ∀ a x, ev = CtlWrite (Ok (a, x)) → from_inputs (if bool_decide (a = peer) then Some x else rd)).
  { intros a x ->. case_bool_decide; [by eapply received_first|done]. }
  destruct rd as [r|], wr as [w|]; simpl; destruct ev as [[[a x]|e]|a x|]; simpl; auto;
    (split; [done|]); intros ? ? [=]; subst; by apply Hrd.
Qed.

Lemma serve_attempt_spec peer rd wr evs sv brk evs' sv' :
  from_inputs rd → received evs ⊆ inputs → rng (sv_world sv) `suffix_of` entropy →
  serve_attempt key controller agent output peer rd wr evs sv = (brk, evs', sv') →
  only_credentials (sv_world sv) (sv_world sv') ∧ (length evs' ≤ length evs)%nat ∧ received evs' ⊆ inputs ∧
  sv_active sv' = None ∧
  if brk then provisioned_ (sv_world sv')
  else fs (sv_world sv') !! out_path output = fs (sv_world sv) !! out_path output.
Proof.
  intros Hrd Hevs Hent. unfold serve_attempt. pose proof (pair_loop_length peer rd wr evs) as Hlen.
  destruct (pair_loop_inputs peer rd wr evs) as [Hevs' Hin]; [done..|].
  destruct (pair_loop peer rd wr evs) as [[[r w]|e] evs1]; simpl in Hlen, Hevs', Hin.
  2:{ intros; simplify_eq/=. split_and!; [apply only_credentials_refl|done..]. }
  destruct (next_timer (take_peer peer sv)) as [timer sv1] eqn:Et.
  assert (sv_world sv1 = sv_world sv) as Hw.
  { unfold next_timer in Et. destruct (sv_timers (take_peer peer sv)); by simplify_eq/=. }
  set (s0 := mkSess r w timer false (sv_world sv1) false).
  pose proof (serve_exchange_safe (sv_world sv) (rd_bytes r) (Hin _ _ eq_refl) Hent s0) as Hs.
  destruct (serve_exchange key controller agent output s0) as [res s]. intros; simplify_eq/=.
  destruct Hs as [Ho Hi]; [unfold at_input, kept, s0; simpl; by rewrite Hw|]. simpl in *.
  split_and!; [done..|]. unfold exchange_done.
  destruct (s_installed s).
  - destruct Hi as [Hp Hr]. destruct (s_fired s); [done|]. by rewrite Hr.
  - destruct Hi as [Hf He]. destruct (s_fired s); [done|]. unfold is_err in He. by destruct (is_ok res).
Qed.

Lemma serve_loop_spec fuel evs sv r sv' :
  received evs ⊆ inputs → rng (sv_world sv) `suffix_of` entropy →
  serve_loop key controller agent output fuel evs sv = (r, sv') →
  only_credentials (sv_world sv) (sv_world sv') ∧ (sv_active sv = None → sv_active sv' = None) ∧
  if is_ok r then provisioned_ (sv_world sv')
  else fs (sv_world sv') !! out_path output = fs (sv_world sv) !! out_path output.
Proof.
  revert evs sv. induction fuel as [|fuel IH]; intros evs sv Hevs Hent; cbn [serve_loop].
  { intros; simplify_eq/=. split_and!; [apply only_credentials_refl|done..]. }
  assert (Hgo : ∀ peer rd wr evs1, from_inputs rd → received evs1 ⊆ inputs →
    (let '(brk, evs2, sv1) := serve_attempt key controller agent output peer rd wr evs1 sv in
      if (brk : bool) then (Ok tt, sv1) else serve_loop key controller agent output fuel evs2 sv1) = (r, sv') →
    only_credentials (sv_world sv) (sv_world sv') ∧ (sv_active sv = None → sv_active sv' = None) ∧
    if is_ok r then provisioned_ (sv_world sv')
    else fs (sv_world sv') !! out_path output = fs (sv_world sv) !! out_path output).
  { intros peer rd wr evs1 Hrd Hevs1. destruct (serve_attempt _ _ _ _ peer rd wr evs1 sv) as [[brk evs2] sv1] eqn:Ea.
    apply serve_attempt_spec in Ea as (Ho & _ & Hevs2 & Hact & Hb); [|done..]. destruct brk; [by intros; simplify_eq/=|].
    intros E. apply IH in E as (Ho2 & Hact2 & Hr); [|done|by etrans; [apply Ho|]].
    split_and!; [by eapply only_credentials_trans|auto|]. destruct (is_ok r); [done|]. by rewrite Hr. }
  pose proof (received_next evs Hevs) as Hnext.
  destruct (next_control evs) as [|[[[peer x]|e]|peer x|] evs1].
  2:{ apply Hgo; [by eapply received_first|by eapply received_cons]. }
  3:{ apply Hgo; [done|by eapply received_cons]. }
  all: intros; simplify_eq/=; (split_and!; [apply only_credentials_refl|done..]).
Qed.
End run.

(** *** Peers come and go *)

(** Who opened a half of the characteristic. *)
Definition opened (evs : list ctl_event) : list Z :=
  omap (λ ev, match ev with CtlWrite (Ok (p, _)) | CtlNotify p _ => Some p | _ => None end) evs.
Lemma opened_suffix evs evs' : evs `suffix_of` evs' → opened evs ⊆ opened evs'.
Proof. intros [k ->]. unfold opened. rewrite omap_app. set_solver. Qed.
Lemma next_control_suffix evs : next_control evs `suffix_of` evs.
Proof. induction evs as [|[] evs IH]; simpl; try done. by apply suffix_cons_r. Qed.
Lemma pair_loop_suffix peer rd wr evs : (pair_loop peer rd wr evs).2 `suffix_of` evs.
Proof.
  revert rd wr. induction evs as [|ev evs IH]; intros rd wr; destruct rd, wr; simpl; try done;
    destruct ev as [[[a x]|e]|a x|]; simpl; apply suffix_cons_r; done || apply IH.
Qed.
(** A peer that was taken has been let go by the end of its turn. *)
Definition let_go (who : list Z) (sv sv' : Server) : Prop :=
  ∃ new, sv_taken sv' = sv_taken sv ++ new ∧ sv_removed sv' = sv_removed sv ++ new ∧ new ⊆ who.
Lemma serve_attempt_let_go peer rd wr evs sv :
  let '(_, evs', sv') := serve_attempt key controller agent output peer rd wr evs sv in
  evs' `suffix_of` evs ∧ let_go [peer] sv sv'.
Proof.
  unfold serve_attempt. pose proof (pair_loop_suffix peer rd wr evs) as Hs.
  destruct (pair_loop peer rd wr evs) as [[[r w]|e] evs1]; simpl in Hs; [|split; [done|by exists [peer]]].
  unfold next_timer. destruct (sv_timers (take_peer peer sv)) as [|t l];
    destruct (serve_exchange _ _ _ _ _) as [res s]; (split; [done|by exists [peer]]).
Qed.
Lemma serve_loop_let_go fuel evs sv :
  let_go (opened evs) sv (serve_loop key controller agent output fuel evs sv).2.
Proof.
  assert (Hrefl : ∀ who sv0, let_go who sv0 sv0) by (intros; exists []; rewrite !app_nil_r; split_and!; [done..|set_solver]).
  revert evs sv. induction fuel as [|fuel IH]; intros evs sv; cbn [serve_loop]; [apply Hrefl|].
  assert (Hgo : ∀ peer rd wr evs1, peer ∈ opened evs → evs1 `suffix_of` evs →
    let_go (opened evs) sv
      (let '(brk, evs2, sv1) := serve_attempt key controller agent output peer rd wr evs1 sv in
       if (brk : bool) then (Ok tt, sv1) else serve_loop key controller agent output fuel evs2 sv1).2).
  { intros peer rd wr evs1 Hp Hsuf. pose proof (serve_attempt_let_go peer rd wr evs1 sv) as Ha.
    destruct (serve_attempt _ _ _ _ peer rd wr evs1 sv) as [[brk evs2] sv1]. destruct Ha as [Hs2 (n1 & T1 & R1 & S1)].
    destruct brk; simpl; [exists n1; split_and!; [done..|set_solver]|].
    destruct (IH evs2 sv1) as (n2 & T2 & R2 & S2). exists (n1 ++ n2).
    rewrite T2, T1, R2, R1, !app_assoc. split_and!; [done..|].
    pose proof (opened_suffix evs2 evs ltac:(by etrans)). set_solver. }
  pose proof (next_control_suffix evs) as Hn.
  destruct (next_control evs) as [|[[[peer x]|e]|peer x|] evs1]; try apply Hrefl;
    apply Hgo; try (by eapply suffix_cons_l); eapply opened_suffix; try exact Hn; unfold opened; simpl; set_solver.
Qed.

(** Enough fuel is enough: an iteration uses up an event. *)
Lemma serve_loop_fuel fuel evs sv :
  (length evs < fuel)%nat →
  serve_loop key controller agent output fuel evs sv = serve_loop key controller agent output (S (length evs)) evs sv.
Proof.
  assert (Hgen : ∀ n m evs sv, (length evs < n)%nat → (length evs < m)%nat →
    serve_loop key controller agent output n evs sv = serve_loop key controller agent output m evs sv); [|intros; apply Hgen; lia].
  clear fuel evs sv. induction n as [|n IH]; intros m evs sv Hn Hm; [lia|]. destruct m as [|m]; [lia|]. cbn [serve_loop].
  pose proof (next_control_length evs) as Hlen.
  assert (Hgo : ∀ peer rd wr evs1, (length evs1 < n)%nat → (length evs1 < m)%nat →
    (let '(brk, evs2, sv1) := serve_attempt key controller agent output peer rd wr evs1 sv in
      if (brk : bool) then (Ok tt, sv1) else serve_loop key controller agent output n evs2 sv1) =
    (let '(brk, evs2, sv1) := serve_attempt key controller agent output peer rd wr evs1 sv in
      if (brk : bool) then (Ok tt, sv1) else serve_loop key controller agent output m evs2 sv1)).
  { intros peer rd wr evs1 H1n H1m.
    pose proof (serve_attempt_length peer rd wr evs1 sv) as Hl.
    destruct (serve_attempt _ _ _ _ peer rd wr evs1 sv) as [[brk evs2] sv1]. destruct brk; [done|].
    simpl in Hl. apply IH; lia. }
  destruct (next_control evs) as [|[[[peer x]|e]|peer x|] evs1]; try done; apply Hgo; simpl in *; lia.
Qed.
End safety.

(** ** Frames *)

#[local] Arguments write_all : simpl never.
#[local] Arguments flush : simpl never.
#[local] Arguments read_exact : simpl never.
#[local] Arguments be_bytes : simpl never.

(** A session whose timer does not fire. *)
Abbreviation calm r w wd i := (mkSess r w None false wd i).
Definition accepted (w : writer) (b : bytes) : writer := mkWriter (w_out w ++ b) None None false.

Lemma accepted_healthy w b : healthy (accepted w b).
Proof. done. Qed.

Lemma awaiting_wr {A} (m : M writer A) r w wd i :
  awaiting (on_wr m) (calm r w wd i) = (let '(x, w') := m w in (x, calm r w' wd i)).
Proof. done. Qed.

Lemma write_frame_calm b r w wd i :
  zlen b ≤ MAX_FRAME → healthy w →
  write_frame b (calm r w wd i) = (Ok tt, calm r (accepted w (frame b)) wd i).
Proof.
  intros Hb Hw. unfold write_frame, frame_size, mbind, M_bind, lift. rewrite bool_decide_false by lia.
  unfold awaiting, on_wr. simpl. rewrite write_all_healthy by done. simpl.
  unfold accepted, frame. by rewrite <- app_assoc.
Qed.

Lemma read_frame_calm b rest r w wd i :
  zlen b ≤ MAX_FRAME → clean r → rd_bytes r = frame b ++ rest →
  ∃ r', read_frame (calm r w wd i) = (Ok b, calm r' w wd i) ∧ clean r' ∧ rd_bytes r' = rest.
Proof.
  intros Hb Hc Hr. unfold read_frame, mbind, M_bind, awaiting, on_rd. simpl.
  unfold frame in Hr. rewrite <- app_assoc in Hr.
  destruct (read_exact_clean 4 r _ _ Hc Hr) as (r1 & -> & Hc1 & Hr1); [apply length_be_bytes|]. simpl.
  rewrite be_value_bytes by (pose proof (zlen_nonneg b); unfold MAX_FRAME in Hb; simpl; lia).
  unfold frame_size. rewrite bool_decide_false by lia. simpl.
  destruct (read_exact_clean (Z.to_nat (zlen b)) r1 _ _ Hc1 Hr1) as (r2 & -> & ? & ?); [unfold zlen; lia|].
  by exists r2.
Qed.

(** A frame that declares more than the limit is refused before its body is read. *)
Lemma read_frame_oversized r rest size w wd i :
  MAX_FRAME < size ≤ u32_max → clean r → rd_bytes r = be_bytes 4 size ++ rest →
  ∃ e r', read_frame (calm r w wd i) = (Err e, calm r' w wd i) ∧ rd_bytes r' = rest.
Proof.
  intros Hs Hc Hr. unfold read_frame, mbind, M_bind, awaiting, on_rd. simpl.
  destruct (read_exact_clean 4 r _ _ Hc Hr) as (r1 & -> & Hc1 & Hr1); [apply length_be_bytes|]. simpl.
  rewrite be_value_bytes by (unfold MAX_FRAME, u32_max in Hs; simpl; lia).
  unfold frame_size. rewrite bool_decide_true by lia. simpl. by do 2 eexists.
Qed.

(** ** The credential file *)

Lemma has_special_app a b : has_special (a ++ b) = has_special a || has_special b.
Proof. apply existsb_app. Qed.
Lemma has_special_false b x :
  has_special b = false → x ∈ [LF; CR; x00; QUOTE; BACKSLASH] → x ∉ b.
Proof.
  intros Hb Hx Hin. apply not_true_iff_false in Hb. apply Hb, existsb_exists. exists x.
  split; [by apply list_elem_of_In|by apply bool_decide_true].
Qed.
Lemma hex_char_plain b : Forall hex_char b → (LF ∉ b) ∧ (CR ∉ b) ∧ (QUOTE ∉ b).
Proof.
  intros Hb. rewrite Forall_forall in Hb. split_and!; intros Hin; apply Hb in Hin; by vm_compute in Hin; destruct Hin as [[]|[]].
Qed.

(** The key line of an accepted pass phrase. *)
Definition raw_key (p : bytes) : bool := bool_decide (zlen p = 64) && forallb is_ascii_hexdigit p.
Definition psk_line (p : bytes) : bytes :=
  if raw_key p then as_bytes "psk=" ++ p else as_bytes "psk=" ++ [QUOTE] ++ p ++ [QUOTE].

Lemma network_conf_ok ssid psk conf :
  network_conf ssid psk = Ok conf →
  let s := as_bytes ssid in let p := as_bytes psk in
  s ≠ [] ∧ zlen s ≤ 32 ∧ has_special s = false ∧ has_special p = false ∧
  (8 ≤ zlen p ≤ 63 ∨ raw_key p = true) ∧
  as_bytes conf = (as_bytes "network={" ++ [LF]) ++ ((x09 :: as_bytes "ssid=" ++ hex_bytes s) ++ [LF])
    ++ ((x09 :: psk_line p) ++ [LF]) ++ ((x09 :: as_bytes "key_mgmt=WPA-PSK") ++ [LF]) ++ (as_bytes "}" ++ [LF]).
Proof.
  unfold network_conf. cbv zeta. set (s := as_bytes ssid). set (p := as_bytes psk).
  destruct (bool_decide (s = []) || bool_decide (32 < zlen s) || has_special s) eqn:E1; [done|].
  apply orb_false_iff in E1 as [E1 E3]. apply orb_false_iff in E1 as [E1 E2].
  apply bool_decide_eq_false in E1, E2. fold (raw_key p).
  destruct (negb (bool_decide (8 ≤ zlen p ≤ 63) || raw_key p) || has_special p) eqn:E4; [done|].
  apply orb_false_iff in E4 as [E4 E5]. apply negb_false_iff, orb_true_iff in E4. rewrite bool_decide_eq_true in E4.
  fold (psk_line p). intros [= <-]. rewrite as_of_bytes. split_and!; try done; [lia|].
  rewrite <- !app_assoc. done.
Qed.

Lemma psk_line_lines p : has_special p = false → (LF ∉ psk_line p) ∧ (CR ∉ psk_line p).
Proof.
  intros Hp. assert ((LF ∉ p) ∧ (CR ∉ p)) as [H1 H2] by (split; eapply has_special_false; eauto; set_solver).
  unfold psk_line. destruct (raw_key p); rewrite !not_elem_of_app; split_and!; try done;
    apply (bool_decide_eq_false (_ ∈ _)); done.
Qed.
Lemma psk_line_inj p q : has_special p = false → has_special q = false → psk_line p = psk_line q → p = q.
Proof.
  intros Hp Hq. unfold psk_line. destruct (raw_key p) eqn:Ep, (raw_key q) eqn:Eq; intros E; apply app_inv_head in E.
  - done.
  - exfalso. apply (has_special_false p QUOTE) in Hp; [|set_solver]. rewrite E in Hp. set_solver.
  - exfalso. apply (has_special_false q QUOTE) in Hq; [|set_solver]. rewrite <- E in Hq. set_solver.
  - injection E as E. by apply app_inj_tail in E as [-> _].
Qed.

(** ** Both ends together *)

(** The credential file can be put in place. *)
Definition installable (output : string) (w : World) : Prop :=
  faults w = [] ∧ fs w !! tmp_path output w = None ∧ parent_ok w (tmp_path output w) = true ∧
  parent_ok w (out_path output) = true ∧ ∀ m, fs w !! out_path output ≠ Some (NDir m).

Lemma install_quiet output b w : installable output w → (install output b w).1 = Ok tt.
Proof.
  intros (Hq & Hnone & Hpt & Hpo & Hdir). pose proof (install_tmp_ne output (pid w)) as Hne.
  unfold install. unfold mbind at 1, M_bind at 1, gets. fold (tmp_path output w) (out_path output).
  fold (tmp_path output w) (out_path output) in Hne. set (tmp := tmp_path output w) in *.
  unfold mbind, M_bind, with_context, attempt. unfold fs_create_new. rewrite syscall_quiet by done.
  unfold do_create_new. rewrite Hnone, Hpt. set (n := NFile (mkFile [] _)). set (w1 := set_fs _ w). simpl.
  assert (Hw1 : fs w1 = <[tmp := n]> (fs w)) by done.
  unfold fs_append, next_fault. assert (faults w1 = []) as Hf1 by done. rewrite Hf1.
  assert (Ha : append_data tmp b (fs w1) = <[tmp := NFile (mkFile b (Z.ldiff o600 (umask w)))]> (fs w)).
  { unfold n in Hw1. erewrite append_data_file by by rewrite Hw1, lookup_insert_eq.
    by rewrite Hw1, insert_insert_eq. }
  set (w2 := set_fs (append_data tmp b) w1). assert (Hw2 : fs w2 = append_data tmp b (fs w1)) by done.
  unfold fs_sync. rewrite syscall_quiet by done. simpl.
  erewrite fs_rename_quiet; [done|done| | |].
  - by rewrite Hw2, Ha, lookup_insert_eq.
  - intros m. rewrite Hw2, Ha, lookup_insert_ne by done. apply Hdir.
  - unfold parent_ok in *. destruct (parent (out_path output)) as [d|]; [|done].
    eapply (is_dir_insert _ w tmp); [by rewrite Hw2, Ha| |done]. by rewrite Hnone.
Qed.

Section handshake.
Context `{IrohKeysLaws} `{Sha256} `{BleCryptoLaws}.

Lemma slice_fields a b c d :
  length a = 32%nat → length b = 32%nat → length c = 64%nat →
  slice 0 32 (a ++ b ++ c ++ d) = a ∧ slice 32 64 (a ++ b ++ c ++ d) = b ∧
  slice 64 128 (a ++ b ++ c ++ d) = c ∧ take 128 (a ++ b ++ c ++ d) = a ++ b ++ c ∧
  drop 128 (a ++ b ++ c ++ d) = d.
Proof.
  intros Ha Hb Hc. unfold slice. simpl. split_and!.
  - by rewrite drop_0, take_app_length'.
  - by rewrite drop_app_length', take_app_length' by done.
  - rewrite app_assoc, drop_app_length', take_app_length'; [done..|]. rewrite length_app. lia.
  - replace (a ++ b ++ c ++ d) with ((a ++ b ++ c) ++ d) by by rewrite <- !app_assoc.
    apply take_app_length'. rewrite !length_app. lia.
  - replace (a ++ b ++ c ++ d) with ((a ++ b ++ c) ++ d) by by rewrite <- !app_assoc.
    apply drop_app_length'. rewrite !length_app. lia.
Qed.

(** What each side says in an undisturbed exchange. *)
Section messages.
Context (ak ck : SecretKey) (conf sa ca : bytes).
Definition the_hello : bytes := server_hello ak (sk_public ck) (x_public sa).
Definition the_proof : bytes :=
  pk_as_bytes (sk_public ck) ++ x_public ca ++
  sk_sign ck (identity_message CLIENT_LABEL (sk_public ck) (sk_public ak) [x_public sa; x_public ca]).
Definition the_transcript : bytes := the_hello ++ the_proof.
Definition the_key : bytes := session_key (x_dh sa (x_public ca)) the_transcript.

Lemma verify_the_hello :
  verify_server_hello the_hello (sk_public ck) (sk_public ak) =
  Ok (mkServerHello (sk_public ak) (x_public sa)
        (sk_sign ak (identity_message SERVER_LABEL (sk_public ck) (sk_public ak) [x_public sa]))).
Proof.
  unfold verify_server_hello, parse_server_hello, the_hello, server_hello.
  pose proof (pk_length (sk_public ak)) as L1. pose proof (x_public_length sa) as L2.
  pose proof (sign_length ak (identity_message SERVER_LABEL (sk_public ck) (sk_public ak) [x_public sa])) as L3.
  set (sig := sk_sign ak _) in *. rewrite bool_decide_true by (rewrite !length_app; lia). simpl.
  destruct (slice_fields _ _ _ [] L1 L2 L3) as (E1 & E2 & E3 & _ & _). rewrite app_nil_r in E1, E2, E3.
  rewrite E1, E2, E3, pk_from_as_bytes. simpl. rewrite bool_decide_true by done. simpl.
  unfold sig. by rewrite verify_sign.
Qed.

Lemma verify_the_proof cipher :
  (16 ≤ length cipher)%nat →
  verify_client_hello (the_proof ++ cipher) (sk_public ck) (sk_public ak) (x_public sa) = Ok (x_public ca) ∧
  take 128 (the_proof ++ cipher) = the_proof ∧ drop 128 (the_proof ++ cipher) = cipher.
Proof.
  intros Hc. unfold verify_client_hello, the_proof.
  pose proof (pk_length (sk_public ck)) as L1. pose proof (x_public_length ca) as L2.
  pose proof (sign_length ck (identity_message CLIENT_LABEL (sk_public ck) (sk_public ak) [x_public sa; x_public ca])) as L3.
  set (sig := sk_sign ck _) in *.
  destruct (slice_fields _ _ _ cipher L1 L2 L3) as (E1 & E2 & E3 & E4 & E5). rewrite <- !app_assoc, E1, E2, E3, E4, E5.
  split; [|done]. rewrite bool_decide_false by (rewrite !length_app; lia).
  rewrite pk_from_as_bytes. simpl. rewrite bool_decide_true by done. simpl. unfold sig. by rewrite verify_sign.
Qed.

Lemma length_the_hello : length the_hello = 128%nat.
Proof.
  unfold the_hello, server_hello. rewrite !length_app, pk_length, x_public_length, sign_length. done.
Qed.
Lemma length_the_proof : length the_proof = 128%nat.
Proof. unfold the_proof. by rewrite !length_app, pk_length, x_public_length, sign_length. Qed.
End messages.

Lemma crypt_ok k n aad m :
  zlen m ≤ MAX_FRAME → ∃ c, crypt k n aad m = Ok c ∧ length c = (length m + 16)%nat ∧ decrypt k n aad c = Ok m.
Proof.
  intros Hm. destruct (aead_correct k (nonce n) aad m) as (c & E1 & E2 & E3).
  { unfold MAX_FRAME in Hm. unfold u32_max. lia. }
  exists c. unfold crypt, decrypt. by rewrite E1, E3.
Qed.

Lemma getrandom_next n w b l :
  rng w = Ok b :: l → length b = n →
  getrandom n w = (Ok b, mkWorld (fs w) (faults w) l (clock w) (pid w) (umask w)).
Proof. intros E Hb. unfold getrandom. rewrite E. by rewrite take_app_length'. Qed.

Lemma server_half ak ck conf sa ca l output cipher ack sr sw w :
  conf ≠ [] → zlen conf ≤ MAX_FRAME - 144 →
  rng w = Ok sa :: l → length sa = 32%nat → installable output w →
  crypt (the_key ak ck sa ca) 0 (the_transcript ak ck sa ca) conf = Ok cipher →
  crypt (the_key ak ck sa ca) 1 (the_transcript ak ck sa ca) (as_bytes "ok") = Ok ack → zlen ack ≤ MAX_FRAME →
  length cipher = (length conf + 16)%nat →
  decrypt (the_key ak ck sa ca) 0 (the_transcript ak ck sa ca) cipher = Ok conf →
  healthy sw → clean sr → rd_bytes sr = [START] ++ frame (the_proof ak ck sa ca ++ cipher) →
  ∃ s, serve_exchange ak (sk_public ck) (sk_public ak) output (calm sr sw w false) = (Ok tt, s) ∧
    w_out (s_wr s) = w_out sw ++ frame (the_hello ak ck sa) ++ frame ack ∧ s_installed s = true ∧
    fs (s_world s) !! out_path output = Some (NFile (mkFile conf (Z.ldiff o600 (umask w)))) ∧
    fs (s_world s) !! tmp_path output w = None.
Proof.
  intros Hne Hsize Hrng Hsa Hinst Hc0 Hc1 Hack Hlc Hdec Hsw Hsr Hrd. unfold serve_exchange.
  destruct (read_exact_clean 1 sr [START] _ Hsr Hrd eq_refl) as (sr1 & E1 & Hsr1 & Hrd1).
  unfold mbind at 1, M_bind at 1, awaiting, on_rd. simpl. rewrite E1.
  unfold mbind at 1, M_bind at 1, ensure at 1. rewrite bool_decide_true by done.
  unfold mbind at 1, M_bind at 1, on_os. simpl. rewrite (getrandom_next _ _ _ _ Hrng Hsa).
  set (w1 := mkWorld (fs w) (faults w) l (clock w) (pid w) (umask w)).
  fold (the_hello ak ck sa). unfold mbind at 1, M_bind at 1.
  rewrite write_frame_calm by (done || (unfold zlen; rewrite length_the_hello; done)).
  unfold mbind at 1, M_bind at 1. rewrite <- (app_nil_r (frame _)) in Hrd1.
  edestruct (read_frame_calm (the_proof ak ck sa ca ++ cipher)) as (sr2 & E2 & Hsr2 & Hrd2); [|exact Hsr1|exact Hrd1|].
  { unfold zlen in *. rewrite length_app, length_the_proof. unfold MAX_FRAME in *. lia. }
  rewrite E2. destruct (verify_the_proof ak ck sa ca cipher) as (E3 & E4 & E5); [lia|].
  unfold mbind at 1, M_bind at 1, lift at 1. rewrite E3, E4, E5.
  fold (the_transcript ak ck sa ca). fold (the_key ak ck sa ca).
  unfold mbind at 1, M_bind at 1, lift at 1. rewrite Hdec.
  unfold mbind at 1, M_bind at 1, ensure. rewrite bool_decide_false by done. simpl negb. cbv iota.
  unfold mbind at 1, M_bind at 1, on_os. cbn [s_world].
  destruct (install output conf w1) as [r2 w2] eqn:Ei.
  pose proof (install_quiet output conf w1 Hinst) as Hok. rewrite Ei in Hok. simpl in Hok. subst r2.
  apply install_spec in Ei as (_ & _ & Hdone & _). destruct (Hdone eq_refl) as [Hout Htmp].
  unfold mbind at 1, M_bind at 1, mark_installed. unfold mbind at 1, M_bind at 1, lift. rewrite Hc1.
  unfold mbind at 1, M_bind at 1, ignore. cbn [s_rd s_wr s_timer s_fired s_world s_installed].
  rewrite write_frame_calm by done. unfold awaiting. simpl. eexists. split; [done|].
  cbn [s_wr s_world s_installed]. split_and!; [|done|done|done]. simpl. by rewrite <- app_assoc.
Qed.

Lemma client_half ak ck conf sa ca l cipher ack cr cw w :
  zlen conf ≤ MAX_FRAME - 144 → rng w = Ok ca :: l → length ca = 32%nat →
  crypt (the_key ak ck sa ca) 0 (the_transcript ak ck sa ca) conf = Ok cipher →
  length cipher = (length conf + 16)%nat → zlen ack ≤ MAX_FRAME →
  decrypt (the_key ak ck sa ca) 1 (the_transcript ak ck sa ca) ack = Ok (as_bytes "ok") →
  healthy cw → clean cr → rd_bytes cr = frame (the_hello ak ck sa) ++ frame ack →
  ∃ s, provision_exchange ck (sk_public ak) conf (calm cr cw w false) = (Ok tt, s) ∧
    s_fired s = false ∧ w_out (s_wr s) = w_out cw ++ [START] ++ frame (the_proof ak ck sa ca ++ cipher).
Proof.
  intros Hsize Hrng Hca Hc0 Hlc Hack Hdec Hcw Hcr Hrd. unfold provision_exchange.
  unfold mbind at 1, M_bind at 1. rewrite awaiting_wr, write_all_healthy by done.
  unfold mbind at 1, M_bind at 1. rewrite awaiting_wr, flush_healthy by done.
  unfold mbind at 1, M_bind at 1.
  edestruct (read_frame_calm (the_hello ak ck sa)) as (cr1 & E1 & Hcr1 & Hrd1); [|exact Hcr|exact Hrd|].
  { unfold zlen. by rewrite length_the_hello. }
  rewrite E1. unfold mbind at 1, M_bind at 1, lift at 1. rewrite verify_the_hello.
  unfold mbind at 1, M_bind at 1, on_os. cbn [s_world sh_ephemeral]. rewrite (getrandom_next _ _ _ _ Hrng Hca).
  set (w1 := mkWorld (fs w) (faults w) l (clock w) (pid w) (umask w)).
  fold (the_proof ak ck sa ca). fold (the_transcript ak ck sa ca).
  rewrite (x_dh_agree ca sa). fold (the_key ak ck sa ca).
  unfold mbind at 1, M_bind at 1, lift at 1. rewrite Hc0.
  unfold mbind at 1, M_bind at 1. cbn [s_rd s_wr s_timer s_fired s_world s_installed].
  rewrite write_frame_calm; [|unfold zlen in *; rewrite length_app, length_the_proof; unfold MAX_FRAME in *; lia|done].
  unfold mbind at 1, M_bind at 1. rewrite <- (app_nil_r (frame _)) in Hrd1.
  edestruct (read_frame_calm ack) as (cr2 & E2 & _ & _); [done|exact Hcr1|exact Hrd1|]. rewrite E2.
  unfold mbind at 1, M_bind at 1, lift. rewrite Hdec. unfold ensure. rewrite bool_decide_true by done.
  eexists. split_and!; [done..|]. simpl. by rewrite <- app_assoc.
Qed.

Lemma network_conf_size ssid psk conf :
  network_conf ssid psk = Ok conf → as_bytes conf ≠ [] ∧ zlen (as_bytes conf) ≤ MAX_FRAME - 144.
Proof.
  intros Hn. apply network_conf_ok in Hn as (_ & Hs & _ & _ & Hp & Hc). cbv zeta in *. split.
  { intros E. rewrite E in Hc. done. }
  assert (Hpl : zlen (as_bytes psk) ≤ 64).
  { destruct Hp as [|Hp]; [lia|]. unfold raw_key in Hp. apply andb_true_iff in Hp as [Hp _].
    apply bool_decide_eq_true in Hp. lia. }
  assert (Hl : zlen (psk_line (as_bytes psk)) ≤ 6 + zlen (as_bytes psk)).
  { unfold psk_line. destruct (raw_key _); rewrite ?zlen_app; cbn; rewrite ?zlen_cons, ?zlen_nil; lia. }
  assert (Hh : zlen (hex_bytes (as_bytes ssid)) ≤ 64) by (unfold zlen in *; rewrite length_hex; lia).
  rewrite Hc. rewrite !zlen_app, !zlen_cons, !zlen_app.
  revert Hh Hl Hpl. generalize (zlen (hex_bytes (as_bytes ssid))), (zlen (psk_line (as_bytes psk))), (zlen (as_bytes psk)).
  intros h l p ???. unfold MAX_FRAME. cbn. rewrite ?zlen_cons, ?zlen_nil. lia.
Qed.

(** For every accepted network name and pass phrase, and
    whatever way the transport cuts the bytes into pieces, there are messages
    such that the controller, fed the target's, sends its own and returns
    success, and the target, fed the controller's, sends its own, returns
    success and has put exactly that configuration at its credential file with
    mode 0600, leaving no side file. *)
Lemma exchange_end_to_end ak ck ssid psk conf sa ca ls lc output ws wc :
  network_conf ssid psk = Ok conf →
  rng ws = Ok sa :: ls → length sa = 32%nat → rng wc = Ok ca :: lc → length ca = 32%nat →
  installable output ws →
  ∃ hello request ack,
    (∀ cr cw, clean cr → rd_bytes cr = frame hello ++ frame ack → healthy cw →
       ∃ s, provision_exchange ck (sk_public ak) (as_bytes conf) (calm cr cw wc false) = (Ok tt, s) ∧
         s_fired s = false ∧ w_out (s_wr s) = w_out cw ++ [START] ++ frame request) ∧
    (∀ sr sw, clean sr → rd_bytes sr = [START] ++ frame request → healthy sw →
       ∃ s, serve_exchange ak (sk_public ck) (sk_public ak) output (calm sr sw ws false) = (Ok tt, s) ∧
         w_out (s_wr s) = w_out sw ++ frame hello ++ frame ack ∧ s_installed s = true ∧
         fs (s_world s) !! out_path output = Some (NFile (mkFile (as_bytes conf) (Z.ldiff o600 (umask ws)))) ∧
         fs (s_world s) !! tmp_path output ws = None).
Proof.
  intros Hn Hrs Hsa Hrc Hca Hinst. apply network_conf_size in Hn as [Hne Hsize].
  destruct (crypt_ok (the_key ak ck sa ca) 0 (the_transcript ak ck sa ca) (as_bytes conf))
    as (cipher & Hc0 & Hlc & Hd0); [lia|].
  destruct (crypt_ok (the_key ak ck sa ca) 1 (the_transcript ak ck sa ca) (as_bytes "ok"))
    as (ack & Hc1 & Hla & Hd1); [by vm_compute|].
  assert (zlen ack ≤ MAX_FRAME) by (unfold zlen; rewrite Hla; by vm_compute).
  exists (the_hello ak ck sa), (the_proof ak ck sa ca ++ cipher), ack. split; intros.
  - by eapply client_half.
  - by eapply server_half.
Qed.
End handshake.

Import DemoKeys DemoSha DemoBle.
Definition demo_conf : string := of_bytes (as_bytes "network={" ++ [LF; x09]
     ++ as_bytes "ssid=6174746963" ++ [LF; x09] ++ as_bytes "psk=" ++ [QUOTE] ++ as_bytes "correct horse" ++ [QUOTE]
     ++ [LF; x09] ++ as_bytes "key_mgmt=WPA-PSK" ++ [LF] ++ as_bytes "}" ++ [LF]).
Definition demo_world (r : bytes) : World := mkWorld ∅ [] [Ok r] [] 7 18.
(** C12: the agent installs network credentials only from the controller baked
    into its image.  Whatever peers connect, in whatever order and pairing,
    whatever bytes they send, whatever system calls fail and whenever the
    timers fire: no file changes but the credential file and its side file; the
    service reports success only if the credential file holds, with mode 0600,
    a non-empty configuration from a request that one of those peers sent after
    the start marker, whose signature by the controller's key binds both node
    ids and both ephemeral keys of that exchange, the agent's own freshly drawn,
    and which decrypted under its transcript; and if it reports
    failure, the credential file is untouched. *)
Theorem credentials_only_from_the_controller `{IrohKeys} `{Sha256} `{BleCryptoLaws}
    key controller agent output advertise serve_gatt evs sv r sv' :
  serve_on_adapter key controller agent output advertise serve_gatt evs sv = (r, sv') →
  (∀ q, q ≠ out_path output → q ≠ tmp_path output (sv_world sv) →
     fs (sv_world sv') !! q = fs (sv_world sv) !! q) ∧
  (sv_active sv = None → sv_active sv' = None) ∧
  match r with
  | Ok _ => provisioned key controller agent output (rng (sv_world sv)) (received evs) (sv_world sv')
  | Err _ => fs (sv_world sv') !! out_path output = fs (sv_world sv) !! out_path output
  end.
Proof.
  unfold serve_on_adapter. destruct (advertisement agent) as [adv|e]; [|intros; by simplify_eq/=].
  destruct (advertise adv) as [[]|e]; [|intros; by simplify_eq/=].
  destruct (serve_gatt application) as [[]|e]; [|intros; by simplify_eq/=].
  intros E. apply (serve_loop_spec _ _ _ _ (rng (sv_world sv)) (received evs)) in E as ((_ & _ & _ & Hq & _) & Ha & Hr); [|done..].
  split_and!; [done..|]. by destruct r.
Qed.

(** Operations that do not write. *)
Definition silent {A} (m : M Sess A) : Prop := ∀ s, w_out (s_wr (m s).2) = w_out (s_wr s).
Lemma silent_bind {A B} (m : M Sess A) (k : A → M Sess B) : silent m → (∀ a, silent (k a)) → silent (m ≫= k).
Proof.
  intros Hm Hk s. unfold mbind, M_bind. specialize (Hm s). destruct (m s) as [[a|e] s1]; [|done].
  simpl in *. by rewrite (Hk a s1).
Qed.
Lemma silent_awaiting {A} (m : M Sess A) : silent m → silent (awaiting m).
Proof.
  intros Hm s. unfold awaiting. destruct (s_fired s); [done|]. destruct (s_timer s) as [[|n]|]; [done| |apply Hm].
  apply (Hm (set_timer (Some n) s)).
Qed.
Lemma silent_on_rd {A} (m : M reader A) : silent (on_rd m).
Proof. intros s. unfold on_rd. by destruct (m (s_rd s)). Qed.
Lemma silent_flush : silent (on_wr flush).
Proof. intros s. unfold on_wr, flush. by destruct (w_flush_err (s_wr s)). Qed.
Lemma silent_lift {A} (r : result A) : silent (lift r).
Proof. by intros s. Qed.
#[local] Hint Resolve silent_bind silent_awaiting silent_on_rd silent_flush silent_lift : core.
Lemma silent_read_frame : silent read_frame.
Proof. unfold read_frame. eauto 10. Qed.

Definition sent_start (o : bytes) (s : Sess) : Prop := ∃ k, w_out (s_wr s) = o ++ take k [START].
Lemma start_triple o :
  triple (λ s, w_out (s_wr s) = o) (awaiting (on_wr (write_all [START]))) (λ _, sent_start o).
Proof.
  intros s Hs. unfold awaiting. assert (Hid : ∀ s, w_out (s_wr s) = o → sent_start o s).
  { intros s1 E. exists O. by rewrite take_0, app_nil_r. }
  assert (Hw : ∀ s, w_out (s_wr s) = o → sent_start o (on_wr (write_all [START]) s).2).
  { intros s1 <-. unfold on_wr. destruct (write_all_prefix [START] (s_wr s1)) as [k Hk].
    destruct (write_all [START] (s_wr s1)) as [x w']. by exists k. }
  destruct (s_fired s); [by apply Hid|]. destruct (s_timer s) as [[|n]|]; [by apply Hid| |by apply Hw].
  by apply (Hw (set_timer (Some n) s)).
Qed.

Lemma verify_server_hello_ok `{IrohKeys} b controller agent hello :
  verify_server_hello b controller agent = Ok hello →
  length b = 128%nat ∧ pk_from_bytes (slice 0 32 b) = Ok agent ∧
  (length (sh_ephemeral hello) = 32%nat ∧ sh_agent hello = agent ∧
   b = slice 0 32 b ++ sh_ephemeral hello ++ sh_signature hello) ∧
  pk_verify agent (identity_message SERVER_LABEL controller agent [sh_ephemeral hello]) (sh_signature hello) = Ok tt.
Proof.
  unfold verify_server_hello, parse_server_hello. case_bool_decide as Hl; [|done]. simpl. unfold context.
  destruct (pk_from_bytes (slice 0 32 b)) as [c|]; [|done]. cbn [sh_agent sh_ephemeral sh_signature].
  destruct (decide (c = agent)) as [->|]; [|by rewrite bool_decide_false].
  rewrite bool_decide_true by done. simpl.
  destruct (pk_verify _ _ _) as [[]|] eqn:Ev; [|done]. intros [= <-]. split_and!; try done; simpl.
  - unfold slice. rewrite length_take, length_drop. lia.
  - rewrite <- slices_128 by lia. symmetry. apply take_ge. lia.
Qed.

(** What a successful write put on the stream. *)
Lemma await_write_ok b s s' :
  awaiting (on_wr (write_all b)) s = (Ok tt, s') →
  w_out (s_wr s') = w_out (s_wr s) ++ b ∧ s_rd s' = s_rd s ∧ s_world s' = s_world s.
Proof.
  intros [t E]%awaiting_ok. revert E. unfold on_wr. simpl. destruct (write_all b (s_wr s)) as [x w] eqn:Ew.
  intros; simplify_eq/=. by apply write_all_ok in Ew as [-> _].
Qed.
Lemma await_flush_ok s s' :
  awaiting (on_wr flush) s = (Ok tt, s') →
  w_out (s_wr s') = w_out (s_wr s) ∧ s_rd s' = s_rd s ∧ s_world s' = s_world s.
Proof.
  intros [t E]%awaiting_ok. revert E. unfold on_wr, flush. simpl. destruct (w_flush_err (s_wr s)); intros; by simplify_eq/=.
Qed.
Lemma write_frame_ok b s s' :
  write_frame b s = (Ok tt, s') → w_out (s_wr s') = w_out (s_wr s) ++ frame b ∧ s_rd s' = s_rd s.
Proof.
  unfold write_frame. intros (z & s0 & E0 & E)%Prelude.bind_ok.
  assert (s0 = s) as -> by (revert E0; unfold lift; by intros [= _ <-]).
  apply Prelude.bind_ok in E as ([] & s1 & (O1 & R1 & _)%await_write_ok & E).
  apply Prelude.bind_ok in E as ([] & s2 & (O2 & R2 & _)%await_write_ok & (O3 & R3 & _)%await_flush_ok).
  rewrite O3, O2, O1, R3, R2, R1. unfold frame. by rewrite <- app_assoc.
Qed.

Section client.
Context `{IrohKeys} `{Sha256} `{BleCrypto}.
Context (controller_key : SecretKey) (agent : PublicKey).

(** The bytes received start with a hello by the agent: its node id, and its
    key's signature over both node ids and the ephemeral key it presents. *)
Definition proved (input : bytes) : Prop :=
  ∃ head ephemeral signature rest,
    input = frame (head ++ ephemeral ++ signature) ++ rest ∧ length ephemeral = 32%nat ∧
    pk_from_bytes head = Ok agent ∧
    pk_verify agent (identity_message SERVER_LABEL (sk_public controller_key) agent [ephemeral]) signature = Ok tt.
(** After it came an acknowledgement that decrypts to "ok" under the key both
    sides derive from the exchange, and what was sent is the start marker and
    the configuration sealed with that key. *)
Definition acknowledged (entropy : list (result bytes)) (conf input out : bytes) : Prop :=
  ∃ head ephemeral signature secret cipher ack rest,
    let client := x_public secret in
    let proof := pk_as_bytes (sk_public controller_key) ++ client ++
      sk_sign controller_key (identity_message CLIENT_LABEL (sk_public controller_key) agent [ephemeral; client]) in
    let transcript := (head ++ ephemeral ++ signature) ++ proof in
    let key := session_key (x_dh secret ephemeral) transcript in
    input = frame (head ++ ephemeral ++ signature) ++ frame ack ++ rest ∧
    pk_from_bytes head = Ok agent ∧
    pk_verify agent (identity_message SERVER_LABEL (sk_public controller_key) agent [ephemeral]) signature = Ok tt ∧
    drawn entropy 32 secret ∧
    crypt key 0 transcript conf = Ok cipher ∧ out = [START] ++ frame (proof ++ cipher) ∧
    decrypt key 1 transcript ack = Ok (as_bytes "ok").

Lemma acknowledged_suffix e1 e2 conf input out :
  e1 `suffix_of` e2 → acknowledged e1 conf input out → acknowledged e2 conf input out.
Proof.
  intros Hs (h & e & sg & sec & c & a & rest & A1 & A2 & A3 & A4 & A5).
  exists h, e, sg, sec, c, a, rest. cbv zeta in *. split_and!; try done; [by eapply drawn_suffix|apply A5..].
Qed.

(** Once the hello is verified. *)
Lemma provision_tail_ok conf hello_bytes hello out s s' :
  let controller := sk_public controller_key in
  verify_server_hello hello_bytes controller agent = Ok hello →
  w_out (s_wr s) = out →
  (secret ← on_os (getrandom 32);
   let client_ephemeral := x_public secret in
   let signature := sk_sign controller_key
     (identity_message CLIENT_LABEL controller agent [sh_ephemeral hello; client_ephemeral]) in
   let request := pk_as_bytes controller ++ client_ephemeral ++ signature in
   let transcript := hello_bytes ++ request in
   let shared := x_dh secret (sh_ephemeral hello) in
   let session_key := session_key shared transcript in
   cipher ← lift (crypt session_key 0 transcript conf);
   write_frame (request ++ cipher);;
   ack ← read_frame;
   answer ← lift (decrypt session_key 1 transcript ack);
   ensure (bool_decide (answer = as_bytes "ok")) "BLE target returned an invalid acknowledgement") s = (Ok tt, s') →
  out = [START] →
  acknowledged (rng (s_world s)) conf (frame hello_bytes ++ rd_bytes (s_rd s)) (w_out (s_wr s')).
Proof.
  cbv zeta. intros Hv Ho (secret & s1 & Eg & E)%Prelude.bind_ok ->.
  apply Prelude.bind_ok in E as (cipher & s2 & Ec & E). injection Ec as Ec <-.
  apply Prelude.bind_ok in E as ([] & s3 & [O3 R3]%write_frame_ok & E).
  apply Prelude.bind_ok in E as (ack & s4 & E4 & E).
  apply Prelude.bind_ok in E as (answer & s5 & Ed & E). injection Ed as Ed <-.
  unfold ensure in E. case_bool_decide; [|done]. injection E as <-. subst answer.
  assert (Hs1 : s_rd s1 = s_rd s ∧ s_wr s1 = s_wr s ∧ drawn (rng (s_world s)) 32 secret).
  { revert Eg. unfold on_os. destruct (getrandom 32 (s_world s)) as [x w] eqn:Ex. intros; simplify_eq/=.
    by apply getrandom_drawn in Ex. }
  destruct Hs1 as (R1 & W1 & Hdr).
  apply verify_server_hello_ok in Hv as (Hlen & Hid & (He1 & He2 & Hb) & Hsig).
  pose proof (silent_read_frame s3) as Hq. rewrite E4 in Hq. simpl in Hq. apply read_frame_ok in E4.
  rewrite R3, R1 in E4.
  eexists (slice 0 32 hello_bytes), (sh_ephemeral hello), (sh_signature hello), secret, cipher, ack, _.
  cbv zeta. rewrite <- Hb, E4, Hq, O3, W1, Ho. split_and!; try done.
Qed.

(** Whatever the target sends and whatever fails: nothing but the start marker
    is written to a target that has not proved to be the agent, and success
    means an acknowledgement. *)
Lemma provision_exchange_safe conf s r s' :
  provision_exchange controller_key agent conf s = (r, s') → w_out (s_wr s) = [] →
  ((∃ k, w_out (s_wr s') = take k [START]) ∨ proved (rd_bytes (s_rd s))) ∧
  (r = Ok tt → acknowledged (rng (s_world s)) conf (rd_bytes (s_rd s)) (w_out (s_wr s'))).
Proof.
  intros E Hw. unfold provision_exchange in E. cbv zeta in E.
  apply bind_inv in E as [(e & E1 & ->)|([] & s1 & E1 & E)].
  { split; [left|done]. destruct (start_triple [] s Hw) as [k Hk]. rewrite E1 in Hk. by exists k. }
  apply await_write_ok in E1 as (O1 & R1 & W1). rewrite Hw in O1. simpl in O1.
  assert (Hstart : ∀ x, w_out (s_wr x) = [START] → ∃ k, w_out (s_wr x) = take k [START]) by (intros x ->; by exists 1%nat).
  apply bind_inv in E as [(e & E2 & ->)|([] & s2 & E2 & E)].
  { split; [left|done]. apply Hstart. pose proof (silent_awaiting _ silent_flush s1) as Hq. rewrite E2 in Hq. simpl in Hq. congruence. }
  apply await_flush_ok in E2 as (O2 & R2 & W2).
  pose proof (silent_read_frame s2) as Hq.
  apply bind_inv in E as [(e & E3 & ->)|(hello_bytes & s3 & E3 & E)]; rewrite E3 in Hq; simpl in Hq.
  { split; [left|done]. apply Hstart. congruence. }
  pose proof (keeps_read_frame s2) as (_ & _ & _ & _ & Hrng). rewrite E3 in Hrng. simpl in Hrng.
  apply read_frame_ok in E3. rewrite R2, R1 in E3. rewrite W2, W1 in Hrng.
  apply bind_inv in E as [(e & E4 & ->)|(hello & s4 & E4 & E)].
  { injection E4 as _ <-. split; [left|done]. apply Hstart. congruence. }
  injection E4 as Ev <-. split.
  - right. apply verify_server_hello_ok in Ev as (Hlen & Hid & (He1 & He2 & Hb) & Hsig).
    exists (slice 0 32 hello_bytes), (sh_ephemeral hello), (sh_signature hello), (rd_bytes (s_rd s3)).
    rewrite <- Hb. by split_and!.
  - intros ->. apply (provision_tail_ok _ hello_bytes hello [START]) in E; [|done|congruence|done].
    rewrite E3. by eapply acknowledged_suffix.
Qed.
End client.

(** A peer that opens one half only, then one that sends garbage. *)
Definition demo_events : list ctl_event :=
  [CtlNotify 1 new_writer; CtlWrite (Ok (2, [])); CtlQuiet;
   CtlWrite (Ok (3, [RData [x02]])); CtlNotify 3 new_writer].
Definition demo_server : Server := mkServer (demo_world (replicate 32 x02)) None [] [] [].

Lemma credentials_only_from_the_controller_witness :
  ∃ sv', serve_on_adapter (DemoKeys.mk_key [x08]) (DemoKeys.mk_key [x09]) (DemoKeys.mk_key [x08]) "wpa.conf"
    (λ _, Ok tt) (λ _, Ok tt) demo_events demo_server = (Err stopped, sv') ∧ sv_removed sv' = [1; 3] ∧
    fs (sv_world sv') !! out_path "wpa.conf" = fs (sv_world demo_server) !! out_path "wpa.conf".
Proof.
  eexists. assert (E : serve_on_adapter (DemoKeys.mk_key [x08]) (DemoKeys.mk_key [x09]) (DemoKeys.mk_key [x08])
    "wpa.conf" (λ _, Ok tt) (λ _, Ok tt) demo_events demo_server =
    (Err stopped, mkServer (demo_world (replicate 32 x02)) None [1; 3] [1; 3] [])) by reflexivity.
  split; [exact E|split; [reflexivity|]].
  apply credentials_only_from_the_controller in E as (_ & _ & Hp). exact Hp.
Defined.

(** C38: an accepted network name and pass phrase cannot inject anything into the
    configuration: it has exactly the five lines of one network block, the name
    in hexadecimal that decodes to it, the pass phrase quoted without a quote
    inside (or as the 64 digits of a raw key), and different credentials give
    different files. *)
Theorem network_conf_is_injection_free ssid psk conf :
  network_conf ssid psk = Ok conf →
  lines (as_bytes conf) =
    [as_bytes "network={";
     x09 :: as_bytes "ssid=" ++ hex_bytes (as_bytes ssid);
     x09 :: (if raw_key (as_bytes psk) then as_bytes "psk=" ++ as_bytes psk
             else as_bytes "psk=" ++ [QUOTE] ++ as_bytes psk ++ [QUOTE]);
     x09 :: as_bytes "key_mgmt=WPA-PSK";
     as_bytes "}"] ∧
  unhex (hex_bytes (as_bytes ssid)) = Some (as_bytes ssid) ∧ (QUOTE ∉ as_bytes psk) ∧
  (∀ ssid' psk', network_conf ssid' psk' = Ok conf → ssid' = ssid ∧ psk' = psk).
Proof.
  assert (Hlines : ∀ ssid psk conf, network_conf ssid psk = Ok conf → lines (as_bytes conf) =
    [as_bytes "network={"; x09 :: as_bytes "ssid=" ++ hex_bytes (as_bytes ssid); x09 :: psk_line (as_bytes psk);
     x09 :: as_bytes "key_mgmt=WPA-PSK"; as_bytes "}"]).
  { intros s p c Hn. apply network_conf_ok in Hn as (_ & _ & _ & Hp & _ & ->).
    destruct (psk_line_lines _ Hp) as [Hp1 Hp2]. destruct (hex_char_plain _ (hex_chars (as_bytes s))) as (Hh1 & Hh2 & _).
    rewrite !lines_cons_line, lines_single; [done|..]; rewrite ?not_elem_of_cons, ?not_elem_of_app;
      split_and?; try done; apply (bool_decide_eq_false (_ ∈ _)); done. }
  intros Hn. pose proof (network_conf_ok _ _ _ Hn) as (_ & _ & _ & Hp & _ & _). split_and!.
  - by apply Hlines.
  - apply unhex_hex.
  - eapply has_special_false; [done|]. set_solver.
  - intros ssid' psk' Hn'. pose proof (network_conf_ok _ _ _ Hn') as (_ & _ & _ & Hp' & _ & _).
    apply Hlines in Hn, Hn'. rewrite Hn in Hn'. injection Hn' as Es Ep. split.
    + by apply as_bytes_inj, hex_inj.
    + by apply as_bytes_inj, psk_line_inj.
Qed.
Lemma network_conf_is_injection_free_witness :
  network_conf "attic" "correct horse" = Ok demo_conf ∧ length (lines (as_bytes demo_conf)) = 5%nat.
Proof.
  assert (Hn : network_conf "attic" "correct horse" = Ok demo_conf) by (vm_compute; reflexivity).
  split; [exact Hn|]. destruct (network_conf_is_injection_free _ _ _ Hn) as (-> & _). reflexivity.
Defined.

(** The signed messages are unambiguous: labels of equal length, node ids
    and 32-byte keys can be read back from the bytes, so a signature binds
    exactly one label, pair of nodes and list of ephemeral keys; in particular
    no server hello is a client hello. *)
Theorem hello_messages_are_unambiguous `{IrohKeysLaws} l1 l2 c1 c2 a1 a2 k1 k2 :
  length l1 = length l2 →
  Forall (λ k, length k = 32%nat) k1 → Forall (λ k, length k = 32%nat) k2 →
  identity_message l1 c1 a1 k1 = identity_message l2 c2 a2 k2 →
  l1 = l2 ∧ c1 = c2 ∧ a1 = a2 ∧ k1 = k2.
Proof.
  intros Hl Hk1 Hk2. unfold identity_message. intros E.
  apply app_inj_1 in E as [-> E]; [|done]. apply app_inj_1 in E as [Ec E]; [|by rewrite !pk_length].
  apply app_inj_1 in E as [Ea E]; [|by rewrite !pk_length].
  split_and!; [done|by apply pk_as_bytes_inj..|]. clear Ec Ea Hl. revert k2 Hk2 E.
  induction Hk1 as [|k k1 Hk Hk1 IH]; intros [|k' k2] Hk2 E; try done;
    apply Forall_cons in Hk2 || clear Hk2.
  - destruct Hk2 as [Hk' _]. simpl in E. symmetry in E. apply app_nil in E as [-> _]. done.
  - simpl in E. apply app_nil in E as [-> _]. done.
  - destruct Hk2 as [Hk' Hk2]. simpl in E. apply app_inj_1 in E as [-> E]; [|congruence].
    f_equal. by apply IH.
Qed.
Lemma hello_messages_are_unambiguous_witness :
  length SERVER_LABEL = length CLIENT_LABEL ∧
  identity_message SERVER_LABEL (DemoKeys.mk_key [x01]) (DemoKeys.mk_key [x02]) [replicate 32 x03] ≠
  identity_message CLIENT_LABEL (DemoKeys.mk_key [x01]) (DemoKeys.mk_key [x02]) [replicate 32 x03] .
Proof.
  split; [reflexivity|]. intros E.
  assert (F : Forall (λ k : bytes, length k = 32%nat) [replicate 32 x03]) by (repeat constructor).
  destruct (hello_messages_are_unambiguous SERVER_LABEL CLIENT_LABEL _ _ _ _ _ _ eq_refl F F E) as [El _].
  vm_compute in El. discriminate El.
Defined.
