(* ===== verification/Ssh.v ===== *)
(** * The [ssh] recipe: dates, the authorized key and the host key (src/src/ssh.rs)

    The expiry stamp of the installed key with its calendar, the line that is
    installed, the merge into the target's [authorized_keys] and the reading of
    its host key.  Text is bytes; streams are those of Stream.v. *)

From S2P Require Import Prelude Text Stream Fs.

Definition KEY_FILE_MAX_BYTES : Z := Z.shiftl 1 20.
Definition EXEC_OUTPUT_MAX_BYTES : Z := Z.shiftl 1 16.

(** ** The expiry stamp *)

(** [i64] arithmetic; the callers' days are seconds of a [u64] over 86400, so
    nothing here leaves 64 bits and the [u32] casts keep their values. *)
Definition civil_from_days (z : Z) : Z * Z * Z :=
  let z := z + 719468 in
  let era := z / 146097 in
  let doe := z mod 146097 in
  let yoe := (doe - doe / 1460 + doe / 36524 - doe / 146096) / 365 in
  let doy := doe - (365 * yoe + yoe / 4 - yoe / 100) in
  let mp := (5 * doy + 2) / 153 in
  let d := doy - (153 * mp + 2) / 5 + 1 in
  let m := if bool_decide (mp < 10) then mp + 3 else mp - 9 in
  (yoe + era * 400 + (if bool_decide (m ≤ 2) then 1 else 0), m, d).

(** [{n:0w}] for a number that is not negative. *)
Definition pad0 (w : nat) (n : Z) : bytes :=
  let t := as_bytes (pretty n) in replicate (w - length t) x30 ++ t.

(** [secs] since the epoch; an earlier time counts as the epoch. *)
Definition utc_yyyymmddhhmm (t : Z) : bytes :=
  let secs := Z.max 0 t in
  let days := secs / 86400 in
  let rem := secs mod 86400 in
  let hh := rem / 3600 in
  let mm := rem mod 3600 / 60 in
  let '(y, m, d) := civil_from_days days in
  pad0 4 y ++ pad0 2 m ++ pad0 2 d ++ pad0 2 hh ++ pad0 2 mm ++ as_bytes "Z".

(** ** The installed line *)

Definition key_blob (pubkey_line : bytes) : option bytes := split_whitespace pubkey_line !! 1%nat.

Definition authorized_line (options : bytes) (expiry : Z) (pubkey_line : bytes) : bytes :=
  options ++ as_bytes ",expiry-time=" ++ [QUOTE] ++ utc_yyyymmddhhmm expiry ++ [QUOTE] ++ [SP] ++ pubkey_line.

(** ** Merging *)

(** [AsyncBufReadExt::read_until]: up to and including the delimiter, or to the
    end of the stream. *)
Fixpoint cut_at (c : byte) (b : bytes) : option (bytes * bytes) :=
  match b with
  | [] => None
  | x :: b =>
      if byte_eqb x c then Some ([x], b)
      else match cut_at c b with Some (l, r) => Some (x :: l, r) | None => None end
  end.
Fixpoint read_until (c : byte) (r : reader) : result bytes * reader :=
  match r with
  | [] => (Ok [], [])
  | RErr e :: r => (Err e, r)
  | RData b :: r =>
      match cut_at c b with
      | Some (l, []) => (Ok l, r)
      | Some (l, rest) => (Ok l, RData rest :: r)
      | None =>
          match read_until c r with
          | (Ok l, r) => (Ok (b ++ l), r)
          | (Err e, r) => (Err e, r)
          end
      end
  end.

(** [buf.split(is_ascii_whitespace).any(|f| f == blob)] *)
Definition carries (blob buf : bytes) : bool :=
  existsb (λ f, bool_decide (f = blob)) (split_on is_ascii_whitespace buf).

(** Generic in the [AsyncWrite] it writes to: how bytes are accepted, and the
    final [flush]. *)
Section merge.
Context {S : Type} (put : bytes → M S unit) (sync : M S unit).

(** The loop over the lines of the existing file; the stream has at most as
    many lines as bytes, which is enough fuel. *)
Fixpoint merge_loop (fuel : nat) (blob : bytes) : M (reader * S) unit :=
  match fuel with
  | O => fail (anyhow "out of fuel")
  | Datatypes.S fuel =>
      buf ← on_fst (read_until LF);
      if bool_decide (buf = []) then mret tt else
      if carries blob buf then merge_loop fuel blob else
      on_snd (put buf);;
      (if ends_with LF buf then mret tt else on_snd (put [LF]));;
      merge_loop fuel blob
  end.
Definition merge_authorized_keys (existing : option reader) (blob line : bytes) : M S unit := λ w,
  let '(r, w) :=
    match existing with
    | None => (Ok tt, w)
    | Some rd =>
        let '(x, (_, w)) := merge_loop (Datatypes.S (length (rd_bytes rd))) blob (rd, w) in (x, w)
    end in
  match r with
  | Err e => (Err e, w)
  | Ok _ => (put line;; put [LF];; sync) w
  end.
End merge.

(** ** The host key *)

(** [String::from_utf8_lossy]: every maximal ill-formed piece becomes U+FFFD.
    [cur] is the sequence being read, [st] what must follow it. *)
Definition replacement : bytes := [xef; xbf; xbd].
Definition lossy_lead (x : byte) : bytes * (bytes * list (Z * Z)) :=
  match utf8_lead x with
  | Some [] => ([x], ([], []))
  | Some st => ([], ([x], st))
  | None => (replacement, ([], []))
  end.
Fixpoint lossy_from (cur : bytes) (st : list (Z * Z)) (b : bytes) : bytes :=
  match b, st with
  | [], [] => []
  | [], _ => replacement
  | x :: b, [] => let '(out, (cur, st)) := lossy_lead x in out ++ lossy_from cur st b
  | x :: b, (lo, hi) :: st =>
      if bool_decide (lo ≤ byte_to_Z x ≤ hi)
      then match st with
           | [] => cur ++ [x] ++ lossy_from [] [] b
           | _ => lossy_from (cur ++ [x]) st b
           end
      else let '(out, (cur, st)) := lossy_lead x in replacement ++ out ++ lossy_from cur st b
  end.
Definition from_utf8_lossy (b : bytes) : bytes := lossy_from [] [] b.

(** The first line of the pulled file, and what known_hosts needs of it. *)
Definition host_key_fields (host_key_pub : string) (first : bytes) : result bytes :=
  match split_whitespace (from_utf8_lossy first) with
  | kind :: blob :: _ => Ok (kind ++ [SP] ++ blob)
  | _ => Err (anyhow (host_key_pub +:+ " is not an ssh public key"))
  end.

(** The host as ssh looks it up, and the known_hosts entry. *)
Definition known_host (ip : string) (port : Z) : bytes :=
  if bool_decide (port = 22) then as_bytes ip
  else as_bytes "[" ++ as_bytes ip ++ as_bytes "]:" ++ as_bytes (pretty port).
Definition known_hosts_entry (ip : string) (port : Z) (host_key : bytes) : bytes :=
  known_host ip port ++ [SP] ++ host_key ++ [LF].

(** [text.starts_with("SSH-").then_some(text)] of what the first read returned. *)
Definition banner_text (b : bytes) : option bytes :=
  let text := trim_bytes (from_utf8_lossy b) in
  if starts_with (as_bytes "SSH-") text then Some text else None.

(** The repository's own examples. *)
Example civil_examples :
  civil_from_days 0 = (1970, 1, 1) ∧ civil_from_days 11016 = (2000, 2, 29) ∧
  civil_from_days 20089 = (2025, 1, 1).
Proof. vm_compute. done. Qed.
Example stamp_example : utc_yyyymmddhhmm (951782400 + 86399) = as_bytes "200002292359Z".
Proof. vm_compute. done. Qed.

(** ** The calendar *)

Definition is_leap (y : Z) : bool :=
  bool_decide (y mod 4 = 0) && (negb (bool_decide (y mod 100 = 0)) || bool_decide (y mod 400 = 0)).
Definition month_length (y m : Z) : Z :=
  if bool_decide (m = 2) then (if is_leap y then 29 else 28)
  else if bool_decide (m ∈ [4; 6; 9; 11]) then 30 else 31.
Definition next_day (date : Z * Z * Z) : Z * Z * Z :=
  let '(y, m, d) := date in
  if bool_decide (d < month_length y m) then (y, m, d + 1)
  else if bool_decide (m < 12) then (y, m + 1, 1) else (y + 1, 1, 1).

#[local] Ltac Zify.zify_post_hook ::= Z.div_mod_to_equations.

(** The year of an era and the day of that year, counted from March. *)
Lemma yoe_doy doe :
  0 ≤ doe < 146097 →
  let yoe := (doe - doe / 1460 + doe / 36524 - doe / 146096) / 365 in
  let doy := doe - (365 * yoe + yoe / 4 - yoe / 100) in
  0 ≤ yoe ≤ 399 ∧ 0 ≤ doy ≤ 365 ∧
  (doy = 365 → (yoe + 1) mod 4 = 0 ∧ ((yoe + 1) mod 100 ≠ 0 ∨ yoe = 399)).
Proof.
  intros Hd. assert (doe / 146096 = 0 ∨ doe / 146096 = 1) as [E|E] by lia.
  - assert (doe / 36524 = 0 ∨ doe / 36524 = 1 ∨ doe / 36524 = 2 ∨ doe / 36524 = 3) as [F|[F|[F|F]]] by lia;
      rewrite E, F; remember ((doe - doe / 1460 + _ - 0) / 365) as y; cbv zeta;
      assert (y / 100 = doe / 36524) by lia; (split; [lia|]); (split; [lia|]); intros; (split; [lia|left]); lia.
  - assert (doe = 146096) by lia. subst. vm_compute. intuition (auto; try discriminate).
Qed.

(** Days since the epoch, from the year that starts in March. *)
Definition march_days (a : Z) : Z := 365 * a + a / 4 - a / 100 + a / 400.
Definition march_offset (m : Z) : Z :=
  if bool_decide (m = 3) then 0 else if bool_decide (m = 4) then 31 else if bool_decide (m = 5) then 61
  else if bool_decide (m = 6) then 92 else if bool_decide (m = 7) then 122 else if bool_decide (m = 8) then 153
  else if bool_decide (m = 9) then 184 else if bool_decide (m = 10) then 214 else if bool_decide (m = 11) then 245
  else if bool_decide (m = 12) then 275 else if bool_decide (m = 1) then 306 else 337.
Definition march_year (y m : Z) : Z := if bool_decide (m ≤ 2) then y - 1 else y.
Definition ordinal (date : Z * Z * Z) : Z :=
  let '(y, m, d) := date in march_days (march_year y m) + march_offset m + d - 1 - 719468.
Definition valid_date (date : Z * Z * Z) : Prop :=
  let '(y, m, d) := date in 1 ≤ m ≤ 12 ∧ 1 ≤ d ≤ month_length y m.

Lemma is_leap_spec y : is_leap y = true ↔ y mod 4 = 0 ∧ (y mod 100 ≠ 0 ∨ y mod 400 = 0).
Proof. unfold is_leap. rewrite andb_true_iff, orb_true_iff, negb_true_iff, !bool_decide_eq_true, bool_decide_eq_false. done. Qed.
Lemma march_days_succ a : march_days (a + 1) = march_days a + 365 + (if is_leap (a + 1) then 1 else 0).
Proof.
  unfold march_days. destruct (is_leap (a + 1)) eqn:E.
  - apply is_leap_spec in E. lia.
  - assert (¬ ((a + 1) mod 4 = 0 ∧ ((a + 1) mod 100 ≠ 0 ∨ (a + 1) mod 400 = 0))).
    { rewrite <- is_leap_spec. congruence. }
    lia.
Qed.
Lemma march_days_mono a b : a ≤ b → march_days a ≤ march_days b.
Proof.
  intros Hab. assert (∀ n : nat, march_days a ≤ march_days (a + Z.of_nat n)) as Hn.
  { induction n as [|n IH]; [by rewrite Z.add_0_r|]. rewrite Nat2Z.inj_succ, <- Z.add_1_r, Z.add_assoc, march_days_succ.
    destruct (is_leap _); lia. }
  specialize (Hn (Z.to_nat (b - a))). by replace (a + Z.of_nat (Z.to_nat (b - a))) with b in Hn by lia.
Qed.

(** The twelve months. *)
Lemma month_cases (P : Z → Prop) :
  P 1 → P 2 → P 3 → P 4 → P 5 → P 6 → P 7 → P 8 → P 9 → P 10 → P 11 → P 12 → ∀ m, 1 ≤ m ≤ 12 → P m.
Proof.
  intros ???????????? m Hm.
  assert (m = 1 ∨ m = 2 ∨ m = 3 ∨ m = 4 ∨ m = 5 ∨ m = 6 ∨ m = 7 ∨ m = 8 ∨ m = 9 ∨ m = 10 ∨ m = 11 ∨ m = 12) by lia.
  naive_solver.
Qed.

(** A valid date lies in its March year. *)
Lemma valid_in_year y m d :
  valid_date (y, m, d) →
  0 ≤ march_offset m + d - 1 ≤ 364 + (if is_leap (march_year y m + 1) then 1 else 0).
Proof.
  intros [Hm Hd]. revert Hd. pattern m. apply month_cases; [..|done];
    unfold march_offset, march_year, month_length; simpl; rewrite ?Z.sub_add; destruct (is_leap _); lia.
Qed.

Lemma next_day_spec date : valid_date date → valid_date (next_day date) ∧ ordinal (next_day date) = ordinal date + 1.
Proof.
  destruct date as [[y m] d]. intros [Hm Hd]. unfold next_day. case_bool_decide as Hlast.
  { split; [split; lia|]. unfold ordinal. lia. }
  assert (d = month_length y m) as -> by lia. clear Hlast Hd. revert m Hm.
  apply month_cases; unfold valid_date, ordinal, march_offset, march_year, month_length; simpl;
    (split; [repeat split; try lia; try (destruct (is_leap _); lia)|]); try lia.
  all: pose proof (march_days_succ (y - 1)) as Hs; rewrite Z.sub_add in Hs; destruct (is_leap y) eqn:E; rewrite ?Z.add_simpl_r; lia.
Qed.

Lemma ordinal_inj a b : valid_date a → valid_date b → ordinal a = ordinal b → a = b.
Proof.
  destruct a as [[y1 m1] d1], b as [[y2 m2] d2]. intros V1 V2.
  pose proof (valid_in_year _ _ _ V1) as R1. pose proof (valid_in_year _ _ _ V2) as R2.
  pose proof (march_days_succ (march_year y1 m1)) as S1. pose proof (march_days_succ (march_year y2 m2)) as S2.
  unfold ordinal. intros E.
  assert (Hy : march_year y1 m1 = march_year y2 m2).
  { destruct (Z.lt_trichotomy (march_year y1 m1) (march_year y2 m2)) as [L|[?|L]]; [|done|].
    - pose proof (march_days_mono (march_year y1 m1 + 1) (march_year y2 m2)). lia.
    - pose proof (march_days_mono (march_year y2 m2 + 1) (march_year y1 m1)). lia. }
  rewrite Hy in E. clear S1 S2 R1 R2. destruct V1 as [Hm1 Hd1], V2 as [Hm2 Hd2].
  assert (Hmd : m1 = m2 ∧ d1 = d2).
  { unfold march_offset, march_year, month_length in *. clear Hy.
    revert m1 Hm1 Hd1 E. refine (month_cases _ _ _ _ _ _ _ _ _ _ _ _ _); simpl; intros Hd1;
      revert m2 Hm2 Hd2; refine (month_cases _ _ _ _ _ _ _ _ _ _ _ _ _); simpl; intros Hd2 E; split; try lia;
      destruct (is_leap y1), (is_leap y2); lia. }
  destruct Hmd as [-> ->]. unfold march_year in Hy. case_bool_decide; f_equal; f_equal; lia.
Qed.

Lemma civil_valid z : valid_date (civil_from_days z) ∧ ordinal (civil_from_days z) = z.
Proof.
  unfold civil_from_days. set (doe := (z + 719468) mod 146097). set (era := (z + 719468) / 146097).
  assert (Hz : z = era * 146097 + doe - 719468) by (unfold era, doe; lia).
  assert (Hdoe : 0 ≤ doe < 146097) by (unfold doe; lia). clearbody doe era.
  destruct (yoe_doy doe Hdoe) as (Hy & Hdoy & Hleap). cbv zeta in *.
  set (yoe := (doe - doe / 1460 + doe / 36524 - doe / 146096) / 365) in *.
  set (doy := doe - (365 * yoe + yoe / 4 - yoe / 100)) in *.
  assert (Hd2 : doe = doy + 365 * yoe + yoe / 4 - yoe / 100) by (unfold doy; lia). clearbody yoe doy.
  assert (Hmp : 0 ≤ (5 * doy + 2) / 153 ≤ 11) by lia.
  set (mp := (5 * doy + 2) / 153) in *. assert (Hmp2 : 153 * mp ≤ 5 * doy + 2 < 153 * mp + 153) by (unfold mp; lia).
  clearbody mp.
  assert (Hyears : march_days (yoe + era * 400) = 365 * yoe + yoe / 4 - yoe / 100 + era * 146097).
  { unfold march_days. lia. }
  assert (Hl : doy = 365 → is_leap (yoe + era * 400 + 1) = true).
  { intros E. destruct (Hleap E) as [L1 L2]. apply is_leap_spec. lia. }
  assert (mp = 0 ∨ mp = 1 ∨ mp = 2 ∨ mp = 3 ∨ mp = 4 ∨ mp = 5 ∨ mp = 6 ∨ mp = 7 ∨ mp = 8 ∨ mp = 9 ∨ mp = 10 ∨ mp = 11)
    as Hcases by lia. clear Hmp Hleap.
  destruct Hcases as [->|[->|[->|[->|[->|[->|[->|[->|[->|[->|[->| ->]]]]]]]]]]]; unfold valid_date, ordinal, march_offset, march_year, month_length; simpl;
    change ((153 * 11 + 2) / 5) with 337;
    rewrite ?Z.add_0_r, ?Z.add_simpl_r, Hyears; (split; [split; [lia|]|lia]); try lia.
  destruct (is_leap (yoe + era * 400 + 1)) eqn:E; [lia|]. destruct (decide (doy = 365)) as [e|]; [|lia].
  specialize (Hl e). congruence.
Qed.

(** C39: the expiry's date arithmetic is the Gregorian calendar: day 0 is the
    first of January 1970, every date is a real one, and the date of the day
    after is the next date, through month ends, leap days and century years, in
    both directions for ever. *)
Theorem civil_from_days_is_the_calendar :
  civil_from_days 0 = (1970, 1, 1) ∧
  ∀ z, valid_date (civil_from_days z) ∧ civil_from_days (z + 1) = next_day (civil_from_days z).
Proof.
  split; [done|]. intros z. destruct (civil_valid z) as [V E]. split; [done|].
  destruct (civil_valid (z + 1)) as [V1 E1]. destruct (next_day_spec _ V) as [V2 E2].
  apply ordinal_inj; [done..|]. by rewrite E1, E2, E.
Qed.

(** ** Merging: the specification *)

Definition terminate (l : bytes) : bytes := if ends_with LF l then l else l ++ [LF].
(** The lines that stay, each terminated. *)
Definition strangers (blob b : bytes) : list bytes :=
  terminate <$> filter (λ l, carries blob l = false) (split_inclusive LF b).
Definition merged (blob line b : bytes) : bytes := mjoin (strangers blob b) ++ line ++ [LF].

Lemma cut_at_Some c b l r : cut_at c b = Some (l, r) → ∃ l', l = l' ++ [c] ∧ (c ∉ l') ∧ b = l ++ r.
Proof.
  revert l. induction b as [|x b IH]; intros l E; [done|]. simpl in E. destruct (byte_eqb x c) eqn:Ex.
  - apply byte_eqb_true in Ex as ->. simplify_eq. exists []. split_and!; [done|set_solver|done].
  - destruct (cut_at c b) as [[l0 r0]|]; [|done]. simplify_eq. destruct (IH _ eq_refl) as (l' & -> & Hl & ->).
    exists (x :: l'). split_and!; [done| |done]. apply not_elem_of_cons. split; [|done].
    intros <-. by rewrite byte_eqb_refl in Ex.
Qed.
Lemma cut_at_None c b : cut_at c b = None → c ∉ b.
Proof.
  induction b as [|x b IH]; intros E; [set_solver|]. simpl in E. destruct (byte_eqb x c) eqn:Ex; [done|].
  apply not_elem_of_cons. split; [intros <-; by rewrite byte_eqb_refl in Ex|].
  apply IH. by destruct (cut_at c b) as [[]|].
Qed.

(** One line at a time, whatever the chunks. *)
Lemma read_until_clean c r :
  clean r → ∃ l r', read_until c r = (Ok l, r') ∧ clean r' ∧ rd_bytes r = l ++ rd_bytes r' ∧
    ((∃ l', l = l' ++ [c] ∧ (c ∉ l')) ∨ ((c ∉ l) ∧ rd_bytes r' = [])).
Proof.
  induction 1 as [|[b|e] r Hev Hc IH]; [|simpl|done].
  { exists [], []. split_and!; try done. right. split; [set_solver|done]. }
  destruct (cut_at c b) as [[l rest]|] eqn:E.
  - apply cut_at_Some in E as (l' & El & Hl & ->). destruct rest as [|x rest].
    + exists l, r. rewrite app_nil_r, rd_bytes_data. split_and!; eauto.
    + exists l, (RData (x :: rest) :: r). rewrite !rd_bytes_data, app_assoc. split_and!; eauto.
  - apply cut_at_None in E. destruct IH as (l & r' & -> & Hc' & Hb & Hl).
    exists (b ++ l), r'. rewrite rd_bytes_data, Hb, app_assoc. split_and!; [done..|].
    destruct Hl as [(l' & -> & Hl')|[Hl Hr]].
    + left. exists (b ++ l'). rewrite app_assoc. split; [done|]. rewrite not_elem_of_app. done.
    + right. rewrite not_elem_of_app. done.
Qed.

Lemma ends_with_snoc l c : ends_with c (l ++ [c]) = true.
Proof. apply bool_decide_true. by rewrite last_snoc. Qed.
Lemma ends_with_none l c : c ∉ l → ends_with c l = false.
Proof. intros Hl. apply bool_decide_false. intros E. apply Hl. apply last_Some in E as [k ->]. set_solver. Qed.

Lemma strangers_cons blob l b :
  l ≠ [] → ((∃ l', l = l' ++ [LF] ∧ (LF ∉ l')) ∨ ((LF ∉ l) ∧ b = [])) →
  strangers blob (l ++ b) = (if carries blob l then [] else [terminate l]) ++ strangers blob b.
Proof.
  intros Hne Hl. unfold strangers. assert (split_inclusive LF (l ++ b) = l :: split_inclusive LF b) as ->.
  { destruct Hl as [(l' & -> & Hl)|[Hl ->]].
    - rewrite <- app_assoc. simpl. by apply split_inclusive_line.
    - rewrite app_nil_r. by apply split_inclusive_last. }
  rewrite filter_cons. by destruct (carries blob l).
Qed.

(** A line that was read, whatever the stream does. *)
Lemma read_until_ok c r l r' :
  read_until c r = (Ok l, r') →
  rd_bytes r = l ++ rd_bytes r' ∧ (clean r' → clean r) ∧
  ((∃ l', l = l' ++ [c] ∧ (c ∉ l')) ∨ ((c ∉ l) ∧ r' = [])).
Proof.
  revert l. induction r as [|[b|e] r IH]; intros l; simpl; [|destruct (cut_at c b) as [[l0 rest]|] eqn:E|done].
  - intros [= <- <-]. split_and!; [done..|right]. split; [set_solver|done].
  - apply cut_at_Some in E as (l' & El & Hl & ->). destruct rest as [|x rest]; intros [= <- <-];
      rewrite !rd_bytes_data; rewrite ?app_nil_r, ?app_assoc; (split_and!; [done| |eauto]).
    + intros Hc. by constructor.
    + intros Hc. apply Forall_cons in Hc as [_ Hc]. by constructor.
  - apply cut_at_None in E. destruct (read_until c r) as [[l0|e] r0]; [|done]. intros [= <- <-].
    destruct (IH _ eq_refl) as (Hb & Hc & Hl). rewrite rd_bytes_data, Hb, app_assoc. split; [done|].
    split; [intros Hc'; constructor; [done|by apply Hc]|].
    destruct Hl as [(l' & -> & Hl')|[Hl Hr]].
    + left. exists (b ++ l'). rewrite app_assoc. split; [done|]. rewrite not_elem_of_app. done.
    + right. rewrite not_elem_of_app. done.
Qed.

#[local] Arguments write_all : simpl never.
#[local] Arguments read_until : simpl never.

(** A sink whose successful calls keep a promise: [good t] after [t] was put. *)
Section sound.
Context {S : Type} (put : bytes → M S unit) (sync : M S unit) (good : bytes → S → Prop).
Context (good_put : ∀ t b s s', good t s → put b s = (Ok tt, s') → good (t ++ b) s').

Lemma merge_loop_sound fuel blob r t s r' s' :
  merge_loop put fuel blob (r, s) = (Ok tt, (r', s')) → good t s →
  clean r ∧ good (t ++ mjoin (strangers blob (rd_bytes r))) s'.
Proof.
  revert r t s. induction fuel as [|fuel IH]; intros r t s; [done|]. cbn [merge_loop].
  unfold mbind at 1, M_bind at 1, on_fst. cbn [fst snd].
  destruct (read_until LF r) as [[l|e] r1] eqn:E1; [|done]. apply read_until_ok in E1 as (Hb & Hc & Hl).
  case_bool_decide as Hnil.
  { subst l. destruct Hl as [(l' & El & _)|[_ ->]]; [by destruct l'|]. intros Hr Hg.
    injection Hr as _ <-. simpl in Hb. rewrite Hb, app_nil_r. split; [by apply Hc; constructor|done]. }
  assert (Hst : strangers blob (rd_bytes r) = (if carries blob l then [] else [terminate l]) ++ strangers blob (rd_bytes r1)).
  { rewrite Hb. apply strangers_cons; [done|]. destruct Hl as [?|[? ->]]; auto. }
  assert (Hlift : ∀ t s1, merge_loop put fuel blob (r1, s1) = (Ok tt, (r', s')) → good t s1 →
    clean r ∧ good (t ++ mjoin (strangers blob (rd_bytes r1))) s').
  { intros t1 s1 Hr Hg. destruct (IH _ _ _ Hr Hg). auto. }
  clear IH. rewrite Hst. destruct (carries blob l); [by apply Hlift|].
  unfold mbind at 1, M_bind at 1, on_snd at 1. cbn [fst snd].
  destruct (put l s) as [[[]|e] s1] eqn:Ep; [|done]. unfold mbind at 1, M_bind at 1. unfold terminate.
  destruct (ends_with LF l).
  - intros Hr Hg. apply (Hlift (t ++ l)) in Hr; [|by eapply good_put]. simpl. by rewrite app_assoc.
  - unfold on_snd. cbn [fst snd]. destruct (put [LF] s1) as [[[]|e] s2] eqn:Ep2; [|done].
    intros Hr Hg. apply (Hlift ((t ++ l) ++ [LF])) in Hr; [|eauto]. simpl. by rewrite <- !app_assoc in *.
Qed.

Lemma merge_sound existing blob line s s' :
  merge_authorized_keys put sync existing blob line s = (Ok tt, s') → good [] s →
  match existing with Some r => clean r | None => True end ∧
  ∃ s1, good (merged blob line (match existing with Some r => rd_bytes r | None => [] end)) s1 ∧
    sync s1 = (Ok tt, s').
Proof.
  unfold merge_authorized_keys. intros Hrun Hg.
  assert (Hend : ∀ t s1, good t s1 → (put line;; put [LF];; sync) s1 = (Ok tt, s') →
    ∃ s2, good (t ++ line ++ [LF]) s2 ∧ sync s2 = (Ok tt, s')).
  { intros t s1 H1. unfold mbind, M_bind. destruct (put line s1) as [[[]|e] s2] eqn:E1; [|done].
    destruct (put [LF] s2) as [[[]|e] s3] eqn:E2; [|done]. intros E3. exists s3. split; [|done].
    rewrite app_assoc. eauto. }
  unfold merged. destruct existing as [r|]; [|split; [done|by apply (Hend [] s)]].
  destruct (merge_loop put _ blob (r, s)) as [[[]|e] [r' s1]] eqn:El; [|done].
  apply (merge_loop_sound _ _ _ []) in El as [Hc Hs]; [|done]. split; [done|]. by apply (Hend _ s1).
Qed.
End sound.

(** A sink that accepts everything: in the states [ok], [out] grows by what is
    put. *)
Section accepting.
Context {S : Type} (put : bytes → M S unit) (sync : M S unit) (ok : S → Prop) (out : S → bytes).
Context (put_ok : ∀ s b, ok s → ∃ s', put b s = (Ok tt, s') ∧ ok s' ∧ out s' = out s ++ b)
  (sync_ok : ∀ s, ok s → sync s = (Ok tt, s)).

Lemma merge_loop_run fuel blob r s :
  ok s → clean r → (length (rd_bytes r) < fuel)%nat →
  ∃ r' s', merge_loop put fuel blob (r, s) = (Ok tt, (r', s')) ∧ ok s' ∧
    out s' = out s ++ mjoin (strangers blob (rd_bytes r)).
Proof.
  revert r s. induction fuel as [|fuel IH]; intros r s Hs Hc Hf; [lia|]. cbn [merge_loop].
  destruct (read_until_clean LF r Hc) as (l & r1 & E1 & Hc1 & Hb & Hl).
  unfold mbind at 1, M_bind at 1, on_fst. cbn [fst snd]. rewrite E1. case_bool_decide as Hnil.
  { subst l. destruct Hl as [(l' & El & _)|[_ Hr]]; [by destruct l'|]. simpl in Hb. rewrite Hb, Hr. simpl.
    exists r1, s. by rewrite app_nil_r. }
  assert (Hlen : (length (rd_bytes r1) < fuel)%nat).
  { rewrite Hb, length_app in Hf. destruct l; [done|]. simpl in Hf. lia. }
  assert (Hst : strangers blob (rd_bytes r) = (if carries blob l then [] else [terminate l]) ++ strangers blob (rd_bytes r1)).
  { rewrite Hb. apply strangers_cons; [done|]. destruct Hl as [?|[? ->]]; auto. }
  rewrite Hst. destruct (carries blob l); [by apply IH|].
  unfold mbind at 1, M_bind at 1, on_snd at 1. cbn [fst snd].
  destruct (put_ok s l Hs) as (s1 & -> & Hs1 & Ho1). unfold mbind at 1, M_bind at 1. unfold terminate.
  destruct (ends_with LF l).
  - destruct (IH r1 s1) as (r' & s' & E & Hs' & Ho); [done..|]. exists r', s'. split; [done|]. split; [done|].
    rewrite Ho, Ho1. simpl. by rewrite app_assoc.
  - unfold on_snd. cbn [fst snd]. destruct (put_ok s1 [LF] Hs1) as (s2 & -> & Hs2 & Ho2).
    destruct (IH r1 s2) as (r' & s' & E & Hs' & Ho); [done..|]. exists r', s'. split; [done|]. split; [done|].
    rewrite Ho, Ho2, Ho1. simpl. by rewrite <- !app_assoc.
Qed.

Lemma merge_run existing blob line s :
  match existing with Some r => clean r | None => True end → ok s →
  ∃ s', merge_authorized_keys put sync existing blob line s = (Ok tt, s') ∧ ok s' ∧
    out s' = out s ++ merged blob line (match existing with Some r => rd_bytes r | None => [] end).
Proof.
  intros Hc Hs. unfold merge_authorized_keys.
  assert (Hend : ∀ s1, ok s1 → ∃ s', (put line;; put [LF];; sync) s1 = (Ok tt, s') ∧ ok s' ∧
    out s' = out s1 ++ line ++ [LF]).
  { intros s1 H1. unfold mbind, M_bind. destruct (put_ok s1 line H1) as (s2 & -> & H2 & O2).
    destruct (put_ok s2 [LF] H2) as (s3 & -> & H3 & O3).
    exists s3. rewrite sync_ok by done. split; [done|]. split; [done|]. by rewrite O3, O2, app_assoc. }
  unfold merged. destruct existing as [r|].
  - destruct (merge_loop_run (Datatypes.S (length (rd_bytes r))) blob r s) as (r' & s1 & -> & H1 & O1);
      [done|done|lia|]. destruct (Hend s1 H1) as (s' & -> & H' & O'). exists s'.
    split; [done|]. split; [done|]. by rewrite O', O1, <- !app_assoc.
  - by apply Hend.
Qed.
End accepting.

(** Any healthy transport accepts everything. *)
Lemma merge_run_writer existing blob line w :
  match existing with Some r => clean r | None => True end → healthy w →
  ∃ w', merge_authorized_keys write_all flush existing blob line w = (Ok tt, w') ∧
    w_out w' = w_out w ++ merged blob line (match existing with Some r => rd_bytes r | None => [] end).
Proof.
  intros Hc Hw. destruct (merge_run write_all flush healthy w_out) with existing blob line w as (w' & ? & _ & ?);
    [|auto with egdod|done|done|by exists w'].
  intros s b Hs. rewrite write_all_healthy by done. by eexists.
Qed.

Definition is_line (l : bytes) : Prop := ∃ l', l = l' ++ [LF] ∧ (LF ∉ l').

Lemma split_inclusive_pieces b : Forall (λ l, is_line (terminate l)) (split_inclusive LF b).
Proof.
  assert (Hnl : ∀ l, LF ∉ l → is_line (terminate l)).
  { intros l Hl. unfold terminate. rewrite ends_with_none by done. by exists l. }
  assert (Hcons : ∀ x l, x ≠ LF → is_line (terminate l) → is_line (terminate (x :: l))).
  { intros x l Hx (l' & E & Hl). unfold terminate, ends_with in *. destruct l as [|y l].
    - simpl. rewrite bool_decide_false by congruence. exists [x]. split; [done|set_solver].
    - change (last (x :: y :: l)) with (last (y :: l)). exists (x :: l').
      split; [|rewrite not_elem_of_cons; done]. case_bool_decide; simpl; rewrite <- E; done. }
  induction b as [|x b IH]; simpl; [done|]. destruct (byte_eqb x LF) eqn:Ex.
  - apply byte_eqb_true in Ex as ->. constructor; [|done]. exists []. split; [done|set_solver].
  - assert (x ≠ LF) by (intros ->; by rewrite byte_eqb_refl in Ex).
    destruct IH as [|l ls Hl Hls]; [|by constructor; auto]. constructor; [|done]. apply Hnl. set_solver.
Qed.
Lemma split_inclusive_lines ls b :
  Forall is_line ls → split_inclusive LF (mjoin ls ++ b) = ls ++ split_inclusive LF b.
Proof.
  induction 1 as [|l ls (l' & -> & Hl) _ IH]; [done|]. simpl. rewrite <- !app_assoc. simpl.
  by rewrite split_inclusive_line, IH.
Qed.
Lemma carries_terminate blob l : blob ≠ [] → carries blob (terminate l) = carries blob l.
Proof.
  intros Hb. unfold terminate. destruct (ends_with LF l); [done|]. unfold carries.
  destruct (split_on_app is_ascii_whitespace l [LF]) as (fr & x & f & more & -> & E & ->). simplify_eq/=.
  rewrite app_nil_r, !existsb_app. simpl. rewrite (bool_decide_false ([] = blob)) by congruence. by rewrite !orb_false_r.
Qed.

(** The lines of the result are the strangers and then the new line. *)
Lemma merged_lines blob line b :
  LF ∉ line → split_inclusive LF (merged blob line b) = strangers blob b ++ [line ++ [LF]].
Proof.
  intros Hl. unfold merged. rewrite split_inclusive_lines.
  - by rewrite split_inclusive_line.
  - unfold strangers. apply Forall_fmap. apply filter_Forall, split_inclusive_pieces.
Qed.
Lemma strangers_do_not_carry blob b : blob ≠ [] → Forall (λ l, carries blob l = false) (strangers blob b).
Proof.
  intros Hb. unfold strangers. apply Forall_fmap, Forall_forall. intros l Hl. apply list_elem_of_filter in Hl as [Hl _].
  simpl. by rewrite carries_terminate.
Qed.
Lemma strangers_terminated blob b : terminate <$> strangers blob b = strangers blob b.
Proof.
  unfold strangers. rewrite <- list_fmap_compose. apply list_fmap_ext. intros _ l _. simpl. unfold terminate.
  destruct (ends_with LF l) eqn:E; [by rewrite E|]. by rewrite ends_with_snoc.
Qed.

(** Installing the controller's key into [authorized_keys] succeeds and
    keeps every line that does not carry the key's blob, in order (only a
    missing final newline is added), leaves exactly one line carrying it, the
    new one at the end, and a rerun with the same line changes nothing;
    whatever the file holds, however it is cut into chunks, or if there is none. *)
Theorem merge_renews_exactly_one_line existing blob line w :
  match existing with Some r => clean r | None => True end → healthy w →
  blob ≠ [] → carries blob line = true → LF ∉ line →
  ∃ w' result,
    merge_authorized_keys write_all flush existing blob line w = (Ok tt, w') ∧ w_out w' = w_out w ++ result ∧
    filter (λ l, carries blob l = false) (split_inclusive LF result) =
      terminate <$> filter (λ l, carries blob l = false)
        (split_inclusive LF (match existing with Some r => rd_bytes r | None => [] end)) ∧
    filter (λ l, carries blob l = true) (split_inclusive LF result) = [line ++ [LF]] ∧
    (∀ r w2, clean r → rd_bytes r = result → healthy w2 → ∃ w3,
       merge_authorized_keys write_all flush (Some r) blob line w2 = (Ok tt, w3) ∧ w_out w3 = w_out w2 ++ result).
Proof.
  intros Hc Hw Hb Hcar Hl. set (b := match existing with Some r => rd_bytes r | None => [] end).
  destruct (merge_run_writer existing blob line w Hc Hw) as (w' & Hrun & Hout). fold b in Hout.
  exists w', (merged blob line b). pose proof (strangers_do_not_carry blob b Hb) as Hs.
  assert (Hline : carries blob (line ++ [LF]) = true).
  { rewrite <- Hcar, <- (carries_terminate blob line) by done. unfold terminate. by rewrite ends_with_none. }
  assert (Hkeep : filter (λ l, carries blob l = false) (split_inclusive LF (merged blob line b)) = strangers blob b).
  { rewrite merged_lines, filter_app by done. rewrite (filter_all _ (strangers blob b)) by done.
    rewrite filter_cons_False by congruence. by rewrite app_nil_r. }
  split_and!; [done|done|exact Hkeep| |].
  - rewrite merged_lines, filter_app by done. rewrite filter_cons_True by done.
    rewrite (filter_none _ (strangers blob b)); [done|]. eapply Forall_impl; [exact Hs|].
    simpl. intros x ->. done.
  - intros r w2 Hc2 Hr Hw2. destruct (merge_run_writer (Some r) blob line w2 Hc2 Hw2) as (w3 & Hrun3 & Hout3).
    exists w3. split; [done|]. rewrite Hout3, Hr. f_equal. unfold merged at 1. unfold strangers at 1.
    rewrite Hkeep, strangers_terminated. done.
Qed.
Lemma merge_renews_exactly_one_line_witness :
  let old := as_bytes "ssh-rsa AAAAother someone" ++ [LF] ++ as_bytes "ssh-ed25519 AAAAkey old" in
  let line := authorized_line (as_bytes "restrict") 0 (as_bytes "ssh-ed25519 AAAAkey egdod-controller") in
  key_blob (as_bytes "ssh-ed25519 AAAAkey egdod-controller") = Some (as_bytes "AAAAkey") ∧
  ∃ w' result,
    merge_authorized_keys write_all flush (Some [RData old]) (as_bytes "AAAAkey") line new_writer = (Ok tt, w') ∧
    w_out w' = w_out new_writer ++ result ∧
    filter (λ l, carries (as_bytes "AAAAkey") l = true) (split_inclusive LF result) = [line ++ [LF]].
Proof.
  intros old line. split; [reflexivity|].
  assert (Hc : clean [RData old]) by (repeat constructor).
  destruct (merge_renews_exactly_one_line (Some [RData old]) (as_bytes "AAAAkey") line new_writer)
    as (w' & result & E1 & E2 & _ & E3 & _).
  - exact Hc.
  - repeat split.
  - discriminate.
  - reflexivity.
  - apply (bool_decide_eq_false (LF ∈ line)). reflexivity.
  - exists w', result. auto.
Defined.
