(* ===== verification/Recipe.v ===== *)
(** * The [ssh] recipe itself (src/src/ssh.rs)

    The sequence of exec, copy and forward commands that ends in an [ssh] whose
    host key came over the authenticated channel.  Each command is the one of
    Commands.v, run over the next stream to the controller; the texts are those
    of Ssh.v. *)

From S2P Require Import Prelude Text Stream Fs Crypto Proto Transfer Pipe Net State Demo Controller Agent Commands Ssh.

Record Config := mkSshConfig {
  c_agent : string;
  c_user : string;
  c_authorized_keys : string;
  c_host_key_pub : string;
  c_sshd_argv : list string;
  c_keygen_argv : list string;
  c_target_addr : string;
  c_local_port : Z;
  c_ssh_argv : list string;
  c_key_options : string;
  c_key_ttl : Z                (** whole seconds, as the command line gives it; with the clock
                                   within [SystemTime], past which the program panics *)
}.

(** The operator's machine: the streams the commands to come will get from the
    control socket (an exhausted supply hangs up), what the attempts to read a
    banner through the forward will see ([None]: no connection, an error or a
    timeout), what the commands sent, and the programs started, with the files at
    that moment. *)
Record Rig := mkRig {
  rg_world : World;
  rg_streams : list (reader * writer);
  rg_banners : list (option bytes);
  rg_sent : list bytes;
  rg_started : list (list string * gmap path node)
}.

(** [ssh-keygen] (did it succeed, and its status), [ssh] (its exit code, unless
    a signal ended it) and [TcpListener::bind] with [local_addr]. *)
Class LocalPrograms := {
  run_keygen : list string → M World (bool * string);
  run_ssh : list string → M World (option Z);
  bind_loopback : Z → result Z
}.

Definition on_machine {A} (m : M World A) : M Rig A := λ s,
  let '(r, w) := m (rg_world s) in (r, mkRig w (rg_streams s) (rg_banners s) (rg_sent s) (rg_started s)).
Definition start (argv : list string) : M Rig unit := λ s,
  (Ok tt, mkRig (rg_world s) (rg_streams s) (rg_banners s) (rg_sent s) (rg_started s ++ [(argv, fs (rg_world s))])).

(** One command process, over the next stream. *)
Definition next_stream (s : Rig) : (reader * writer) * list (reader * writer) :=
  match rg_streams s with [] => (([], new_writer), []) | x :: l => (x, l) end.
Definition command {A} (m : M served A) : M Rig A := λ s,
  let '((rd, wr), rest) := next_stream s in
  let '(r, (_, (wr, w))) := m (rd, (wr, rg_world s)) in
  (r, mkRig w rest (rg_banners s) (rg_sent s ++ [w_out wr]) (rg_started s)).

Definition LOOPBACK : string := "127.0.0.1".

Section recipe.
Context `{Sha256} `{!StatvfsCall} `{!ControlSocket} `{!LocalPrograms}.
Context `{Postcard Route} `{Postcard RouteReply} `{Postcard Request} `{Postcard ExecFrame}
  `{Postcard Ack} `{Postcard PullStart}.
Context (dir : StateDir) (cfg : Config).

(** [forward_listener]: the local end is bound, and then every accepted connection
    is forwarded on its own; neither a failing accept nor a failing connection
    ends the loop. *)
Definition forward_bind (local_port : Z) : result Z :=
  context ("binding " +:+ LOOPBACK +:+ ":" +:+ pretty local_port) (bind_loopback local_port).
Fixpoint forward_accepts (agent remote : string) (accepts : list (result (reader * writer))) : M Rig unit :=
  match accepts with
  | [] => mret tt
  | Err _ :: accepts => forward_accepts agent remote accepts
  | Ok tcp :: accepts =>
      ignore (command (forward_one dir agent remote tcp));;
      forward_accepts agent remote accepts
  end.
Definition forward_listener (agent remote : string) (local_port : Z) (accepts : list (result (reader * writer)))
    : M Rig Z :=
  bound ← lift (forward_bind local_port);
  forward_accepts agent remote accepts;;
  mret bound.
(** [forward]: until ctrl-c; the line it prints. *)
Definition forward (agent remote : string) (local_port : Z) (accepts : list (result (reader * writer))) : M Rig string :=
  bound ← forward_listener agent remote local_port accepts;
  mret ("forwarding " +:+ LOOPBACK +:+ ":" +:+ pretty bound +:+ " -> " +:+ remote +:+ " on the target (ctrl-c to stop)").

Definition ensure_local_key (key : path) : M Rig unit :=
  there ← on_machine (fs_exists key);
  if (there : bool) then mret tt else
  let argv := ["ssh-keygen"; "-q"; "-t"; "ed25519"; "-N"; ""; "-C"; "egdod-controller"; "-f"; show_path key] in
  start argv;;
  st ← with_context "running ssh-keygen on the controller" (on_machine (run_keygen argv));
  let '(ok, status) := (st : bool * string) in
  if ok then mret tt else fail (anyhow ("ssh-keygen failed: " +:+ status)).

(** Merging into an open file. *)
Definition merge_into (p : path) (existing : option reader) (blob line : bytes) : M World unit := λ w,
  let '(r, (_, w)) := merge_authorized_keys file_write_all file_flush existing blob line (mkHandle p None, w) in
  (r, w).

Definition install_authorized_key (blob line : bytes) (scratch : path) : M Rig unit :=
  let pulled := join scratch "authorized_keys" in
  got ← command (pull_file dir (c_agent cfg) (c_authorized_keys cfg) pulled KEY_FILE_MAX_BYTES);
  existing ← match got with
             | Fetched _ _ => r ← on_machine (file_reader pulled); mret (Some r)
             | Missing => mret None
             end;
  let merged := join scratch "authorized_keys.merged" in
  on_machine (fs_create_new merged o600);;
  on_machine (merge_into merged existing blob line);;
  with_context "installing the authorized key"
    (command (push_file dir (c_agent cfg) merged (c_authorized_keys cfg)));;
  mret tt.

Definition read_host_key (scratch : path) : M Rig (option bytes) :=
  let pulled := join scratch "host_key.pub" in
  got ← command (pull_file dir (c_agent cfg) (c_host_key_pub cfg) pulled KEY_FILE_MAX_BYTES);
  match got with
  | Missing => mret None
  | Fetched _ _ =>
      r ← on_machine (file_reader pulled);
      first ← lift (read_until LF r).1;
      k ← lift (host_key_fields (c_host_key_pub cfg) first);
      mret (Some k)
  end.

(** [String::from_utf8_lossy(&err).trim()] in a message. *)
Definition lossy_trim (b : bytes) : string := of_bytes (trim_bytes (from_utf8_lossy b)).

Definition fetch_host_key (scratch : path) : M Rig bytes :=
  found ← read_host_key scratch;
  match found with
  | Some k => mret k
  | None =>
      x ← command (exec_capture dir (c_agent cfg) (c_keygen_argv cfg) EXEC_OUTPUT_MAX_BYTES);
      let '(code, _, err) := (x : Z * bytes * bytes) in
      ensure (bool_decide (code = 0))
        ("host key generation failed on the target (exit " +:+ pretty code +:+ "): " +:+ lossy_trim err);;
      again ← read_host_key scratch;
      match again with
      | Some k => mret k
      | None => fail (anyhow (c_host_key_pub cfg +:+ " still absent after key generation"))
      end
  end.

Definition banner : M Rig (option bytes) := λ s,
  match rg_banners s with
  | [] => (Ok None, s)
  | b :: l => (Ok (b' ← b; banner_text (take 64 b')), mkRig (rg_world s) (rg_streams s) l (rg_sent s) (rg_started s))
  end.

Fixpoint await_sshd (tries : nat) : M Rig unit :=
  match tries with
  | O => fail (anyhow ("sshd was started but never answered on " +:+ c_target_addr cfg))
  | S tries =>
      b ← banner;
      match b with Some _ => mret tt | None => await_sshd tries end
  end.
Definition ensure_sshd : M Rig unit :=
  b ← banner;
  match b with
  | Some _ => mret tt
  | None =>
      x ← command (exec_capture dir (c_agent cfg) (c_sshd_argv cfg) EXEC_OUTPUT_MAX_BYTES);
      let '(code, _, err) := (x : Z * bytes * bytes) in
      ensure (bool_decide (code = 0))
        ("starting sshd failed (exit " +:+ pretty code +:+ "): " +:+ lossy_trim err);;
      await_sshd 20
  end.

(** The invocation of [ssh]. *)
Definition ssh_command (bound : Z) : list string :=
  ["ssh"; "-o"; "StrictHostKeyChecking=yes"; "-o"; "BatchMode=yes"; "-o"; "IdentitiesOnly=yes"; "-o";
   "UserKnownHostsFile=" +:+ show_path (known_hosts_path dir); "-i"; show_path (ssh_key_path dir);
   "-p"; pretty bound; c_user cfg +:+ "@" +:+ LOOPBACK] ++ c_ssh_argv cfg.

Definition session (scratch : path) : M Rig Z :=
  let key := ssh_key_path dir in
  let pubkey := ssh_pub_path dir in
  let known_hosts := known_hosts_path dir in
  ensure_local_key key;;
  text ← with_context ("reading " +:+ show_path pubkey) (on_machine (fs_read_to_string pubkey));
  let pubkey_line := trim_bytes text in
  blob ← lift (match key_blob pubkey_line with
               | Some b => Ok b
               | None => Err (anyhow (show_path pubkey +:+ " is not an ssh public key"))
               end);
  now ← on_machine now_m;
  let line := authorized_line (as_bytes (c_key_options cfg)) (now + c_key_ttl cfg) pubkey_line in
  install_authorized_key blob line scratch;;
  host_key ← fetch_host_key scratch;
  bound ← lift (forward_bind (c_local_port cfg));
  ensure_sshd;;
  with_context ("writing " +:+ show_path known_hosts)
    (on_machine (fs_write known_hosts (known_hosts_entry LOOPBACK bound host_key)));;
  start (ssh_command bound);;
  code ← with_context "running ssh (is an ssh client installed on the controller?)"
           (on_machine (run_ssh (ssh_command bound)));
  mret (default 255 code).

Definition run : M Rig Z :=
  me ← on_machine (gets pid);
  let scratch := join (ssh_dir dir) ("scratch." +:+ pretty me) in
  ignore (on_machine (fs_remove_dir_all scratch));;
  with_context ("creating " +:+ show_path scratch) (on_machine (fs_create_dir_all scratch));;
  outcome ← attempt (session scratch);
  ignore (on_machine (fs_remove_dir_all scratch));;
  lift outcome.
End recipe.

(** ** Lemmas: how the operator's machine moves on *)

(** From [s] to [s']: commands were run over the next streams of the supply, and
    programs were started, all of them [P]. *)
Definition moved (P : list string * gmap path node → Prop) (s s' : Rig) : Prop :=
  ∃ sent started, rg_sent s' = rg_sent s ++ sent ∧ rg_streams s' = drop (length sent) (rg_streams s) ∧
    rg_started s' = rg_started s ++ started ∧ Forall P started.
#[export] Instance moved_preorder P : PreOrder (moved P).
Proof.
  split.
  - intros s. exists [], []. rewrite !app_nil_r. by split_and!.
  - intros s1 s2 s3 (a1 & p1 & A1 & B1 & C1 & D1) (a2 & p2 & A2 & B2 & C2 & D2).
    exists (a1 ++ a2), (p1 ++ p2). rewrite A2, A1, B2, B1, C2, C1, drop_drop, length_app, !app_assoc.
    split_and!; try done. by apply Forall_app_2.
Qed.

Definition moves P {A} (m : M Rig A) : Prop := ∀ s r s', m s = (r, s') → moved P s s'.

Section moving.
Context (P : list string * gmap path node → Prop).

Lemma moves_bind {A B} (m : M Rig A) (k : A → M Rig B) : moves P m → (∀ a, moves P (k a)) → moves P (m ≫= k).
Proof.
  intros Hm Hk s r s' [(e & E & _)|(a & s1 & E & Ek)]%bind_inv; [by eapply Hm|].
  etrans; [by eapply Hm|by eapply Hk].
Qed.
Lemma moved_bind {A B} (m : M Rig A) (k : A → M Rig B) s r s' :
  (m ≫= k) s = (r, s') → moves P m →
  (∀ a s1, m s = (Ok a, s1) → moved P s s1 → k a s1 = (r, s') → moved P s1 s') → moved P s s'.
Proof.
  intros [(e & E & _)|(a & s1 & E & Ek)]%bind_inv Hm Hk; [by eapply Hm|].
  assert (moved P s s1) by by eapply Hm. etrans; [done|by eapply Hk].
Qed.
Lemma moves_still {A} (m : M Rig A) : (∀ s, (m s).2 = s) → moves P m.
Proof. intros H s r s' E. specialize (H s). rewrite E in H. by simplify_eq/=. Qed.
Lemma moves_ret {A} (a : A) : moves P (mret a).
Proof. by apply moves_still. Qed.
Lemma moves_fail {A} e : moves P (fail (A := A) e).
Proof. by apply moves_still. Qed.
Lemma moves_lift {A} (r : result A) : moves P (lift r).
Proof. by apply moves_still. Qed.
Lemma moves_ensure b msg : moves P (ensure b msg).
Proof. apply moves_still. by destruct b. Qed.
Lemma moves_context {A} msg (m : M Rig A) : moves P m → moves P (with_context msg m).
Proof.
  intros Hm s r s'. unfold with_context. destruct (m s) as [x s1] eqn:E. intros; simplify_eq. by eapply Hm.
Qed.
Lemma moves_ignore {A} (m : M Rig A) : moves P m → moves P (ignore m).
Proof. intros Hm s r s'. unfold ignore. intros; simplify_eq. eapply Hm. by apply surjective_pairing. Qed.
Lemma moves_attempt {A} (m : M Rig A) : moves P m → moves P (attempt m).
Proof.
  intros Hm s r s'. unfold attempt. destruct (m s) as [x s1] eqn:E. intros; simplify_eq. by eapply Hm.
Qed.
Lemma moves_on_machine {A} (m : M World A) : moves P (on_machine m).
Proof.
  intros s r s'. unfold on_machine. destruct (m _) as [x w]. intros; simplify_eq.
  exists [], []. rewrite !app_nil_r. by split_and!.
Qed.
Lemma moves_command {A} (m : M served A) : moves P (command m).
Proof.
  intros s r s'. unfold command, next_stream.
  destruct (rg_streams s) as [|[rd wr] rest] eqn:Es; destruct (m _) as [x [rd' [wr' w]]]; intros; simplify_eq/=;
    exists [w_out wr'], []; rewrite Es, app_nil_r; by split_and!.
Qed.
Lemma moves_banner : moves P banner.
Proof.
  intros s r s'. unfold banner. destruct (rg_banners s); intros; simplify_eq;
    exists [], []; rewrite !app_nil_r; by split_and!.
Qed.
Lemma moves_start argv : (∀ files, P (argv, files)) → moves P (start argv).
Proof.
  intros HP s r s'. unfold start. intros; simplify_eq. exists []. eexists. rewrite app_nil_r.
  split_and!; [done..|]. by apply Forall_singleton.
Qed.
End moving.

Create HintDb recipe.
#[export] Hint Resolve moves_bind moves_ret moves_fail moves_lift moves_ensure moves_context moves_ignore
  moves_attempt moves_on_machine moves_command moves_banner : recipe.
(** Every branch of a piece of the recipe moves on. *)
Ltac moves := repeat (intros; first [progress eauto 2 with recipe | apply moves_bind | apply moves_context
  | apply moves_attempt | apply moves_ignore | by apply moves_start | case_goal]).

Section recipe_moves.
Context `{Sha256} `{!StatvfsCall} `{!ControlSocket} `{!LocalPrograms}.
Context `{Postcard Route} `{Postcard RouteReply} `{Postcard Request} `{Postcard ExecFrame}
  `{Postcard Ack} `{Postcard PullStart}.
Context (dir : StateDir) (cfg : Config) (P : list string * gmap path node → Prop).

Lemma install_authorized_key_moves blob line scratch : moves P (install_authorized_key dir cfg blob line scratch).
Proof. unfold install_authorized_key. moves. Qed.
Lemma read_host_key_moves scratch : moves P (read_host_key dir cfg scratch).
Proof. unfold read_host_key. moves. Qed.
Lemma fetch_host_key_moves scratch : moves P (fetch_host_key dir cfg scratch).
Proof. pose proof (read_host_key_moves scratch). unfold fetch_host_key. moves. Qed.
Lemma await_sshd_moves n : moves P (await_sshd cfg n).
Proof. induction n; cbn [await_sshd]; moves. Qed.
Lemma ensure_sshd_moves : moves P (ensure_sshd dir cfg).
Proof. pose proof (await_sshd_moves 20). unfold ensure_sshd. moves. Qed.
Lemma ensure_local_key_moves key :
  (∀ l files, P ("ssh-keygen" :: l, files)) → moves P (ensure_local_key key).
Proof. intros HP. unfold ensure_local_key. apply moves_bind; [moves|]. intros []; [moves|].
  apply moves_bind; [by apply moves_start|moves]. Qed.
End recipe_moves.
#[export] Hint Resolve install_authorized_key_moves read_host_key_moves fetch_host_key_moves await_sshd_moves
  ensure_sshd_moves : recipe.

(** ** Lemmas: files *)

Lemma file_reader_ok p w r w' :
  file_reader p w = (Ok r, w') →
  fs w' = fs w ∧ (clean r → ∃ f, fs w !! p = Some (NFile f) ∧ rd_bytes r = f_data f) ∧
  ∀ f, fs w !! p = Some (NFile f) → rd_bytes r `prefix_of` f_data f.
Proof.
  unfold file_reader. intros (n & w1 & Es & Hr)%bind_ok.
  destruct (syscall_cases (do_stat p) w) as [(f & w2 & E & _)|(w2 & E & Hfs & _)]; rewrite E in Es; [done|].
  assert (w1 = w2) as -> by (unfold do_stat in Es; repeat case_hyp Es; by simplify_eq).
  rewrite <- Hfs. unfold next_fault in Hr.
  assert (Hno : ∀ l e, ¬ clean (l ++ [RErr e])) by (intros l e [_ Hc]%Forall_app; by inversion Hc).
  repeat case_hyp Hr; simplify_eq/=; rewrite ?rd_bytes_data; unfold rd_bytes; simpl; rewrite ?app_nil_r;
    (split_and!; [done|intros Hc|intros ? [= <-]]); eauto using prefix_take;
    first [by destruct (Hno [] _ Hc)|by destruct (Hno [_] _ Hc)].
Qed.

Lemma create_new_ok p mode w w' :
  fs_create_new p mode w = (Ok tt, w') →
  ∃ u, fs w' = <[p := NFile (mkFile [] (Z.ldiff mode u))]> (fs w).
Proof.
  unfold fs_create_new.
  destruct (syscall_cases (do_create_new p mode) w) as [(f & w2 & -> & _)|(w2 & -> & Hfs & _)]; [done|].
  unfold do_create_new. rewrite <- Hfs. repeat case_goal; intros; simplify_eq/=. by eexists.
Qed.

(** What a file handle promises: a failed write is remembered, and otherwise the
    file holds everything written. *)
Definition written_so_far (p : path) (m : Z) (t : bytes) (s : Fs.handle * World) : Prop :=
  h_path s.1 = p ∧ (h_stash s.1 = None → fs s.2 !! p = Some (NFile (mkFile t m))).

Lemma written_so_far_put p m t b s s' :
  written_so_far p m t s → file_write_all b s = (Ok tt, s') → written_so_far p m (t ++ b) s'.
Proof.
  destruct s as [[q o] w]. intros [Hp Hf]. simpl in *. subst q. unfold file_write_all. simpl.
  destruct o; [done|]. destruct (fs_append_file p b w _ (Hf eq_refl)) as (d & w1 & Hw & _ & [[-> ->]|(e & -> & _)]);
    intros; simplify_eq; split; try done.
  intros _. simpl. by rewrite Hw, lookup_insert_eq.
Qed.

Lemma merge_into_ok p existing blob line m w w' :
  fs w !! p = Some (NFile (mkFile [] m)) → merge_into p existing blob line w = (Ok tt, w') →
  match existing with Some r => clean r | None => True end ∧
  fs w' !! p = Some (NFile (mkFile (merged blob line (match existing with Some r => rd_bytes r | None => [] end)) m)).
Proof.
  intros Hf. unfold merge_into. destruct (merge_authorized_keys _ _ _ _ _ _) as [x [h w1]] eqn:E. intros; simplify_eq.
  destruct (merge_sound _ _ (written_so_far p m) (written_so_far_put p m) _ _ _ _ _ E) as (Hc & [[q o] w2] & Hg & Es);
    [by split|].
  split; [done|]. destruct Hg as [Hp Hg]. revert Es. unfold file_flush. simpl in *. destruct o; [done|].
  intros; simplify_eq. auto.
Qed.

(** The first line of a file, with its terminator if it has one. *)
Definition first_line (b : bytes) : bytes := default [] (head (split_inclusive LF b)).

Lemma file_first_line p w r w' f l r' :
  file_reader p w = (Ok r, w') → read_until LF r = (Ok l, r') → fs w !! p = Some (NFile f) →
  l = first_line (f_data f).
Proof.
  intros Hr Hl Hf. apply file_reader_ok in Hr as (_ & Hc & Hp). destruct (Hp f Hf) as [k Hk].
  apply read_until_ok in Hl as (Hb & Hc' & Hl). unfold first_line. destruct Hl as [(l' & -> & Hl)|[Hl ->]].
  - by rewrite Hk, Hb, <- !app_assoc; simpl; rewrite split_inclusive_line.
  - destruct (Hc ltac:(by apply Hc'; constructor)) as (f' & Hf' & E). assert (f' = f) as -> by congruence.
    rewrite <- E, Hb. simpl. rewrite app_nil_r. destruct l as [|x l]; [done|]. by rewrite split_inclusive_last.
Qed.

Lemma fs_write_ok p b w w' :
  fs_write p b w = (Ok tt, w') → ∃ m, fs w' !! p = Some (NFile (mkFile b m)).
Proof.
  unfold fs_write. intros ([] & w1 & Eo & Ea)%bind_ok.
  destruct (syscall_cases (do_open_truncate p) w) as [(f & w2 & E & _)|(w2 & E & _)]; rewrite E in Eo; [done|].
  assert (∃ m, fs w1 !! p = Some (NFile (mkFile [] m))) as [m Hm].
  { unfold do_open_truncate in Eo. repeat case_hyp Eo; simplify_eq/=; rewrite lookup_insert_eq; eauto. }
  destruct (fs_append_file p b w1 _ Hm) as (d & w3 & Hw & _ & [[-> Ef]|(e & Ef & _)]); rewrite Ef in Ea; simplify_eq.
  exists m. by rewrite Hw, lookup_insert_eq.
Qed.

Lemma on_machine_ok {A} (m : M World A) s a s' :
  on_machine m s = (Ok a, s') →
  m (rg_world s) = (Ok a, rg_world s') ∧ rg_streams s' = rg_streams s ∧ rg_sent s' = rg_sent s ∧
  rg_started s' = rg_started s.
Proof. unfold on_machine. destruct (m _) as [x w]. intros; by simplify_eq. Qed.

(** ** The target at the other end *)

Section target.
Context `{IrohKeys} `{RelayUrls} `{Sha256Laws} `{!StatvfsCall} `{!ControlSocket} `{!Processes} `{!TcpConnect}
  `{!LocalPrograms}.
Context `{PostcardLaws Route} `{PostcardLaws RouteReply} `{PostcardLaws Request} `{PostcardLaws ExecFrame}
  `{PostcardLaws Ack} `{PostcardLaws PullStart}.
Context (sessions : list (PublicKey * Session)) (paths : Conn → list Path) (open_bi : Conn → result unit)
  (conn : Conn).

(** The commands between [s] and [s'] talk to the target behind [conn] through
    [serve]: the [i]th one finds it in the first world of [targets !! i] and
    leaves it in the second. *)
Record channel (s s' : Rig) (targets : list (World * World)) : Prop := mkChannel {
  ch_fresh : Forall (λ io, io.2 = new_writer ∧ clean io.1) (rg_streams s);
  ch_target : Forall (λ t : World * World, honest t.1 ∧
    ∀ p f, fs t.1 !! p = Some (NFile f) → zlen (f_data f) ≤ u64_max) targets;
  ch_answered : ∀ i rd wr sent,
    rg_streams s !! i = Some (rd, wr) → rg_sent s' !! (length (rg_sent s) + i)%nat = Some sent →
    ∃ wt wt', targets !! i = Some (wt, wt') ∧ answered sessions paths open_bi conn sent (rd_bytes rd) wt wt'
}.

Lemma channel_before P s s1 s2 targets : moved P s1 s2 → channel s s2 targets → channel s s1 targets.
Proof.
  intros (sent & started & E & _) [Hfr Htg Han]. split; [done..|]. intros i rd wr x Hs Hx.
  eapply Han; [done|]. rewrite E. by apply lookup_app_l_Some.
Qed.
Lemma channel_after n s s1 s' targets :
  rg_streams s1 = drop n (rg_streams s) → length (rg_sent s1) = (length (rg_sent s) + n)%nat →
  channel s s' targets → channel s1 s' (drop n targets).
Proof.
  intros Es El [Hfr Htg Han]. split; [rewrite Es; by apply Forall_drop|by apply Forall_drop|].
  intros i rd wr x Hs Hx. rewrite Es, lookup_drop in Hs. rewrite El in Hx.
  destruct (Han (n + i)%nat rd wr x) as (wt & wt' & Ht & Ha); [done| |].
  { by rewrite Nat.add_assoc. }
  exists wt, wt'. by rewrite lookup_drop.
Qed.
Lemma channel_still s s1 s' targets :
  rg_streams s1 = rg_streams s → rg_sent s1 = rg_sent s → channel s s' targets → channel s1 s' targets.
Proof.
  intros Es El. rewrite <- (drop_0 targets) at 2. apply channel_after; [by rewrite drop_0|]. rewrite El. lia.
Qed.
Lemma channel_moved P s s1 s' targets :
  moved P s s1 → channel s s' targets → ∃ n, channel s1 s' (drop n targets).
Proof.
  intros (sent & started & E & Es & _) Hc. exists (length sent). eapply channel_after; [done| |done].
  by rewrite E, length_app.
Qed.

(** One command: its stream, and the target's part of it. *)
Lemma command_ok {A} (m : M served A) s a s' targets :
  command m s = (Ok a, s') → channel s s' targets →
  length (rg_sent s') = (length (rg_sent s) + 1)%nat ∧ rg_streams s' = drop 1 (rg_streams s) ∧
  ∃ rd rd' wr' w', m (rd, (new_writer, rg_world s)) = (Ok a, (rd', (wr', w'))) ∧ rg_world s' = w' ∧ clean rd ∧
    (rd = [] ∨ ∃ wt wt', targets !! 0%nat = Some (wt, wt') ∧ honest wt ∧
       (∀ p f, fs wt !! p = Some (NFile f) → zlen (f_data f) ≤ u64_max) ∧
       answered sessions paths open_bi conn (w_out wr') (rd_bytes rd) wt wt').
Proof.
  unfold command, next_stream. destruct (rg_streams s) as [|[rd wr] rest] eqn:Es.
  - destruct (m _) as [x [rd' [wr' w']]] eqn:Em. intros; simplify_eq/=. rewrite length_app. split_and!; [done..|].
    exists [], rd', wr', w'. split_and!; eauto.
  - destruct (m _) as [x [rd' [wr' w']]] eqn:Em. intros E [Hf Ht Ha]. simplify_eq/=. rewrite length_app.
    rewrite Es in Hf. apply Forall_cons in Hf as [[Hwr Hc] _]. simpl in *. subst wr. split_and!; [done..|].
    exists rd, rd', wr', w'. split_and!; [done..|]. right.
    destruct (Ha 0%nat rd new_writer (w_out wr')) as (wt & wt' & E & Han); [by rewrite Es| |].
    { by rewrite Nat.add_0_r, lookup_app_r, Nat.sub_diag by lia. }
    exists wt, wt'. split; [done|]. destruct (Forall_lookup_1 _ _ _ _ Ht E) as [? ?]. by split_and!.
Qed.

Lemma command_pull dir agent remote local max s p s' targets :
  command (pull_file dir agent remote local max) s = (Ok p, s') → channel s s' targets →
  ∃ id wt wt', pick sessions agent = Ok (id, conn) ∧ targets !! 0%nat = Some (wt, wt') ∧
  match p with
  | Fetched _ _ => ∃ f, fs wt !! parse_path remote = Some (NFile f) ∧
      fs (rg_world s') !! local = Some (NFile (mkFile (f_data f) (Z.land (f_mode f) o7777)))
  | Missing => fs wt !! parse_path remote = None
  end.
Proof.
  intros E Hch. destruct (command_ok _ _ _ _ _ E Hch) as (_ & _ & rd & rd' & wr' & w' & Em & -> & Hc & [->|(wt & wt' & Ht & Hh & Hu & Ha)]).
  { apply pull_file_ok in Em as (? & ? & ? & ? & ? & ? & ? & ? & _ & _ & _ & Er & _).
    pose proof (read_msg_empty (T := RouteReply) [] ltac:(done) eq_refl) as He. by rewrite Er in He. }
  destruct (pull_fetched _ _ _ _ _ _ _ _ _ _ _ _ _ _ _ _ _ Em Hc Ha Hh) as (id & Hp & Hx).
  exists id, wt, wt'. split_and!; [done..|]. destruct p; [|done]. destruct Hx as (f & Hf & Hx).
  exists f. split; [done|]. apply Hx. by eapply Hu.
Qed.
Lemma command_push dir agent local remote s x s' targets :
  command (push_file dir agent local remote) s = (Ok x, s') → channel s s' targets →
  ∃ id wt wt' f, pick sessions agent = Ok (id, conn) ∧ targets !! 0%nat = Some (wt, wt') ∧
    fs (rg_world s) !! local = Some (NFile f) ∧
    fs wt' !! parse_path remote = Some (NFile (mkFile (f_data f) (Z.land (f_mode f) o7777))).
Proof.
  intros E Hch. destruct x as [len sha].
  destruct (command_ok _ _ _ _ _ E Hch) as (_ & _ & rd & rd' & wr' & w' & Em & _ & Hc & [->|(wt & wt' & Ht & Hh & Hu & Ha)]).
  { apply push_file_ok in Em as (? & ? & ? & ? & ? & ? & ? & ? & _ & _ & _ & _ & _ & _ & Er & _).
    pose proof (read_msg_empty (T := RouteReply) [] ltac:(done) eq_refl) as He. by rewrite Er in He. }
  destruct (push_landed _ _ _ _ _ _ _ _ _ _ _ _ _ _ _ _ _ Em Hc Ha) as (id & f & Hp & Hf & _ & Hx).
  by exists id, wt, wt', f.
Qed.

(** C15: Installing the key keeps what the target had: when the step reports
    success, the target's authorized_keys holds every line it held when it was
    pulled except those carrying this key's blob, each terminated, and then the
    new line, readable and writable by its owner at most; whatever faults either
    machine met on the way and however the streams were cut.  A target without
    the file gets one with the new line alone. *)
Theorem installed_key_keeps_the_rest dir cfg blob line scratch s s' targets :
  install_authorized_key dir cfg blob line scratch s = (Ok tt, s') → channel s s' targets →
  ∃ id wt wt1 wt2 wt3 old mode,
    pick sessions (c_agent cfg) = Ok (id, conn) ∧
    targets !! 0%nat = Some (wt, wt1) ∧ targets !! 1%nat = Some (wt2, wt3) ∧
    match fs wt !! parse_path (c_authorized_keys cfg) with
    | Some (NFile f) => old = f_data f
    | None => old = []
    | _ => False
    end ∧
    fs wt3 !! parse_path (c_authorized_keys cfg) = Some (NFile (mkFile (merged blob line old) mode)) ∧
    Z.ldiff mode o600 = 0.
Proof.
  unfold install_authorized_key. intros (got & s1 & E1 & E)%bind_ok Hch.
  assert (Hm1 : moved (λ _, True) s1 s').
  { refine ((_ : moves _ _) _ _ _ E). moves. }
  pose proof (channel_before _ _ _ _ _ Hm1 Hch) as Hch1.
  destruct (command_ok _ _ _ _ _ E1 Hch1) as (Hl1 & Hs1 & _).
  destruct (command_pull _ _ _ _ _ _ _ _ _ E1 Hch1) as (id & wt & wt1 & Hp & Ht & Hgot). clear E1.
  pose proof (channel_after 1 _ _ _ _ Hs1 Hl1 Hch) as Hch2.
  apply bind_ok in E as (existing & s2 & Eex & E).
  apply bind_ok in E as ([] & s3 & (Ec & Hs3 & Hl3 & _)%on_machine_ok & E).
  apply bind_ok in E as ([] & s4 & (Em & Hs4 & Hl4 & _)%on_machine_ok & E).
  apply bind_ok in E as (x & s5 & Epush%with_context_ok & [= <-]).
  destruct (create_new_ok _ _ _ _ Ec) as (u & Hc).
  destruct (merge_into_ok _ _ _ _ (Z.ldiff o600 u) _ _ ltac:(by rewrite Hc, lookup_insert_eq) Em) as [Hcl Hmg].
  assert (rg_streams s2 = rg_streams s1 ∧ rg_sent s2 = rg_sent s1 ∧
    match got with
    | Fetched _ _ => ∃ r, existing = Some r ∧ file_reader (join scratch "authorized_keys") (rg_world s1) = (Ok r, rg_world s2)
    | Missing => existing = None
    end) as (Hs2 & Hl2 & Hex).
  { destruct got; [|by injection Eex as <- <-].
    apply bind_ok in Eex as (r & s0 & (Er & ? & ? & _)%on_machine_ok & [= <- <-]). eauto. }
  assert (Hch4 : channel s4 s5 (drop 1 targets)).
  { refine (channel_still s1 _ _ _ _ _ Hch2); congruence. }
  destruct (command_push _ _ _ _ _ _ _ _ Epush Hch4) as (id2 & wt2 & wt3 & f2 & _ & Ht2 & Hf2 & Hland).
  rewrite lookup_drop in Ht2. rewrite Hmg in Hf2. injection Hf2 as <-. simpl in Hland.
  exists id, wt, wt1, wt2, wt3, (match existing with Some r => rd_bytes r | None => [] end),
    (Z.land (Z.ldiff o600 u) o7777).
  split_and!; [done..| |done|].
  - destruct got as [len sha|]; [|by rewrite Hgot, Hex].
    destruct Hgot as (f & Hf & Hlocal), Hex as (r & -> & Er). rewrite Hf.
    destruct (file_reader_ok _ _ _ _ Er) as [_ Hr]. destruct Hr as [Hr _]. destruct (Hr Hcl) as (f' & Hf' & ->).
    rewrite Hlocal in Hf'. by injection Hf' as <-.
  - apply Z.bits_inj'. intros n Hn. rewrite Z.ldiff_spec, Z.land_spec, Z.ldiff_spec, Z.bits_0.
    by destruct (Z.testbit o600 n), (Z.testbit u n), (Z.testbit o7777 n).
Qed.

(** The key of the host, as the target's file has it. *)
Definition host_key_of (cfg : Config) (targets : list (World * World)) (k : bytes) : Prop :=
  ∃ i wt wt' f, targets !! i = Some (wt, wt') ∧
    fs wt !! parse_path (c_host_key_pub cfg) = Some (NFile f) ∧
    host_key_fields (c_host_key_pub cfg) (first_line (f_data f)) = Ok k.
Lemma host_key_of_drop cfg n targets k : host_key_of cfg (drop n targets) k → host_key_of cfg targets k.
Proof. intros (i & wt & wt' & f & E & ?). rewrite lookup_drop in E. by exists (n + i)%nat, wt, wt', f. Qed.

Lemma read_host_key_ok dir cfg scratch s k s' targets :
  read_host_key dir cfg scratch s = (Ok (Some k), s') → channel s s' targets →
  (∃ id, pick sessions (c_agent cfg) = Ok (id, conn)) ∧ host_key_of cfg targets k.
Proof.
  unfold read_host_key. intros (got & s1 & E1 & E)%bind_ok Hch.
  assert (Hm1 : moved (λ _, True) s1 s') by (refine ((_ : moves _ _) _ _ _ E); moves).
  destruct (command_pull _ _ _ _ _ _ _ _ _ E1 (channel_before _ _ _ _ _ Hm1 Hch)) as (id & wt & wt' & Hp & Ht & Hgot).
  split; [by exists id|]. destruct got as [len sha|]; [|done]. destruct Hgot as (f & Hf & Hlocal).
  apply bind_ok in E as (r & s2 & (Er & _)%on_machine_ok & E).
  apply bind_ok in E as (first & s3 & [= Efirst <-] & E). apply bind_ok in E as (k' & s4 & [= Ek <-] & [= -> <-]).
  destruct (read_until LF r) as [x r'] eqn:El. simpl in Efirst. subst x.
  exists 0%nat, wt, wt', f. split_and!; [done..|].
  pose proof (file_first_line _ _ _ _ _ _ _ Er El Hlocal) as Hfl. simpl in Hfl. by rewrite <- Hfl.
Qed.

Lemma fetch_host_key_ok dir cfg scratch s k s' targets :
  fetch_host_key dir cfg scratch s = (Ok k, s') → channel s s' targets →
  (∃ id, pick sessions (c_agent cfg) = Ok (id, conn)) ∧ host_key_of cfg targets k.
Proof.
  unfold fetch_host_key. intros ([k'|] & s1 & E1 & E)%bind_ok Hch.
  { injection E as <- <-. by eapply read_host_key_ok. }
  apply bind_ok in E as ([[code out] err] & s2 & E2 & E). apply bind_ok in E as ([] & s3 & E3 & E).
  apply bind_ok in E as ([k'|] & s4 & E4 & [= <- <-]).
  assert (Hm : moved (λ _, True) s s3).
  { etrans; [by eapply read_host_key_moves|]. etrans; [by eapply moves_command|by eapply moves_ensure]. }
  destruct (channel_moved _ _ _ _ _ Hm Hch) as [n Hn].
  destruct (read_host_key_ok _ _ _ _ _ _ _ E4 Hn) as [? ?%host_key_of_drop]. done.
Qed.

(** Among [-o option=value] arguments, [ssh] obeys the first for an option. *)
Definition ssh_told (argv : list string) (option value : string) : Prop :=
  ∃ before after, argv = before ++ "-o" :: (option +:+ ("=" +:+ value)) :: after ∧
    Forall (λ x, String.prefix option x = false) before.
(** Whatever arguments the operator adds. *)
Definition strict (dir : StateDir) (cfg : Config) (bound : Z) (argv : list string) : Prop :=
  ssh_told argv "StrictHostKeyChecking" "yes" ∧ ssh_told argv "BatchMode" "yes" ∧
  ssh_told argv "UserKnownHostsFile" (show_path (known_hosts_path dir)) ∧
  ∃ options, argv = options ++ ["-p"; pretty bound; c_user cfg +:+ "@" +:+ LOOPBACK] ++ c_ssh_argv cfg.
Lemma ssh_command_strict dir cfg bound : strict dir cfg bound (ssh_command dir cfg bound).
Proof.
  split_and!; [exists ["ssh"]|exists (take 3 (ssh_command dir cfg bound))|exists (take 7 (ssh_command dir cfg bound))
    |by exists (take 11 (ssh_command dir cfg bound))]; eexists; (split; [reflexivity|by repeat constructor]).
Qed.

(** A started program is not [ssh], or it is an [ssh] that checks the host
    against a key the target itself supplied. *)
Definition pinned (dir : StateDir) (cfg : Config) (targets : list (World * World))
    (started : list string * gmap path node) : Prop :=
  head started.1 ≠ Some "ssh" ∨
  ∃ bound k mode id, strict dir cfg bound started.1 ∧
    started.2 !! known_hosts_path dir = Some (NFile (mkFile (known_hosts_entry LOOPBACK bound k) mode)) ∧
    pick sessions (c_agent cfg) = Ok (id, conn) ∧ host_key_of cfg targets k.

Lemma ssh_step_pinned dir cfg bound k id targets s s' r :
  pick sessions (c_agent cfg) = Ok (id, conn) → host_key_of cfg targets k →
  (with_context ("writing " +:+ show_path (known_hosts_path dir))
     (on_machine (fs_write (known_hosts_path dir) (known_hosts_entry LOOPBACK bound k)));;
   start (ssh_command dir cfg bound);;
   code ← with_context "running ssh (is an ssh client installed on the controller?)"
            (on_machine (run_ssh (ssh_command dir cfg bound)));
   mret (default 255 code)) s = (r, s') → moved (pinned dir cfg targets) s s'.
Proof.
  intros Hp Hk E. refine (moved_bind _ _ _ _ _ _ E _ _); [moves|].
  intros [] s1 (E1 & _)%with_context_ok%on_machine_ok _ Ek. apply fs_write_ok in E1 as [mode Hm].
  revert Ek. unfold mbind at 1, M_bind at 1, start. cbn [fst snd]. intros Ek.
  etrans; [|refine ((_ : moves _ _) _ _ _ Ek); moves].
  exists [], [(ssh_command dir cfg bound, fs (rg_world s1))]. rewrite app_nil_r. split_and!; [done..|].
  apply Forall_singleton. right. exists bound, k, mode, id. split; [apply ssh_command_strict|done].
Qed.

Lemma session_pinned dir cfg scratch s r s' targets :
  session dir cfg scratch s = (r, s') → channel s s' targets → moved (pinned dir cfg targets) s s'.
Proof.
  unfold session. intros E Hch. set (P := pinned dir cfg targets).
  refine (moved_bind P _ _ _ _ _ E _ _); [by apply ensure_local_key_moves; left|intros [] s1 _ M1 E1].
  refine (moved_bind P _ _ _ _ _ E1 _ _); [moves|intros text s2 _ M2 E2].
  refine (moved_bind P _ _ _ _ _ E2 _ _); [moves|intros blob s3 _ M3 E3].
  refine (moved_bind P _ _ _ _ _ E3 _ _); [moves|intros now s4 _ M4 E4].
  refine (moved_bind P _ _ _ _ _ E4 _ _); [moves|intros [] s5 _ M5 E5].
  refine (moved_bind P _ _ _ _ _ E5 _ _); [moves|intros k s6 Ek M6 E6].
  assert (M : moved P s s5) by (do 4 (etrans; [done|]); done).
  destruct (channel_moved _ _ _ _ _ M Hch) as [n Hn].
  assert (M' : moved (λ _, True) s6 s') by (refine ((_ : moves _ _) _ _ _ E6); moves).
  destruct (fetch_host_key_ok _ _ _ _ _ _ _ Ek (channel_before _ _ _ _ _ M' Hn)) as [[id Hp] Hk%host_key_of_drop].
  refine (moved_bind P _ _ _ _ _ E6 _ _); [moves|intros bound s7 _ _ E7].
  refine (moved_bind P _ _ _ _ _ E7 _ _); [moves|intros [] s8 _ _ E8].
  by eapply ssh_step_pinned.
Qed.

(** C14: No trust on first use: whatever happens during the recipe, every [ssh]
    it starts is told to refuse unknown hosts and to ask nobody, before any
    argument of the operator that could say otherwise, and at that moment the
    one known_hosts file it is given holds a single entry, for the forwarded
    port, whose key is the one on the first line of the host key
    file that was on the approved target during this very run. *)
Theorem ssh_is_pinned_to_the_target dir cfg s r s' targets :
  run dir cfg s = (r, s') → channel s s' targets →
  ∃ started, rg_started s' = rg_started s ++ started ∧ Forall (pinned dir cfg targets) started.
Proof.
  unfold run. intros E Hch. set (P := pinned dir cfg targets).
  assert (moved P s s') as (? & started & _ & _ & ? & ?); [|by exists started].
  refine (moved_bind P _ _ _ _ _ E _ _); [moves|intros me s1 _ M1 E1].
  refine (moved_bind P _ _ _ _ _ E1 _ _); [moves|intros [] s2 _ M2 E2].
  refine (moved_bind P _ _ _ _ _ E2 _ _); [moves|intros [] s3 _ M3 E3].
  assert (M : moved P s s3) by (do 2 (etrans; [done|]); done).
  destruct (channel_moved _ _ _ _ _ M Hch) as [n Hn].
  apply bind_attempt in E3 as (out & s4 & Es & E4).
  etrans; [|refine ((_ : moves P _) _ _ _ E4); moves].
  assert (M' : moved (λ _, True) s4 s') by (refine ((_ : moves _ _) _ _ _ E4); moves).
  pose proof (session_pinned _ _ _ _ _ _ _ Es (channel_before _ _ _ _ _ M' Hn)) as (a & b & A & B & C & D).
  exists a, b. split_and!; [done..|]. eapply Forall_impl; [done|]. intros x [?|(bd & k & mode & id & ? & ? & ? & ?%host_key_of_drop)];
    [by left|right]. by exists bd, k, mode, id.
Qed.
End target.

(** ** Waiting for the server *)

Definition answers (b : option bytes) : Prop := is_Some (b' ← b; banner_text (take 64 b')).

Section waiting.
Context `{Sha256} `{!StatvfsCall} `{!ControlSocket} `{!LocalPrograms}.
Context `{Postcard Route} `{Postcard RouteReply} `{Postcard Request} `{Postcard ExecFrame}
  `{Postcard Ack} `{Postcard PullStart}.
Context (dir : StateDir) (cfg : Config).

(** One look: an answer, a miss, or nothing left to see. *)
Lemma banner_cases s :
  (∃ b l s', rg_banners s = b :: l ∧ banner s = (Ok (b' ← b; banner_text (take 64 b')), s') ∧
     rg_banners s' = l ∧ rg_sent s' = rg_sent s) ∨
  (rg_banners s = [] ∧ banner s = (Ok None, s)).
Proof. unfold banner. destruct (rg_banners s) as [|b l]; [by right|left]. eauto 10. Qed.

Lemma await_sshd_ok n s s' :
  await_sshd cfg n s = (Ok tt, s') →
  ∃ misses b, rg_banners s = misses ++ b :: rg_banners s' ∧ answers b ∧ Forall (λ x, ¬ answers x) misses ∧
    (length misses < n)%nat ∧ rg_sent s' = rg_sent s.
Proof.
  revert s. induction n as [|n IH]; intros s; [done|]. cbn [await_sshd]. intros (b & s1 & Eb & E)%bind_ok.
  destruct (banner_cases s) as [(b0 & l & s2 & El & Eb' & <- & Hs)|[El Eb']]; rewrite Eb' in Eb; simplify_eq.
  - unfold answers. destruct (b' ← b0; _) as [t|] eqn:Et.
    + injection E as <-. exists [], b0. rewrite Et. simpl. split_and!; [done|by eexists|by constructor|lia|done].
    + destruct (IH _ E) as (misses & b & Hb & Ha & Hm & Hl & Hsent). exists (b0 :: misses), b. rewrite El, Hb.
      split_and!; [done|done| |simpl; lia|congruence]. constructor; [|done]. unfold answers. rewrite Et. by intros [].
  - destruct (IH _ E) as (misses & b & Hb & _). rewrite El in Hb. by destruct misses.
Qed.

(** The server answered before anybody trusts it: when the step reports
    success, a banner starting with SSH- was read through the forward itself; it
    was read at the first look, and then nothing was run on the target, or within
    twenty more looks after a single start command. *)
Theorem sshd_answered s s' :
  ensure_sshd dir cfg s = (Ok tt, s') →
  ∃ misses b, rg_banners s = misses ++ b :: rg_banners s' ∧ answers b ∧ Forall (λ x, ¬ answers x) misses ∧
    (length misses ≤ 20)%nat ∧
    length (rg_sent s') = (length (rg_sent s) + if bool_decide (misses = []) then 0 else 1)%nat.
Proof.
  unfold ensure_sshd. intros (b & s1 & Eb & E)%bind_ok.
  assert (Hrun : ∀ s2, b = None → (x ← command (exec_capture dir (c_agent cfg) (c_sshd_argv cfg) EXEC_OUTPUT_MAX_BYTES);
    let '(code, _, err) := (x : Z * bytes * bytes) in
    ensure (bool_decide (code = 0)) ("starting sshd failed (exit " +:+ pretty code +:+ "): " +:+ lossy_trim err);;
    await_sshd cfg 20) s2 = (Ok tt, s') →
    ∃ misses b, rg_banners s2 = misses ++ b :: rg_banners s' ∧ answers b ∧ Forall (λ x, ¬ answers x) misses ∧
      (length misses < 20)%nat ∧ length (rg_sent s') = (length (rg_sent s2) + 1)%nat).
  { intros s2 _ ([[code out] err] & s3 & Ec & Ek)%bind_ok. apply bind_ok in Ek as ([] & s4 & Een & Ek).
    assert (s4 = s3) as -> by (unfold ensure in Een; case_bool_decide; by simplify_eq).
    assert (rg_banners s3 = rg_banners s2 ∧ length (rg_sent s3) = (length (rg_sent s2) + 1)%nat) as [Hb Hl].
    { revert Ec. unfold command. destruct (next_stream s2) as [[rd wr] rest]. destruct (exec_capture _ _ _ _ _) as [x [? [? ?]]].
      intros; simplify_eq/=. by rewrite length_app. }
    destruct (await_sshd_ok _ _ _ Ek) as (misses & x & ? & ? & ? & ? & ->). rewrite <- Hb. by exists misses, x. }
  destruct (banner_cases s) as [(b0 & l & s2 & El & Eb' & <- & Hs)|[El Eb']]; rewrite Eb' in Eb; simplify_eq.
  - destruct (b' ← b0; _) as [t|] eqn:Et.
    + injection E as <-. exists [], b0. unfold answers. rewrite Et, Hs. simpl.
      split_and!; [done|by eexists|by constructor|lia|lia].
    + destruct (Hrun _ eq_refl E) as (misses & x & Hb & Ha & Hm & Hl & Hsent). exists (b0 :: misses), x.
      rewrite El, Hb, Hsent, Hs. simpl. split_and!; [done|done| |lia|done].
      constructor; [|done]. unfold answers. rewrite Et. by intros [].
  - destruct (Hrun _ eq_refl E) as (misses & x & Hb & _). rewrite El in Hb. by destruct misses.
Qed.
End waiting.

(** ** A concrete run *)

Section examples.
Import DemoSha DemoKeys DemoNet DemoCodec DemoPostcard.
Existing Instances demo_space demo_ctl demo_no_processes demo_no_tcp.

Instance demo_programs : LocalPrograms := {
  run_keygen _ := mret (true, "exit status: 0");
  run_ssh _ := mret (Some 0);
  bind_loopback _ := Ok 4022
}.
Definition demo_cfg : Config :=
  mkSshConfig "any" "u" "/a" "/h" ["sshd"] ["keygen"] "l" 0 [] "r" 60.
Definition demo_rng : list (result bytes) := [Ok demo_nonce; Ok demo_nonce].

(** The target's authorized_keys has an older line with the same key. *)
Definition demo_target : World :=
  mkWorld (<[["/"; "a"] := NFile (mkFile (as_bytes "z" ++ [LF] ++ as_bytes "k b") 420)]>
          {[ ["/"; "h"] := NFile (mkFile (as_bytes "t K c") 420) ]}) [] demo_rng [] 1 18.
Definition demo_operator : World :=
  mkWorld (<[["/"; "state"; "ssh"] := NDir 448]> (<[["/"; "state"; "ssh"; "id_ed25519"] := NFile (mkFile [] 384)]>
          {[ ["/"; "state"; "ssh"; "id_ed25519.pub"] := NFile (mkFile (as_bytes "k b") 420) ]}))
    [] demo_rng [0] 7 18.
Definition demo_line : bytes := authorized_line (as_bytes "r") 60 (as_bytes "k b").
Definition demo_merged : bytes := as_bytes "z" ++ [LF] ++ demo_line ++ [LF].

Definition demo_asked : list bytes :=
  [sent_by (Pull "/a");
   sent_by (Push "/a" 384 (zlen demo_merged) (sha256_of demo_merged)) ++ demo_merged;
   sent_by (Pull "/h")].
Definition demo_serve (req : bytes) (wt : World) := handle demo_idle ([RData req], (new_writer, wt)).
Fixpoint demo_targets (asked : list bytes) (wt : World) : list (bytes * (World * World)) :=
  match asked with
  | [] => []
  | req :: asked =>
      let '(_, (_, (wr, wt'))) := demo_serve req wt in (w_out wr, (wt, wt')) :: demo_targets asked wt'
  end.
Definition demo_answers := demo_targets demo_asked demo_target.
Definition demo_rig : Rig :=
  mkRig demo_operator ((λ x, ([RData (demo_routed ++ x.1)], new_writer)) <$> demo_answers)
    [Some (as_bytes "SSH-2")] [] [].

Definition demo_run := run demo_root demo_cfg demo_rig.
Definition demo_install :=
  install_authorized_key demo_root demo_cfg (as_bytes "b") demo_line ["/"; "s"] demo_rig.

Example demo_run_outcome :
  demo_run.1 = Ok 0 ∧ (rg_started demo_run.2).*1 = [ssh_command demo_root demo_cfg 4022] ∧
  ((λ x, x.2 !! known_hosts_path demo_root) <$> rg_started demo_run.2) =
    [Some (NFile (mkFile (as_bytes "[127.0.0.1]:4022 t K" ++ [LF]) 420))].
Proof. by vm_compute. Qed.

Lemma demo_targets_answered asked wt i out wts :
  demo_targets asked wt !! i = Some (out, wts) →
  ∃ req, asked !! i = Some req ∧
    answered demo_sessions demo_paths demo_open (demo_conn 7) (demo_route ++ req) (demo_routed ++ out) wts.1 wts.2.
Proof.
  revert wt i. induction asked as [|req asked IH]; intros wt i; [done|]. cbn [demo_targets].
  destruct (demo_serve req wt) as [x [ra' [wra wt']]] eqn:E. destruct i as [|i]; [|apply IH].
  intros [= <- <-]. exists req. split; [done|]. constructor.
  exists req, demo_idle, [RData req], x, ra', wra.
  split_and!; [apply demo_relayed|by repeat constructor|rewrite rd_bytes_data; apply app_nil_r|exact E].
Qed.

Lemma demo_channel s' n :
  rg_sent s' = take n ((λ req, demo_route ++ req) <$> demo_asked) →
  channel demo_sessions demo_paths demo_open (demo_conn 7) demo_rig s' demo_answers.*2.
Proof.
  intros Hs. split.
  - apply Forall_fmap, Forall_true. intros x. split; [done|by repeat constructor].
  - assert (Hok : Forall (λ t : World * World, faults t.1 = [] ∧
      Forall (λ x : path * node, match x.2 with NFile f => zlen (f_data f) ≤ 100 | _ => True end) (map_to_list (fs t.1)))
      demo_answers.*2) by (vm_compute; repeat constructor; done).
    eapply Forall_impl; [exact Hok|]. intros t [Hq Hf]. split; [by intros f Hin; rewrite Hq in Hin; apply not_elem_of_nil in Hin|].
    intros p f Hp%elem_of_map_to_list. rewrite Forall_forall in Hf. specialize (Hf _ Hp). cbn [snd] in Hf.
    unfold u64_max. lia.
  - intros i rd wr sent Hi Hx. unfold demo_rig in Hi, Hx. cbn [rg_streams rg_sent length Nat.add] in Hi, Hx. rewrite Hs in Hx. apply lookup_take_Some in Hx as [Hx _].
    rewrite list_lookup_fmap in Hi. rewrite list_lookup_fmap in Hx.
    destruct (demo_answers !! i) as [[out [wt wt']]|] eqn:E; [|done].
    injection Hi as <- <-. destruct (demo_targets_answered _ _ _ _ _ E) as (req & Hreq & Ha). rewrite Hreq in Hx.
    injection Hx as <-. exists wt, wt'. rewrite list_lookup_fmap, E. split; [done|].
    by rewrite rd_bytes_data, app_nil_r.
Qed.

Lemma ssh_is_pinned_to_the_target_witness :
  ∃ started, rg_started demo_run.2 = [] ++ started ∧
    Forall (pinned demo_sessions (demo_conn 7) demo_root demo_cfg demo_answers.*2) started.
Proof.
  apply (ssh_is_pinned_to_the_target demo_sessions demo_paths demo_open (demo_conn 7) demo_root demo_cfg demo_rig
    demo_run.1 demo_run.2 demo_answers.*2).
  - apply surjective_pairing.
  - apply (demo_channel _ 3). vm_compute. reflexivity.
Defined.

Lemma installed_key_keeps_the_rest_witness :
  ∃ id wt wt1 wt2 wt3 old mode,
    pick demo_sessions "any" = Ok (id, demo_conn 7) ∧
    demo_answers.*2 !! 0%nat = Some (wt, wt1) ∧ demo_answers.*2 !! 1%nat = Some (wt2, wt3) ∧
    match fs wt !! parse_path "/a" with
    | Some (NFile f) => old = f_data f
    | None => old = []
    | _ => False
    end ∧
    fs wt3 !! parse_path "/a" = Some (NFile (mkFile (merged (as_bytes "b") demo_line old) mode)) ∧
    Z.ldiff mode o600 = 0.
Proof.
  apply (installed_key_keeps_the_rest demo_sessions demo_paths demo_open (demo_conn 7) demo_root demo_cfg
    (as_bytes "b") demo_line ["/"; "s"] demo_rig demo_install.2 demo_answers.*2).
  - vm_compute. reflexivity.
  - apply (demo_channel _ 2). vm_compute. reflexivity.
Defined.

(** A server that answers at the third look. *)
Definition demo_waiting : Rig :=
  mkRig demo_operator [([RData (demo_routed ++ sent_by (Exit 0))], new_writer)]
    [None; Some (as_bytes "HTTP/1.1"); Some (as_bytes "SSH-2.0-x")] [] [].

Lemma sshd_answered_witness :
  let s' := (ensure_sshd demo_root demo_cfg demo_waiting).2 in
  ∃ misses b, rg_banners demo_waiting = misses ++ b :: rg_banners s' ∧ answers b ∧ Forall (λ x, ¬ answers x) misses ∧
    (length misses ≤ 20)%nat ∧
    length (rg_sent s') = (length (rg_sent demo_waiting) + if bool_decide (misses = []) then 0 else 1)%nat.
Proof. apply (sshd_answered demo_root demo_cfg). vm_compute. reflexivity. Defined.
End examples.
