(* ===== verification/Radio.v ===== *)
(** * The radio around the exchange (src/src/ble.rs)

    Finding an adapter and switching it on, the scan for the requested target
    and the discovery of its characteristic, and the two entry points [serve]
    and [provision] with what they undo on every way out.  What [bluer] answers
    is scripted, with the clock readings at which the code compares it to a
    deadline (milliseconds); the exchanges are those of Ble.v. *)

From S2P Require Import Prelude Text Stream Fs Crypto Proto Net State Ble.

Definition SCAN_WAIT : Z := 60 * 1000.
Definition ADAPTER_WAIT : Z := 10 * 1000.
Definition SERVICE_WAIT : Z := 10 * 1000.

(** [bluer::Result]: the one error kind the code tells apart is
    [ServicesUnresolved]. *)
Inductive bus (A : Type) := Ans (a : A) | BusErr (unresolved : bool) (text : string).
Arguments Ans {A} _.
Arguments BusErr {A} _ _.
Definition from_bus {A} (r : bus A) : result A :=
  match r with Ans a => Ok a | BusErr _ t => Err (anyhow t) end.

(** ** The adapter *)

Inductive bus_call :=
  | SetPowered (on : bool)
  | Connect (a : Z)
  | Disconnect (a : Z)
  | RemoveDevice (a : Z).

Record Radio := mkRadio {
  ra_world : World;
  ra_active : option (Z * bool);   (** the [active] mutex: the device, and was it known before *)
  ra_calls : list bus_call;        (** what the bus was asked to do, in order *)
  ra_sent : list (Z * bytes)       (** what was written to each candidate *)
}.
Definition call (c : bus_call) : M Radio unit := λ s,
  (Ok tt, mkRadio (ra_world s) (ra_active s) (ra_calls s ++ [c]) (ra_sent s)).
Definition set_active (x : option (Z * bool)) : M Radio unit := λ s,
  (Ok tt, mkRadio (ra_world s) x (ra_calls s) (ra_sent s)).
Definition on_disk {A} (m : M World A) : M Radio A := λ s,
  let '(r, w) := m (ra_world s) in (r, mkRadio w (ra_active s) (ra_calls s) (ra_sent s)).

(** One look at the adapters, and the time after it. *)
Record Probe := mkProbe {
  pb_named : string → bus unit;    (** [session.adapter(name)] *)
  pb_default : bus unit;           (** [session.default_adapter()] *)
  pb_powered : bus bool;           (** [is_powered()] *)
  pb_now : Z
}.
Definition probe_adapter (name : option string) (p : Probe) : bus bool :=
  match (match name with Some n => pb_named p n | None => pb_default p end) with
  | Ans _ => pb_powered p
  | BusErr u t => BusErr u t
  end.

(** [None] when the looks in store are used up and the loop still goes on. *)
Fixpoint find_adapter (name : option string) (deadline : Z) (probes : list Probe) : option (result bool) :=
  match probes with
  | [] => None
  | p :: probes =>
      match probe_adapter name p with
      | Ans powered => Some (Ok powered)
      | BusErr _ t =>
          if bool_decide (pb_now p < deadline) then find_adapter name deadline probes
          else Some (Err (add_context "finding a Bluetooth adapter" (anyhow t)))
      end
  end.

(** How the bus behaves before the scan or the service. *)
Record Bus := mkBus {
  b_session : bus unit;            (** [bluer::Session::new] *)
  b_start : Z;
  b_probes : list Probe;
  b_power : bus unit;              (** [set_powered(true)] *)
  b_termination : result unit      (** what the wait for a signal returns *)
}.
Definition silent_bus : error := anyhow "bluetoothd never answered".
(** Whether the adapter was on before. *)
Definition adapter (b : Bus) (name : option string) : M Radio bool :=
  lift (context "connecting to bluetoothd" (from_bus (b_session b)));;
  powered ← lift (default (Err silent_bus) (find_adapter name (b_start b + ADAPTER_WAIT) (b_probes b)));
  if (powered : bool) then mret powered else
  call (SetPowered true);;
  lift (from_bus (b_power b));;
  mret powered.

Definition interruption (b : Bus) : error :=
  match b_termination b with Ok _ => anyhow "BLE provisioning interrupted" | Err e => e end.

(** ** Service discovery *)

Record RemoteCharacteristic := mkRemoteCharacteristic {
  rc_uuid : bus Z;
  rc_notify : bus reader;          (** [notify_io] *)
  rc_write : bus writer            (** [write_io] *)
}.
Record RemoteService := mkRemoteService {
  rs_uuid : bus Z;
  rs_characteristics : bus (list RemoteCharacteristic)
}.

Fixpoint scan_characteristics (l : list RemoteCharacteristic) : bus (option RemoteCharacteristic) :=
  match l with
  | [] => Ans None
  | c :: l =>
      match rc_uuid c with
      | BusErr u t => BusErr u t
      | Ans x => if bool_decide (x = CHARACTERISTIC_UUID) then Ans (Some c) else scan_characteristics l
      end
  end.
Fixpoint scan_services (l : list RemoteService) : bus (option RemoteCharacteristic) :=
  match l with
  | [] => Ans None
  | s :: l =>
      match rs_uuid s with
      | BusErr u t => BusErr u t
      | Ans x =>
          if negb (bool_decide (x = SERVICE_UUID)) then scan_services l else
          match rs_characteristics s with
          | BusErr u t => BusErr u t
          | Ans cs =>
              match scan_characteristics cs with
              | Ans None => scan_services l
              | found => found
              end
          end
      end
  end.
Definition find_characteristic (services : bus (list RemoteService)) : bus (option RemoteCharacteristic) :=
  match services with BusErr u t => BusErr u t | Ans l => scan_services l end.

(** The surrounding timer fires while nothing happens. *)
Definition hang {A} : M Sess A := λ s, (Err elapsed, fire s).

(** What each look at the services finds, and the time after it. *)
Fixpoint characteristic (deadline : Z) (looks : list (bus (list RemoteService) * Z)) : M Sess RemoteCharacteristic :=
  match looks with
  | [] => hang
  | (services, now) :: looks =>
      found ← awaiting (mret (find_characteristic services));
      match found with
      | Ans (Some c) => mret c
      | Ans None => fail (anyhow "the target exposes no egdod BLE characteristic")
      | BusErr unresolved t =>
          if unresolved && bool_decide (now < deadline) then awaiting (mret tt);; characteristic deadline looks
          else fail (add_context "BLE service discovery" (anyhow t))
      end
  end.

(** ** The scan *)

(** What ends an exchange early: the timer around it, or the signal that stops
    the whole command, at the given await. *)
Inductive cut := NoCut | Timeout (n : nat) | Signal (n : nat).
Definition cut_timer (c : cut) : option nat :=
  match c with NoCut => None | Timeout n | Signal n => Some n end.

(** A discovered device: what it says of itself, the time once it is taken, and
    how it behaves when approached. *)
Record Candidate := mkCandidate {
  cd_address : Z;
  cd_device : bus unit;            (** [adapter.device(address)] *)
  cd_name : bus (option string);
  cd_uuids : bus (option (list Z));
  cd_paired : bus bool;
  cd_now : Z;
  cd_connect : bus unit;
  cd_discovery : Z;
  cd_looks : list (bus (list RemoteService) * Z);
  cd_cut : cut;
  cd_forget_cut : option nat       (** the signal arrives after that many calls of [forget] *)
}.
Inductive scan_event :=
  | DeviceAdded (cd : Candidate)
  | OtherEvent
  | SilentUntilDeadline
  | SignalWhileWaiting.

Definition forget_calls (a : Z) (was_known : bool) : list bus_call :=
  Disconnect a :: if was_known then [] else [RemoveDevice a].
Fixpoint calls (l : list bus_call) : M Radio unit :=
  match l with [] => mret tt | c :: l => call c;; calls l end.
Definition forget (a : Z) (was_known : bool) : M Radio unit := calls (forget_calls a was_known).

Section radio.
Context `{IrohKeys} `{Sha256} `{BleCrypto}.

(** A stream just opened has carried nothing. *)
Definition use_streams (r : reader) (w : writer) : M Sess unit := λ s,
  (Ok tt, mkSess r (mkWriter [] (w_break w) (w_flush_err w) false) (s_timer s) (s_fired s) (s_world s) (s_installed s)).

(** The body of the controller's [timeout(EXCHANGE_WAIT.min(remaining), ..)]. *)
Definition approach (controller_key : SecretKey) (expected_agent : PublicKey) (conf : bytes) (cd : Candidate)
    : M Sess unit :=
  awaiting (lift (context "connecting to BLE target" (from_bus (cd_connect cd))));;
  c ← characteristic (cd_discovery cd + SERVICE_WAIT) (cd_looks cd);
  notify ← awaiting (lift (from_bus (rc_notify c)));
  write ← awaiting (lift (from_bus (rc_write c)));
  use_streams notify write;;
  provision_exchange controller_key expected_agent conf.

Section scanning.
Context (controller_key : SecretKey) (expected_agent : PublicKey) (conf : bytes) (expected_name : string)
  (bus_ : Bus) (known : list Z) (deadline : Z).

(** The attempt's own outcome; a signal ends the command instead. *)
Definition attempt_exchange (cd : Candidate) : M Radio (result unit) := λ s,
  let '(r, se) := approach controller_key expected_agent conf cd
                    (mkSess [] new_writer (cut_timer (cd_cut cd)) false (ra_world s) false) in
  let s := mkRadio (s_world se) (ra_active s) (ra_calls s ++ [Connect (cd_address cd)])
             (ra_sent s ++ [(cd_address cd, w_out (s_wr se))]) in
  if s_fired se then
    match cd_cut cd with
    | Signal _ => (Err (interruption bus_), s)
    | _ => (Ok (Err (add_context "BLE provisioning exchange timed out" elapsed)), s)
    end
  else (Ok r, s).

(** [forget] inside the scan, where the signal may still arrive. *)
Definition forget_during (cd : Candidate) (was_known : bool) : M Radio unit :=
  match cd_forget_cut cd with
  | None => forget (cd_address cd) was_known
  | Some n => calls (take n (forget_calls (cd_address cd) was_known));; fail (interruption bus_)
  end.

Definition wanted (name : option string) (uuids : option (list Z)) : bool :=
  bool_decide (name = Some expected_name) && bool_decide (SERVICE_UUID ∈ default [] uuids).
Definition timed_out : error := anyhow "waiting for the requested BLE target timed out".
Definition bonded (a : Z) : error :=
  anyhow (pretty a +:+ " holds a bond this target cannot answer; remove it with `bluetoothctl remove " +:+ pretty a +:+ "`").

(** A wanted, unpaired device. *)
Definition try_candidate (cd : Candidate) : M Radio (result unit) :=
  let was_known := bool_decide (cd_address cd ∈ known) in
  set_active (Some (cd_address cd, was_known));;
  (if bool_decide (deadline ≤ cd_now cd) then fail timed_out else mret tt);;
  attempt ← attempt_exchange cd;
  forget_during cd was_known;;
  set_active None;;
  mret attempt.

Fixpoint scan (evs : list (Z * scan_event)) : M Radio unit :=
  match evs with
  | [] => fail (anyhow "Bluetooth discovery ended before the requested target appeared")
  | (now, ev) :: evs =>
      if bool_decide (deadline ≤ now) then fail timed_out else
      match ev with
      | SilentUntilDeadline => fail (add_context "waiting for the requested BLE target" elapsed)
      | SignalWhileWaiting => fail (interruption bus_)
      | OtherEvent => scan evs
      | DeviceAdded cd =>
          lift (from_bus (cd_device cd));;
          match cd_name cd, cd_uuids cd, cd_paired cd with
          | Ans name, Ans uuids, Ans paired =>
              if wanted name uuids then
                if (paired : bool) then fail (bonded (cd_address cd)) else
                attempt ← try_candidate cd;
                match attempt with Ok _ => mret tt | Err _ => scan evs end
              else scan evs
          | _, _, _ => scan evs
          end
      end
  end.
End scanning.

(** What [discover] and the device list answer, when the scan starts, and what
    it sees. *)
Record Air := mkAir {
  air_addresses : bus (list Z);    (** [device_addresses] *)
  air_discover : bus unit;         (** [discover_devices_with_changes] *)
  air_start : Z;
  air_events : list (Z * scan_event)
}.

(** The way out, whatever the outcome. *)
Definition release (was_powered : bool) : M Radio unit :=
  active ← gets ra_active;
  (match (active : option (Z * bool)) with Some (a, was_known) => set_active None;; forget a was_known | None => mret tt end);;
  if was_powered then mret tt else call (SetPowered false).

Definition provision (controller_key : SecretKey) (expected_agent : PublicKey) (ssid psk : string)
    (adapter_name : option string) (b : Bus) (air : Air) : M Radio unit :=
  conf ← lift (network_conf ssid psk);
  expected_name ← lift (local_name expected_agent);
  was_powered ← adapter b adapter_name;
  result ← attempt (
    known ← lift (from_bus (air_addresses air));
    lift (from_bus (air_discover air));;
    scan controller_key expected_agent (as_bytes conf) expected_name b known (air_start air + SCAN_WAIT) (air_events air));
  release was_powered;;
  lift result.

(** ** The service *)

(** Where the signal finds the service, after the events before it: waiting for
    a peer, for a peer's second half, at an await of an exchange, or letting the
    peer go after one. *)
Inductive interrupted_at :=
  | Idle
  | Pairing (peer : Z)
  | Exchanging (peer : Z) (rd : reader) (wr : writer) (n : nat)
  | Releasing (peer : Z) (rd : reader) (wr : writer) (timer : option nat).
Inductive ending := ByItself | BySignal (i : interrupted_at).

Section serving.
Context (key : SecretKey) (controller agent : PublicKey) (output : string).

Definition busy (peer : Z) (w : World) (sv : Server) : Server :=
  mkServer w (Some peer) (sv_taken sv ++ [peer]) (sv_removed sv) (sv_timers sv).
Definition interrupted (i : interrupted_at) (sv : Server) : Server :=
  let during peer rd wr timer :=
    busy peer (s_world (serve_exchange key controller agent output
                          (mkSess rd wr timer false (sv_world sv) false)).2) sv in
  match i with
  | Idle => sv
  | Pairing peer => busy peer (sv_world sv) sv
  | Exchanging peer rd wr n => during peer rd wr (Some n)
  | Releasing peer rd wr timer => during peer rd wr timer
  end.

(** [serve_on_adapter] against [termination()]: a signal counts only while the
    service is still waiting for events. *)
Definition serve_or_signal (b : Bus) (advertise : Advertisement → result unit) (serve_gatt : list GattService → result unit) (evs : list ctl_event) (e : ending)
    (sv : Server) : result unit * Server :=
  let '(r, sv') := serve_on_adapter key controller agent output advertise serve_gatt evs sv in
  match e with
  | BySignal i => if bool_decide (r = Err stopped) then (Err (interruption b), interrupted i sv') else (r, sv')
  | ByItself => (r, sv')
  end.
End serving.

Definition serve (controller : PublicKey) (key_file : path) (output : string) (b : Bus)
    (advertise : Advertisement → result unit) (serve_gatt : list GattService → result unit) (timers : list (option nat)) (evs : list ctl_event) (e : ending) : M Radio unit :=
  key ← on_disk (load_or_create_key key_file Replace);
  let agent := sk_public key in
  was_powered ← adapter b None;
  outcome ← (λ s,
    let '(r, sv) := serve_or_signal key controller agent output b advertise serve_gatt evs e
                      (mkServer (ra_world s) None [] [] timers) in
    (Ok (r, sv_active sv),
     mkRadio (sv_world sv) (ra_active s) (ra_calls s ++ (RemoveDevice <$> sv_removed sv)) (ra_sent s)));
  let '(result, active) := (outcome : result unit * option Z) in
  (match active with Some peer => call (RemoveDevice peer) | None => mret tt end);;
  (if (was_powered : bool) then mret tt else call (SetPowered false));;
  lift result.
End radio.

(** ** What the bus was asked to do *)

(** Every connection is followed by [P]. *)
Definition tidy (P : Z → list bus_call → Prop) (l : list bus_call) : Prop :=
  ∀ l1 a l2, l = l1 ++ Connect a :: l2 → P a l2.
(** The device was let go, and forgotten unless the adapter knew it before. *)
Definition settled (known : list Z) (a : Z) (after : list bus_call) : Prop :=
  Disconnect a ∈ after ∧ (a ∉ known → RemoveDevice a ∈ after).

Lemma tidy_app (P Q : Z → list bus_call → Prop) l l' :
  tidy P l → (∀ a x, P a x → Q a (x ++ l')) → tidy Q l' → tidy Q (l ++ l').
Proof.
  intros Hl HPQ Hl' l1 a l2 E. apply app_eq_inv in E as [(k & -> & E)|(k & -> & E)].
  - destruct k as [|c k]; simplify_eq/=; [by apply (Hl' [])|]. apply HPQ. by apply (Hl l1).
  - by apply (Hl' k).
Qed.
Lemma tidy_quiet P l : (∀ a, Connect a ∉ l) → tidy P l.
Proof. intros Hl l1 a l2 ->. destruct (Hl a). set_solver. Qed.
Lemma settled_app known a l l' : settled known a l → settled known a (l ++ l').
Proof. intros [H1 H2]. split; set_solver. Qed.

Lemma calls_run l s : calls l s = (Ok tt, mkRadio (ra_world s) (ra_active s) (ra_calls s ++ l) (ra_sent s)).
Proof.
  revert s. induction l as [|c l IH]; intros s; cbn [calls].
  - rewrite app_nil_r. by destruct s.
  - unfold mbind, M_bind, call. cbn [ra_calls]. rewrite IH. simpl. by rewrite <- app_assoc.
Qed.

(** The invariant of the scan: every device it connected to has been dealt with
    or is the active one; what the adapter knew is never removed; the power is
    switched only if it was [off]. *)
Record orderly (known : list Z) (off : Prop) (s : Radio) : Prop := mkOrderly {
  or_tidy : tidy (λ a l, settled known a l ∨ fst <$> ra_active s = Some a) (ra_calls s);
  or_active : ∀ a k, ra_active s = Some (a, k) → k = bool_decide (a ∈ known);
  or_removed : ∀ a, RemoveDevice a ∈ ra_calls s → a ∉ known;
  or_power : ∀ b, SetPowered b ∈ ra_calls s → off
}.

Lemma orderly_forgetting known off s a n :
  orderly known off s → ra_active s = Some (a, bool_decide (a ∈ known)) →
  orderly known off (mkRadio (ra_world s) (ra_active s)
    (ra_calls s ++ take n (forget_calls a (bool_decide (a ∈ known)))) (ra_sent s)).
Proof.
  intros [Ht Ha Hr Hp] Hact.
  assert (Hsub : ∀ c, c ∈ take n (forget_calls a (bool_decide (a ∈ known))) →
    c = Disconnect a ∨ (c = RemoveDevice a ∧ a ∉ known)).
  { intros c Hc%(subseteq_take _ _ c). unfold forget_calls in Hc. case_bool_decide; set_solver. }
  split; simpl; [|done| |].
  - eapply tidy_app; [exact Ht| |].
    + intros b l [Hs|Hb]; [by left; apply settled_app|by right].
    + apply tidy_quiet. intros b [?|[? _]]%Hsub; done.
  - intros b [Hb|[?|[[= ->] ?]]%Hsub]%elem_of_app; [by apply Hr|done|done].
  - intros b [Hb|[?|[? _]]%Hsub]%elem_of_app; [by eapply Hp|done|done].
Qed.
Lemma orderly_forgotten known off s a :
  orderly known off s → ra_active s = Some (a, bool_decide (a ∈ known)) →
  orderly known off (mkRadio (ra_world s) None (ra_calls s ++ forget_calls a (bool_decide (a ∈ known))) (ra_sent s)).
Proof.
  intros Ho Hact. pose proof (orderly_forgetting known off s a 2 Ho Hact) as [Ht Ha Hr Hp].
  rewrite take_ge in * by (simpl; case_bool_decide; simpl; lia). split; simpl in *; [|done|done|done].
  eapply tidy_app; [exact (or_tidy _ _ _ Ho)| |].
  - rewrite Hact. intros b l [Hs|[= <-]]; left; [by apply settled_app|].
    unfold settled, forget_calls. case_bool_decide; set_solver.
  - apply tidy_quiet. unfold forget_calls. intros b. case_bool_decide; set_solver.
Qed.

(** ** What a candidate is told *)

Section candidates.
Context `{IrohKeys} `{Sha256} `{BleCrypto}.
Context (controller_key : SecretKey) (agent : PublicKey) (conf : bytes).

(** A look at the device's services showed this characteristic under the
    service, both with the program's own identifiers. *)
Definition exposes (cd : Candidate) (c : RemoteCharacteristic) : Prop :=
  ∃ services now s cs, (Ans services, now) ∈ cd_looks cd ∧ s ∈ services ∧ rs_uuid s = Ans SERVICE_UUID ∧
    rs_characteristics s = Ans cs ∧ c ∈ cs ∧ rc_uuid c = Ans CHARACTERISTIC_UUID.
(** Nothing but the start marker was written, or the device's notifications
    prove it to be the agent. *)
Definition told (cd : Candidate) (out : bytes) : Prop :=
  (∃ k, out = take k [START]) ∨
  ∃ c rd, exposes cd c ∧ rc_notify c = Ans rd ∧ proved controller_key agent (rd_bytes rd).
Definition accepted_by (cd : Candidate) (entropy : list (result bytes)) (out : bytes) : Prop :=
  ∃ c rd, exposes cd c ∧ rc_notify c = Ans rd ∧
    acknowledged controller_key agent entropy conf (rd_bytes rd) out.

Lemma scan_characteristics_ok l c : scan_characteristics l = Ans (Some c) → c ∈ l ∧ rc_uuid c = Ans CHARACTERISTIC_UUID.
Proof.
  induction l as [|x l IH]; simpl; [done|]. destruct (rc_uuid x) eqn:E; [|done].
  case_bool_decide; [intros; simplify_eq; set_solver|]. intros []%IH. set_solver.
Qed.
Lemma find_characteristic_ok services c :
  find_characteristic services = Ans (Some c) →
  ∃ l s cs, services = Ans l ∧ s ∈ l ∧ rs_uuid s = Ans SERVICE_UUID ∧ rs_characteristics s = Ans cs ∧ c ∈ cs ∧
    rc_uuid c = Ans CHARACTERISTIC_UUID.
Proof.
  unfold find_characteristic. destruct services as [l|]; [|done]. intros E.
  assert (∃ s cs, s ∈ l ∧ rs_uuid s = Ans SERVICE_UUID ∧ rs_characteristics s = Ans cs ∧ c ∈ cs ∧
    rc_uuid c = Ans CHARACTERISTIC_UUID) as (s & cs & ?); [|naive_solver].
  induction l as [|s l IH]; simpl in E; [done|]. destruct (rs_uuid s) as [u|] eqn:Eu; [|done].
  assert (Hrest : scan_services l = Ans (Some c) → ∃ s0 cs, s0 ∈ s :: l ∧ rs_uuid s0 = Ans SERVICE_UUID ∧
    rs_characteristics s0 = Ans cs ∧ c ∈ cs ∧ rc_uuid c = Ans CHARACTERISTIC_UUID).
  { intros (s0 & cs & ? & ?)%IH. exists s0, cs. split; [by right|done]. }
  destruct (decide (u = SERVICE_UUID)) as [->|]; [|rewrite bool_decide_false in E by done; auto].
  rewrite bool_decide_true in E by done. simpl in E. destruct (rs_characteristics s) as [cs|] eqn:Ec; [|done].
  destruct (scan_characteristics cs) as [[x|]|] eqn:Es; simplify_eq; [|auto].
  apply scan_characteristics_ok in Es as []. exists s, cs. split; [by left|done].
Qed.

(** Discovery touches neither the streams nor the world, and finds what the
    device exposes. *)
Lemma awaiting_still {A} (r : result A) s x s' :
  awaiting (lift r) s = (x, s') → s_wr s' = s_wr s ∧ s_world s' = s_world s ∧ s_installed s' = s_installed s ∧
  ∀ a, x = Ok a → r = Ok a.
Proof.
  unfold awaiting, lift. destruct (s_fired s); [intros; by simplify_eq|].
  destruct (s_timer s) as [[|n]|]; intros; by simplify_eq/=.
Qed.
Lemma characteristic_spec deadline looks s x s' :
  characteristic deadline looks s = (x, s') →
  s_wr s' = s_wr s ∧ s_world s' = s_world s ∧
  ∀ c, x = Ok c → ∃ services now, (services, now) ∈ looks ∧ find_characteristic services = Ans (Some c).
Proof.
  revert s. induction looks as [|[services now] looks IH]; intros s; cbn [characteristic].
  { unfold hang. intros; by simplify_eq/=. }
  intros [(e & E & ->)|(found & s1 & E & Ek)]%bind_inv;
    apply (awaiting_still (Ok (find_characteristic services))) in E as (W1 & D1 & _ & Ef); [by split_and!|].
  injection (Ef _ eq_refl) as <-.
  assert (Hdone : ∀ y, (x, s') = (y, s1) → (∀ c, y ≠ Ok c) →
    s_wr s' = s_wr s ∧ s_world s' = s_world s ∧
    ∀ c, x = Ok c → ∃ services0 now0, (services0, now0) ∈ (services, now) :: looks ∧ find_characteristic services0 = Ans (Some c)).
  { intros y [= -> ->] Hy. split_and!; [done..|]. by intros c ?%Hy. }
  destruct (find_characteristic services) as [[c|]|u t] eqn:Efc.
  - injection Ek as <- <-. split_and!; [done..|]. intros c' [= <-]. exists services, now. split; [by left|done].
  - by apply (Hdone (Err (anyhow "the target exposes no egdod BLE characteristic"))).
  - destruct (u && bool_decide (now < deadline)).
    2:{ by apply (Hdone (Err (add_context "BLE service discovery" (anyhow t)))). }
    apply bind_inv in Ek as [(e & E & ->)|([] & s2 & E & Ek)]; apply (awaiting_still (Ok tt)) in E as (W2 & D2 & _ & _).
    { split_and!; [congruence..|done]. }
    apply IH in Ek as (W3 & D3 & Hc). split_and!; [congruence..|]. intros c' Hx.
    destruct (Hc c' Hx) as (sv & nw & ? & ?). exists sv, nw. split; [by right|done].
Qed.

Lemma from_bus_ok {A} (r : bus A) a : from_bus r = Ok a → r = Ans a.
Proof. destruct r; simpl; [by intros [= ->]|done]. Qed.
Lemma context_ok {A} msg (r : result A) a : context msg r = Ok a → r = Ok a.
Proof. by destruct r. Qed.

Lemma approach_spec cd s r s' :
  approach controller_key agent conf cd s = (r, s') → w_out (s_wr s) = [] →
  told cd (w_out (s_wr s')) ∧ rng (s_world s') `suffix_of` rng (s_world s) ∧
  (r = Ok tt → accepted_by cd (rng (s_world s)) (w_out (s_wr s'))).
Proof.
  unfold approach. intros E Hw.
  assert (Herr : ∀ e s1, (r, s') = (Err e, s1) → s_wr s1 = s_wr s → s_world s1 = s_world s →
    told cd (w_out (s_wr s')) ∧ rng (s_world s') `suffix_of` rng (s_world s) ∧
    (r = Ok tt → accepted_by cd (rng (s_world s)) (w_out (s_wr s')))).
  { intros e s1 [= -> ->] -> ->. split_and!; [left; exists O; by rewrite Hw|done|done]. }
  apply bind_inv in E as [(e & E & ->)|([] & s1 & E & Ek)]; apply awaiting_still in E as (W1 & D1 & _ & _);
    [by eapply Herr|].
  apply bind_inv in Ek as [(e & E & ->)|(c & s2 & E & Ek)]; apply characteristic_spec in E as (W2 & D2 & Hc);
    [eapply Herr; [done|congruence..]|].
  apply bind_inv in Ek as [(e & E & ->)|(rd & s3 & E & Ek)]; apply awaiting_still in E as (W3 & D3 & _ & Hn);
    [eapply Herr; [done|congruence..]|].
  apply bind_inv in Ek as [(e & E & ->)|(wr & s4 & E & Ek)]; apply awaiting_still in E as (W4 & D4 & _ & _);
    [eapply Herr; [done|congruence..]|].
  assert (Hd : s_world s4 = s_world s) by congruence. clear Herr.
  revert Ek. unfold mbind at 1, M_bind at 1, use_streams. intros Ek.
  assert (exposes cd c).
  { destruct (Hc c eq_refl) as (services & now & Hin & (l & sv & cs & -> & ?)%find_characteristic_ok).
    exists l, now, sv, cs. done. }
  specialize (Hn _ eq_refl). apply from_bus_ok in Hn.
  pose proof (keeps_provision_exchange controller_key agent conf
    (mkSess rd (mkWriter [] (w_break wr) (w_flush_err wr) false) (s_timer s4) (s_fired s4) (s_world s4) (s_installed s4)))
    as (_ & _ & _ & _ & Hrng). rewrite Ek in Hrng. simpl in Hrng. rewrite Hd in Hrng.
  apply provision_exchange_safe in Ek as [Ho Hack]; [|done]. simpl in Ho, Hack. rewrite Hd in Hack.
  split_and!; [|done|].
  - destruct Ho as [?|?]; [by left|right]. by exists c, rd.
  - intros Hr. exists c, rd. auto.
Qed.

Lemma accepted_by_suffix cd e1 e2 out : e1 `suffix_of` e2 → accepted_by cd e1 out → accepted_by cd e2 out.
Proof. intros Hs (c & rd & ? & ? & ?). exists c, rd. split_and!; [done..|by eapply acknowledged_suffix]. Qed.

Section scan_lemmas.
Context (expected_name : string) (b : Bus) (known : list Z) (deadline : Z) (off : Prop).

Lemma attempt_exchange_spec cd s x s' :
  attempt_exchange controller_key agent conf b cd s = (x, s') →
  ∃ out, s' = mkRadio (ra_world s') (ra_active s) (ra_calls s ++ [Connect (cd_address cd)])
                (ra_sent s ++ [(cd_address cd, out)]) ∧
    rng (ra_world s') `suffix_of` rng (ra_world s) ∧ told cd out ∧
    (x = Ok (Ok tt) → accepted_by cd (rng (ra_world s)) out).
Proof.
  unfold attempt_exchange. destruct (approach _ _ _ _ _) as [r se] eqn:E.
  apply approach_spec in E as (Ht & Hr & Ha); [|done]. simpl in Hr, Ha.
  intros Ex. exists (w_out (s_wr se)). destruct (s_fired se); [destruct (cd_cut cd)|];
    simplify_eq/=; (split_and!; [done..|]); intros; simplify_eq; auto.
Qed.

Lemma orderly_connect s w a l :
  orderly known off s → ra_active s = Some (a, bool_decide (a ∈ known)) →
  orderly known off (mkRadio w (ra_active s) (ra_calls s ++ [Connect a]) l).
Proof.
  intros [Ht Ha Hr Hp] Hact. split; simpl; [|done| |].
  - eapply tidy_app; [exact Ht| |].
    + intros c x [Hs|Hb]; [by left; apply settled_app|by right].
    + intros l1 c l2 E. destruct l1 as [|? [|]]; simplify_eq/=. right. by rewrite Hact.
  - intros c [?|?%list_elem_of_singleton]%elem_of_app; [by apply Hr|done].
  - intros c [?|?%list_elem_of_singleton]%elem_of_app; [by eapply Hp|done].
Qed.
Lemma orderly_activate s a :
  orderly known off s → ra_active s = None →
  orderly known off (mkRadio (ra_world s) (Some (a, bool_decide (a ∈ known))) (ra_calls s) (ra_sent s)).
Proof.
  intros [Ht Ha Hr Hp] Hact. split; simpl; [|by intros ? ? [= <- <-]|done|done].
  intros l1 c l2 E. destruct (Ht l1 c l2 E) as [?|Hb]; [by left|]. by rewrite Hact in Hb.
Qed.

(** One candidate, from a state in which none is active. *)
Definition talk_post cd (s : Radio) (x : result (result unit)) (s' : Radio) : Prop :=
  orderly known off s' ∧ (is_ok x = true → ra_active s' = None) ∧
  rng (ra_world s') `suffix_of` rng (ra_world s) ∧
  ∃ new, ra_sent s' = ra_sent s ++ new ∧ Forall (λ y, y.1 = cd_address cd ∧ told cd y.2) new ∧
    (x = Ok (Ok tt) → ∃ y, y ∈ new ∧ accepted_by cd (rng (ra_world s)) y.2).

Lemma try_candidate_spec cd s x s' :
  orderly known off s → ra_active s = None →
  try_candidate controller_key agent conf b known deadline cd s = (x, s') → talk_post cd s x s'.
Proof.
  intros Ho Hact. set (a := cd_address cd). unfold try_candidate. fold a.
  unfold mbind at 1, M_bind at 1, set_active at 1.
  apply (orderly_activate s a) in Ho; [|done].
  set (s1 := mkRadio _ (Some _) _ _) in *. intros [(e & E & ->)|([] & s2 & E & Ek)]%bind_inv.
  { destruct (bool_decide (deadline ≤ cd_now cd)); [|done]. injection E as _ <-. split_and!; [done..|].
    exists []. by rewrite app_nil_r. }
  assert (s2 = s1) as -> by (destruct (bool_decide (deadline ≤ cd_now cd)); [done|by injection E]). clear E.
  assert (Hpost : ∀ y s3, attempt_exchange controller_key agent conf b cd s1 = (y, s3) →
    ∃ out, ra_active s3 = ra_active s1 ∧ orderly known off s3 ∧ rng (ra_world s3) `suffix_of` rng (ra_world s) ∧
      ra_sent s3 = ra_sent s ++ [(a, out)] ∧ told cd out ∧ (y = Ok (Ok tt) → accepted_by cd (rng (ra_world s)) out)).
  { intros y s3 Ea. apply attempt_exchange_spec in Ea as (out & -> & Hr & Ht & Hok). exists out.
    split_and!; try done. by apply (orderly_connect s1). }
  apply bind_inv in Ek as [(e & Ea & ->)|(attempt & s3 & Ea & Ek)];
    destruct (Hpost _ _ Ea) as (out & Hact3 & Ho3 & Hr & Hs & Ht & Hok); clear Hpost Ea.
  { split_and!; [done..|]. exists [(a, out)]. split_and!; [done|by apply Forall_singleton|done]. }
  unfold forget_during, forget in Ek. fold a in Ek.
  assert (Hcut : ∀ n, talk_post cd s (Err (interruption b)) (mkRadio (ra_world s3) (ra_active s3)
    (ra_calls s3 ++ take n (forget_calls a (bool_decide (a ∈ known)))) (ra_sent s3))).
  { intros n. split_and!; [by apply orderly_forgetting|done|done|]. exists [(a, out)].
    split_and!; [done|by apply Forall_singleton|done]. }
  destruct (cd_forget_cut cd) as [n|].
  - unfold mbind, M_bind in Ek. rewrite calls_run in Ek. injection Ek as <- <-. apply Hcut.
  - unfold mbind, M_bind in Ek. rewrite calls_run in Ek. injection Ek as <- <-.
    split_and!; [by apply orderly_forgotten|done|done|]. exists [(a, out)].
    split_and!; [done|by apply Forall_singleton|]. intros [= ->]. exists (a, out). split; [by left|auto].
Qed.

(** The requested name, the service and no bond. *)
Definition suitable (cd : Candidate) : Prop :=
  cd_name cd = Ans (Some expected_name) ∧ cd_paired cd = Ans false ∧
  ∃ uuids, cd_uuids cd = Ans (Some uuids) ∧ SERVICE_UUID ∈ uuids.
(** What the scan of [evs] did between [s] and [s']. *)
Definition scanned (evs : list (Z * scan_event)) (s : Radio) (r : result unit) (s' : Radio) : Prop :=
  orderly known off s' ∧ rng (ra_world s') `suffix_of` rng (ra_world s) ∧
  ∃ new, ra_sent s' = ra_sent s ++ new ∧
    Forall (λ y, ∃ cd, DeviceAdded cd ∈ evs.*2 ∧ suitable cd ∧ y.1 = cd_address cd ∧ told cd y.2) new ∧
    (r = Ok tt → ∃ cd y, DeviceAdded cd ∈ evs.*2 ∧ suitable cd ∧ y ∈ new ∧ y.1 = cd_address cd ∧
       accepted_by cd (rng (ra_world s)) y.2).

Lemma scanned_fail evs s e : orderly known off s → scanned evs s (Err e) s.
Proof. intros Ho. split_and!; [done..|]. exists []. rewrite app_nil_r. by split_and!. Qed.
Lemma scanned_cons ev evs s r s' : scanned evs s r s' → scanned (ev :: evs) s r s'.
Proof.
  intros (Ho & Hr & new & Hs & Hf & Hok). split_and!; [done..|]. exists new. split_and!; [done| |].
  - eapply Forall_impl; [exact Hf|]. intros y (cd & Hin & ?). exists cd. split; [set_solver|done].
  - intros Hr'. destruct (Hok Hr') as (cd & y & Hin & ?). exists cd, y. split; [set_solver|done].
Qed.
Lemma wanted_suitable cd name uuids :
  cd_name cd = Ans name → cd_uuids cd = Ans uuids → cd_paired cd = Ans false →
  wanted expected_name name uuids = true → suitable cd.
Proof.
  intros Hn Hu Hp [->%bool_decide_eq_true Hs%bool_decide_eq_true]%andb_true_iff. split_and!; [done..|].
  destruct uuids as [u|]; [|set_solver]. by exists u.
Qed.

Lemma scan_spec evs s r s' :
  orderly known off s → ra_active s = None →
  scan controller_key agent conf expected_name b known deadline evs s = (r, s') → scanned evs s r s'.
Proof.
  revert s. induction evs as [|[now ev] evs IH]; intros s Ho Hact; cbn [scan].
  { intros [= <- <-]. by apply scanned_fail. }
  destruct (bool_decide (deadline ≤ now)); [intros [= <- <-]; by apply scanned_fail|].
  destruct ev as [cd| | |]; [|intros E; by apply scanned_cons, IH|intros [= <- <-]; by apply scanned_fail..].
  intros [(e & [= _ <-] & ->)|([] & s0 & [= _ <-] & Ek)]%bind_inv; [by apply scanned_fail|].
  destruct (cd_name cd) as [name|] eqn:En; [|by apply scanned_cons, IH].
  destruct (cd_uuids cd) as [uuids|] eqn:Eu; [|by apply scanned_cons, IH].
  destruct (cd_paired cd) as [paired|] eqn:Ep; [|by apply scanned_cons, IH].
  destruct (wanted expected_name name uuids) eqn:Ew; [|by apply scanned_cons, IH].
  destruct paired; [injection Ek as <- <-; by apply scanned_fail|].
  assert (Hsuit : suitable cd) by by eapply wanted_suitable.
  assert (Htalk : ∀ x s1, talk_post cd s x s1 →
    Forall (λ y, ∃ cd0, DeviceAdded cd0 ∈ ((now, DeviceAdded cd) :: evs).*2 ∧ suitable cd0 ∧ y.1 = cd_address cd0 ∧ told cd0 y.2)
      (drop (length (ra_sent s)) (ra_sent s1))).
  { intros x s1 (_ & _ & _ & new & -> & Hf & _). rewrite drop_app_length. eapply Forall_impl; [exact Hf|].
    intros y []. exists cd. split_and!; [by left|done..]. }
  apply bind_inv in Ek as [(e & E & ->)|(attempt & s1 & E & Ek)]; apply try_candidate_spec in E; try done;
    specialize (Htalk _ _ E); destruct E as (Ho1 & Hact1 & Hr1 & new & Hs1 & Hf1 & Hok1);
    rewrite Hs1, drop_app_length in Htalk.
  { split_and!; [done..|]. exists new. by split_and!. }
  specialize (Hact1 eq_refl). destruct attempt as [[]|e].
  - injection Ek as <- <-. split_and!; [done..|]. exists new. split_and!; [done..|]. intros _.
    destruct (Hok1 eq_refl) as (y & Hy & Ha). exists cd, y. split_and!; [by left|done..| |done].
    rewrite Forall_forall in Hf1. by destruct (Hf1 y Hy).
  - apply IH in Ek; [|done..]. apply (scanned_cons (now, DeviceAdded cd)) in Ek as (Ho2 & Hr2 & new2 & Hs2 & Hf2 & Hok2).
    split_and!; [done|by etrans|]. exists (new ++ new2). split_and!; [by rewrite Hs2, Hs1, app_assoc|by apply Forall_app_2|].
    intros Hr. destruct (Hok2 Hr) as (cd2 & y & ? & ? & Hin & ? & Ha). exists cd2, y.
    split_and!; [done..|set_solver|done|by eapply accepted_by_suffix].
Qed.
End scan_lemmas.
End candidates.

(** ** The command *)

Section commands.
Context `{IrohKeys} `{Sha256} `{BleCrypto}.

(** What is sure once the adapter is ready. *)
Lemma adapter_ok b name s was_powered s' :
  adapter b name s = (Ok was_powered, s') →
  s' = mkRadio (ra_world s) (ra_active s) (ra_calls s ++ (if was_powered then [] else [SetPowered true])) (ra_sent s).
Proof.
  unfold adapter. intros ([] & s1 & [= _ <-] & E)%bind_ok. apply bind_ok in E as (p & s2 & [= _ <-] & E).
  destruct p; [injection E as <- <-; rewrite app_nil_r; by destruct s|].
  apply bind_ok in E as ([] & s3 & [= <-] & E). by apply bind_ok in E as ([] & s4 & [= _ <-] & [= <- <-]).
Qed.
Lemma adapter_err b name s e s' : b_power b = Ans tt → adapter b name s = (Err e, s') → s' = s.
Proof.
  intros Hp. unfold adapter. intros [(? & [= _ <-] & _)|([] & s1 & [= _ <-] & E)]%bind_inv; [done|].
  apply bind_inv in E as [(? & [= _ <-] & _)|(p & s2 & [= _ <-] & E)]; [done|].
  destruct p; [done|]. apply bind_inv in E as [(? & E & _)|([] & s3 & _ & E)]; [done|].
  unfold mbind, M_bind, lift in E. by rewrite Hp in E.
Qed.

(** The state after [release]. *)
Definition released (was_powered : bool) (s : Radio) : Radio :=
  mkRadio (ra_world s) None
    ((ra_calls s ++ match ra_active s with Some (a, k) => forget_calls a k | None => [] end) ++
     (if was_powered then [] else [SetPowered false])) (ra_sent s).
Lemma release_run was_powered s : release was_powered s = (Ok tt, released was_powered s).
Proof.
  unfold release, released, forget, mbind, M_bind, gets, set_active, call, mret, M_ret.
  destruct s as [w [[a k]|] l o]; cbn [ra_active ra_calls ra_sent ra_world].
  - rewrite calls_run. cbn [ra_active ra_calls ra_sent ra_world]. destruct was_powered; [by rewrite app_nil_r|done].
  - destruct was_powered; by rewrite ?app_nil_r.
Qed.

Lemma orderly_released known off was_powered s :
  orderly known off s → off = (was_powered = false) →
  let s' := released was_powered s in
  tidy (settled known) (ra_calls s') ∧ (∀ a, RemoveDevice a ∈ ra_calls s' → a ∉ known) ∧
  ∀ on, SetPowered on ∈ ra_calls s' → last (ra_calls s') = Some (SetPowered false).
Proof.
  intros Ho ->. cbv zeta.
  assert (Ho2 : orderly known (was_powered = false) (mkRadio (ra_world s) None
    (ra_calls s ++ match ra_active s with Some (a, k) => forget_calls a k | None => [] end) (ra_sent s))).
  { destruct (ra_active s) as [[a k]|] eqn:E.
    - rewrite (or_active _ _ _ Ho a k E). by apply orderly_forgotten; [|by rewrite E, (or_active _ _ _ Ho a k E)].
    - rewrite app_nil_r. destruct s as [w act l o]; simpl in *. subst act. exact Ho. }
  destruct Ho2 as [Ht _ Hr Hp]. unfold released. cbn [ra_calls ra_active] in *.
  set (l := ra_calls s ++ _) in *. clearbody l. destruct was_powered.
  - rewrite app_nil_r. split_and!; [|done|by intros on ?%Hp]. intros l1 a l2 E. by destruct (Ht _ _ _ E).
  - rewrite last_snoc. split_and!; [|intros a [?|?%list_elem_of_singleton]%elem_of_app; [by apply Hr|done]|done].
    eapply tidy_app; [exact Ht| |apply tidy_quiet; set_solver].
    intros a x [Hs|?]; [by apply settled_app|done].
Qed.

Definition known_devices (air : Air) : list Z := match air_addresses air with Ans l => l | BusErr _ _ => [] end.

(** Either nothing was done, or the scan took place and was undone. *)
Lemma provision_cases ck agent ssid psk name b air s r s' :
  provision ck agent ssid psk name b air s = (r, s') → ra_active s = None → ra_calls s = [] → b_power b = Ans tt →
  (is_err r = true ∧ s' = s) ∨
  ∃ conf expected was_powered s1 s2, network_conf ssid psk = Ok conf ∧ local_name agent = Ok expected ∧
    ra_world s1 = ra_world s ∧ ra_sent s1 = ra_sent s ∧
    scanned ck agent (as_bytes conf) expected (known_devices air) (was_powered = false) (air_events air) s1 r s2 ∧
    s' = released was_powered s2.
Proof.
  unfold provision. intros E Hact Hcalls Hpow.
  apply bind_inv in E as [(e & [= _ <-] & ->)|(conf & s0 & [= Ec <-] & E)]; [by left|].
  apply bind_inv in E as [(e & [= _ <-] & ->)|(expected & s0 & [= Ex <-] & E)]; [by left|].
  apply bind_inv in E as [(e & Ea%adapter_err & ->)|(wp & s1 & ->%adapter_ok & E)]; [by left|done|].
  right. rewrite Hcalls in E. simpl in E.
  set (s1 := mkRadio _ _ _ _) in E.
  assert (Ho : orderly (known_devices air) (wp = false) s1).
  { split; simpl.
    - apply tidy_quiet. destruct wp; set_solver.
    - by rewrite Hact.
    - destruct wp; set_solver.
    - intros on. destruct wp; set_solver. }
  apply bind_attempt in E as (x & s2 & Es & E). unfold mbind, M_bind in E. rewrite release_run in E. injection E as -> <-.
  exists conf, expected, wp, s1, s2. split_and!; try done.
  apply bind_inv in Es as [(e & [= _ <-] & ->)|(known & s3 & [= Ek <-] & Es)]; [by apply scanned_fail|].
  apply bind_inv in Es as [(e & [= _ <-] & ->)|([] & s3 & [= _ <-] & Es)]; [by apply scanned_fail|].
  apply from_bus_ok in Ek. unfold known_devices. rewrite Ek. unfold known_devices in Ho. rewrite Ek in Ho.
  by eapply scan_spec.
Qed.

(** C16: The operator's machine is left as it was found: however provisioning
    ends, by success, a failure anywhere, a timeout at any await or a signal at
    any point, even while letting a device go, every device it connected to has
    been disconnected afterwards, and removed from the adapter unless it was
    known there before; no device known before is removed; and a radio that was
    switched on for the purpose is switched off last. *)
Theorem radio_left_as_found ck agent ssid psk name b air s r s' :
  provision ck agent ssid psk name b air s = (r, s') → ra_active s = None → ra_calls s = [] → b_power b = Ans tt →
  ra_active s' = None ∧
  (∀ before a after, ra_calls s' = before ++ Connect a :: after →
     Disconnect a ∈ after ∧ (a ∉ known_devices air → RemoveDevice a ∈ after)) ∧
  (∀ a, RemoveDevice a ∈ ra_calls s' → a ∉ known_devices air) ∧
  (∀ on, SetPowered on ∈ ra_calls s' → last (ra_calls s') = Some (SetPowered false)).
Proof.
  intros E Hact Hcalls Hpow.
  destruct (provision_cases _ _ _ _ _ _ _ _ _ _ E Hact Hcalls Hpow)
    as [[_ ->]|(conf & expected & wp & s1 & s2 & _ & _ & _ & _ & (Ho & _) & ->)].
  - rewrite Hact, Hcalls. split_and!; [done| |set_solver..]. intros before a after. by destruct before.
  - destruct (orderly_released _ _ wp _ Ho eq_refl) as (Ht & Hr & Hp). by split_and!.
Qed.

(** C13: the network password leaves the controller only for the requested agent.
    Over the whole scan, whatever devices appear under whatever names and
    whatever they send: a device is written to only if it advertises the agent's
    name and the service and has no bond, and it is sent (part of) the start
    marker at most unless its own notifications start with the agent's node id
    and a signature by the agent's key over both node ids and its ephemeral key.
    The command reports success only if such a device was sent the configuration
    sealed for that exchange and answered with an acknowledgement that decrypts
    to "ok" under the exchange's key. *)
Theorem password_only_to_the_agent ck agent ssid psk name b air s r s' :
  provision ck agent ssid psk name b air s = (r, s') → ra_active s = None → ra_calls s = [] → ra_sent s = [] →
  b_power b = Ans tt →
  (∀ a out, (a, out) ∈ ra_sent s' → ∃ expected cd, local_name agent = Ok expected ∧
     DeviceAdded cd ∈ (air_events air).*2 ∧ cd_address cd = a ∧ suitable expected cd ∧ told ck agent cd out) ∧
  (r = Ok tt → ∃ conf expected cd out, network_conf ssid psk = Ok conf ∧ local_name agent = Ok expected ∧
     DeviceAdded cd ∈ (air_events air).*2 ∧ suitable expected cd ∧ (cd_address cd, out) ∈ ra_sent s' ∧
     accepted_by ck agent (as_bytes conf) cd (rng (ra_world s)) out).
Proof.
  intros E Hact Hcalls Hsent Hpow.
  destruct (provision_cases _ _ _ _ _ _ _ _ _ _ E Hact Hcalls Hpow)
    as [[He ->]|(conf & expected & wp & s1 & s2 & Hc & Hn & Hw & Hs & (_ & _ & new & Hnew & Hf & Hok) & ->)].
  - rewrite Hsent. split; [set_solver|]. by intros ->.
  - unfold released. cbn [ra_sent]. rewrite Hnew, Hs, Hsent. simpl. rewrite Hw in Hok. split.
    + intros a out Hin. rewrite Forall_forall in Hf. destruct (Hf _ Hin) as (cd & ? & ? & ? & ?). by exists expected, cd.
    + intros Hr. destruct (Hok Hr) as (cd & [a out] & ? & ? & ? & Ha & ?). simpl in Ha. subst a.
      by exists conf, expected, cd, out.
Qed.
End commands.

(** ** The service *)

Section service.
Context `{IrohKeys} `{Sha256} `{BleCryptoLaws}.

Definition peer_of (i : interrupted_at) : option Z :=
  match i with Idle => None | Pairing p | Exchanging p _ _ _ | Releasing p _ _ _ => Some p end.
(** Everything the peers sent, the one cut off by the signal included. *)
Definition all_received (evs : list ctl_event) (e : ending) : list bytes :=
  received evs ++
  match e with BySignal (Exchanging _ rd _ _ | Releasing _ rd _ _) => [rd_bytes rd] | _ => [] end.

Lemma interrupted_spec key controller agent output entropy inputs i sv :
  rng (sv_world sv) `suffix_of` entropy →
  (match i with Exchanging _ rd _ _ | Releasing _ rd _ _ => rd_bytes rd ∈ inputs | _ => True end) →
  (sv_active sv = None) →
  let sv' := interrupted key controller agent output i sv in
  only_credentials key controller agent output entropy inputs (sv_world sv) (sv_world sv') ∧ sv_active sv' = peer_of i ∧
  sv_removed sv' = sv_removed sv ∧ sv_taken sv' = sv_taken sv ++ option_list (peer_of i).
Proof.
  intros Hent Hin Hact. cbv zeta.
  assert (Hex : ∀ rd wr t, rd_bytes rd ∈ inputs →
    only_credentials key controller agent output entropy inputs (sv_world sv)
      (s_world (serve_exchange key controller agent output (mkSess rd wr t false (sv_world sv) false)).2)).
  { intros rd wr t Hrd.
    by destruct (serve_exchange_safe key controller agent output entropy inputs (sv_world sv) (rd_bytes rd) Hrd Hent
      (mkSess rd wr t false (sv_world sv) false)) as [? _]; [by split_and!|]. }
  destruct i; (split_and!; [|done|done|simpl; by rewrite ?app_nil_r]); simpl; auto using only_credentials_refl.
Qed.

(** What the service is, however it ends: who it took, who is left to let go, and
    what it did to the files. *)
Record ended (key : SecretKey) (controller agent : PublicKey) (output : string) (evs : list ctl_event) (e : ending)
    (w : World) (r : result unit) (sv : Server) : Prop := mkEnded {
  ended_files : only_credentials key controller agent output (rng w) (all_received evs e) w (sv_world sv);
  ended_ok : r = Ok tt → provisioned key controller agent output (rng w) (all_received evs e) (sv_world sv);
  ended_peers : sv_taken sv = sv_removed sv ++ option_list (sv_active sv);
  ended_who : sv_taken sv ⊆ opened evs ++ match e with BySignal i => option_list (peer_of i) | ByItself => [] end
}.
Lemma serve_on_adapter_ended key controller agent output advertise serve_gatt evs e w timers r sv :
  serve_on_adapter key controller agent output advertise serve_gatt evs (mkServer w None [] [] timers) = (r, sv) →
  ended key controller agent output evs e w r sv ∧ sv_active sv = None ∧ sv_taken sv ⊆ opened evs.
Proof.
  unfold serve_on_adapter.
  assert (Hearly : ∀ x, let sv0 := mkServer w None [] [] timers in
    ended key controller agent output evs e w (Err x) sv0 ∧ sv_active sv0 = None ∧ sv_taken sv0 ⊆ opened evs).
  { intros x. split_and!; [|done|set_solver]. split; [apply only_credentials_refl|done|done|set_solver]. }
  destruct (advertisement agent) as [adv|]; [|intros [= <- <-]; apply Hearly].
  destruct (advertise adv) as [[]|]; [|intros [= <- <-]; apply Hearly].
  destruct (serve_gatt application) as [[]|]; [|intros [= <- <-]; apply Hearly].
  intros E. pose proof (serve_loop_let_go key controller agent output (S (length evs)) evs (mkServer w None [] [] timers)) as Hgo.
  rewrite E in Hgo. destruct Hgo as (new & Htaken & Hremoved & Hnew). simpl in Htaken, Hremoved.
  apply (serve_loop_spec _ _ _ _ (rng w) (all_received evs e)) in E as (Ho & Ha & Hr); [|unfold all_received; set_solver|done].
  specialize (Ha eq_refl). split_and!; [|done|by rewrite Htaken].
  split; [done|by intros ->|by rewrite Ha, Htaken, Hremoved, app_nil_r|rewrite Htaken; set_solver].
Qed.
Lemma serve_or_signal_ended key controller agent output b advertise serve_gatt evs e w timers r sv :
  serve_or_signal key controller agent output b advertise serve_gatt evs e (mkServer w None [] [] timers) = (r, sv) →
  ended key controller agent output evs e w r sv.
Proof.
  unfold serve_or_signal. destruct (serve_on_adapter _ _ _ _ _ _ _ _) as [r0 sv0] eqn:E.
  apply (serve_on_adapter_ended _ _ _ _ _ _ _ e) in E as (Hend & Hact & Hwho).
  destruct e as [|i]; [by intros [= <- <-]|]. case_bool_decide as Hst; [|by intros [= <- <-]]. intros [= <- <-].
  destruct Hend as [Ho _ Hp _].
  destruct (interrupted_spec key controller agent output (rng w) (all_received evs (BySignal i)) i sv0) as (Ho2 & Ha2 & Hr2 & Ht2);
    [apply Ho|unfold all_received; destruct i; set_solver|done|].
  split; [by eapply only_credentials_trans|done|by rewrite Ht2, Hp, Hact, Hr2, Ha2, app_nil_r|rewrite Ht2; set_solver].
Qed.

End service.

(** ** The search for an adapter *)

(** Between two looks the code sleeps half a second. *)
Fixpoint spaced (t : Z) (probes : list Probe) : Prop :=
  match probes with [] => True | p :: probes => t ≤ pb_now p ∧ spaced (pb_now p + 500) probes end.
Definition misses (name : option string) (p : Probe) : Prop := ∃ u t, probe_adapter name p = BusErr u t.

Lemma find_adapter_within name deadline n t probes :
  spaced t probes → (n < length probes)%nat → deadline ≤ t + 500 * Z.of_nat n →
  ∃ k p r, (k ≤ n)%nat ∧ probes !! k = Some p ∧ Forall (misses name) (take k probes) ∧
    find_adapter name deadline probes = Some r ∧
    match r with
    | Ok powered => probe_adapter name p = Ans powered
    | Err _ => misses name p ∧ deadline ≤ pb_now p
    end.
Proof.
  revert t probes. induction n as [|n IH]; intros t [|p probes] Hsp Hlen Hd; simpl in *; try lia;
    destruct Hsp as [Ht Hsp]; destruct (probe_adapter name p) as [powered|u x] eqn:Ep.
  - exists O, p, (Ok powered). split_and!; [lia|done..].
  - rewrite bool_decide_false by lia. exists O, p, (Err (add_context "finding a Bluetooth adapter" (anyhow x))).
    split_and!; [lia|done|constructor|done|by exists u, x|lia].
  - exists O, p, (Ok powered). split_and!; [lia|done..].
  - case_bool_decide as Hnow.
    + destruct (IH (pb_now p + 500) probes) as (k & q & r & Hk & Hq & Hf & Hr & Hm); [done|lia|lia|].
      exists (S k), q, r. split_and!; [lia|done| |done|done]. simpl. constructor; [by exists u, x|done].
    + exists O, p, (Err (add_context "finding a Bluetooth adapter" (anyhow x))).
      split_and!; [lia|done|constructor|done|by exists u, x|lia].
Qed.

(** The search for an adapter ends: looking every half second, it takes at
    most 21 looks; it returns what the first successful look saw, and gives up
    only at a look that failed at or after the deadline of ten seconds, all looks
    before having failed too. *)
Theorem adapter_search_ends name start probes :
  spaced start probes → (21 ≤ length probes)%nat →
  ∃ k p r, (k ≤ 20)%nat ∧ probes !! k = Some p ∧ Forall (misses name) (take k probes) ∧
    find_adapter name (start + ADAPTER_WAIT) probes = Some r ∧
    match r with
    | Ok powered => probe_adapter name p = Ans powered
    | Err _ => misses name p ∧ start + ADAPTER_WAIT ≤ pb_now p
    end.
Proof.
  intros Hsp Hlen. apply (find_adapter_within name (start + ADAPTER_WAIT) 20 start); [done|lia|].
  unfold ADAPTER_WAIT. lia.
Qed.

(** ** Concrete runs *)

Section examples.
Existing Instances DemoKeys.demo_keys DemoSha.demo_sha DemoBle.demo_ble.

Definition demo_miss (t : Z) : Probe := mkProbe (λ _, BusErr false "no such adapter") (BusErr false "no adapter") (Ans true) t.
Definition demo_hit (t : Z) : Probe := mkProbe (λ _, Ans tt) (Ans tt) (Ans false) t.
Definition demo_looks : list Probe := (demo_miss ∘ (λ n, 500 * Z.of_nat n)) <$> seq 0 21.

Lemma adapter_search_ends_witness :
  ∃ k p r, (k ≤ 20)%nat ∧ demo_looks !! k = Some p ∧ Forall (misses None) (take k demo_looks) ∧
    find_adapter None (0 + ADAPTER_WAIT) demo_looks = Some r ∧
    match r with
    | Ok powered => probe_adapter None p = Ans powered
    | Err _ => misses None p ∧ 0 + ADAPTER_WAIT ≤ pb_now p
    end.
Proof.
  apply (adapter_search_ends None 0 demo_looks).
  - unfold demo_looks. simpl. lia.
  - reflexivity.
Defined.

(** An impostor under the agent's name, whose services take a moment to show;
    the signal arrives while it is being let go. *)
Definition demo_agent_key : SecretKey := DemoKeys.mk_key [x08].
Definition demo_controller_key : SecretKey := DemoKeys.mk_key [x09].
Definition demo_service : RemoteService := mkRemoteService (Ans SERVICE_UUID)
  (Ans [mkRemoteCharacteristic (Ans CHARACTERISTIC_UUID)
    (Ans [RData (frame (server_hello (DemoKeys.mk_key [x07]) (sk_public demo_controller_key) (replicate 32 x02)))])
    (Ans new_writer)]).
Definition demo_impostor : Candidate := mkCandidate 5 (Ans tt)
  (Ans match local_name (sk_public demo_agent_key) with Ok n => Some n | Err _ => None end)
  (Ans (Some [SERVICE_UUID])) (Ans false) 200 (Ans tt) 300 [(BusErr true "unresolved", 400); (Ans [demo_service], 700)]
  NoCut (Some 1%nat).
Definition demo_bus : Bus := mkBus (Ans tt) 0 [demo_miss 0; demo_hit 500] (Ans tt) (Ok tt).
Definition demo_air : Air := mkAir (Ans [4]) (Ans tt) 100 [(100, OtherEvent); (150, DeviceAdded demo_impostor)].
Definition demo_radio : Radio := mkRadio (demo_world (replicate 32 x03)) None [] [].
Definition demo_provisioning : result unit * Radio :=
  provision demo_controller_key (sk_public demo_agent_key) "attic" "correct horse" None demo_bus demo_air demo_radio.

Lemma radio_left_as_found_witness :
  ra_calls demo_provisioning.2 =
    [SetPowered true; Connect 5; Disconnect 5; Disconnect 5; RemoveDevice 5; SetPowered false] ∧
  ra_active demo_provisioning.2 = None ∧
  (∀ before a after, ra_calls demo_provisioning.2 = before ++ Connect a :: after →
     Disconnect a ∈ after ∧ (a ∉ known_devices demo_air → RemoveDevice a ∈ after)) ∧
  (∀ a, RemoveDevice a ∈ ra_calls demo_provisioning.2 → a ∉ known_devices demo_air) ∧
  (∀ on, SetPowered on ∈ ra_calls demo_provisioning.2 → last (ra_calls demo_provisioning.2) = Some (SetPowered false)).
Proof.
  split; [vm_compute; reflexivity|].
  pose proof (surjective_pairing demo_provisioning) as E. unfold demo_provisioning at 1 in E.
  exact (radio_left_as_found demo_controller_key (sk_public demo_agent_key) "attic" "correct horse" None demo_bus demo_air
    demo_radio demo_provisioning.1 demo_provisioning.2 E eq_refl eq_refl eq_refl).
Defined.

Lemma password_only_to_the_agent_witness :
  ra_sent demo_provisioning.2 = [(5, [START])] ∧
  (∀ a out, (a, out) ∈ ra_sent demo_provisioning.2 → ∃ expected cd,
     local_name (sk_public demo_agent_key) = Ok expected ∧
     DeviceAdded cd ∈ (air_events demo_air).*2 ∧ cd_address cd = a ∧ suitable expected cd ∧
     told demo_controller_key (sk_public demo_agent_key) cd out) ∧
  (demo_provisioning.1 = Ok tt → ∃ conf expected cd out, network_conf "attic" "correct horse" = Ok conf ∧
     local_name (sk_public demo_agent_key) = Ok expected ∧
     DeviceAdded cd ∈ (air_events demo_air).*2 ∧ suitable expected cd ∧
     (cd_address cd, out) ∈ ra_sent demo_provisioning.2 ∧
     accepted_by demo_controller_key (sk_public demo_agent_key) (as_bytes conf) cd (rng (ra_world demo_radio)) out).
Proof.
  split; [vm_compute; reflexivity|].
  pose proof (surjective_pairing demo_provisioning) as E. unfold demo_provisioning at 1 in E.
  exact (password_only_to_the_agent demo_controller_key (sk_public demo_agent_key) "attic" "correct horse" None demo_bus
    demo_air demo_radio demo_provisioning.1 demo_provisioning.2 E eq_refl eq_refl eq_refl eq_refl).
Defined.

(** A service stopped by a signal while a peer has opened one half. *)
Definition demo_key_world : World :=
  mkWorld {[ ["k"] := NFile (mkFile (replicate 32 x08) 384) ]} [] [Ok (replicate 32 x02)] [] 7 18.
Definition demo_serving : result unit * Radio :=
  serve (sk_public demo_controller_key) ["k"] "wpa.conf" demo_bus (λ _, Ok tt) (λ _, Ok tt) []
    [CtlNotify 1 new_writer; CtlQuiet] (BySignal (Pairing 6)) (mkRadio demo_key_world None [] []).

End examples.
