(* ===== verification/FirstHop.v ===== *)
(** * The first hop, from both sides (src/src/ble.rs)

    What the agent's service announces and serves is what the controller's scan
    looks for, and the exchange between them delivers the configuration: the
    two entry points [serve] and [provision] of Radio.v, one per machine, joined
    by the air between them. *)

From S2P Require Import Prelude Text Stream Fs Crypto Proto State Ble Radio.

(** What a device that connects sees of a served application: [notify_io] and
    [write_io] open the streams a characteristic offers. *)
Definition seen_characteristic (notify : reader) (write : writer) (c : GattCharacteristic) : RemoteCharacteristic :=
  mkRemoteCharacteristic (Ans (gc_uuid c))
    (if bool_decide (gc_notify c = Some true) then Ans notify else BusErr false "notify not supported")
    (if bool_decide (snd <$> gc_write c = Some true) then Ans write else BusErr false "write not supported").
Definition seen_service (notify : reader) (write : writer) (s : GattService) : RemoteService :=
  mkRemoteService (Ans (gs_uuid s)) (Ans (seen_characteristic notify write <$> gs_characteristics s)).

(** A device without a bond that shows the advertisement, is taken before the
    scan's deadline, and whose services resolve at some look in time. *)
Record shows (adv : Advertisement) (app : list GattService) (notify : reader) (write : writer) (deadline : Z)
    (cd : Candidate) : Prop := mkShows {
  shows_device : cd_device cd = Ans tt;
  shows_discoverable : adv_discoverable adv = Some true;
  shows_name : cd_name cd = Ans (adv_local_name adv);
  shows_uuids : cd_uuids cd = Ans (Some (adv_service_uuids adv));
  shows_paired : cd_paired cd = Ans false;
  shows_now : cd_now cd < deadline;
  shows_connect : cd_connect cd = Ans tt;
  shows_looks : ∃ early now late, cd_looks cd = early ++ (Ans (seen_service notify write <$> app), now) :: late ∧
    Forall (λ l, (∃ t, l.1 = BusErr true t) ∧ l.2 < cd_discovery cd + SERVICE_WAIT) early;
  shows_cut : cd_cut cd = NoCut;
  shows_forget : cd_forget_cut cd = None
}.
(** What the scan goes past on its way. *)
Definition passed_over (expected : string) (deadline : Z) (x : Z * scan_event) : Prop :=
  x.1 < deadline ∧
  match x.2 with
  | OtherEvent => True
  | DeviceAdded cd => cd_device cd = Ans tt ∧
      ∀ name uuids, cd_name cd = Ans name → cd_uuids cd = Ans uuids → wanted expected name uuids = false
  | _ => False
  end.
(** A peer that opens the two halves of the characteristic, the notifying half
    first as [provision] does or the other way round, after any wait, while others
    open theirs in between, and whatever happens afterwards. *)
Definition other_half (peer : Z) (ev : ctl_event) : Prop :=
  match ev with CtlWrite (Ok (p, _)) | CtlNotify p _ => p ≠ peer | _ => False end.
Inductive opens (peer : Z) (sr : reader) (sw : writer) : list ctl_event → Prop :=
  | notify_first wait between after : Forall (other_half peer) between →
      opens peer sr sw (replicate wait CtlQuiet ++ CtlNotify peer sw :: between ++ CtlWrite (Ok (peer, sr)) :: after)
  | write_first wait between after : Forall (other_half peer) between →
      opens peer sr sw (replicate wait CtlQuiet ++ CtlWrite (Ok (peer, sr)) :: between ++ CtlNotify peer sw :: after).

Lemma next_control_waits n evs : next_control (replicate n CtlQuiet ++ evs) = next_control evs.
Proof. by induction n. Qed.
Lemma pair_loop_skips peer rd wr between evs :
  rd = None ∨ wr = None → Forall (other_half peer) between →
  pair_loop peer rd wr (between ++ evs) = pair_loop peer rd wr evs.
Proof.
  intros Hn. induction 1 as [|ev between Hev _ IH]; [done|].
  destruct rd, wr; [by destruct Hn|..]; simpl; destruct ev as [[[p x]|]|p x|]; try done; by rewrite bool_decide_false.
Qed.
(** The loop takes the peer's first half and finds its second. *)
Lemma opens_served peer sr sw evs :
  opens peer sr sw evs →
  (∃ rest, next_control evs = CtlNotify peer sw :: rest ∧ ∃ after, pair_loop peer None (Some sw) rest = (Ok (sr, sw), after)) ∨
  (∃ rest, next_control evs = CtlWrite (Ok (peer, sr)) :: rest ∧ ∃ after, pair_loop peer (Some sr) None rest = (Ok (sr, sw), after)).
Proof.
  intros [wait between after Hb|wait between after Hb]; [left|right]; eexists; rewrite next_control_waits; (split; [done|]);
    rewrite pair_loop_skips by auto; exists after; simpl; rewrite bool_decide_true by done; by destruct after.
Qed.

(** The bus answers, and a powered-off adapter can be switched on. *)
Record responds (b : Bus) (name : option string) : Prop := mkResponds {
  responds_session : b_session b = Ans tt;
  responds_found : ∃ powered, find_adapter name (b_start b + ADAPTER_WAIT) (b_probes b) = Some (Ok powered);
  responds_power : b_power b = Ans tt
}.

Lemma adapter_responds b name s :
  responds b name → ∃ powered calls, adapter b name s = (Ok powered, mkRadio (ra_world s) (ra_active s) calls (ra_sent s)).
Proof.
  intros [Hs [powered Hf] Hp]. unfold adapter, mbind, M_bind, lift, call, mret, M_ret. rewrite Hs, Hf, Hp. simpl.
  destruct powered; [|by eexists _, _]. exists true, (ra_calls s). by destruct s.
Qed.

Section first_hop.
Context `{IrohKeysLaws} `{Sha256} `{BleCryptoLaws}.

Lemma advertisement_ok k : ∃ name, local_name k = Ok name ∧
  advertisement k = Ok (mkAdvertisement [SERVICE_UUID] (Some name) (Some true)).
Proof.
  unfold advertisement, local_name. rewrite bool_decide_false by (rewrite pk_string_length; lia). by eexists.
Qed.

Section controller.
Context (ck : SecretKey) (agent : PublicKey) (conf : bytes) (expected : string) (b : Bus) (known : list Z) (deadline : Z).

Lemma scan_passes pre evs s :
  Forall (passed_over expected deadline) pre →
  scan ck agent conf expected b known deadline (pre ++ evs) s = scan ck agent conf expected b known deadline evs s.
Proof.
  induction 1 as [|[now ev] pre [Hnow Hev] _ IH]; [done|]. simpl in *. rewrite bool_decide_false by lia.
  destruct ev as [cd| | |]; [|done..]. destruct Hev as [Hd Hw]. rewrite Hd. unfold mbind, M_bind, lift. simpl.
  destruct (cd_name cd) as [name|], (cd_uuids cd) as [uuids|], (cd_paired cd) as [paired|]; try done.
  by rewrite (Hw name uuids eq_refl eq_refl).
Qed.

(** The look that resolves ends the wait for the characteristic. *)
Lemma characteristic_found notify write limit early now late r w wd i :
  Forall (λ l, (∃ t, l.1 = BusErr true t) ∧ l.2 < limit) early →
  characteristic limit (early ++ (Ans (seen_service notify write <$> application), now) :: late) (calm r w wd i) =
  (Ok (mkRemoteCharacteristic (Ans CHARACTERISTIC_UUID) (Ans notify) (Ans write)), calm r w wd i).
Proof.
  induction 1 as [|[services t] early [[msg Hm] Hl] _ IH]; [done|].
  simpl in Hm, Hl. subst services. unfold mbind, M_bind, awaiting in *. simpl. by rewrite bool_decide_true.
Qed.

Lemma approach_succeeds adv cr cw cd wd s :
  shows adv application cr cw deadline cd → healthy cw →
  provision_exchange ck agent conf (calm cr (mkWriter [] None None false) wd false) = (Ok tt, s) →
  approach ck agent conf cd (calm [] new_writer wd false) = (Ok tt, s).
Proof.
  intros Hs [Hb [Hf _]] Hx. unfold approach, mbind, M_bind. rewrite (shows_connect _ _ _ _ _ _ Hs). simpl.
  destruct (shows_looks _ _ _ _ _ _ Hs) as (early & now & late & -> & He).
  rewrite characteristic_found by done. simpl. unfold use_streams. rewrite Hb, Hf. exact Hx.
Qed.

Lemma candidate_succeeds adv cr cw cd post now s se :
  shows adv application cr cw deadline cd → healthy cw → now < deadline → adv_local_name adv = Some expected →
  adv_service_uuids adv = [SERVICE_UUID] →
  provision_exchange ck agent conf (calm cr (mkWriter [] None None false) (ra_world s) false) = (Ok tt, se) → s_fired se = false →
  ∃ s', scan ck agent conf expected b known deadline ((now, DeviceAdded cd) :: post) s = (Ok tt, s') ∧
    ra_active s' = None ∧ ra_world s' = s_world se ∧ ra_sent s' = ra_sent s ++ [(cd_address cd, w_out (s_wr se))].
Proof.
  intros Hs Hcw Hnow Hname Huuid Hx Hfired. pose proof (approach_succeeds _ _ _ _ _ _ Hs Hcw Hx) as Ha.
  destruct Hs as [Hd _ Hn Hu Hp Hlt _ _ Hcut Hforget].
  simpl. rewrite bool_decide_false by lia. unfold mbind at 1, M_bind at 1. rewrite Hd, Hn, Hu, Hp, Hname, Huuid. simpl.
  assert (Hw : wanted expected (Some expected) (Some [SERVICE_UUID]) = true).
  { unfold wanted. rewrite !bool_decide_true; [done|by left|done]. }
  rewrite Hw. unfold try_candidate, mbind, M_bind, set_active. rewrite bool_decide_false by lia. simpl.
  unfold attempt_exchange. rewrite Hcut. simpl. rewrite Ha, Hfired. unfold forget_during, forget, forget_calls. rewrite Hforget.
  destruct (bool_decide (cd_address cd ∈ known)); simpl; eexists; split_and!; done.
Qed.
End controller.

(** The service with a peer that opens both halves and whose exchange succeeds. *)
Lemma service_succeeds controller key_file output b advertise serve_gatt peer sr sw evs ak wa ws adv se :
  load_or_create_key key_file Replace wa = (Ok ak, ws) → responds b None →
  advertisement (sk_public ak) = Ok adv → advertise adv = Ok tt → serve_gatt application = Ok tt →
  serve_exchange ak controller (sk_public ak) output (calm sr sw ws false) = (Ok tt, se) → s_installed se = true →
  opens peer sr sw evs →
  ∃ s, serve controller key_file output b advertise serve_gatt [] evs ByItself (mkRadio wa None [] []) = (Ok tt, s) ∧
    ra_world s = s_world se.
Proof.
  intros Hkey Hb Hadv Had Hgatt Hx Hin Hopens. unfold serve, on_disk. unfold mbind at 1, M_bind at 1. cbn [ra_world ra_active ra_calls ra_sent].
  rewrite Hkey. unfold mbind at 1, M_bind at 1.
  destruct (adapter_responds b None (mkRadio ws None [] []) Hb) as (powered & calls & ->).
  unfold mbind at 1, M_bind at 1. unfold serve_or_signal, serve_on_adapter. rewrite Hadv, Had, Hgatt.
  assert (Hd : exchange_done (Ok tt) se = true) by (unfold exchange_done; by destruct (s_fired se)).
  cbn [serve_loop]. destruct (opens_served _ _ _ _ Hopens) as [(rest & -> & Hpair)|(rest & -> & Hpair)];
    unfold serve_attempt; destruct Hpair as [post ->]; cbn; rewrite Hx, Hd; destruct powered; by eexists.
Qed.

(** The whole command, given that the exchange with the device succeeds. *)
Lemma provision_succeeds ck agent ssid psk name b known start pre now cd post cr cw w conf expected adv se :
  network_conf ssid psk = Ok conf → local_name agent = Ok expected → responds b name →
  Forall (passed_over expected (start + SCAN_WAIT)) pre → now < start + SCAN_WAIT →
  shows adv application cr cw (start + SCAN_WAIT) cd → healthy cw →
  adv_local_name adv = Some expected → adv_service_uuids adv = [SERVICE_UUID] →
  provision_exchange ck agent (as_bytes conf) (calm cr (mkWriter [] None None false) w false) = (Ok tt, se) → s_fired se = false →
  ∃ s, provision ck agent ssid psk name b (mkAir (Ans known) (Ans tt) start (pre ++ (now, DeviceAdded cd) :: post))
         (mkRadio w None [] []) = (Ok tt, s) ∧ ra_sent s = [(cd_address cd, w_out (s_wr se))].
Proof.
  intros Hconf Hname Hb Hpre Hnow Hs Hcw Hn Hu Hx Hf. unfold provision, mbind, M_bind, lift. rewrite Hconf, Hname.
  destruct (adapter_responds b name (mkRadio w None [] []) Hb) as (powered & calls & ->). unfold attempt. cbn [air_addresses air_discover from_bus air_start air_events].
  rewrite scan_passes by done.
  destruct (candidate_succeeds ck agent (as_bytes conf) expected b known (start + SCAN_WAIT) adv cr cw cd post now
    (mkRadio w None calls []) se) as (s & Hscan & Hact & _ & Hsent); [done..|].
  cbn [ra_world ra_active ra_sent] in *. rewrite Hscan. unfold release, mbind, M_bind, gets. rewrite Hact.
  destruct powered; by eexists.
Qed.

(** C18: The first hop works, between the two machines as they are started: the
    agent's service announces a name and serves a characteristic such that, for
    every accepted network name and pass phrase, a controller whose scan comes
    upon a device that shows just this and holds no bond (after any number of
    devices that lack its name or its service, however long its services take to
    resolve within the limit, and however the radio cuts the bytes) delivers the
    configuration to it and reports success; and the agent, approached by a peer
    that opens the two halves of the characteristic in either order, others
    opening theirs in between, reports success and holds exactly this
    configuration in its credential file, with mode 0600 and no side file.  The
    bytes each side is given are the bytes the other one writes. *)
Theorem first_hop_end_to_end ak ck key_file wa ws sa ls output ba ssid psk conf name wc ca lc bc :
  network_conf ssid psk = Ok conf →
  load_or_create_key key_file Replace wa = (Ok ak, ws) → rng ws = Ok sa :: ls → length sa = 32%nat →
  installable output ws → responds ba None →
  rng wc = Ok ca :: lc → length ca = 32%nat → responds bc name →
  ∃ adv expected to_agent to_controller,
    advertisement (sk_public ak) = Ok adv ∧ local_name (sk_public ak) = Ok expected ∧
    (∀ advertise serve_gatt peer sr sw evs,
       advertise adv = Ok tt → serve_gatt application = Ok tt → clean sr → rd_bytes sr = to_agent → healthy sw →
       opens peer sr sw evs →
       (∃ s, serve (sk_public ck) key_file output ba advertise serve_gatt [] evs ByItself (mkRadio wa None [] []) = (Ok tt, s) ∧
             fs (ra_world s) !! out_path output = Some (NFile (mkFile (as_bytes conf) (Z.ldiff o600 (umask ws)))) ∧
             fs (ra_world s) !! tmp_path output ws = None) ∧
       ∃ s, serve_exchange ak (sk_public ck) (sk_public ak) output (calm sr sw ws false) = (Ok tt, s) ∧
             w_out (s_wr s) = w_out sw ++ to_controller) ∧
    (∀ known start pre now cd post cr cw,
       let deadline := start + SCAN_WAIT in
       Forall (passed_over expected deadline) pre → now < deadline →
       shows adv application cr cw deadline cd → clean cr → rd_bytes cr = to_controller → healthy cw →
       ∃ s, provision ck (sk_public ak) ssid psk name bc
              (mkAir (Ans known) (Ans tt) start (pre ++ (now, DeviceAdded cd) :: post)) (mkRadio wc None [] []) = (Ok tt, s) ∧
            ra_sent s = [(cd_address cd, to_agent)]).
Proof.
  intros Hconf Hkey Hrs Hsa Hinst Hba Hrc Hca Hbc.
  destruct (exchange_end_to_end ak ck ssid psk conf sa ca ls lc output ws wc) as (hello & request & ack & Hctl & Hagent); [done..|].
  destruct (advertisement_ok (sk_public ak)) as (expected & Hname & Hadv).
  exists (mkAdvertisement [SERVICE_UUID] (Some expected) (Some true)), expected, ([START] ++ frame request), (frame hello ++ frame ack). split_and!; [exact Hadv|done|..].
  - intros advertise serve_gatt peer sr sw evs Had Hgatt Hsr Hrd Hsw Hopens.
    destruct (Hagent sr sw Hsr Hrd Hsw) as (s & Hx & Hout & Hin & Hfile & Hside). split; [|by eexists].
    destruct (service_succeeds (sk_public ck) key_file output ba advertise serve_gatt peer sr sw evs ak wa ws _ s Hkey Hba Hadv Had Hgatt Hx Hin Hopens) as (s' & Hserve & Hw).
    exists s'. rewrite Hw. by split_and!.
  - intros known start pre now cd post cr cw deadline Hpre Hnow Hs Hcr Hrd Hcw.
    destruct (Hctl cr (mkWriter [] None None false) Hcr Hrd) as (se & Hx & Hfired & Hout); [done|].
    change (w_out (s_wr se) = [START] ++ frame request) in Hout. rewrite <- Hout. by eapply provision_succeeds.
Qed.
End first_hop.

Section examples.
Import DemoKeys DemoSha DemoBle.

Lemma demo_responds : responds demo_bus None.
Proof. split; [done|by eexists|done]. Qed.
(** A stranger's device, then the agent's, whose services resolve at the second look. *)
Definition demo_shown (notify : reader) (name : string) : Candidate := mkCandidate 6 (Ans tt) (Ans (Some name))
  (Ans (Some [SERVICE_UUID])) (Ans false) 200 (Ans tt) 300
  [(BusErr true "unresolved", 400); (Ans (seen_service notify new_writer <$> application), 700)] NoCut None.
Definition demo_stranger : Candidate := mkCandidate 5 (Ans tt) (Ans None) (Ans None) (Ans false) 150 (Ans tt) 300 [] NoCut None.

Definition hop_key : SecretKey := DemoKeys.mk_key (replicate 32 x08).
Lemma first_hop_end_to_end_witness :
  ∃ expected to_agent to_controller,
    (∃ s, serve (sk_public demo_controller_key) ["k"] "wpa.conf" demo_bus (λ _, Ok tt) (λ _, Ok tt) []
        [CtlQuiet; CtlNotify 1 new_writer; CtlNotify 2 new_writer; CtlWrite (Ok (1, [RData to_agent]))] ByItself (mkRadio demo_key_world None [] []) = (Ok tt, s) ∧
      fs (ra_world s) !! out_path "wpa.conf" = Some (NFile (mkFile (as_bytes demo_conf) 384))) ∧
    ∃ s, provision demo_controller_key (sk_public hop_key) "attic" "correct horse" None demo_bus
        (mkAir (Ans []) (Ans tt) 100 [(120, OtherEvent); (150, DeviceAdded demo_stranger);
           (180, DeviceAdded (demo_shown [RData to_controller] expected))])
        (mkRadio (demo_world (replicate 32 x03)) None [] []) = (Ok tt, s) ∧ ra_sent s = [(6, to_agent)].
Proof.
  destruct (first_hop_end_to_end hop_key demo_controller_key ["k"] demo_key_world demo_key_world (replicate 32 x02) []
    "wpa.conf" demo_bus "attic" "correct horse" demo_conf None (demo_world (replicate 32 x03)) (replicate 32 x03) [] demo_bus)
    as (adv & expected & to_agent & to_controller & Hadv & Hname & Hagent & Hctl).
  - vm_compute. reflexivity.
  - vm_compute. reflexivity.
  - reflexivity.
  - reflexivity.
  - split_and!; try done; vm_compute; done.
  - exact demo_responds.
  - reflexivity.
  - reflexivity.
  - exact demo_responds.
  - exists expected, to_agent, to_controller. split.
    + destruct (Hagent (λ _, Ok tt) (λ _, Ok tt) 1 [RData to_agent] new_writer
        [CtlQuiet; CtlNotify 1 new_writer; CtlNotify 2 new_writer; CtlWrite (Ok (1, [RData to_agent]))]) as [(s & Hs & Hf & _) _];
        [done|done|by repeat constructor|apply app_nil_r|done| |by exists s].
      apply (notify_first 1 [RData to_agent] new_writer 1 [CtlNotify 2 new_writer] []). by repeat constructor.
    + apply (Hctl [] 100 [(120, OtherEvent); (150, DeviceAdded demo_stranger)] 180
        (demo_shown [RData to_controller] expected) [] [RData to_controller] new_writer);
        [|unfold SCAN_WAIT; lia| |by repeat constructor|apply app_nil_r|done].
      * unfold SCAN_WAIT. repeat constructor; simpl; try lia. by intros name uuids [= <-] [= <-].
      * unfold advertisement in Hadv. rewrite Hname in Hadv. injection Hadv as <-. unfold SCAN_WAIT.
        split; try done. exists [(BusErr true "unresolved", 400)], 700, []. split; [done|].
        constructor; [|done]. split; [by eexists|]. simpl. unfold SERVICE_WAIT. lia.
Defined.
End examples.
