(* ===== verification/Cli.v ===== *)
(** * The command line (src/src/main.rs)

    The arguments as [clap] hands them over, what they default to and which of
    them exclude each other, and the dispatch to the components.  [clap] itself
    is not part of the repository: a role is what it parsed.  The two long-lived
    roles do not return: the agent's run is what it has done after a number of
    dials, [serve]'s the system of tasks it has started, whose steps are those of
    Controller.v. *)

From S2P Require Import Prelude Text Stream Fs Crypto Proto Transfer Pipe Net State Demo Controller Agent Commands Link Ble Ssh Recipe Radio.

(** ** The arguments *)

Record AgentArgs := mkAgentArgs {
  aa_controller : string;
  aa_key_file : path;
  aa_relay : list string;
  aa_no_relay : bool;
  aa_direct : list SocketAddr
}.

Record SshArgs := mkSshArgs {
  sa_agent : string;
  sa_user : string;
  sa_authorized_keys : string;
  sa_host_key : string;
  sa_sshd_arg : list string;
  sa_keygen_arg : list string;
  sa_target_addr : string;
  sa_local_port : Z;
  sa_key_options : string;
  sa_key_ttl_secs : Z;
  sa_ssh_argv : list string
}.

Inductive ControllerCmd :=
  | CmdInit
  | CmdServe (relay : list string) (no_relay : bool) (probe_interval probe_timeout restart_after : Z)
      (bind : option SocketAddr)
  | CmdPending (json : bool)
  | CmdApprove (pubkey : string)
  | CmdJoin (iface : option string) (json : bool)
  | CmdBle (agent network : string) (psk_file : path) (adapter : option string)
  | CmdStatus (json : bool)
  | CmdExec (agent : string) (argv : list string)
  | CmdPush (agent : string) (local : path) (remote : string)
  | CmdPull (agent remote : string) (local : path) (max_bytes : Z)
  | CmdForward (agent : string) (local_port : Z) (remote : string)
  | CmdSsh (args : SshArgs).

Inductive Role :=
  | RoleController (state_dir : option path) (cmd : ControllerCmd)
  | RoleAgent (args : AgentArgs)
  | RoleLink (node_id : string) (json : bool) (hostapd : option string) (supplicant : bool)
  | RoleBle (controller : string) (key_file : path) (output : string).

(** What is not given. *)
Definition agent_defaults (controller : string) : AgentArgs :=
  mkAgentArgs controller (parse_path "/var/lib/egdod/agent.key") [] false [].
Definition ble_defaults (controller : string) : Role :=
  RoleBle controller (parse_path "/agent.key") "/wpa_supplicant.conf".
Definition serve_defaults : ControllerCmd := CmdServe [] false 60 20 2 None.
Definition pull_defaults (agent remote : string) (local : path) : ControllerCmd :=
  CmdPull agent remote local DEFAULT_MAX_BYTES.
Definition default_key_options : string :=
  "from=" +:+ (DQ +:+ ("127.0.0.1,::1" +:+ DQ)).
Definition ssh_defaults (agent : string) : SshArgs :=
  mkSshArgs agent "root" "/root/.ssh/authorized_keys" "/etc/ssh/ssh_host_ed25519_key.pub" ["sshd"] ["ssh-keygen"; "-A"]
    "127.0.0.1:22" 0 default_key_options 600 [].

(** [conflicts_with] and [required]: what [clap] refuses to parse. *)
Definition accepted (r : Role) : bool :=
  let relays no_relay relay := negb (no_relay && negb (bool_decide (relay = []))) in
  match r with
  | RoleAgent a => relays (aa_no_relay a) (aa_relay a)
  | RoleController _ (CmdServe relay no_relay _ _ _ _) => relays no_relay relay
  | RoleController _ (CmdExec _ argv) => negb (bool_decide (argv = []))
  | RoleController _ (CmdJoin iface json) => negb (json && bool_decide (is_Some iface))
  | RoleLink _ json hostapd supplicant =>
      negb (bool_decide (is_Some hostapd) && (json || supplicant)) && negb (supplicant && json)
  | _ => true
  end.

(** ** The dispatch *)

Section dispatch.
Context `{IrohKeys} `{RelayUrls} `{Sha256} `{BleCrypto} `{!StatvfsCall} `{!ControlSocket} `{!LocalPrograms} `{!JoinTools}.
Context `{SerdeJson (list PendingAgent)} `{SerdeJson Status} `{SerdeJson Link}.
Context `{Postcard Route} `{Postcard RouteReply} `{Postcard Request} `{Postcard ExecFrame}
  `{Postcard Ack} `{Postcard PullStart} `{Postcard Admission}.
Context `{!EndpointBuild}.

(** How the rest of the machine behaves: the environment's variables, the radio,
    the access point, the connections a forward accepts; for the agent how often
    it has looked for its key and what became of its dials, for [serve] its
    listening socket and the addresses of its endpoint. *)
Record Env := mkEnv {
  en_xdg_state_home : option string;
  en_home : option string;
  en_bus : Bus;
  en_air : Air;
  en_gatt : (Advertisement → result unit) * (list GattService → result unit) * list (option nat) * list ctl_event * ending;
  en_join : Z * list JoinRound * Leave;
  en_accepts : list (result (reader * writer));
  en_key_looks : nat;
  en_dials : list AgentNet;
  en_listen : path → result unit;
  en_ip_addrs : Endpoint → list SocketAddr
}.

(** What a role that did not fail ends in. *)
Inductive outcome :=
  | Finished (out : list string)
  | ExitsWith (out : list string) (code : Z)     (** [std::process::exit] *)
  | RunsAgent (acts : list act)
  | RunsServe (out : list string) (sys : Sys)
  | StillJoining.

(** The status the parent sees: 1 for an error returned from [main], and the low
    byte of the code given to [exit]. *)
Definition exit_status (r : result outcome) : option Z :=
  match r with
  | Err _ => Some 1
  | Ok (Finished _) => Some 0
  | Ok (ExitsWith _ code) => Some (code mod 256)
  | Ok _ => None
  end.

Definition on_air {A} (m : M Radio A) : M Rig A := λ s,
  let '(r, ra) := m (mkRadio (rg_world s) None [] []) in
  (r, mkRig (ra_world ra) (rg_streams s) (rg_banners s) (rg_sent s) (rg_started s)).

(** What [recv_exec_output] says of output the target stopped reading. *)
Definition truncated_warning : string :=
  "the target stopped reading this command's output before end of file (usually a daemon it started still holds the pipes); the output above may be incomplete".
(** The terminal's two streams, and whether that was said. *)
Definition exec_on_terminal (dir : StateDir) (agent : string) (argv : list string) : M served (Z * bool * bytes * bytes) := λ s,
  match exec_terminal dir agent argv (s, (new_writer, new_writer)) with
  | (Ok (code, truncated), (s, (out, err))) => (Ok (code, truncated, w_out out, w_out err), s)
  | (Err e, (s, _)) => (Err e, s)
  end.

(** One line ending, LF or CRLF, at the end of the file is not part of the key;
    nor is a CR alone. *)
Definition psk_of (psk : bytes) : string :=
  let psk := default psk (strip_suffix LF psk) in
  of_bytes (default psk (strip_suffix CR psk)).

Definition ssh_config (a : SshArgs) : Recipe.Config :=
  mkSshConfig (sa_agent a) (sa_user a) (sa_authorized_keys a) (sa_host_key a) (sa_sshd_arg a) (sa_keygen_arg a)
    (sa_target_addr a) (sa_local_port a) (sa_ssh_argv a) (sa_key_options a) (sa_key_ttl_secs a).

Definition run_controller (env : Env) (dir : StateDir) (cmd : ControllerCmd) : M Rig outcome :=
  let printing (m : M Rig (list string)) : M Rig outcome := out ← m; mret (Finished out) in
  match cmd with
  | CmdInit => printing (l ← on_machine (init dir); mret [l])
  | CmdServe relay no_relay probe_interval probe_timeout restart_after bind =>
      x ← on_machine (serve_start (en_listen env) (en_ip_addrs env)
            (mkServeConfig dir (from_flags no_relay relay) probe_interval probe_timeout restart_after bind));
      let '(out, sys) := (x : list string * Sys) in mret (RunsServe out sys)
  | CmdPending json => printing (on_machine (pending_command dir json))
  | CmdApprove pubkey => printing (l ← on_machine (approve_command dir pubkey); mret [l])
  | CmdJoin (Some iface) _ =>
      r ← on_machine ((λ w, let '(start, rounds, leave) := en_join env in
                       let '(r, (_, w)) := Link.join dir iface start rounds leave ([], w) in (r, w)) : M World (option unit));
      mret (match r with Some _ => Finished [] | None => StillJoining end)
  | CmdJoin None json =>
      printing (key ← on_machine (load_key dir);
                text ← lift (show (sk_public key) (if json then ShowJson else ShowLines));
                mret [text])
  | CmdBle agent network psk_file adapter =>
      agent ← lift (context "agent node id" (parse_pubkey agent));
      psk ← with_context ("reading PSK from " +:+ show_path psk_file) (on_machine (fs_read_to_string psk_file));
      key ← on_machine (load_key dir);
      on_air (provision key agent network (psk_of psk) adapter (en_bus env) (en_air env));;
      mret (Finished [])
  | CmdStatus json =>
      x ← on_machine (status dir json);
      let '(code, out) := (x : Z * list string) in mret (ExitsWith out code)
  | CmdExec agent argv =>
      x ← command (exec_on_terminal dir agent argv);
      let '(code, truncated, out, err) := (x : Z * bool * bytes * bytes) in
      mret (ExitsWith ([of_bytes out; of_bytes err] ++ (if (truncated : bool) then [truncated_warning] else [])) code)
  | CmdPush agent local remote => printing (l ← command (push dir agent local remote); mret [l])
  | CmdPull agent remote local max_bytes => printing (l ← command (pull dir agent remote local max_bytes); mret [l])
  | CmdForward agent local_port remote =>
      printing (l ← forward dir agent remote local_port (en_accepts env); mret [l])
  | CmdSsh args =>
      code ← Recipe.run dir (ssh_config args);
      mret (ExitsWith [] code)
  end.

Definition state_dir_of (env : Env) (state_dir : option path) : StateDir :=
  mkStateDir (default (default_path (en_xdg_state_home env) (en_home env)) state_dir).
(** The first option given decides. *)
Definition show_of (json : bool) (hostapd : option string) (supplicant : bool) : Show :=
  match json, hostapd, supplicant with
  | _, Some iface, _ => ShowHostapd iface
  | _, None, true => ShowSupplicant
  | true, None, false => ShowJson
  | false, None, false => ShowLines
  end.

Definition main (env : Env) (role : Role) : M Rig outcome :=
  match role with
  | RoleAgent a =>
      controller ← lift (context "--controller" (parse_pubkey (aa_controller a)));
      let relay := from_flags (aa_no_relay a) (aa_relay a) in
      acts ← on_machine ((λ w,
        let '(acts, w) := Agent.run (mkAgentConfig controller (aa_key_file a) relay (aa_direct a))
                            (en_key_looks env) (en_dials env) w in
        (Ok acts, w)) : M World (list act));
      mret (RunsAgent acts)
  | RoleController state_dir cmd => run_controller env (state_dir_of env state_dir) cmd
  | RoleLink node_id json hostapd supplicant =>
      id ← lift (context "node id" (parse_pubkey node_id));
      text ← lift (show id (show_of json hostapd supplicant));
      mret (Finished [text])
  | RoleBle controller key_file output =>
      controller ← lift (context "--controller" (parse_pubkey controller));
      let '(advertise, serve_gatt, timers, evs, e) := en_gatt env in
      on_air (serve controller key_file output (en_bus env) advertise serve_gatt timers evs e);;
      mret (Finished [])
  end.
End dispatch.

(** ** What the command line adds *)

Section command_line.
Context `{IrohKeys} `{RelayUrls} `{Sha256Laws} `{BleCrypto} `{!StatvfsCall} `{!ControlSocket} `{!LocalPrograms} `{!JoinTools}
  `{!Processes} `{!TcpConnect}.
Context `{SerdeJson (list PendingAgent)} `{SerdeJson Status} `{SerdeJson Link}.
Context `{PostcardLaws Route} `{PostcardLaws RouteReply} `{PostcardLaws Request} `{PostcardLaws ExecFrame}
  `{PostcardLaws Ack} `{PostcardLaws PullStart} `{Postcard Admission} `{!EndpointBuild}.

(** What an editor or a shell leaves at the end of a file of one line. *)
Definition line_ending (t : bytes) : Prop := t ∈ [[]; [LF]; [CR]; [CR; LF]].
Definition unterminated (l : bytes) : Prop := ends_with LF l = false ∧ ends_with CR l = false.

Lemma strip_suffix_other c l : ends_with c l = false → strip_suffix c l = None.
Proof.
  intros Hl. destruct (strip_suffix c l) as [l'|] eqn:E; [|done].
  apply strip_suffix_Some in E as ->. apply bool_decide_eq_false in Hl. by rewrite last_snoc in Hl.
Qed.
Lemma psk_of_line psk t : unterminated psk → line_ending t → psk_of (psk ++ t) = of_bytes psk.
Proof.
  intros [Hlf Hcr]. unfold line_ending, psk_of. rewrite !elem_of_cons, elem_of_nil.
  assert (Hstop : strip_suffix LF (psk ++ [CR]) = None).
  { apply strip_suffix_other, bool_decide_false. by rewrite last_snoc. }
  intros [->|[->|[->|[->|[]]]]]; cbv zeta.
  - by rewrite app_nil_r, (strip_suffix_other LF), (strip_suffix_other CR).
  - rewrite strip_suffix_snoc. cbn [default from_option id]. by rewrite (strip_suffix_other CR).
  - rewrite Hstop. cbn [default from_option id]. by rewrite strip_suffix_snoc.
  - change [CR; LF] with ([CR] ++ [LF]). rewrite app_assoc, strip_suffix_snoc. cbn [default from_option id]. by rewrite strip_suffix_snoc.
Qed.

(** C32: [egdod controller ble --psk-file] reports success only if a device that
    proved to be the agent acknowledged the configuration for exactly this
    network and pass phrase: the one line of the key file, whatever is in it, but
    not its line ending (none, LF, CRLF or CR); and the configuration went out
    under the controller's own key. *)
Theorem ble_delivers_the_line_of_the_file env dir agent network psk_file name s out s' psk t mode :
  main env (RoleController (Some dir) (CmdBle agent network psk_file name)) s = (Ok out, s') →
  fs (rg_world s) !! psk_file = Some (NFile (mkFile (psk ++ t) mode)) → unterminated psk → line_ending t →
  b_power (en_bus env) = Ans tt →
  out = Finished [] ∧
  ∃ id key w1 w2 conf cd sent, parse_pubkey agent = Ok id ∧
    fs_read_to_string psk_file (rg_world s) = (Ok (psk ++ t), w1) ∧ load_key (mkStateDir dir) w1 = (Ok key, w2) ∧
    network_conf network (of_bytes psk) = Ok conf ∧ DeviceAdded cd ∈ (air_events (en_air env)).*2 ∧
    accepted_by key id (as_bytes conf) cd (rng w2) sent.
Proof.
  intros E Hf Hu Ht Hpow. unfold main, run_controller, state_dir_of in E. cbn [default] in E.
  apply bind_inv in E as [(? & _ & ?)|(id & s0 & [= Hid <-] & E)]; [done|].
  apply bind_inv in E as [(? & _ & ?)|(b & s1 & Er & E)]; [done|].
  apply bind_inv in E as [(? & _ & ?)|(key & s2 & Ek & E)]; [done|].
  apply bind_inv in E as [(? & _ & ?)|([] & s3 & Ep & [= <- <-])]; [done|]. split; [done|].
  apply with_context_ok in Er. unfold on_machine in Er, Ek.
  destruct (fs_read_to_string psk_file (rg_world s)) as [rr w1] eqn:Erd. injection Er as -> <-.
  assert (b = psk ++ t) as ->.
  { apply bind_inv in Erd as [(? & _ & ?)|(b' & w & Hr%fs_read_spec & Eb)]; [done|]. destruct Hr as (_ & _ & Hr & _).
    destruct (Hr b' eq_refl) as [m Hm]. rewrite Hf in Hm. destruct (utf8_valid b'); [injection Eb as <- _; congruence|done]. }
  cbn [rg_world] in Ek. change (mkStateDir _) with (mkStateDir dir) in Ek.
  destruct (load_key (mkStateDir dir) w1) as [rk w2] eqn:El. injection Ek as -> <-.
  rewrite (psk_of_line psk t) in Ep by done. unfold on_air in Ep. cbn [rg_world] in Ep.
  destruct (provision _ _ _ _ _ _ _ _) as [rp ra] eqn:Eprov. injection Ep as -> <-.
  destruct (provision_cases _ _ _ _ _ _ _ _ _ _ Eprov eq_refl eq_refl Hpow)
    as [[He _]|(conf & expected & wp & s4 & s5 & Hc & _ & Hw & _ & (_ & _ & new & _ & _ & Hok) & _)]; [done|].
  destruct (Hok eq_refl) as (cd & [a sent] & ? & ? & ? & _ & Hacc). rewrite Hw in Hacc.
  exists id, key, w1, w2, conf, cd, sent. split_and!; try done.
  by destruct (parse_pubkey agent); simplify_eq/=.
Qed.

(** C9: [egdod controller exec] is the command it runs.  The program starts on the
    one target the selector matches, the streams on the way lose nothing and the
    agent's writer gets rid of its frames in time; then in whatever order the
    agent's two pumps interleave and however the streams are cut, what the
    program writes to each of its two streams comes out in order on the same
    stream of the operator's terminal, and the process exits with the program's
    status (128 plus the number for a signal), as its parent sees it: the low
    byte.  The output is complete, unless the agent stopped reading before the
    end: then, and only then, the operator is warned, what came out is the
    beginning of each stream, and the status is the same. *)
Theorem exec_exits_as_the_program env dir agent program args child status sc s (r : reader) rest
    sessions paths open_bi conn agent_in received route_w req_w (ra : reader) wt x ra' wra wt' :
  frames_encode → spawn program args = Ok child → c_wait child = Ok status → is_i32 (exit_code status) →
  clean (c_stdout child) → clean (c_stderr child) →
  valid_schedule child sc → sc_joined sc = true →
  zlen (rd_bytes (c_stdout child)) + zlen (rd_bytes (c_stderr child)) ≤ u64_max →
  ctl_connect (sock_path (mkStateDir dir)) = Ok tt →
  write_msg (mkRoute agent) new_writer = (Ok tt, route_w) →
  write_msg (Exec (program :: args)) route_w = (Ok tt, req_w) →
  relayed sessions paths open_bi (w_out req_w) (w_out wra) conn agent_in received →
  clean ra → rd_bytes ra = agent_in → handle sc (ra, (new_writer, wt)) = (x, (ra', (wra, wt'))) →
  rg_streams s = (r, new_writer) :: rest → clean r → rd_bytes r = received →
  ∃ id o e s', pick sessions agent = Ok (id, conn) ∧
    let outcome := Ok (ExitsWith ([of_bytes o; of_bytes e] ++ (if sc_cut sc then [truncated_warning] else [])) (exit_code status)) in
    main env (RoleController (Some dir) (CmdExec agent (program :: args))) s = (outcome, s') ∧
    exit_status outcome = Some (exit_code status mod 256) ∧
    o `prefix_of` rd_bytes (c_stdout child) ∧ e `prefix_of` rd_bytes (c_stderr child) ∧
    (sc_cut sc = false → o = rd_bytes (c_stdout child) ∧ e = rd_bytes (c_stderr child)).
Proof.
  intros Henc Hsp Hwt Hi Hco Hce Hv Hj Hmax Hctl Hw Hreq Hrel Hca Hba Hh Hst Hc Hb.
  destruct (exec_through_serve (mkStateDir dir) agent program args child status sc u64_max r (rg_world s) new_writer new_writer
    sessions paths open_bi conn agent_in received route_w req_w ra wt x ra' wra wt')
    as (id & o & e & [r' [wr' w']] & Hpick & Hrun & Hpo & Hpe & Hall); try done.
  assert (Ht : exec_on_terminal (mkStateDir dir) agent (program :: args) (r, (new_writer, rg_world s)) =
    (Ok (exit_code status, sc_cut sc, o, e), (r', (wr', w')))).
  { exact (f_equal (λ q, match q with
      | (Ok (code, t), (s, (out, err))) => (Ok (code, t, w_out out, w_out err), s) | (Err e, (s, _)) => (Err e, s) end) Hrun). }
  exists id, o, e. eexists. cbv zeta. split_and!; [done| |done..].
  unfold main, run_controller, state_dir_of, command, next_stream, mbind, M_bind. rewrite Hst. cbv beta iota.
  change (mkStateDir (default _ (Some dir))) with (mkStateDir dir). rewrite Ht. reflexivity.
Qed.

(** C11: [egdod agent] works for nobody but its controller: however often it
    dials and whatever the transport does, it starts a handler only for a stream
    of a connection that it dialled itself, at the key given with [--controller]
    and under the agent protocol, from an endpoint that was bound with the key in
    its key file, publishes no address and looks addresses up only when none was
    given, and on which the controller's first word was that the agent is
    approved.  And it leaves none out: on such a connection, reached after
    sessions that ended, every stream the controller opens gets its handler. *)
Theorem agent_serves_exactly_its_controller env a s acts s' :
  is_Some (file_name (aa_key_file a)) → main env (RoleAgent a) s = (Ok (RunsAgent acts), s') →
  ∃ k, parse_pubkey (aa_controller a) = Ok k ∧
  let cfg := mkAgentConfig k (aa_key_file a) (from_flags (aa_no_relay a) (aa_relay a)) (aa_direct a) in
  (∀ b, serves acts b → ∃ secret net conn, holds_key (rg_world s') (aa_key_file a) secret ∧
     net ∈ en_dials env ∧ approved_conn secret cfg net conn ∧ b ∈ ac_bi conn) ∧
  (∀ secret pre net post conn b,
     (key_loop (en_key_looks env) (aa_key_file a) (rg_world s)).1.2 = Some secret →
     en_dials env = pre ++ net :: post → Forall (λ net, is_Some (Agent.session net secret cfg).2) pre →
     approved_conn secret cfg net conn → b ∈ ac_bi conn → serves acts b).
Proof.
  intros Hf E. unfold main in E. apply bind_ok in E as (k & s0 & [= Hk <-] & E).
  apply bind_ok in E as (acts0 & s1 & E1 & [= <- <-]). exists k. split; [by destruct (parse_pubkey _); simplify_eq/=|].
  unfold on_machine in E1. set (cfg := mkAgentConfig _ _ _ _) in *.
  pose proof (run_serves cfg (en_key_looks env) (en_dials env) (rg_world s)) as Hr.
  pose proof (run_serves_all cfg (en_key_looks env) (rg_world s)) as Hall.
  split.
  - intros b Hb. destruct (Hr b) as (secret & w0 & net & conn & Hl & Hn & Hc & Hin).
    { by destruct (Agent.run _ _ _ _); simplify_eq/=. }
    exists secret, net, conn. split_and!; [|done..]. apply load_or_create_key_holds in Hl; [|done].
    by destruct (Agent.run _ _ _ _); simplify_eq/=.
  - intros secret pre net post conn b Hs Hd Hpre Hc Hb. specialize (Hall secret pre net post conn b Hs Hpre Hc Hb).
    rewrite <- Hd in Hall. by destruct (Agent.run _ _ _ _); simplify_eq/=.
Qed.

(** C10: [egdod controller serve]: while another controller answers on the
    control socket of the state directory the command fails and changes no file
    in it, that socket included.  Otherwise, if it gets to serving at all, then
    under the key of that directory, which it prints and publishes, on an
    endpoint built for it; and in every state it can reach from there, under any
    interleaving of its tasks, its peers, faults and other processes, a session
    belongs to an agent whose key the approved list held when its connection was
    decided on, and who was told so. *)
Theorem serve_is_alone_and_admits_the_approved env dir relay no_relay probe_interval probe_timeout restart_after bind s r s' :
  let cfg := mkServeConfig (mkStateDir dir) (from_flags no_relay relay) probe_interval probe_timeout restart_after bind in
  main env (RoleController (Some dir) (CmdServe relay no_relay probe_interval probe_timeout restart_after bind)) s = (r, s') →
  (is_ok (ctl_connect (sock_path (mkStateDir dir))) = true →
     is_ok r = false ∧ ∀ x, fs (rg_world s') !! (dir ++ [x]) = fs (rg_world s) !! (dir ++ [x])) ∧
  (∀ o, r = Ok o → ∃ out sys, o = RunsServe out sys ∧
     started (en_ip_addrs env) cfg (rg_world s) (rg_world s') out sys ∧
     ∀ ts c p x, rtc (Controller.step (mkStateDir dir) restart_after) sys (ts, c) → (p, x) ∈ ctl_sessions c →
       remote_id (s_conn x) = p ∧ Told (s_conn x) Approved ∈ ctl_log c ∧
       ∃ w l, Decided (s_conn x) w ∈ ctl_log c ∧ (approved (mkStateDir dir) w).1 = Ok l ∧ p ∈ l).
Proof.
  intros cfg E. unfold main, run_controller, state_dir_of in E. cbn [default] in E.
  change (mkServeConfig _ _ _ _ _ _) with cfg in E. unfold mbind, M_bind, on_machine in E.
  destruct (serve_start (en_listen env) (en_ip_addrs env) cfg (rg_world s)) as [r1 w1] eqn:Es.
  apply serve_start_spec in Es as [Hbusy Hok].
  destruct r1 as [[out sys]|e]; injection E as <- <-; [|by split]. split; [by intros [? _]%Hbusy|].
  intros o [= <-]. destruct (Hok out sys eq_refl) as [Ha Hs]. exists out, sys. split_and!; [done|by split|].
  intros ts c p x Hr Hx. destruct Hs as (key & b & ep & st & _ & _ & _ & _ & -> & _).
  apply reachable_inv in Hr as [_ Hses _ _ _]. simpl in *.
  destruct (proj1 (Forall_forall _ _) Hses _ Hx) as (Hp & _ & (w0 & l & ? & ? & ?) & ?). simpl in *. subst p. by split_and!; eauto.
Qed.
End command_line.

(** ** Concrete runs *)

Section examples.
Import DemoSha DemoKeys DemoNet DemoJson DemoCodec DemoPostcard.
Existing Instances demo_space demo_ctl demo_no_tcp demo_processes DemoBle.demo_ble demo_programs demo_endpoint.

Instance demo_tools : JoinTools := { run_ip _ := Ok (true, ""); spawn_supplicant _ := Ok tt }.
Instance demo_link_json : SerdeJson Link := { to_vec_pretty _ := Ok []; from_slice _ := Err (anyhow "no such value") }.

(** The agent, on the air, ready to answer the controller's exchange. *)
Definition demo_ack : bytes :=
  let k := the_key demo_agent_key demo_controller_key (replicate 32 x02) (replicate 32 x03) in
  let t := the_transcript demo_agent_key demo_controller_key (replicate 32 x02) (replicate 32 x03) in
  match crypt k 1 t (as_bytes "ok") with Ok c => c | Err _ => [] end.
Definition demo_honest_service : RemoteService := mkRemoteService (Ans SERVICE_UUID)
  (Ans [mkRemoteCharacteristic (Ans CHARACTERISTIC_UUID)
    (Ans [RData (frame (the_hello demo_agent_key demo_controller_key (replicate 32 x02))); RData (frame demo_ack)])
    (Ans new_writer)]).
Definition demo_device : Candidate := mkCandidate 6 (Ans tt)
  (Ans match local_name (sk_public demo_agent_key) with Ok n => Some n | Err _ => None end)
  (Ans (Some [SERVICE_UUID])) (Ans false) 200 (Ans tt) 300 [(Ans [demo_honest_service], 400)] NoCut None.
Definition demo_env : Env :=
  mkEnv None None demo_bus (mkAir (Ans []) (Ans tt) 100 [(150, DeviceAdded demo_device)])
    (λ _, Ok tt, λ _, Ok tt, [], [], ByItself) (0, [], CtrlC (Ok tt)) []
    1 (demo_nets ++ [demo_agent_net]) (λ _, Ok tt) (λ _, [mkSocketAddr (V4 x0a x00 x00 x01) 7000]).
Definition demo_ble_world : World :=
  mkWorld (<[["psk"] := NFile (mkFile (as_bytes "correct horse" ++ [CR; LF]) 384)]>
          {[ ["state"; "controller.key"] := NFile (mkFile (key_bytes demo_controller_key) 384) ]}) [] [Ok (replicate 32 x03)] [] 7 18.
Definition demo_ble_rig : Rig := mkRig demo_ble_world [] [] [] [].
Definition demo_ble_role : Role :=
  RoleController (Some ["state"]) (CmdBle (pk_to_string (sk_public demo_agent_key)) "attic" ["psk"] None).
Definition demo_ble_run := main demo_env demo_ble_role demo_ble_rig.

Lemma ble_delivers_the_line_of_the_file_witness :
  Finished [] = Finished [] ∧
  ∃ id key w1 w2 conf cd sent, parse_pubkey (pk_to_string (sk_public demo_agent_key)) = Ok id ∧
    fs_read_to_string ["psk"] demo_ble_world = (Ok (as_bytes "correct horse" ++ [CR; LF]), w1) ∧
    load_key (mkStateDir ["state"]) w1 = (Ok key, w2) ∧
    network_conf "attic" (of_bytes (as_bytes "correct horse")) = Ok conf ∧
    DeviceAdded cd ∈ (air_events (en_air demo_env)).*2 ∧
    accepted_by key id (as_bytes conf) cd (rng w2) sent.
Proof.
  apply (ble_delivers_the_line_of_the_file demo_env ["state"] (pk_to_string (sk_public demo_agent_key)) "attic" ["psk"] None
    demo_ble_rig (Finished []) demo_ble_run.2 (as_bytes "correct horse") [CR; LF] 384).
  - vm_compute. reflexivity.
  - reflexivity.
  - done.
  - unfold line_ending. set_solver.
  - reflexivity.
Defined.

(** A command that prints to both streams and dies of a signal. *)
Definition demo_exec_received : bytes := demo_routed ++ w_out exec_handled.2.2.1.
Definition demo_exec_rig : Rig := mkRig demo_sender [([RData demo_exec_received], new_writer)] [] [] [].

Lemma exec_exits_as_the_program_witness :
  ∃ id o e s', pick demo_sessions "any" = Ok (id, demo_conn 7) ∧
    let outcome := Ok (ExitsWith ([of_bytes o; of_bytes e] ++ []) 137) in
    main demo_env (RoleController (Some ["/"; "state"]) (CmdExec "any" ["ls"])) demo_exec_rig = (outcome, s') ∧
    exit_status outcome = Some (137 mod 256) ∧
    o `prefix_of` as_bytes "hi!" ∧ e `prefix_of` as_bytes "e" ∧
    (false = false → o = as_bytes "hi!" ∧ e = as_bytes "e").
Proof.
  apply (exec_exits_as_the_program demo_env ["/"; "state"] "any" "ls" [] demo_child (Signaled 9) demo_schedule demo_exec_rig
    [RData demo_exec_received] [] demo_sessions demo_paths demo_open (demo_conn 7) exec_request demo_exec_received
    exec_route exec_sent [RData exec_request] (demo_receiver []) exec_handled.1 exec_handled.2.1 exec_handled.2.2.1
    exec_handled.2.2.2); try done; try (repeat constructor; done).
  - apply demo_frames_encode.
  - apply demo_schedule_valid.
  - change (w_out exec_sent) with (demo_route ++ exec_request). apply demo_relayed.
Defined.

(** An agent without a key file: it makes a key, fails twice, and is approved. *)
Definition demo_agent_args : AgentArgs :=
  mkAgentArgs (pk_to_string (sk_public demo_controller_key)) ["/"; "agent.key"] [] true [mkSocketAddr (V4 x0a x00 x00 x01) 7000].
Definition demo_agent_rig : Rig := mkRig demo_agent_world [] [] [] [].
Definition demo_agent_run := main demo_env (RoleAgent demo_agent_args) demo_agent_rig.
Definition demo_acts : list act := match demo_agent_run.1 with Ok (RunsAgent acts) => acts | _ => [] end.

Lemma agent_serves_exactly_its_controller_witness :
  serves demo_acts demo_stream ∧
  ∃ k secret net conn, parse_pubkey (pk_to_string (sk_public demo_controller_key)) = Ok k ∧
    holds_key (rg_world demo_agent_run.2) ["/"; "agent.key"] secret ∧ net ∈ demo_nets ++ [demo_agent_net] ∧
    approved_conn secret (mkAgentConfig k ["/"; "agent.key"] (from_flags true []) [mkSocketAddr (V4 x0a x00 x00 x01) 7000]) net conn ∧
    demo_stream ∈ ac_bi conn.
Proof.
  destruct (agent_serves_exactly_its_controller demo_env demo_agent_args demo_agent_rig demo_acts demo_agent_run.2)
    as (k & Hk & Hserves & _); [by eexists|vm_compute; reflexivity|].
  assert (Hs : serves demo_acts demo_stream) by (apply list_elem_of_lookup_2 with 12%nat; vm_compute; reflexivity).
  split; [exact Hs|]. destruct (Hserves demo_stream Hs) as (secret & net & conn & ? & ? & ? & ?).
  by exists k, secret, net, conn.
Defined.

(** Nobody answers on the control socket: the controller starts. *)
Instance demo_idle : ControlSocket := λ _, Err (io_error OtherKind "Connection refused (os error 111)").
Definition demo_serve_run := main demo_env (RoleController (Some ["state"]) serve_defaults) demo_ble_rig.

Lemma serve_is_alone_and_admits_the_approved_witness :
  ∃ out sys, demo_serve_run.1 = Ok (RunsServe out sys) ∧
    started (en_ip_addrs demo_env) (mkServeConfig (mkStateDir ["state"]) (from_flags false []) 60 20 2 None)
      demo_ble_world (rg_world demo_serve_run.2) out sys.
Proof.
  destruct (serve_is_alone_and_admits_the_approved demo_env ["state"] [] false 60 20 2 None demo_ble_rig
    demo_serve_run.1 demo_serve_run.2) as [_ Hok]; [exact (surjective_pairing demo_serve_run)|].
  assert (Hr : is_ok demo_serve_run.1 = true) by (vm_compute; reflexivity).
  destruct demo_serve_run.1 as [o|] eqn:E; [|done]. destruct (Hok o eq_refl) as (out & sys & -> & Hs & _). by exists out, sys.
Defined.
End examples.
