(* ===== verification/Tests.v ===== *)
(** * The repository's unit tests, on the model

    The [#[cfg(test)]] modules of src/src/*.rs, translated like the rest of the
    code and evaluated: every test passes here, as it does on the program.  A
    test is an operation on a machine with an empty temporary directory; a
    failed assertion and an [unwrap] of an error are its errors.  A duplex pipe
    of [n] bytes delivers what was written in pieces of at most [n].  SHA-256 is
    the real one (Hash.v).  A symbolic link is an entry that is neither file nor
    directory: the one test that makes one looks only at whether it is replaced. *)

From S2P Require Import Prelude Text Stream Fs Crypto Hash Proto Transfer Pipe Net State Demo Shared Controller Agent Commands Link Ble Ssh.

(** ** The test harness *)

Definition assert {S} (b : bool) : M S unit := if b then mret tt else fail (panic "assertion failed").
Definition assert_eq {S A} `{EqDecision A} (a b : A) : M S unit := assert (bool_decide (a = b)).
Definition assert_ne {S A} `{EqDecision A} (a b : A) : M S unit := assert (negb (bool_decide (a = b))).
Definition unwrap_err {S A} (m : M S A) : M S error :=
  r ← attempt m;
  match r with Err e => mret e | Ok _ => fail (panic "called unwrap_err() on an Ok value") end.
Fixpoint contains (sub b : bytes) : bool :=
  starts_with sub b || match b with [] => false | _ :: b => contains sub b end.
(** [err.to_string().contains(text)]: the outermost message. *)
Definition says (e : error) (text : string) : bool := contains (as_bytes text) (as_bytes (hd "" (e_chain e))).

(** An operation on a stream of its own, or on a stream and the machine. *)
Definition on_own {S A} (s : S) (m : M S A) : M World (A * S) := λ w,
  let '(r, s) := m s in (match r with Ok a => Ok (a, s) | Err e => Err e end, w).
Definition reading {A} (r : reader) (m : M (reader * World) A) : M World (result A * reader) := λ w,
  let '(x, (r, w)) := m (r, w) in (Ok (x, r), w).
(** [tokio::io::duplex(n)], with everything written. *)
Definition duplex (n : nat) (b : bytes) : reader := RData <$> chunks n (length b) b.

Definition tempdir : path := ["/"; "tmp"; "t"].
Definition tempdir_world : World :=
  mkWorld (<[["/"; "tmp"] := NDir 1023]> {[ tempdir := NDir o700 ]}) []
    ((λ n : nat, Ok (replicate 32 (byte_of_Z (Z.of_nat n)))) <$> seq 1 4) [1788264000] 42 18.
(** [read_dir(dir).collect()], as paths, at any depth. *)
Definition read_dir (dir : path) : M World (list path) :=
  gets (λ w, filter (λ p, dir `prefix_of` p ∧ p ≠ dir) (map_to_list (fs w)).*1).
Definition passes (t : M World unit) : bool := is_ok (t tempdir_world).1.

#[export] Instance Link_eq_dec : EqDecision Link.
Proof. solve_decision. Defined.
#[export] Instance RelayChoice_eq_dec : EqDecision RelayChoice.
Proof. solve_decision. Defined.

(** ** src/src/link.rs *)

Module LinkTests.
Section tests.
Context `{Sha256} `{IrohKeys}.

Definition VECTOR_ID : string := "ea4a6c63e29c520abef5507b132ec5f9954776aebebe7b92421eea691446d22c".
Definition id (b : byte) : PublicKey := sk_public (sk_from_bytes (replicate 32 b)).

Definition derivation_is_a_pure_function_of_the_node_id : M World unit :=
  assert_eq (derive (id x01)) (derive (id x01));;
  assert_ne (psk (derive (id x01))) (psk (derive (id x02)));;
  assert_ne (ssid (derive (id x01))) (ssid (derive (id x02))).

Definition known_vector : M World unit :=
  id ← lift (parse_pubkey VECTOR_ID);
  let l := derive id in
  assert_eq (zlen (as_bytes (ssid l))) (zlen (as_bytes "egdod-") + 8);;
  assert_eq (zlen (as_bytes (psk l))) 64;;
  let text := link_lines l in
  let expected :=
    "ssid=egdod-dd18e097" +:+ NL +:+
    "psk=1ecadfc44a85a62d00e8038907d4da4aece04de0d4577df6e468b0417bb94038" +:+ NL +:+
    "target=169.254.200.131" +:+ NL +:+
    "controller=169.254.200.129" +:+ NL +:+
    "prefix=16" +:+ NL +:+
    "port=58263" +:+ NL in
  assert_eq text expected.

Definition host_ok (a : byte * byte * byte * byte) : bool :=
  let '(a, b, c, d) := a in
  bool_decide ((byte_to_Z a, byte_to_Z b) = (169, 254)) && bool_decide (1 ≤ byte_to_Z c ≤ 254) && bool_decide (1 ≤ byte_to_Z d ≤ 254).
Definition addresses_are_link_local_distinct_and_never_reserved : M World unit :=
  assert (forallb (λ b, let l := derive (id (byte_of_Z b)) in
    negb (bool_decide (target l = link_controller l)) && host_ok (target l) && host_ok (link_controller l) &&
    bool_decide (49152 ≤ port l)) (seqZ 0 256)).

Definition confs_carry_the_raw_psk_not_a_passphrase : M World unit :=
  let l := derive (id x03) in
  let h := as_bytes (hostapd_conf l "wlan0") in
  assert (contains (as_bytes ("wpa_psk=" +:+ psk l +:+ NL)) h);;
  assert (negb (contains (as_bytes "wpa_passphrase") h));;
  assert (starts_with (as_bytes ("interface=wlan0" +:+ NL)) h);;
  let ssid_line := "ssid=" +:+ ssid l in
  assert (forallb (λ line, existsb (λ x, bool_decide (x = as_bytes line)) (lines h))
    ["driver=nl80211"; "wpa=2"; "wpa_key_mgmt=WPA-PSK"; "rsn_pairwise=CCMP"; ssid_line]);;
  assert (negb (contains (as_bytes "TKIP") h));;
  let s := as_bytes (supplicant_conf l) in
  assert (contains (as_bytes ("psk=" +:+ psk l +:+ NL)) s);;
  assert (contains (as_bytes ("ssid=" +:+ DQ +:+ ssid l +:+ DQ +:+ NL)) s);;
  assert (existsb (λ x, bool_decide (trim_bytes x = as_bytes "key_mgmt=WPA-PSK")) (lines s)).

Definition all : list (M World unit) :=
  [derivation_is_a_pure_function_of_the_node_id; known_vector;
   addresses_are_link_local_distinct_and_never_reserved; confs_carry_the_raw_psk_not_a_passphrase].
End tests.
End LinkTests.

(** ** src/src/ssh.rs *)

Module SshTests.
(** Double quotes, as raw strings have them. *)
Definition PK : bytes := as_bytes "ssh-ed25519 AAAAC3NzaC1lZDI1NTE5AAAAIGxx egdod-controller".
Definition quoted (s : string) : bytes := [QUOTE] ++ as_bytes s ++ [QUOTE].

Definition line_carries_options_and_utc_expiry : M World unit :=
  let t := 1788264600 in
  let from := as_bytes "from=" ++ quoted "127.0.0.1,::1" in
  assert_eq (authorized_line from t PK) (from ++ as_bytes ",expiry-time=" ++ quoted "202609011210Z" ++ [SP] ++ PK).

Definition civil_dates_match_the_calendar : M World unit :=
  assert_eq (civil_from_days 0) (1970, 1, 1);;
  assert_eq (civil_from_days 11016) (2000, 2, 29);;
  assert_eq (civil_from_days 20089) (2025, 1, 1);;
  let last_minute := 951782400 + 86399 in
  assert_eq (utc_yyyymmddhhmm last_minute) (as_bytes "200002292359Z").

(** The output is a [Vec], which takes everything. *)
Definition merged (existing : option bytes) (blob line : bytes) : M World bytes :=
  x ← on_own [] (merge_authorized_keys (λ b out, (Ok tt, out ++ b)) (mret tt)
        ((λ b, [RData b]) <$> existing) blob line);
  assert (utf8_valid x.2);;
  mret x.2.

Definition rerun_replaces_by_blob_and_keeps_strangers : M World unit :=
  blob ← lift (match key_blob PK with Some b => Ok b | None => Err (panic "unwrap on None") end);
  let stale := as_bytes "expiry-time=" ++ quoted "202601010000Z" ++ [SP] ++ PK in
  let other := as_bytes "ssh-rsa AAAAB3other someone-else" in
  let fresh := as_bytes "expiry-time=" ++ quoted "202701010000Z" ++ [SP] ++ PK in
  once ← merged (Some (other ++ [LF] ++ stale)) blob fresh;
  assert_eq once (other ++ [LF] ++ fresh ++ [LF]);;
  again ← merged (Some once) blob fresh;
  assert_eq again once;;
  empty ← merged (Some []) blob fresh;
  assert_eq empty (fresh ++ [LF]);;
  none ← merged None blob fresh;
  assert_eq none (fresh ++ [LF]);;
  open ← merged (Some other) blob fresh;
  assert_eq open (other ++ [LF] ++ fresh ++ [LF]).

Definition all : list (M World unit) :=
  [line_carries_options_and_utc_expiry; civil_dates_match_the_calendar; rerun_replaces_by_blob_and_keeps_strangers].
End SshTests.

(** ** src/src/state.rs *)

Module StateTests.
Section tests.
Context `{IrohKeys} `{SerdeJson (list PendingAgent)}.

Definition key (n : byte) : PublicKey := sk_public (sk_from_bytes (replicate 32 n)).

Definition approval_is_by_pubkey_and_survives_restart : M World unit :=
  let state := mkStateDir (Fs.join tempdir "egdod") in
  let a := key x01 in
  let b := key x02 in
  record_pending state a;;
  record_pending state a;;
  record_pending state b;;
  l ← pending state;
  assert_eq (length l) 2%nat;;
  assert_eq (attempts <$> l !! 0%nat) (Some 2);;
  none ← approved state;
  assert_eq none [];;
  first ← approve state a;
  assert first;;
  second ← approve state a;
  assert (negb second);;
  let reopened := mkStateDir (Fs.join tempdir "egdod") in
  now ← approved reopened;
  assert (bool_decide (a ∈ now));;
  assert (negb (bool_decide (b ∈ now)));;
  l ← pending reopened;
  assert_eq (length l) 1%nat;;
  assert_eq (pubkey <$> l !! 0%nat) (Some (pk_to_string b)).

Definition approved_list_tolerates_comments_and_junk : M World unit :=
  let state := mkStateDir tempdir in
  ensure_dir state;;
  fs_write (approved_path state)
    (as_bytes "# a comment" ++ [LF; LF] ++ as_bytes (pk_to_string (key x03)) ++ as_bytes "  the lab machine" ++ [LF]
       ++ as_bytes "not-a-key" ++ [LF]);;
  now ← approved state;
  assert_eq (length now) 1%nat;;
  assert (bool_decide (key x03 ∈ now)).

Definition key_is_stable_and_private : M World unit :=
  let state := mkStateDir (Fs.join tempdir "s") in
  first ← init_key state;
  second ← init_key state;
  assert_eq (sk_public first) (sk_public second);;
  meta ← fs_metadata (key_path state);
  assert (match meta with NFile f => bool_decide (Z.land (f_mode f) 63 = 0) | _ => false end).

(** src/src/agent.rs has one more test of keys. *)
Definition agent_key_is_stable_across_runs : M World unit :=
  let path := Fs.join tempdir "nested/agent.key" in
  a ← load_or_create_key path Replace;
  b ← load_or_create_key path Replace;
  assert_eq (sk_public a) (sk_public b).

Definition all : list (M World unit) :=
  [approval_is_by_pubkey_and_survives_restart; approved_list_tolerates_comments_and_junk; key_is_stable_and_private;
   agent_key_is_stable_across_runs].
End tests.
End StateTests.

(** ** src/src/net.rs and src/src/pipe.rs *)

Module NetTests.
Section tests.
Context `{IrohKeys} `{RelayUrls} `{EndpointBuild}.

Definition v6 (head : bytes) : IpAddr := V6 (head ++ replicate (15 - length head) x00 ++ [x01]).
Definition path_classification : M World unit :=
  assert_eq (classify_ip (V4 x7f x00 x00 x01)) DirectLocal;;
  assert_eq (classify_ip (v6 [])) DirectLocal;;
  assert_eq (classify_ip (V4 xc0 xa8 x01 x07)) DirectLan;;
  assert_eq (classify_ip (V4 x0a x00 x02 x0f)) DirectLan;;
  assert_eq (classify_ip (v6 [xfe; x80])) DirectLan;;
  assert_eq (classify_ip (v6 [xfd; x00])) DirectLan;;
  assert_eq (classify_ip (V4 x5d xb8 xd8 x22)) DirectWan.

Definition relay_addr_is_never_reported_as_direct : M World unit :=
  url ← lift (url_parse "https://relay.example.invalid./");
  assert_eq (classify (Net.Relay url)) Relayed;;
  assert_eq (classify (Net.Ip (mkSocketAddr (V4 x7f x00 x00 x01) 9))) DirectLocal.

Definition relay_choice_flags : M World unit :=
  assert_eq (from_flags true []) Disabled;;
  assert_eq (from_flags false []) N0;;
  assert_eq (from_flags false ["https://1.2.3.4/"]) (Urls ["https://1.2.3.4/"]);;
  assert (is_ok (mode (Urls ["https://1.2.3.4/"]))).

(** Nobody answers at the address. *)
Definition nobody : ProbeNet :=
  mkProbeNet (λ _ _, Err (anyhow "connection refused")) (Ok tt) (λ _, Ok tt) (Ok tt) (λ _, Ok []) false.
Definition probe_of_a_nonexistent_endpoint_fails : M World unit :=
  let nowhere := sk_public (sk_from_bytes (replicate 32 x09)) in
  unwrap_err (lift (probe (λ _, nobody) nowhere Direct [mkSocketAddr (V4 x7f x00 x00 x01) 1] Disabled "3s"));;
  mret tt.
End tests.

Definition splices_both_directions_and_propagates_eof : M World unit :=
  let '((_, aw), (_, bw)) := splice (duplex 64 (as_bytes "ping")) new_writer (duplex 64 (as_bytes "pong")) new_writer in
  assert_eq (w_out bw) (as_bytes "ping");;
  assert (w_fin bw);;
  assert_eq (w_out aw) (as_bytes "pong");;
  assert (w_fin aw).
End NetTests.

(** ** src/src/proto.rs *)

Module ProtoTests.
Section tests.
Context `{Sha256} `{StatvfsCall}.
Context `{Postcard Request} `{Postcard Ack} `{Postcard PullStart} `{Postcard ExecFrame}.

Definition msg_roundtrip_and_framing : M World unit :=
  let req := Exec ["/bin/true"; "arg"] in
  w ← on_own new_writer (write_msg req;; write_msg (AckErr "nope");; finish);
  let b := duplex 64 (w_out w.2) in
  got ← on_own b read_msg;
  assert_eq got.1 req;;
  ack ← on_own got.2 read_msg;
  assert_eq ack.1 (AckErr "nope");;
  eof ← on_own ack.2 read_msg_opt;
  assert_eq eof.1 (None : option Ack).

(** The bytes [i % 251] for [i] in [0..200_000]: 797 times 0 to 250, cut. *)
Definition copy_verifies_digest_and_preserves_mode : M World unit :=
  let src := Fs.join tempdir "src.bin" in
  let body := take (Z.to_nat 200000) (mjoin (replicate 797 (byte_of_Z <$> seqZ 0 251))) in
  fs_write src body;;
  set_mode src 488;;
  st ← stat_and_hash src;
  let '(mode, len, sha) := st in
  assert_eq mode 488;;
  assert_eq len (zlen body);;
  sent ← (λ w, let '(r, (out, w)) := (send_file_body src;; on_fst finish) (new_writer, w) in
                (match r with Ok _ => Ok (w_out out) | Err e => Err e end, w));
  let dest := Fs.join tempdir "nested/dest.bin" in
  x ← reading (duplex 4096 sent) (recv_file_body dest len sha mode len);
  lift x.1;;
  there ← fs_read dest;
  assert_eq there body;;
  st ← stat_and_hash dest;
  assert_eq st (mode, len, sha).

Definition corrupt_transfer_leaves_no_destination : M World unit :=
  let dest := Fs.join tempdir "dest.bin" in
  x ← reading (duplex 4096 (as_bytes "tampered")) (recv_file_body dest 8 (replicate 32 x00) 420 u64_max);
  err ← unwrap_err (lift x.1);
  assert (says err "sha256 mismatch");;
  there ← fs_exists dest;
  assert (negb there);;
  leftovers ← read_dir tempdir;
  assert_eq leftovers [].

Definition missing_and_unreadable_are_distinct_replies : M World unit :=
  missing ← lift (to_allocvec PullMissing);
  err ← lift (to_allocvec (PullErr "permission denied"));
  assert_ne missing err;;
  back ← lift (from_bytes missing);
  assert_eq back PullMissing.

(** The sender is blocked once the pipe is full: it has got rid of what was
    read from the pipe and of what the pipe still holds. *)
Definition lying_stream_is_cut_at_the_announced_length : M World unit :=
  let dest := Fs.join tempdir "dest.bin" in
  let offered := replicate (2 ^ 20) x00 in
  x ← reading (duplex 4096 offered) (recv_file_body dest 4 (replicate 32 x00) 420 u64_max);
  err ← unwrap_err (lift x.1);
  assert (says err "more than the announced");;
  let accepted := zlen offered - zlen (rd_bytes x.2) + 4096 in
  assert (bool_decide (accepted ≤ 4 * 4096));;
  there ← fs_exists dest;
  assert (negb there);;
  leftovers ← read_dir tempdir;
  assert_eq leftovers [].

Definition declared_over_the_ceiling_is_refused_unwritten : M World unit :=
  let dest := Fs.join tempdir "nested/dest.bin" in
  let body := as_bytes "12345" in
  let sha := sha256_of body in
  x ← reading (duplex 4096 body) (recv_file_body dest 5 sha 420 4);
  err ← unwrap_err (lift x.1);
  assert (says err "ceiling");;
  leftovers ← read_dir tempdir;
  assert_eq leftovers [];;
  assert_eq (rd_bytes x.2) body.

Definition free_space_is_checked_before_anything_is_created : M World unit :=
  let dest := Fs.join tempdir "dest.bin" in
  set_mode tempdir 320;;
  x ← reading (duplex 4096 (as_bytes "x")) (recv_file_body dest (Z.shiftl 1 60) (replicate 32 x00) 420 u64_max);
  set_mode tempdir 448;;
  err ← unwrap_err (lift x.1);
  assert (says err "free");;
  leftovers ← read_dir tempdir;
  assert_eq leftovers [];;
  assert_eq (rd_bytes x.2) (as_bytes "x").

Definition truncated_transfer_is_rejected : M World unit :=
  let dest := Fs.join tempdir "dest.bin" in
  let sha := sha_finalize (sha_update sha_new (as_bytes "abcdef")) in
  x ← reading (duplex 4096 (as_bytes "abc")) (recv_file_body dest 6 sha 420 u64_max);
  err ← unwrap_err (lift x.1);
  assert (says err "expected 6 bytes");;
  there ← fs_exists dest;
  assert (negb there).

(** The first 96 frames; the sender writes them as long as it can, so the ones
    it got rid of are those that were read and those the pipe holds. *)
Definition exec_output_past_the_ceiling_is_cut_and_reported : M World unit :=
  let frame_no (n : nat) := if Nat.even n then Stdout (replicate 1024 x6f) else Stderr (replicate 1024 x65) in
  w ← on_own new_writer (foldr (λ n m, write_msg (frame_no n);; m) (mret tt) (seq 0 96));
  let pipe := duplex 4096 (w_out w.2) in
  let '(r, (rest, (out, err))) := recv_exec_output 4096 (pipe, (new_writer, new_writer)) in
  e ← unwrap_err (lift r);
  assert (says e "ceiling");;
  assert (bool_decide (zlen (w_out out) + zlen (w_out err) ≤ 4096));;
  let taken := zlen (w_out w.2) - zlen (rd_bytes rest) + 4096 in
  assert (bool_decide (taken < 64 * 1024)).

Definition exec_output_under_the_ceiling_arrives_whole_with_its_status : M World unit :=
  let text s := as_bytes s ++ [LF] in
  w ← on_own new_writer (
    write_msg (Stdout (text "to-stdout"));;
    write_msg (Stderr (text "to-stderr"));;
    write_msg (Stdout (text "more"));;
    write_msg (Exit 3);;
    finish);
  x ← on_own (duplex 64 (w_out w.2), (new_writer, new_writer)) (recv_exec_output 25);
  let '((code, _), (_, (out, err))) := x in
  assert_eq code 3;;
  assert_eq (w_out out) (text "to-stdout" ++ text "more");;
  assert_eq (w_out err) (text "to-stderr").
End tests.
End ProtoTests.

(** ** src/src/ble.rs *)

Module BleTests.
Section tests.
Context `{IrohKeys} `{Sha256} `{BleCrypto}.

(** [b[offset] ^= 1] *)
Definition flip (offset : nat) (b : bytes) : bytes := alter (λ x, byte_of_Z (Z.lxor (byte_to_Z x) 1)) offset b.

Definition identity_proofs_bind_both_nodes_and_ephemeral_keys : M World unit :=
  let controller := sk_from_bytes (replicate 32 x01) in
  let agent := sk_from_bytes (replicate 32 x02) in
  let server_key := replicate 32 x03 in
  let client_key := replicate 32 x04 in
  let message := identity_message CLIENT_LABEL (sk_public controller) (sk_public agent) [server_key; client_key] in
  let signature := sk_sign controller message in
  lift (pk_verify (sk_public controller) message signature);;
  let n := length CLIENT_LABEL in
  assert_eq (length message) (n + 128)%nat;;
  assert_eq (take n message) CLIENT_LABEL;;
  assert_eq (slice n (n + 32) message) (pk_as_bytes (sk_public controller));;
  assert_eq (slice (n + 32) (n + 64) message) (pk_as_bytes (sk_public agent));;
  assert_eq (slice (n + 64) (n + 96) message) server_key;;
  assert_eq (drop (n + 96) message) client_key;;
  assert (forallb (λ offset, is_err (pk_verify (sk_public controller) (flip offset message) signature))
    [0; n; n + 32; n + 64; n + 96]%nat).

Definition verification_rejects_wrong_identity_proofs : M World unit :=
  let controller := sk_from_bytes (replicate 32 x01) in
  let agent := sk_from_bytes (replicate 32 x02) in
  let stranger := sk_from_bytes (replicate 32 x03) in
  let server_ephemeral := replicate 32 x04 in
  let good_server := server_hello agent (sk_public controller) server_ephemeral in
  lift (verify_server_hello good_server (sk_public controller) (sk_public agent));;
  let bad_signature := flip 64 good_server in
  assert (is_err (verify_server_hello bad_signature (sk_public controller) (sk_public agent)));;
  let bad_server := server_hello stranger (sk_public controller) server_ephemeral in
  assert (is_err (verify_server_hello bad_server (sk_public controller) (sk_public agent)));;
  let client_ephemeral := replicate 32 x05 in
  let message :=
    identity_message CLIENT_LABEL (sk_public controller) (sk_public agent) [server_ephemeral; client_ephemeral] in
  let request :=
    pk_as_bytes (sk_public controller) ++ client_ephemeral ++ sk_sign controller message ++ replicate 16 x00 in
  got ← lift (verify_client_hello request (sk_public controller) (sk_public agent) server_ephemeral);
  assert_eq got client_ephemeral;;
  let request := take 64 request ++ sk_sign stranger message ++ drop 128 request in
  assert (is_err (verify_client_hello request (sk_public controller) (sk_public agent) server_ephemeral)).

Definition key_and_frame_boundaries_are_domain_separated : M World unit :=
  let seven := replicate 32 x07 in
  let transcript := as_bytes "transcript" in
  let expected := sha_finalize (sha_update (sha_update (sha_update sha_new KEY_LABEL) seven) transcript) in
  assert_eq (session_key seven transcript) expected;;
  assert_ne (session_key seven (as_bytes "a")) (session_key seven (as_bytes "b"));;
  assert_ne (session_key seven (as_bytes "a")) (session_key (replicate 32 x08) (as_bytes "a"));;
  assert_ne (nonce 0) (nonce 1);;
  assert_eq MAX_FRAME (64 * 1024);;
  size ← lift (frame_size MAX_FRAME);
  assert_eq size MAX_FRAME;;
  assert (is_err (frame_size (MAX_FRAME + 1))).

Definition hello_has_one_exact_encoding : M World unit :=
  let controller := sk_from_bytes (replicate 32 x01) in
  let agent := sk_from_bytes (replicate 32 x02) in
  let hello := server_hello agent (sk_public controller) (replicate 32 x03) in
  assert (is_err (parse_server_hello (take 127 hello)));;
  assert (is_ok (parse_server_hello hello));;
  assert (is_err (parse_server_hello (hello ++ [x00]))).

(** A text with a control character or a quote in it. *)
Definition with_byte (a : string) (x : byte) (b : string) : string := of_bytes (as_bytes a ++ [x] ++ as_bytes b).
Definition repeat_text (n : nat) (s : string) : string := of_bytes (mjoin (replicate n (as_bytes s))).
Definition conf_has (r : result string) (text : string) : M World unit :=
  c ← lift r; assert (contains (as_bytes text) (as_bytes c)).
Definition credentials_are_authenticated_and_confined_to_network_syntax : M World unit :=
  let transcript := as_bytes "transcript" in
  let key := session_key (replicate 32 x07) transcript in
  clear ← lift (network_conf "lab" "correct horse");
  cipher ← lift (crypt key 0 transcript (as_bytes clear));
  back ← lift (decrypt key 0 transcript cipher);
  assert_eq (of_bytes back)
    ("network={" +:+ NL +:+ TAB +:+ "ssid=6c6162" +:+ NL +:+ TAB +:+ "psk=" +:+ DQ +:+ "correct horse" +:+ DQ +:+ NL
       +:+ TAB +:+ "key_mgmt=WPA-PSK" +:+ NL +:+ "}" +:+ NL);;
  assert (is_err (decrypt key 0 (as_bytes "other transcript") cipher));;
  assert (is_err (decrypt key 0 transcript (flip 0 cipher)));;
  assert (is_err (network_conf (with_byte "x" LF "network={") "12345678"));;
  assert (is_err (network_conf "" "12345678"));;
  assert (is_err (network_conf (repeat_text 33 "x") "12345678"));;
  assert (is_ok (network_conf (repeat_text 32 "x") "12345678"));;
  assert (is_err (network_conf (with_byte "lab" CR "") "12345678"));;
  assert (is_err (network_conf (with_byte "lab" x00 "") "12345678"));;
  assert (is_err (network_conf (with_byte "lab" QUOTE "") "12345678"));;
  assert (is_err (network_conf (with_byte "lab" BACKSLASH "") "12345678"));;
  assert (is_err (network_conf "lab" (with_byte "1234567" LF "")));;
  assert (is_err (network_conf "lab" (with_byte "1234567" CR "")));;
  assert (is_err (network_conf "lab" "1234567"));;
  assert (is_ok (network_conf "lab" "12345678"));;
  assert (is_err (network_conf "lab" (with_byte "1234567" x00 "")));;
  assert (is_err (network_conf "lab" (repeat_text 64 "g")));;
  conf_has (network_conf "lab" (repeat_text 63 "a")) ("psk=" +:+ DQ);;
  conf_has (network_conf "lab" (repeat_text 32 "ab")) "psk=abab";;
  assert (is_err (network_conf (with_byte "lab" BACKSLASH DQ) (with_byte "tab" x09 "pass")));;
  assert (is_err (network_conf "lab" (with_byte "quote" QUOTE "pass")));;
  assert (is_err (network_conf "lab" (with_byte "slash" BACKSLASH "pass")));;
  conf_has (network_conf (with_byte "a" x09 "b") "12345678") ("ssid=610962" +:+ NL).

Definition install_is_private_and_atomic : M World unit :=
  let output := show_path (Fs.join tempdir "network.conf") in
  install output (as_bytes "new");;
  got ← fs_read (parse_path output);
  assert_eq got (as_bytes "new");;
  meta ← fs_metadata (parse_path output);
  assert (match meta with NFile f => bool_decide (Z.land (f_mode f) 511 = 384) | _ => false end).

(** [symlink(target, link)] of a free name; nothing here looks through it. *)
Definition symlink (link : path) : M World unit := syscall (λ w,
  if bool_decide (is_Some (fs w !! link)) then (Err eexist, w)
  else (Ok tt, set_fs <[link := NOther]> w)).
Definition install_replaces_a_link : M World unit :=
  let output := show_path (Fs.join tempdir "network.conf") in
  install output (as_bytes "new");;
  let target := Fs.join tempdir "target" in
  fs_write target (as_bytes "unchanged");;
  fs_remove_file (parse_path output);;
  symlink (parse_path output);;
  install output (as_bytes "replacement");;
  got ← fs_read target;
  assert_eq got (as_bytes "unchanged");;
  got ← fs_read (parse_path output);
  assert_eq got (as_bytes "replacement");;
  meta ← fs_metadata (parse_path output);
  assert (match meta with NOther => false | _ => true end).

Definition install_cleans_up_failures : M World unit :=
  let blocked := show_path (Fs.join tempdir "blocked") in
  fs_create_dir_all (parse_path blocked);;
  unwrap_err (install blocked (as_bytes "no"));;
  me ← gets pid;
  let staging := parse_path (blocked +:+ (".ble.tmp." +:+ pretty me)) in
  there ← fs_exists staging;
  assert (negb there);;
  fs_write staging (as_bytes "sentinel");;
  unwrap_err (install blocked (as_bytes "no"));;
  got ← fs_read staging;
  assert_eq got (as_bytes "sentinel").

Definition advertisement_name_is_derived_from_the_agent_node_id : M World unit :=
  let id := sk_public (sk_from_bytes (replicate 32 x09)) in
  adv ← lift (advertisement id);
  assert_eq (adv_local_name adv) (Some ("egdod-" +:+ of_bytes (take 8 (as_bytes (pk_to_string id)))));;
  assert (bool_decide (SERVICE_UUID ∈ adv_service_uuids adv));;
  assert_eq (adv_discoverable adv) (Some true).

Definition all : list (M World unit) :=
  [identity_proofs_bind_both_nodes_and_ephemeral_keys; verification_rejects_wrong_identity_proofs;
   key_and_frame_boundaries_are_domain_separated; hello_has_one_exact_encoding;
   credentials_are_authenticated_and_confined_to_network_syntax; install_is_private_and_atomic; install_replaces_a_link;
   install_cleans_up_failures;
   advertisement_name_is_derived_from_the_agent_node_id].
End tests.
End BleTests.

(** ** The runs *)

(** Keys whose signatures depend on every byte of the message. *)
Module DigestKeys.
Import DemoKeys.
Definition digest_sign (k : demo_key) (m : bytes) : bytes := key_bytes k ++ sha256_digest (key_bytes k ++ m).
#[export] Instance digest_keys : IrohKeys := {
  PublicKey := demo_key; SecretKey := demo_key;
  sk_from_bytes := mk_key; sk_public := id;
  pk_to_string := pk_to_string; pk_parse := pk_parse; pk_as_bytes := pk_as_bytes; pk_from_bytes := pk_from_bytes;
  sk_sign := digest_sign;
  pk_verify k m s := if bool_decide (s = digest_sign k m) then Ok tt else Err (anyhow "invalid signature")
}.
End DigestKeys.

Section run.
Import DemoKeys Framed DemoNet DemoPostcard DemoCodec.
Instance test_build : EndpointBuild := {
  Endpoint := EndpointConfig; builder_bind_addr _ := Ok tt; builder_bind c := Ok c
}.
Instance test_disk : StatvfsCall := λ _, Ok (mkStatvfs 1000000 500000 4096).

Example state_tests_pass : passes <$> StateTests.all = replicate 4 true.
Proof. vm_compute. reflexivity. Qed.
Example net_tests_pass :
  passes <$> [NetTests.path_classification; NetTests.relay_addr_is_never_reported_as_direct; NetTests.relay_choice_flags;
    NetTests.probe_of_a_nonexistent_endpoint_fails; NetTests.splices_both_directions_and_propagates_eof] = replicate 5 true.
Proof. vm_compute. reflexivity. Qed.
Example proto_tests_pass :
  passes <$> [ProtoTests.msg_roundtrip_and_framing; ProtoTests.corrupt_transfer_leaves_no_destination;
    ProtoTests.missing_and_unreadable_are_distinct_replies; ProtoTests.lying_stream_is_cut_at_the_announced_length;
    ProtoTests.declared_over_the_ceiling_is_refused_unwritten; ProtoTests.free_space_is_checked_before_anything_is_created;
    ProtoTests.truncated_transfer_is_rejected; ProtoTests.exec_output_past_the_ceiling_is_cut_and_reported;
    ProtoTests.exec_output_under_the_ceiling_arrives_whole_with_its_status] = replicate 9 true.
Proof. vm_compute. reflexivity. Qed.
(** With the cheap digest of Crypto.v, for the size of the file. *)
Example copy_test_passes :
  passes (ProtoTests.copy_verifies_digest_and_preserves_mode (H := DemoSha.demo_sha)) = true.
Proof. vm_compute. reflexivity. Qed.
Example link_tests_pass : passes <$> LinkTests.all = replicate 4 true.
Proof. vm_compute. reflexivity. Qed.
Example ssh_tests_pass : passes <$> SshTests.all = replicate 3 true.
Proof. vm_compute. reflexivity. Qed.
End run.

Section run_ble.
Import DigestKeys DemoBle.
Example ble_tests_pass : passes <$> BleTests.all = replicate 9 true.
Proof. vm_compute. reflexivity. Qed.
End run_ble.
